(* ===== verification/_CoqProject ===== *)
-Q . S2P
Prelude.v
StdString.v
StringUtils.v
Double.v
RTSPRequest.v
RTSPResponse.v
Logger.v
SDPBuilder.v
SdpReader.v
RTPPacket.v
H264Packetizer.v
AnnexBParser.v
UniqueFd.v
Queues.v
CondQueue.v
ThreadPool.v
RTPSender.v
IRTPSender.v
IMediaSource.v
MediaSource.v
SourceParts.v
MediaSourceSpec.v
ExtradataSpec.v
FFmpegHandle.v
Egress.v
OutboxProtocol.v
Ingress.v
Path.v
Session.v
SessionSpec.v
Pacer.v
PacerSpec.v
Playback.v
LoopingSource.v
Exchange.v
Client.v
Numbering.v
FrameRate.v
SessionInv.v
Reactor.v
ReactorInv.v
ReactorSpec.v
Startup.v
UnitTests.v
