(* ===== verification/Prelude.v ===== *)
(** * A verified model of the RTSP server

    The program is an RTSP server for H.264 files with AAC audio: clients connect over TCP, ask
    for a description of a file, set up its tracks over UDP or interleaved on the connection,
    play, pause and seek; the server packetizes the file in real time.  This library models its
    C++ code under src/src and src/include/rtspserver and proves the properties that make it
    correct.  Definitions keep the names of the code and are executable; what the code asks of
    the operating system, of the file system and of FFmpeg is an argument.

    ** The program and how its parts interact

    - The *Dispatcher* thread ([Reactor::dispatcherLoop]) waits on epoll.  It accepts clients,
      calls [onReadable] of a session, which cuts the received octets into requests, queues the
      requests with the descriptor they came from, and calls [onWritable], which writes the
      outbox of the session.
    - The *Logic* thread ([logicLoop]) moves each queued request to the session that has its
      descriptor and wakes the Pacer.
    - The *Pacer* thread ([pacerLoop]) wakes on the 30 ms timer or on the eventfd, and
      for every session that is not claimed submits a tick to the *worker* pool.
    - A tick ([pacerTick]) handles the queued requests of its session and then sends the media
      that is due: packets go out over UDP, or as interleaved frames through the outbox.
    - The thread that called [run] joins them all at the end.

    ** Files

    Foundations
    - [Prelude]: text, machine integers with their wrap-around, exceptions as [result] and the
      state and exception monad [SE], functional record update, tactics and hints.
    - [StdString]: the operations of [std::string] the code uses.
    - [StringUtils] (utils/StringUtils.cpp), [Double] (binary64 with [stod] and printing),
      [Path] ([std::filesystem::path], the lexical part).
    - [Logger] (utils/Logger.hpp, utils/SocketUtil.hpp), [UniqueFd] (utils/UniqueFd.hpp).

    Formats
    - [RTSPRequest], [RTSPResponse] (src/rtsp), [SDPBuilder] (src/sdp), [RTPPacket] and
      [H264Packetizer] (src/rtp), [AnnexBParser] (media/AnnexBParser.hpp).
    - [SdpReader]: a client's reader of session descriptions, and what it reads.

    Concurrency components
    - [Queues] (utils/NonBlockingQueue.hpp, utils/BlockingQueue.hpp): a call is one step;
      [CondQueue]: [BlockingQueue] again with its mutex and condition variables, which refines
      it.  [ThreadPool] (utils/ThreadPool.hpp) is built on [Queues].

    Media
    - [IMediaSource] (media/IMediaSource.hpp): the type class between the session and a source,
      with its laws [MediaSourceLaws] and a source in memory that keeps them.
    - [MediaSource] (media/MediaSource.cpp): the source of the program over the type class
      [FFmpeg] of the library calls it makes.  [SourceParts]: which of its members are there
      together.  [MediaSourceSpec] proves the laws for it and what its reads and seeks deliver;
      [ExtradataSpec] is about the parameter sets.
    - [FFmpegHandle] (media/FFmpegHandle.hpp): the owning pointers over FFmpeg's contexts, each
      type with its deleter, with the heap of contexts.

    The session (server/RTSPSession.cpp), in the order of the data
    - [Ingress]: [onReadable].
    - [Session]: the state and the request handlers; [SessionSpec]: the RTSP state machine they
      implement, and containment below the media root.
    - [Pacer]: [pacerTick], [sendVideoRTP], [sendAudioRTP]; [PacerSpec]: what a tick sends;
      [SessionInv]: the invariant of a session over its life.
    - [Playback]: what a client sees of the video over many ticks, against any source that plays
      a file; [LoopingSource]: the FFmpeg source is such a source.
    - [RTPSender] (rtp/RTPSender.cpp): the transport of one track; [IRTPSender]
      (rtp/IRTPSender.hpp): the interface that it implements, with its laws.
    - [Egress]: [sendResponse], [pushTCPFrame], [enableWrite], [onWritable];
      [OutboxProtocol]: the same as the atomic steps of two threads.
    - [Exchange]: a whole exchange, from the octets of a client to the octets it gets back.
    - [Client]: what a client can tell apart in the octets it gets, responses and frames;
      [Numbering]: the sequence numbers of the packets it finds; [FrameRate]: how many frames
      leave in a tick, counted on the wire.

    The server
    - [Reactor] (server/Reactor.cpp): the threads as a transition system over the state they
      share, with the lifetime of session objects and of descriptor numbers; [ReactorInv]: its
      invariants; [ReactorSpec]: what the server promises, and two schedules where it fails.
    - [Startup] (Reactor.cpp: the constructor and [run]; server/RTSPServer.cpp; main.cpp).
    - [UnitTests]: the unit tests of the repository, evaluated on the definitions.

    State is a record with the members of the class, an operation is a function on it; a handler
    that may throw is a computation in [SE]; threads are step relations, and the theorems about
    them hold of every reachable state.

    ** What is proved

    - Refinement: the handlers implement the state machine [fsm] with one response each
      ([SessionSpec.handleRequest_refines_fsm]); requests in, responses out, over a connection
      that cuts them anywhere ([Exchange.pipelined_exchange]).
    - Invariants: of a session ([SessionInv]), of the shared write side under every interleaving
      ([OutboxProtocol]), of the whole server ([ReactorSpec.reactor_invariant]: a session is
      alive while somebody uses it, never ticked twice at once, and has a descriptor of its
      own), of the queues and the pool.
    - Delivery: an access unit reaches a receiver ([PacerSpec.access_unit_delivered]); a tick sends
      exactly the frame that is next when its time has come, and nothing before
      ([tick_sends_only_due]); frames and responses unbroken on the stream
      ([RTPSender], [Egress]) and told apart again by a client, whatever the requests contain
      ([Client.client_recovers_stream]), with sequence numbers that have no gap that is not a lost
      packet ([Numbering.numbering_unbroken]), the next access unit of the file and its time
      ([MediaSourceSpec]); the octets received are cut into messages and interleaved frames at
      the borders of an independent grammar ([Ingress.framing_exact]).
    - Playback: the passes over a looped file ([LoopingSource.looped_playback]), the schedule
      after a pause, the sequence number and time that PLAY announces ([Playback]), and the frame
      rate that the timer allows on the wire ([FrameRate.frame_rate_bounded]).
    - Safety: what is served lies below the media root; the views of the Annex-B parser and the
      reads and copies of the parameter-set parser are in bounds
      ([ExtradataSpec.avcc_roundtrip]); every descriptor is closed once; every FFmpeg context is
      freed once by the function of its kind, and a failed [open] leaves none
      ([FFmpegHandle.contexts_freed_once], [SourceParts.source_parts_consistent]).
    - Round trips: requests, responses, session descriptions ([SdpReader.sdp_read_back]), RTP
      headers, FU-A fragments, Annex-B streams, AVCC records, Base64, percent-encoding.
    - Termination: of the packetizer, the read loop, [readPacket], the pool, and of [run];
      liveness of the command pipeline ([ReactorSpec.commands_in_order]) and of the blocking
      queue ([CondQueue.no_lost_wakeup]).
    - Errors: each of these theorems exhibits a behaviour that the code does not mean to have: a
      Content-Length that makes [onReadable] loop for ever, a wake-up of the Dispatcher that is
      lost, a handler whose exception wedges its session, a command executed in another client's
      session, a packet from before a seek, the end of a range that PLAY cannot leave, signals
      that reach the wrong thread.

    ** Fuel and bounds

    A loop that is not structural takes fuel, and what it returns when the fuel runs out is a
    value of its own ([None]).  [packetize] has one unit per octet of the NAL unit and one more,
    enough for every MTU from 3 on ([packetize_terminates_and_fits]); the parsers of lines, NAL
    units and fields have the length of their input and consume part of it in each turn.
    [onReadable] takes its fuel as an argument: one unit per octet in the buffer and one more is
    enough when no Content-Length wraps ([onReadable_returns]), and none is when one does.
    [readPacket] has the number of packets left in the file and two turns more
    ([readPacket_returns]); the audio loop of a tick has the backlog of the source, which every
    read shortens.  Loops over the results of system calls ([recv], [send], [sendmsg]) are
    structural on the list of results.  Integers have the width they have in the code: [u8],
    [u16], [u32], [u64] are written out where the code stores or adds in such a type; signed
    64-bit sums of time stamps are assumed not to overflow, which C++ leaves undefined.

    ** Not modelled

    - Socket options, epoll registrations and the contents of the epoll event list in [Reactor]:
      an event is any event for a registered descriptor.  [Startup] has the registrations of
      [run].
    - Interleaving below the level of one operation, except in [OutboxProtocol]: in [Reactor] a
      handler, a queue operation or a tick is one step.  The saturation of an eventfd counter,
      which needs 2^64 - 1 wake-ups.
    - The size of the chunks of [recv] in [Ingress]: a call may return any number of octets, of
      which the at most [kRecvChunk] of the code are a case.
    - FFmpeg itself, the file system and the kernel are parameters, whose documented behaviour is
      a hypothesis of the theorems that need it ([FFmpegLaws], [FilterLaws], [resolves]), with
      instances that satisfy it.
    - The random device and its generator: the numbers that [makeSessionId] and [makeSSRC] draw
      are their arguments.
    - The log lines that the operations emit; [Logger] models the logger itself.
    - Memory: allocation does not fail.

    ** Plan

    What is left, in order: the epoll registrations and their one-shot windows inside the
    transition system; ticks as sequences of steps, so that [stop] and [closeSession] fall inside
    a tick; the fairness hypotheses that turn the bound on [run] into termination of the process. *)

From Stdlib Require Export Ascii String ZArith Lia.
From stdpp Require Export base list strings gmap.

(** ** Text: [std::string] as a list of characters

    A C++ [std::string] is a sequence of 8-bit characters; it is modelled as
    [list ascii], so that the list library serves for sub-strings and searches.
    String literals of type [text] are read and printed as in the source. *)

Declare Scope text_scope.
Delimit Scope text_scope with text.

Abbreviation text := (list ascii).

Definition text_of_bytes (l : list Byte.byte) : list ascii := map ascii_of_byte l.
Definition bytes_of_text (l : list ascii) : list Byte.byte := map byte_of_ascii l.
String Notation text text_of_bytes bytes_of_text : text_scope.

(** The line terminator of RTSP and SDP. *)
Definition crlf : text := [ascii_of_nat 13; ascii_of_nat 10].

#[global] Open Scope Z_scope.
#[global] Open Scope list_scope.
#[global] Open Scope text_scope.

(** ** Machine integers

    Unsigned integers of the source are [Z] values reduced modulo their width. *)

Definition u8 (z : Z) : Z := z mod 2 ^ 8.
Definition u16 (z : Z) : Z := z mod 2 ^ 16.
Definition u32 (z : Z) : Z := z mod 2 ^ 32.
Definition u64 (z : Z) : Z := z mod 2 ^ 64.

(** A [uint8_t] sequence ([std::vector<uint8_t>], [std::span<const uint8_t>]). *)
Abbreviation bytes := (list Z).

Definition is_byte (z : Z) : Prop := 0 <= z < 256.

(** [char] and [uint8_t] views of the same octet. *)
Definition byte_of_char (c : ascii) : Z := Z.of_N (N_of_ascii c).
Definition char_of_byte (z : Z) : ascii := ascii_of_N (Z.to_N (u8 z)).

(** [std::vector<uint8_t>(wire.begin(), wire.end())]. *)
Definition to_bytes (t : text) : bytes := map byte_of_char t.

Lemma byte_of_char_range c : is_byte (byte_of_char c).
Proof.
  unfold is_byte, byte_of_char. pose proof (N_ascii_bounded c). lia.
Qed.

Lemma char_of_byte_of_char c : char_of_byte (byte_of_char c) = c.
Proof.
  unfold char_of_byte, u8. rewrite Z.mod_small by apply byte_of_char_range.
  unfold byte_of_char. rewrite N2Z.id. apply ascii_N_embedding.
Qed.

Lemma byte_of_char_inj c d : byte_of_char c = byte_of_char d -> c = d.
Proof.
  intros H. rewrite <- (char_of_byte_of_char c), H. apply char_of_byte_of_char.
Qed.

Lemma to_bytes_all_bytes t : Forall is_byte (to_bytes t).
Proof.
  unfold to_bytes. induction t; simpl; constructor; auto using byte_of_char_range.
Qed.

Lemma to_bytes_length t : length (to_bytes t) = length t.
Proof. apply length_map. Qed.

Lemma to_bytes_app t u : to_bytes (t ++ u) = to_bytes t ++ to_bytes u.
Proof. apply map_app. Qed.

Lemma u8_range z : 0 <= u8 z < 256.
Proof. apply Z.mod_pos_bound; lia. Qed.
Lemma u16_range z : 0 <= u16 z < 65536.
Proof. apply Z.mod_pos_bound; lia. Qed.
Lemma u32_range z : 0 <= u32 z < 4294967296.
Proof. apply Z.mod_pos_bound; lia. Qed.
Lemma u64_range z : 0 <= u64 z < 18446744073709551616.
Proof. apply Z.mod_pos_bound; lia. Qed.

Lemma u8_small z : 0 <= z < 256 -> u8 z = z.
Proof. intros. apply Z.mod_small. lia. Qed.
Lemma u16_small z : 0 <= z < 65536 -> u16 z = z.
Proof. intros. apply Z.mod_small. lia. Qed.
Lemma u32_small z : 0 <= z < 4294967296 -> u32 z = z.
Proof. intros. apply Z.mod_small. lia. Qed.
Lemma u64_small z : 0 <= z < 18446744073709551616 -> u64 z = z.
Proof. intros. apply Z.mod_small. lia. Qed.

Create HintDb rtsp discriminated.
Create Rewrite HintDb rtsp.
#[export] Hint Resolve u8_range u16_range u32_range u64_range : rtsp.
#[export] Hint Resolve byte_of_char_range to_bytes_all_bytes : rtsp.
#[export] Hint Rewrite to_bytes_length to_bytes_app @length_app @length_take
  @length_drop @length_map : rtsp.

Lemma u8_shiftr_range z k : is_byte (u8 (Z.shiftr z k)).
Proof. apply u8_range. Qed.

(** Arithmetic that mixes shifts by constants, division and modulo. *)
Ltac bits_lia :=
  unfold u8, u16, u32, u64, is_byte in *;
  rewrite ?Z.shiftr_div_pow2, ?Z.shiftl_mul_pow2 in * by lia;
  change (2 ^ 1) with 2 in *; change (2 ^ 2) with 4 in *; change (2 ^ 3) with 8 in *;
  change (2 ^ 4) with 16 in *; change (2 ^ 5) with 32 in *; change (2 ^ 6) with 64 in *;
  change (2 ^ 8) with 256 in *; change (2 ^ 12) with 4096 in *;
  change (2 ^ 16) with 65536 in *; change (2 ^ 18) with 262144 in *;
  change (2 ^ 24) with 16777216 in *; change (2 ^ 32) with 4294967296 in *;
  Z.div_mod_to_equations; lia.

(** ** Exceptions

    The exceptions the source can raise, and computations that may raise. *)

Inductive exn :=
| invalid_argument
| out_of_range
| filesystem_error
| runtime_error
| bad_optional_access.

Inductive result (A : Type) :=
| Ok (a : A)
| Throw (e : exn).
Arguments Ok {A} a.
Arguments Throw {A} e.

#[global] Instance exn_eq_dec : EqDecision exn.
Proof. solve_decision. Defined.

#[global] Instance result_ret : MRet result := fun A a => Ok a.
#[global] Instance result_bind : MBind result := fun A B f r =>
  match r with Ok a => f a | Throw e => Throw e end.

Definition is_ok {A} (r : result A) : bool :=
  match r with Ok _ => true | Throw _ => false end.

(** [try { r } catch (...) { d }]. *)
Definition try_default {A} (r : result A) (d : A) : A :=
  match r with Ok a => a | Throw _ => d end.

(** Stateful computations that may raise: the state reached when the exception
    is raised is kept, as it is for the member functions of an object. *)
Definition SE (S A : Type) : Type := S -> S * result A.

Definition SE_ret {S A} (a : A) : SE S A := fun s => (s, Ok a).
Definition SE_bind {S A B} (m : SE S A) (f : A -> SE S B) : SE S B := fun s =>
  match m s with
  | (s', Ok a) => f a s'
  | (s', Throw e) => (s', Throw e)
  end.

Declare Scope se_scope.
#[global] Open Scope se_scope.
Notation "'let*' x := m 'in' k" := (SE_bind m (fun x => k))
  (at level 10, x name, m at level 100, k at level 200) : se_scope.
Notation "'do*' m ; k" := (SE_bind m (fun _ => k))
  (at level 10, m at level 100, k at level 200) : se_scope.

Definition SE_get {S} : SE S S := fun s => (s, Ok s).
Definition SE_gets {S A} (f : S -> A) : SE S A := fun s => (s, Ok (f s)).
Definition SE_modify {S} (f : S -> S) : SE S unit := fun s => (f s, Ok tt).
Definition SE_lift {S A} (r : result A) : SE S A := fun s => (s, r).

(** ** Record update

    [s <| field := v |>] is [s] with one field replaced.  A record declares its
    eta-expansion once ([Updatable]); the setter of a field is computed from it. *)

Class Updatable (R : Type) := eta_expand : R -> R.

Class Setter {R T : Type} (field : R -> T) := modify_field : (T -> T) -> R -> R.

Ltac derive_setter :=
  match goal with
  | |- @Setter ?R ?T ?field =>
      let inst := constr:(ltac:(typeclasses eauto) : Updatable R) in
      let e := eval hnf in inst in
      lazymatch eval pattern field in e with
      | ?abs _ =>
          let t := eval cbv beta in
            (fun (f : T -> T) (r : R) => abs (fun r' => f (field r')) r) in
          exact t
      end
  end.

#[global] Hint Extern 1 (Setter _) => derive_setter : typeclass_instances.

Definition set_field {R T} (field : R -> T) `{!Setter field} (v : T) : R -> R :=
  modify_field (field := field) (fun _ => v).

Declare Scope update_scope.
#[global] Open Scope update_scope.
Notation "r <| field := v |>" := (set_field field v r)
  (at level 1, field at level 10, left associativity,
   format "r <|  field  :=  v  |>") : update_scope.

(** Reads of an updated record: the field itself, or a field left alone. *)
Ltac simpl_update :=
  repeat match goal with
    | |- context [?p (@set_field ?R ?T ?q ?st ?v ?s)] =>
        first
          [ progress change (p (@set_field R T q st v s)) with v
          | progress change (p (@set_field R T q st v s)) with (p s) ]
    end.

Ltac simpl_update_in H :=
  repeat match type of H with
    | context [?p (@set_field ?R ?T ?q ?st ?v ?s)] =>
        first
          [ progress change (p (@set_field R T q st v s)) with v in H
          | progress change (p (@set_field R T q st v s)) with (p s) in H ]
    end.

(** Decidable goals on closed terms, such as the absence of a character from a
    literal. *)
Ltac decide_closed :=
  match goal with |- ?P => refine (bool_decide_unpack P _); vm_compute; exact I end.

(** Linear arithmetic over the lengths of composite lists. *)
Ltac len_lia :=
  cbn [length] in *; change (length crlf) with 2%nat in *;
  repeat progress (rewrite ?length_app, ?length_take, ?length_drop, ?length_rev,
    ?length_map, ?length_replicate in *; cbn [length app] in *;
    change (length crlf) with 2%nat in * );
  lia.

(** Case analysis on the conditions of [if] and [match] in the goal. *)
Ltac case_if :=
  match goal with
  | |- context [if ?b then _ else _] => destruct b eqn:?
  end.

(** ** Lists *)

Lemma drop_eq_cons {A} (l : list A) n x :
  l !! n = Some x -> drop n l = x :: drop (S n) l.
Proof. apply drop_S. Qed.

Lemma app_cons_assoc {A} (a : list A) x b : a ++ x :: b = (a ++ [x]) ++ b.
Proof. rewrite <- app_assoc. reflexivity. Qed.

Lemma last_drop {A} (l : list A) k : (k < length l)%nat -> last (drop k l) = last l.
Proof.
  intros H. rewrite <- (take_drop k l) at 2. rewrite last_app.
  destruct (last (drop k l)) eqn:E; [done|].
  apply last_None in E. apply (f_equal length) in E. rewrite length_drop in E. simpl in E. lia.
Qed.

Lemma Forall_is_byte_app l k :
  Forall is_byte (l ++ k) <-> Forall is_byte l /\ Forall is_byte k.
Proof. apply Forall_app. Qed.

(** ** Bit operations as arithmetic *)

Lemma lor_shiftl_add x k y :
  0 <= k -> 0 <= y < 2 ^ k -> Z.lor (Z.shiftl x k) y = x * 2 ^ k + y.
Proof.
  intros Hk Hy. rewrite <- Z.shiftl_mul_pow2 by done.
  rewrite <- Z.lxor_lor, <- Z.add_nocarry_lxor; [done| |];
    (apply Z.bits_inj'; intros i Hi; rewrite Z.land_spec, Z.bits_0;
     destruct (Z.ltb_spec i k);
     [by rewrite Z.shiftl_spec_low |
      apply andb_false_intro2; destruct (decide (y = 0)) as [->|];
      [apply Z.bits_0 | apply Z.bits_above_log2; [lia|];
       apply Z.lt_le_trans with k; [|done]; apply Z.log2_lt_pow2; lia]]).
Qed.

Lemma lor_mul_pow2_add x k y :
  0 <= k -> 0 <= y < 2 ^ k -> Z.lor (x * 2 ^ k) y = x * 2 ^ k + y.
Proof. intros. rewrite <- Z.shiftl_mul_pow2 by done. rewrite lor_shiftl_add by done.
  by rewrite Z.shiftl_mul_pow2. Qed.

Lemma land_ones_mod x k : 0 <= k -> Z.land x (2 ^ k - 1) = x mod 2 ^ k.
Proof.
  intros. replace (2 ^ k - 1) with (Z.ones k) by (rewrite Z.ones_equiv; lia).
  by apply Z.land_ones.
Qed.

Lemma land_31 x : Z.land x 31 = x mod 32.
Proof. apply (land_ones_mod x 5). lia. Qed.
Lemma land_63 x : Z.land x 63 = x mod 64.
Proof. apply (land_ones_mod x 6). lia. Qed.
Lemma land_127 x : Z.land x 127 = x mod 128.
Proof. apply (land_ones_mod x 7). lia. Qed.
Lemma land_255 x : Z.land x 255 = x mod 256.
Proof. apply (land_ones_mod x 8). lia. Qed.

(** A decidable property of all integers below a bound, by computation. *)
Lemma forall_below (P : Z -> bool) (n : nat) :
  forallb (fun k => P (Z.of_nat k)) (seq 0 n) = true ->
  forall z, 0 <= z < Z.of_nat n -> P z = true.
Proof.
  intros H z Hz. rewrite forallb_forall in H.
  rewrite <- (Z2Nat.id z) by lia. apply H. apply in_seq. lia.
Qed.
