(* ===== verification/StdString.v ===== *)
(** * The operations of [std::string] and [<cctype>] the program uses

    Searches ([find], [rfind]), sub-strings, the numeric conversions [std::stoi],
    [std::stoul] and [std::to_string], and the "C"-locale character classes.
    [std::string::npos] is [None]; numeric conversions return a [result]
    because they raise [std::invalid_argument] and [std::out_of_range]. *)

From S2P Require Import Prelude.

(** ** Searching *)

Fixpoint starts_with (p s : text) : bool :=
  match p, s with
  | [], _ => true
  | _, [] => false
  | c :: p', d :: s' => if decide (c = d) then starts_with p' s' else false
  end.

(** [s.find(p)] *)
Fixpoint find (p s : text) : option nat :=
  if starts_with p s then Some 0%nat
  else match s with
       | [] => None
       | _ :: s' => match find p s' with Some n => Some (S n) | None => None end
       end.

(** [s.find(p, pos)] *)
Definition find_from (p s : text) (pos : nat) : option nat :=
  if (pos <=? length s)%nat then
    match find p (drop pos s) with
    | Some n => Some (pos + n)%nat
    | None => None
    end
  else None.

(** [s.rfind(c)] for a single character. *)
Fixpoint rfind_char (c : ascii) (s : text) : option nat :=
  match s with
  | [] => None
  | d :: s' =>
      match rfind_char c s' with
      | Some n => Some (S n)
      | None => if decide (c = d) then Some 0%nat else None
      end
  end.

(** [s.find(p) != std::string::npos] *)
Definition contains (p s : text) : bool :=
  match find p s with Some _ => true | None => false end.

(** [s.substr(pos, n)]; every call of the program has [pos <= s.size()]. *)
Definition substr (s : text) (pos n : nat) : text := take n (drop pos s).

(** [s.substr(pos)] *)
Definition substr_from (s : text) (pos : nat) : text := drop pos s.

(** ** Lemmas on searching *)

Lemma starts_with_app p s : starts_with p (p ++ s) = true.
Proof. induction p; simpl; [by destruct s | by rewrite decide_True]. Qed.

Lemma starts_with_spec p s :
  starts_with p s = true <-> exists t, s = p ++ t.
Proof.
  split.
  - revert s. induction p as [|c p IH]; intros s H; [by exists s|].
    destruct s as [|d s]; [done|]. simpl in H. case_decide; [|done]. subst.
    destruct (IH _ H) as [t ->]. by exists t.
  - intros [t ->]. apply starts_with_app.
Qed.

Lemma find_eq p s :
  find p s =
    if starts_with p s then Some 0%nat
    else match s with
         | [] => None
         | _ :: s' => match find p s' with Some n => Some (S n) | None => None end
         end.
Proof. by destruct s. Qed.

(** A found index cuts the string around the pattern. *)
Lemma find_Some_cut p s n :
  find p s = Some n -> exists b, s = take n s ++ p ++ b /\ (n + length p <= length s)%nat.
Proof.
  revert n. induction s as [|d s IH]; intros n H; rewrite find_eq in H;
    destruct (starts_with p _) eqn:E.
  - apply starts_with_spec in E as [t Ht]. injection H as <-. exists t.
    rewrite take_0. split; [done|]. rewrite Ht, length_app. lia.
  - done.
  - apply starts_with_spec in E as [t Ht]. injection H as <-. exists t.
    rewrite take_0. split; [done|]. rewrite Ht, length_app. lia.
  - destruct (find p s) as [m|] eqn:F; [|done]. simplify_eq.
    destruct (IH _ eq_refl) as (b & Hb & Hl). exists b. simpl.
    split; [congruence | lia].
Qed.

Lemma find_Some_bound p s n : find p s = Some n -> (n + length p <= length s)%nat.
Proof. intros H. apply find_Some_cut in H as (b & _ & ?). done. Qed.

(** More input behind it does not move what was found. *)
Lemma starts_with_more p s d : starts_with p s = true -> starts_with p (s ++ d) = true.
Proof.
  rewrite !starts_with_spec. intros [t ->]. exists (t ++ d). by rewrite app_assoc.
Qed.

Lemma starts_with_long p s d :
  (length p <= length s)%nat -> starts_with p (s ++ d) = starts_with p s.
Proof.
  revert s. induction p as [|c p IH]; intros [|e s] H; simpl in *; try done; try lia.
  - case_decide; [|done]. apply IH. lia.
Qed.

Lemma find_more p s d n : find p s = Some n -> find p (s ++ d) = Some n.
Proof.
  revert n. induction s as [|c s IH]; intros n H; rewrite find_eq in H |- *.
  - destruct (starts_with p []) eqn:E; [|done].
    by rewrite (starts_with_more p [] d E).
  - destruct (starts_with p (c :: s)) eqn:E.
    + by rewrite (starts_with_more p (c :: s) d E).
    + destruct (find p s) as [k|] eqn:Ek; [|done]. pose proof (find_Some_bound _ _ _ Ek).
      rewrite starts_with_long, E by (simpl; lia). cbn [app]. by rewrite (IH k).
Qed.

(** The pattern is found behind a prefix that lacks its first character. *)
Lemma find_app_first c p a b :
  c ∉ a -> find (c :: p) (a ++ (c :: p) ++ b) = Some (length a).
Proof.
  induction a as [|d a IH]; intros Hc.
  - change ([] ++ (c :: p) ++ b) with ((c :: p) ++ b).
    by rewrite find_eq, starts_with_app.
  - rewrite find_eq. apply not_elem_of_cons in Hc as [Hne Hc].
    assert (starts_with (c :: p) ((d :: a) ++ (c :: p) ++ b) = false) as ->.
    { simpl. by rewrite decide_False. }
    simpl app. cbn iota. specialize (IH Hc). simpl app in IH. rewrite IH. done.
Qed.

Lemma find_char_app c a b : c ∉ a -> find [c] (a ++ c :: b) = Some (length a).
Proof. intros. apply (find_app_first c []). done. Qed.

Lemma find_first_absent c p s : c ∉ s -> find (c :: p) s = None.
Proof.
  induction s as [|d s IH]; intros Hc; [done|].
  apply not_elem_of_cons in Hc as [Hne Hc].
  rewrite find_eq. simpl starts_with. rewrite decide_False by done.
  by rewrite IH.
Qed.

(** ** Lines *)

Definition cr : ascii := ascii_of_nat 13.
Definition lf : ascii := ascii_of_nat 10.

(** No CRLF in a string: it fits on one line.  A carriage return alone is allowed. *)
Fixpoint no_crlf (s : text) : bool :=
  match s with
  | [] => true
  | c :: s' => negb (bool_decide (c = cr) && bool_decide (head s' = Some lf)) && no_crlf s'
  end.

Lemma no_crlf_cons c s :
  no_crlf (c :: s) = true <-> ~ (c = cr /\ head s = Some lf) /\ no_crlf s = true.
Proof.
  cbn [no_crlf]. rewrite andb_true_iff, negb_true_iff, andb_false_iff, !bool_decide_eq_false.
  destruct (decide (c = cr)), (decide (head s = Some lf)); naive_solver.
Qed.

Lemma no_crlf_app a b :
  no_crlf a = true -> no_crlf b = true -> head b <> Some lf -> no_crlf (a ++ b) = true.
Proof.
  intros Ha Hb Hh. induction a as [|c a IH]; [done|].
  apply no_crlf_cons in Ha as [Hc Ha]. apply (proj2 (no_crlf_cons c (a ++ b))).
  split; [|by apply IH]. destruct a as [|d a]; [by intros [_ ?]|done].
Qed.

Lemma no_crlf_app_inv a b :
  no_crlf (a ++ b) = true -> no_crlf a = true /\ no_crlf b = true.
Proof.
  induction a as [|c a IH]; [done|]. intros H.
  apply (proj1 (no_crlf_cons c (a ++ b))) in H as [Hc H]. destruct (IH H) as [Ha Hb].
  split; [|done]. apply no_crlf_cons. split; [|done]. destruct a; [by intros [_ ?]|done].
Qed.

Lemma no_cr_no_crlf s : ascii_of_nat 13 ∉ s -> no_crlf s = true.
Proof.
  induction s as [|c s IH]; [done|]. intros [Hc Hs]%not_elem_of_cons.
  apply no_crlf_cons. split; [by intros [-> _]|by apply IH].
Qed.

Lemma starts_with_crlf_cons c s :
  starts_with crlf (c :: s) = true <-> c = cr /\ head s = Some lf.
Proof.
  destruct s as [|d s]; cbn; repeat case_decide; subst; cbn; split; try done;
    intros [? ?]; simplify_eq; done.
Qed.

(** A line is found before its CRLF. *)
Lemma find_crlf_line a b p :
  no_crlf a = true -> starts_with p b = true -> find (crlf ++ p) (a ++ crlf ++ b) = Some (length a).
Proof.
  intros Ha Hp. induction a as [|c a IH].
  - rewrite app_nil_l, find_eq. change (starts_with (crlf ++ p) (crlf ++ b)) with (starts_with p b).
    by rewrite Hp.
  - apply no_crlf_cons in Ha as [Hc Ha]. rewrite <- app_comm_cons, find_eq.
    destruct (starts_with (crlf ++ p) (c :: a ++ crlf ++ b)) eqn:E; [|by rewrite IH].
    exfalso. apply Hc. apply starts_with_spec in E as [t E]. rewrite <- app_assoc in E.
    injection E as -> E. split; [done|]. destruct a as [|d a]; [done|]. by injection E as -> _.
Qed.

Lemma find_crlf_app a b : no_crlf a = true -> find crlf (a ++ crlf ++ b) = Some (length a).
Proof. intros Ha. exact (find_crlf_line a b [] Ha ltac:(by destruct b)). Qed.

(** What stands before the first CRLF has none. *)
Lemma find_crlf_no_crlf s n : find crlf s = Some n -> no_crlf (take n s) = true.
Proof.
  revert n. induction s as [|c s IH]; intros n E; [by rewrite take_nil|]. rewrite find_eq in E.
  destruct (starts_with crlf (c :: s)) eqn:Es; [by injection E as <-|].
  destruct (find crlf s) as [m|] eqn:Em; [|done]. injection E as <-. cbn [take].
  apply no_crlf_cons. split; [|by apply IH]. intros [-> Hh].
  assert (starts_with crlf (cr :: s) = true) as Ht; [|congruence].
  apply starts_with_crlf_cons. split; [done|]. destruct m; [done|]. by destruct s.
Qed.

Lemma find_from_spec p s pos n :
  find_from p s pos = Some n ->
  exists b, drop pos s = take (n - pos) (drop pos s) ++ p ++ b
       /\ (pos <= n)%nat /\ (n + length p <= length s)%nat.
Proof.
  unfold find_from. destruct (Nat.leb_spec pos (length s)); [|done].
  destruct (find p (drop pos s)) as [m|] eqn:E; [|done]. intros [= <-].
  apply find_Some_cut in E as (b & Hb & Hl). exists b.
  rewrite length_drop in Hl.
  replace (pos + m - pos)%nat with m by lia. split; [done | lia].
Qed.

Lemma contains_app_first c p a b :
  c ∉ a -> contains (c :: p) (a ++ (c :: p) ++ b) = true.
Proof. intros H. unfold contains. by rewrite find_app_first. Qed.

Lemma rfind_char_None c s : rfind_char c s = None <-> c ∉ s.
Proof.
  induction s as [|d s IH]; simpl; [split; [intros _; apply not_elem_of_nil | done]|].
  rewrite not_elem_of_cons. destruct (rfind_char c s) as [n|].
  - split; [done|]. intros [_ H]. by apply IH in H.
  - case_decide; subst; split; intros; try done.
    + exfalso. destruct_and!. congruence.
    + split; [done|]. by apply IH.
Qed.

Lemma rfind_char_app c a b :
  c ∉ b -> rfind_char c (a ++ c :: b) = Some (length a).
Proof.
  intros Hb. induction a as [|d a IH]; simpl.
  - apply rfind_char_None in Hb. rewrite Hb. by rewrite decide_True.
  - by rewrite IH.
Qed.

Lemma rfind_char_Some c s n :
  rfind_char c s = Some n -> s = take n s ++ c :: drop (S n) s /\ c ∉ drop (S n) s.
Proof.
  revert n. induction s as [|d s IH]; intros n; simpl; [done|].
  destruct (rfind_char c s) as [m|] eqn:E.
  - intros [= <-]. destruct (IH _ eq_refl) as [H1 H2]. split; [|done].
    simpl. congruence.
  - case_decide; [|done]. intros [= <-]. subst. split; [done|]. simpl.
    rewrite drop_0. by apply rfind_char_None.
Qed.

(** ** Character classes ("C" locale) *)

(** [std::isspace] *)
Definition isspace (c : ascii) : bool :=
  let n := nat_of_ascii c in ((n =? 32) || ((9 <=? n) && (n <=? 13)))%nat.

(** [std::tolower] *)
Definition tolower (c : ascii) : ascii :=
  let n := nat_of_ascii c in
  if ((65 <=? n) && (n <=? 90))%nat then ascii_of_nat (n + 32) else c.

Definition isdigit (c : ascii) : bool :=
  let n := nat_of_ascii c in ((48 <=? n) && (n <=? 57))%nat.

Definition digit_val (c : ascii) : Z := Z.of_nat (nat_of_ascii c) - 48.

(** ** [std::to_string] *)

Definition digit_char (d : Z) : ascii := ascii_of_nat (Z.to_nat (48 + d)).

Fixpoint digits_acc (fuel : nat) (n : Z) (acc : text) : text :=
  match fuel with
  | O => acc
  | S f =>
      let acc' := digit_char (n mod 10) :: acc in
      if n <? 10 then acc' else digits_acc f (n / 10) acc'
  end.

(** Decimal digits of a natural number; [log2 n + 1] steps are enough. *)
Definition decimal (n : Z) : text := digits_acc (S (Z.to_nat (Z.log2 n))) n [].

(** [std::to_string] of any integer type, and [operator<<] in decimal. *)
Definition to_string (z : Z) : text :=
  if z <? 0 then "-" ++ decimal (- z) else decimal z.

(** ** [std::stoi], [std::stoul] *)

Fixpoint skip_spaces (s : text) : text :=
  match s with
  | c :: s' => if isspace c then skip_spaces s' else s
  | [] => []
  end.

(** The value of the leading digits, and whether there is one at all. *)
Fixpoint read_digits (s : text) (acc : Z) : Z :=
  match s with
  | c :: s' => if isdigit c then read_digits s' (acc * 10 + digit_val c) else acc
  | [] => acc
  end.

Definition has_digit (s : text) : bool :=
  match s with c :: _ => isdigit c | [] => false end.

(** The optional sign of [strtol]: is it negative, and what follows. *)
Definition read_sign (s : text) : bool * text :=
  match s with
  | c :: s' =>
      if decide (c = "-"%char) then (true, s')
      else if decide (c = "+"%char) then (false, s')
      else (false, s)
  | [] => (false, [])
  end.

Definition int_min : Z := - 2 ^ 31.
Definition int_max : Z := 2 ^ 31 - 1.

Definition stoi (s : text) : result Z :=
  let (neg, ds) := read_sign (skip_spaces s) in
  if has_digit ds then
    let v := read_digits ds 0 in
    let v := if (neg : bool) then - v else v in
    if (int_min <=? v) && (v <=? int_max) then Ok v else Throw out_of_range
  else Throw invalid_argument.

(** [strtoul] accepts a sign: the magnitude must fit [unsigned long], and a minus
    sign negates the value modulo 2^64. *)
Definition stoul (s : text) : result Z :=
  let (neg, ds) := read_sign (skip_spaces s) in
  if has_digit ds then
    let v := read_digits ds 0 in
    if v <? 2 ^ 64 then Ok (if (neg : bool) then u64 (- v) else v)
    else Throw out_of_range
  else Throw invalid_argument.

(** ** Round trip of the numeric conversions *)

Lemma digit_char_spec d :
  0 <= d < 10 -> isdigit (digit_char d) = true /\ digit_val (digit_char d) = d.
Proof.
  intros H.
  assert (d = 0 \/ d = 1 \/ d = 2 \/ d = 3 \/ d = 4 \/ d = 5 \/ d = 6 \/ d = 7
          \/ d = 8 \/ d = 9) as Hd by lia.
  destruct_or! Hd; subst d; split; reflexivity.
Qed.

Lemma isdigit_not_special c :
  isdigit c = true -> isspace c = false /\ c <> "-"%char /\ c <> "+"%char.
Proof.
  unfold isdigit, isspace. intros H.
  apply andb_prop in H as [H1 H2]. apply Nat.leb_le in H1. apply Nat.leb_le in H2.
  split; [|split; intros E; subst c; cbv in H1; lia].
  apply orb_false_intro; [by apply Nat.eqb_neq; lia|].
  apply andb_false_intro2. apply Nat.leb_gt. lia.
Qed.

Lemma digits_acc_app f n acc : digits_acc f n acc = digits_acc f n [] ++ acc.
Proof.
  revert n acc. induction f as [|f IH]; intros n acc; simpl; [done|].
  destruct (n <? 10); [done|].
  rewrite IH, (IH _ [digit_char _]), <- app_assoc. done.
Qed.

Lemma digits_acc_value f n acc :
  0 <= n < 2 ^ Z.of_nat f -> (0 < f)%nat ->
  read_digits (digits_acc f n acc) 0 = read_digits acc n.
Proof.
  revert n acc. induction f as [|f IH]; intros n acc Hn Hf; [lia|].
  simpl digits_acc.
  assert (0 <= n mod 10 < 10) as Hm by (apply Z.mod_pos_bound; lia).
  destruct (digit_char_spec _ Hm) as [Hd Hv].
  destruct (Z.ltb_spec n 10) as [Hlt|Hge].
  - simpl. rewrite Hd, Hv. f_equal. rewrite Z.mod_small; lia.
  - assert (2 ^ Z.of_nat (S f) = 2 * 2 ^ Z.of_nat f) as E.
    { rewrite Nat2Z.inj_succ, Z.pow_succ_r; lia. }
    rewrite E in Hn. destruct f as [|f']; [change (2 ^ Z.of_nat 0) with 1 in Hn; lia|].
    assert (0 <= n / 10 < 2 ^ Z.of_nat (S f')) as Hq.
    { set (P := 2 ^ Z.of_nat (S f')) in *. clearbody P. clear E IH. Z.div_mod_to_equations; lia. }
    rewrite IH by (try lia; exact Hq).
    simpl. rewrite Hd, Hv. f_equal. pose proof (Z.div_mod n 10). lia.
Qed.

Lemma digits_acc_digits f n :
  0 <= n -> Forall (fun c => isdigit c = true) (digits_acc f n []).
Proof.
  revert n. induction f as [|f IH]; intros n Hn; simpl; [constructor|].
  assert (0 <= n mod 10 < 10) as Hm by (apply Z.mod_pos_bound; lia).
  destruct (digit_char_spec _ Hm) as [Hd _].
  destruct (n <? 10); [by constructor|].
  rewrite digits_acc_app. apply Forall_app. split; [|by constructor].
  apply IH, Z.div_pos; lia.
Qed.

Lemma decimal_digits n : 0 <= n -> Forall (fun c => isdigit c = true) (decimal n).
Proof. apply digits_acc_digits. Qed.

Lemma decimal_nonempty n : decimal n <> [].
Proof.
  unfold decimal. simpl. destruct (n <? 10); [done|].
  rewrite digits_acc_app. by destruct (digits_acc _ _ _).
Qed.

Lemma decimal_cons n :
  0 <= n -> exists c l, decimal n = c :: l /\ isdigit c = true.
Proof.
  intros Hn. pose proof (decimal_digits n Hn) as H. pose proof (decimal_nonempty n).
  destruct (decimal n) as [|c l]; [done|]. inversion H; subst. by exists c, l.
Qed.

Lemma read_digits_decimal n rest :
  0 <= n -> has_digit rest = false -> read_digits (decimal n ++ rest) 0 = n.
Proof.
  intros Hn Hr. unfold decimal. rewrite <- digits_acc_app, digits_acc_value.
  - destruct rest as [|c r]; [done|]. simpl in *. by rewrite Hr.
  - split; [done|]. rewrite Nat2Z.inj_succ, Z2Nat.id by apply Z.log2_nonneg.
    destruct (decide (n = 0)) as [->|]; [done|]. apply Z.log2_spec. lia.
  - lia.
Qed.

(** [std::stoi] reads back what [std::to_string] printed, whatever non-digit follows. *)
Lemma stoi_to_string z rest :
  int_min <= z <= int_max -> has_digit rest = false -> stoi (to_string z ++ rest) = Ok z.
Proof.
  intros Hz Hr. unfold stoi, to_string.
  destruct (Z.ltb_spec z 0).
  - destruct (decimal_cons (- z)) as (c & l & E & Hd); [lia|].
    change (("-" ++ decimal (- z)) ++ rest) with ("-"%char :: (decimal (- z) ++ rest)).
    simpl skip_spaces. simpl read_sign. cbn iota.
    rewrite read_digits_decimal by (auto; lia). rewrite E. simpl has_digit. rewrite Hd.
    rewrite Z.opp_involutive.
    by rewrite (proj2 (Z.leb_le int_min z)), (proj2 (Z.leb_le z int_max)) by lia.
  - destruct (decimal_cons z) as (c & l & E & Hd); [lia|].
    destruct (isdigit_not_special c Hd) as (Hs & Hm & Hp).
    pose proof (read_digits_decimal z rest) as V. rewrite E in V |- *.
    simpl app in *. simpl skip_spaces. rewrite Hs. simpl read_sign.
    rewrite !decide_False by done. simpl has_digit. rewrite Hd, V by (auto; lia).
    by rewrite (proj2 (Z.leb_le int_min z)), (proj2 (Z.leb_le z int_max)) by lia.
Qed.

Lemma stoi_range s z : stoi s = Ok z -> int_min <= z <= int_max.
Proof.
  unfold stoi. destruct (read_sign _) as [neg ds]. destruct (has_digit ds); [|done].
  cbv zeta. case_if; [|done]. intros [= <-].
  apply andb_prop in Heqb as [?%Z.leb_le ?%Z.leb_le]. done.
Qed.

Lemma read_digits_nonneg s a : 0 <= a -> 0 <= read_digits s a.
Proof.
  revert a. induction s as [|c s IH]; intros a Ha; simpl; [done|].
  destruct (isdigit c) eqn:E; [|done]. apply IH. unfold digit_val.
  apply andb_prop in E as [E _]. apply Nat.leb_le in E. lia.
Qed.

Lemma stoul_range s z : stoul s = Ok z -> 0 <= z < 2 ^ 64.
Proof.
  unfold stoul. destruct (read_sign _) as [neg ds]. destruct (has_digit ds); [|done].
  pose proof (read_digits_nonneg ds 0).
  destruct (Z.ltb_spec (read_digits ds 0) (2 ^ 64)); [|done].
  intros [= <-]. destruct neg; [apply u64_range | lia].
Qed.

Lemma stoul_decimal n rest :
  0 <= n < 2 ^ 64 -> has_digit rest = false -> stoul (decimal n ++ rest) = Ok n.
Proof.
  intros Hn Hr. unfold stoul. destruct (decimal_cons n) as (c & l & E & Hd); [lia|].
  destruct (isdigit_not_special c Hd) as (Hs & Hm & Hp).
  pose proof (read_digits_decimal n rest) as V. rewrite E in V |- *.
  simpl app in *. simpl skip_spaces. rewrite Hs. simpl read_sign.
  rewrite !decide_False by done. simpl has_digit. rewrite Hd, V by (auto; lia).
  by rewrite (proj2 (Z.ltb_lt n (2 ^ 64))) by lia.
Qed.

#[export] Hint Resolve stoi_range stoul_range find_Some_bound : rtsp.

(** ** Searching for one character *)

Lemma find_char_None c s : find [c] s = None <-> c ∉ s.
Proof.
  split; [|apply find_first_absent].
  induction s as [|d s IH]; intros H; [apply not_elem_of_nil|].
  rewrite find_eq in H. simpl starts_with in H. case_decide; [by destruct s|].
  apply not_elem_of_cons. split; [done|]. apply IH. by destruct (find [c] s).
Qed.

Lemma find_char_Some c s n :
  find [c] s = Some n <-> s = take n s ++ c :: drop (S n) s /\ c ∉ take n s.
Proof.
  split.
  - revert n. induction s as [|d s IH]; intros n H; rewrite find_eq in H; [done|].
    simpl starts_with in H. case_decide as Hd.
    + assert (n = 0%nat) as -> by (destruct s; congruence). subst. simpl.
      rewrite drop_0. split; [done | apply not_elem_of_nil].
    + destruct (find [c] s) as [m|]; [|done]. injection H as <-.
      destruct (IH _ eq_refl) as [H1 H2]. simpl. rewrite not_elem_of_cons.
      split; [by rewrite <- H1 | done].
  - intros [E Hc].
    assert (n < length s)%nat as Hl.
    { apply (f_equal length) in E. len_lia. }
    rewrite E at 1. rewrite find_char_app by done. f_equal. len_lia.
Qed.

Lemma find_from_char_Some c s pos n :
  find_from [c] s pos = Some n ->
  (pos <= n < length s)%nat
  /\ drop pos s = take (n - pos) (drop pos s) ++ c :: drop (S n) s
  /\ c ∉ take (n - pos) (drop pos s).
Proof.
  unfold find_from. destruct (Nat.leb_spec pos (length s)); [|done].
  destruct (find [c] (drop pos s)) as [m|] eqn:E; [|done]. intros [= <-].
  pose proof (find_Some_bound _ _ _ E) as Hb. apply find_char_Some in E as [E Hc].
  replace (pos + m - pos)%nat with m by lia.
  rewrite drop_drop in E. replace (pos + S m)%nat with (S (pos + m)) in E by lia.
  split; [len_lia | done].
Qed.

Lemma find_from_char_None c s pos :
  (pos <= length s)%nat -> find_from [c] s pos = None -> c ∉ drop pos s.
Proof.
  unfold find_from. intros H. rewrite (proj2 (Nat.leb_le _ _) H).
  destruct (find [c] (drop pos s)) eqn:E; [done|]. intros _. by apply find_char_None.
Qed.

(** [s.substr(pos, n)] with a [size_t] count that may exceed the string. *)
Definition substr_z (s : text) (pos : nat) (n : Z) : text :=
  take (Z.to_nat (Z.min n (Z.of_nat (length s)))) (drop pos s).

(** [find_from] right behind a known prefix. *)
Lemma find_from_skip p a s :
  find_from p (a ++ s) (length a)
    = match find p s with Some n => Some (length a + n)%nat | None => None end.
Proof.
  unfold find_from. rewrite (proj2 (Nat.leb_le _ _)) by len_lia.
  by rewrite drop_app_length.
Qed.

(** ** Lines, and the blank line behind them *)

Lemma find_crlf_skip p l rest :
  no_crlf l = true ->
  find (crlf ++ p) (l ++ crlf ++ rest)
    = if starts_with p rest then Some (length l)
      else Nat.add (length l + 2) <$> find (crlf ++ p) rest.
Proof.
  intros Hl. destruct (starts_with p rest) eqn:Ep; [by apply find_crlf_line|].
  induction l as [|c l IH].
  - rewrite app_nil_l, find_eq. change (starts_with (crlf ++ p) (crlf ++ rest)) with (starts_with p rest).
    rewrite Ep. cbv iota. change (crlf ++ rest) with (cr :: lf :: rest). cbv beta iota.
    rewrite find_eq. change (starts_with (crlf ++ p) (lf :: rest)) with false.
    cbv beta iota. by destruct (find (crlf ++ p) rest).
  - apply no_crlf_cons in Hl as [Hc Hl]. rewrite <- app_comm_cons, find_eq.
    destruct (starts_with (crlf ++ p) (c :: l ++ crlf ++ rest)) eqn:E.
    + exfalso. apply Hc. apply starts_with_spec in E as [t E]. rewrite <- app_assoc in E.
      injection E as -> E. split; [done|]. destruct l as [|d l]; [done|]. by injection E as -> _.
    + rewrite IH by done. by destruct (find (crlf ++ p) rest).
Qed.

Definition lines_text (ls : list text) : text := flat_map (fun l => l ++ crlf) ls.

Lemma lines_text_cons l ls : lines_text (l :: ls) = l ++ crlf ++ lines_text ls.
Proof. unfold lines_text. cbn [flat_map]. by rewrite <- app_assoc. Qed.

(** A line of a header block: not empty. *)
Definition good_line (l : text) : Prop := l <> [] /\ no_crlf l = true.

Lemma starts_with_other c p d s : c <> d -> starts_with (c :: p) (d :: s) = false.
Proof. intros H. cbn. by rewrite decide_False. Qed.

(** The blank line is the first one. *)
Lemma find_blank_line ls rest :
  Forall good_line ls -> ls <> [] ->
  exists n, find (crlf ++ crlf) (lines_text ls ++ crlf ++ rest) = Some n
    /\ (n + 2)%nat = length (lines_text ls).
Proof.
  induction 1 as [|l ls [Hne Hl] Hls IH]; intros Hls0; [done|].
  rewrite lines_text_cons, <- !app_assoc, find_crlf_skip by done.
  destruct Hls as [|l' ls [Hne' Hl'] Hls].
  - exists (length l). split; [done|]. cbn [lines_text flat_map]. len_lia.
  - destruct IH as (n & Hn & Hlen); [done|]. rewrite Hn.
    assert (starts_with crlf (lines_text (l' :: ls) ++ crlf ++ rest) = false) as ->.
    { rewrite lines_text_cons. destruct l' as [|c l']; [done|]. apply no_crlf_cons in Hl' as [Hc _].
      destruct (starts_with crlf _) eqn:E; [|done]. apply starts_with_crlf_cons in E as [-> E].
      exfalso. apply Hc. split; [done|]. by destruct l'. }
    exists (length l + 2 + n)%nat. split; [done|]. len_lia.
Qed.

Lemma starts_with_line p l rest :
  ascii_of_nat 13 ∉ p -> starts_with p (l ++ crlf ++ rest) = starts_with p l.
Proof.
  revert l. induction p as [|c p IH]; intros l Hp; [by destruct l, rest|].
  apply not_elem_of_cons in Hp as [Hc Hp]. destruct l as [|d l].
  - apply (starts_with_other c p (ascii_of_nat 13)). done.
  - cbn. case_decide; [|done]. by apply IH.
Qed.

(** A header is not announced when no line begins with its name. *)
Lemma find_absent_header p l ls :
  ascii_of_nat 13 ∉ p -> p <> [] -> no_crlf l = true ->
  Forall (fun l => no_crlf l = true /\ starts_with p l = false) ls ->
  find (crlf ++ p) (l ++ crlf ++ lines_text ls ++ crlf) = None.
Proof.
  intros Hp Hne Hl Hls. revert l Hl. induction Hls as [|l' ls [Hl' Hs] Hls IH]; intros l Hl;
    rewrite find_crlf_skip by done.
  - destruct p as [|c p]; [done|]. apply not_elem_of_cons in Hp as [Hc Hp].
    assert (starts_with (c :: p) crlf = false) as Hs by (by apply starts_with_other).
    assert (find (crlf ++ c :: p) ([] ++ crlf ++ []) = None) as Hn.
    { by rewrite find_crlf_skip. }
    change ([] ++ crlf ++ []) with crlf in Hn.
    cbn [lines_text flat_map]. by rewrite app_nil_l, Hs, Hn.
  - rewrite lines_text_cons, <- !app_assoc, starts_with_line, Hs by done. by rewrite IH.
Qed.
