(* ===== verification/StringUtils.v ===== *)
(** * [rtspserver::utils::StringUtils] (src/utils/StringUtils.cpp)

    Trimming, case folding, splitting, Base64, [host:port] and URL helpers, with
    the specifications their callers rely on: [split] loses no character, Base64
    and percent-encoding can be inverted, ports are in range. *)

From S2P Require Import Prelude StdString.

(** ** Definitions *)

(** The second loop of [trim]: drop trailing white space. *)
Definition trim_right (s : text) : text := rev (skip_spaces (rev s)).

Definition trim (s : text) : text := trim_right (skip_spaces s).

Definition toLower (s : text) : text := map tolower s.

(** [split]: the [while] loop, one iteration per delimiter found from [start]. *)
Fixpoint split_loop (fuel : nat) (s : text) (delimiter : ascii) (start : nat)
    (tokens : list text) : option (list text) :=
  match fuel with
  | O => None
  | S f =>
      match find_from [delimiter] s start with
      | Some pos =>
          split_loop f s delimiter (pos + 1) (tokens ++ [substr s start (pos - start)])
      | None => Some (tokens ++ [substr_from s start])
      end
  end.

Definition split (s : text) (delimiter : ascii) : list text :=
  default [] (split_loop (S (length s)) s delimiter 0 []).

Definition kB64Table : text :=
  "ABCDEFGHIJKLMNOPQRSTUVWXYZabcdefghijklmnopqrstuvwxyz0123456789+/".

Definition b64_char (i : Z) : ascii := nth (Z.to_nat i) kB64Table "="%char.

(** One iteration of the [base64Encode] loop: [d[i]] and, where the input still
    has them, [d[i + 1]] and [d[i + 2]]. *)
Definition b64_group (d0 : Z) (d1 d2 : option Z) : text :=
  let b := Z.shiftl d0 16 in
  let b := match d1 with Some x => Z.lor b (Z.shiftl x 8) | None => b end in
  let b := match d2 with Some x => Z.lor b x | None => b end in
  [ b64_char (Z.land (Z.shiftr b 18) 63);
    b64_char (Z.land (Z.shiftr b 12) 63);
    match d1 with Some _ => b64_char (Z.land (Z.shiftr b 6) 63) | None => "="%char end;
    match d2 with Some _ => b64_char (Z.land b 63) | None => "="%char end ].

Fixpoint base64Encode (data : bytes) : text :=
  match data with
  | [] => []
  | [d0] => b64_group d0 None None
  | [d0; d1] => b64_group d0 (Some d1) None
  | d0 :: d1 :: d2 :: rest => b64_group d0 (Some d1) (Some d2) ++ base64Encode rest
  end.

(** [parseHostPort]: the returned flag and the final values of the two output
    parameters, which start as [host0] and [port0]. *)
Definition parseHostPort (hostport host0 : text) (port0 : Z) : bool * text * Z :=
  match rfind_char ":" hostport with
  | None => (false, host0, port0)
  | Some colon =>
      let host := substr hostport 0 colon in
      match stoi (substr_from hostport (colon + 1)) with
      | Ok p =>
          if (p <? 1) || (65535 <? p) then (false, host, port0)
          else (negb (bool_decide (host = [])), host, u16 p)
      | Throw _ => (false, host, port0)
      end
  end.

Definition urlPath (url : text) : text :=
  match find "//" url with
  | None => url
  | Some dslash =>
      match find_from "/" url (dslash + 2) with
      | None => "/"
      | Some slash => substr_from url slash
      end
  end.

Definition stripTrackSuffix (path : text) : text :=
  match rfind_char "/" path with
  | None => path
  | Some O => path
  | Some slash =>
      let segment := toLower (substr_from path (slash + 1)) in
      if contains "trackid" segment || contains "track" segment
      then substr path 0 slash
      else path
  end.

(** The [hexVal] lambda of [urlDecode]. *)
Definition hexVal (c : ascii) : Z :=
  let n := byte_of_char c in
  if (48 <=? n) && (n <=? 57) then n - 48
  else if (65 <=? n) && (n <=? 70) then n - 65 + 10
  else if (97 <=? n) && (n <=? 102) then n - 97 + 10
  else -1.

Fixpoint urlDecode (s : text) : text :=
  match s with
  | [] => []
  | c :: s' =>
      match s' with
      | h :: l :: rest =>
          if decide (c = "%"%char) then
            let hi := hexVal h in
            let lo := hexVal l in
            if (0 <=? hi) && (0 <=? lo)
            then char_of_byte (Z.lor (Z.shiftl hi 4) lo) :: urlDecode rest
            else c :: urlDecode s'
          else c :: urlDecode s'
      | _ => c :: urlDecode s'
      end
  end.

(** ** [trim] *)

Definition all_space (s : text) : Prop := Forall (fun c => isspace c = true) s.

(** Neither end is white space. *)
Definition trimmed (s : text) : Prop :=
  skip_spaces s = s /\ skip_spaces (rev s) = rev s.

Lemma skip_spaces_cut s :
  exists a, s = a ++ skip_spaces s /\ all_space a.
Proof.
  induction s as [|c s (a & Ha & Hs)]; simpl; [exists []; split; [done|constructor]|].
  destruct (isspace c) eqn:E.
  - exists (c :: a). split; [simpl; congruence | by constructor].
  - exists []. split; [done|constructor].
Qed.

Lemma skip_spaces_idemp s : skip_spaces (skip_spaces s) = skip_spaces s.
Proof.
  induction s as [|c s IH]; simpl; [done|].
  destruct (isspace c) eqn:E; [done|]. simpl. by rewrite E.
Qed.

Lemma skip_spaces_all s : all_space s -> skip_spaces s = [].
Proof. induction 1 as [|c s H _ IH]; simpl; [done | by rewrite H]. Qed.

Lemma skip_spaces_app_all a s : all_space a -> skip_spaces (a ++ s) = skip_spaces s.
Proof. induction 1 as [|c a H _ IH]; simpl; [done | by rewrite H]. Qed.

Lemma skip_spaces_head c s : isspace c = false -> skip_spaces (c :: s) = c :: s.
Proof. intros H. simpl. by rewrite H. Qed.

Lemma trim_right_cut s : exists b, s = trim_right s ++ b /\ all_space b.
Proof.
  unfold trim_right. destruct (skip_spaces_cut (rev s)) as (a & Ha & Hs).
  exists (rev a). split.
  - rewrite <- rev_app_distr, <- Ha. symmetry. apply rev_involutive.
  - by apply Forall_rev.
Qed.

Lemma trim_right_no_leading s : skip_spaces s = s -> skip_spaces (trim_right s) = trim_right s.
Proof.
  intros H. destruct (trim_right_cut s) as (b & Hb & _).
  destruct (trim_right s) as [|c r] eqn:E; [done|].
  apply skip_spaces_head. rewrite Hb in H. simpl in H.
  destruct (isspace c) eqn:Ec; [|done].
  destruct (skip_spaces_cut (r ++ b)) as (a & Ha & _).
  apply (f_equal length) in Ha. rewrite H in Ha. len_lia.
Qed.

Lemma trim_trimmed s : trimmed (trim s).
Proof.
  unfold trim. split.
  - apply trim_right_no_leading, skip_spaces_idemp.
  - unfold trim_right. rewrite rev_involutive. apply skip_spaces_idemp.
Qed.

Lemma trimmed_trim s : trimmed s -> trim s = s.
Proof.
  intros [H1 H2]. unfold trim, trim_right. rewrite H1, H2. apply rev_involutive.
Qed.

Lemma trim_cut s :
  exists a b, s = a ++ trim s ++ b /\ all_space a /\ all_space b.
Proof.
  destruct (skip_spaces_cut s) as (a & Ha & Hsa).
  destruct (trim_right_cut (skip_spaces s)) as (b & Hb & Hsb).
  exists a, b. split; [|done]. unfold trim. rewrite <- Hb. done.
Qed.

Lemma trim_pad a s b : all_space a -> all_space b -> trimmed s -> trim (a ++ s ++ b) = s.
Proof.
  intros Ha Hb [H1 H2]. unfold trim. rewrite skip_spaces_app_all by done.
  destruct s as [|c s].
  - simpl. by rewrite skip_spaces_all.
  - assert (isspace c = false) as Hc.
    { destruct (isspace c) eqn:E; [|done]. simpl in H1. rewrite E in H1.
      destruct (skip_spaces_cut s) as (x & Hx & _).
      apply (f_equal length) in Hx. rewrite H1 in Hx. len_lia. }
    simpl app. rewrite skip_spaces_head by done. unfold trim_right.
    change (c :: s ++ b) with ((c :: s) ++ b). rewrite rev_app_distr.
    rewrite skip_spaces_app_all by (by apply Forall_rev). rewrite H2.
    apply rev_involutive.
Qed.

(** ** [split] *)

(** Reference splitter, by recursion on the characters. *)
Fixpoint split_ref (s : text) (d : ascii) : list text :=
  match s with
  | [] => [[]]
  | c :: s' =>
      if decide (c = d) then [] :: split_ref s' d
      else match split_ref s' d with
           | t :: ts => (c :: t) :: ts
           | [] => [[c]]
           end
  end.

(** The tokens with the delimiter put back between them. *)
Fixpoint join (d : ascii) (l : list text) : text :=
  match l with
  | [] => []
  | [t] => t
  | t :: l' => t ++ d :: join d l'
  end.

Lemma split_ref_nonempty s d : split_ref s d <> [].
Proof.
  induction s as [|c s IH]; simpl; [done|]. case_decide; [done|].
  by destruct (split_ref s d).
Qed.

Lemma split_ref_absent s d : d ∉ s -> split_ref s d = [s].
Proof.
  induction s as [|c s IH]; intros Hd; [done|].
  apply not_elem_of_cons in Hd as [Hne Hd]. simpl. by rewrite decide_False, IH by done.
Qed.

Lemma split_ref_app a d s : d ∉ a -> split_ref (a ++ d :: s) d = a :: split_ref s d.
Proof.
  induction a as [|c a IH]; intros Hd; simpl; [by rewrite decide_True|].
  apply not_elem_of_cons in Hd as [Hne Hd]. by rewrite decide_False, IH by done.
Qed.

Lemma join_split_ref s d : join d (split_ref s d) = s.
Proof.
  induction s as [|c s IH]; simpl; [done|].
  pose proof (split_ref_nonempty s d). case_decide.
  - subst. destruct (split_ref s d); [done|]. simpl in *. congruence.
  - destruct (split_ref s d) as [|t [|u ts]]; [done| |]; simpl in *; congruence.
Qed.

Lemma split_ref_tokens s d : Forall (fun t => d ∉ t) (split_ref s d).
Proof.
  induction s as [|c s IH]; simpl; [repeat constructor; apply not_elem_of_nil|].
  case_decide; [constructor; [apply not_elem_of_nil | done]|].
  destruct (split_ref s d) as [|t ts].
  - constructor; [|constructor]. rewrite list_elem_of_singleton. congruence.
  - inversion IH; subst. constructor; [|done]. rewrite not_elem_of_cons. split; congruence.
Qed.

Lemma split_loop_spec fuel s d start tokens :
  (start <= length s)%nat -> (length s - start < fuel)%nat ->
  split_loop fuel s d start tokens = Some (tokens ++ split_ref (drop start s) d).
Proof.
  revert start tokens. induction fuel as [|fuel IH]; intros start tokens Hs Hf; [lia|].
  simpl. destruct (find_from [d] s start) as [pos|] eqn:E.
  - apply find_from_char_Some in E as (Hb & Hcut & Hd).
    rewrite IH by lia. rewrite <- app_assoc. do 2 f_equal.
    rewrite Hcut, split_ref_app by done.
    by replace (pos + 1)%nat with (S pos) by lia.
  - apply find_from_char_None in E; [|done]. by rewrite split_ref_absent.
Qed.

Lemma split_eq_ref s d : split s d = split_ref s d.
Proof. unfold split. by rewrite split_loop_spec by lia. Qed.

(** ** Base64 *)

(** Reference decoder (RFC 4648): four characters give up to three octets. *)
Definition b64_value (c : ascii) : option Z :=
  match find [c] kB64Table with
  | Some n => Some (Z.of_nat n)
  | None => None
  end.

Fixpoint b64_decode (s : text) : option bytes :=
  match s with
  | [] => Some []
  | c0 :: c1 :: c2 :: c3 :: rest =>
      v0 ← b64_value c0; v1 ← b64_value c1;
      let x0 := v0 * 4 + v1 / 16 in
      if decide (c2 = "="%char) then Some [x0]
      else v2 ← b64_value c2;
        let x1 := (v1 mod 16) * 16 + v2 / 4 in
        if decide (c3 = "="%char) then Some [x0; x1]
        else v3 ← b64_value c3; tl ← b64_decode rest;
          Some (x0 :: x1 :: (v2 mod 4) * 64 + v3 :: tl)
  | _ => None
  end.

Lemma b64_char_value i :
  0 <= i < 64 -> b64_value (b64_char i) = Some i /\ b64_char i <> "="%char.
Proof.
  intros H.
  pose proof (forall_below (fun i =>
    bool_decide (b64_value (b64_char i) = Some i /\ b64_char i <> "="%char)) 64) as F.
  specialize (F ltac:(vm_compute; reflexivity) i H). by apply bool_decide_eq_true in F.
Qed.

(** The 24-bit group assembled by the loop, as a number. *)
Lemma b64_word d0 d1 d2 :
  is_byte d1 -> is_byte d2 ->
  Z.lor (Z.lor (Z.shiftl d0 16) (Z.shiftl d1 8)) d2 = d0 * 65536 + d1 * 256 + d2.
Proof.
  intros H1 H2. rewrite lor_shiftl_add by bits_lia.
  rewrite Z.shiftl_mul_pow2 by lia.
  replace (d0 * 2 ^ 16 + d1 * 2 ^ 8) with ((d0 * 256 + d1) * 2 ^ 8) by bits_lia.
  rewrite lor_mul_pow2_add by bits_lia. bits_lia.
Qed.

Lemma b64_word2 d0 d1 :
  is_byte d1 -> Z.lor (Z.shiftl d0 16) (Z.shiftl d1 8) = d0 * 65536 + d1 * 256.
Proof. intros H1. rewrite lor_shiftl_add by bits_lia. bits_lia. Qed.

(** Decode one character of a group: its index is in the table's range. *)
Ltac b64_step :=
  match goal with
  | |- context [b64_value (b64_char ?i)] =>
      let H := fresh in
      assert (0 <= i < 64) as H by (rewrite land_63; apply Z.mod_pos_bound; lia);
      rewrite (proj1 (b64_char_value i H)); cbn [mbind option_bind]
  | |- context [decide (b64_char ?i = _)] =>
      let H := fresh in
      assert (0 <= i < 64) as H by (rewrite land_63; apply Z.mod_pos_bound; lia);
      rewrite decide_False by exact (proj2 (b64_char_value i H))
  end.

Lemma b64_decode_group3 d0 d1 d2 s :
  is_byte d0 -> is_byte d1 -> is_byte d2 ->
  b64_decode (b64_group d0 (Some d1) (Some d2) ++ s)
    = tl ← b64_decode s; Some (d0 :: d1 :: d2 :: tl).
Proof.
  intros H0 H1 H2. unfold b64_group. rewrite b64_word by done.
  cbn [app b64_decode]. repeat b64_step. rewrite !land_63.
  destruct (b64_decode s); [|done]. simpl. repeat f_equal; bits_lia.
Qed.

Lemma b64_decode_group2 d0 d1 :
  is_byte d0 -> is_byte d1 -> b64_decode (b64_group d0 (Some d1) None) = Some [d0; d1].
Proof.
  intros H0 H1. unfold b64_group. rewrite b64_word2 by done.
  cbn [b64_decode]. repeat b64_step. rewrite decide_True by done. rewrite !land_63.
  repeat f_equal; bits_lia.
Qed.

Lemma b64_decode_group1 d0 :
  is_byte d0 -> b64_decode (b64_group d0 None None) = Some [d0].
Proof.
  intros H0. unfold b64_group. cbn [b64_decode]. repeat b64_step.
  rewrite decide_True by done. rewrite !land_63. repeat f_equal; bits_lia.
Qed.

(** [list_ind3]: induction by groups of three. *)
Lemma list_ind3 {A} (P : list A -> Prop) :
  P [] -> (forall x, P [x]) -> (forall x y, P [x; y]) ->
  (forall x y z l, P l -> P (x :: y :: z :: l)) -> forall l, P l.
Proof.
  intros H0 H1 H2 H3 l.
  assert (forall n l, (length l <= n)%nat -> P l) as H; [|by apply (H (length l))].
  clear l. induction n as [|n IH]; intros [|x [|y [|z l]]] Hl; simpl in Hl; auto; try lia.
  apply H3, IH. lia.
Qed.

(** [base64Encode] followed by a base64 decoder written independently of it (padding
    included) is the identity on byte sequences of every length. *)
Theorem base64_roundtrip data :
  Forall is_byte data -> b64_decode (base64Encode data) = Some data.
Proof.
  induction data as [|x|x y|x y z l IH] using list_ind3; intros H;
    repeat (apply Forall_cons in H as [? H]).
  - done.
  - by apply b64_decode_group1.
  - by apply b64_decode_group2.
  - cbn [base64Encode]. rewrite b64_decode_group3, IH by done. done.
Qed.

Lemma base64_roundtrip_witness :
  base64Encode [103; 66; 0; 31] = "Z0IAHw=="
  /\ b64_decode (base64Encode [103; 66; 0; 31]) = Some [103; 66; 0; 31].
Proof.
  split; [reflexivity|].
  apply (base64_roundtrip [103; 66; 0; 31]). repeat constructor; unfold is_byte; lia.
Defined.

(** [split] (the [find] loop) returns the tokens of the reference splitter: they
    hold no delimiter and joining them with the delimiter gives the string back. *)
Theorem split_correct s d :
  split s d = split_ref s d
  /\ join d (split s d) = s
  /\ Forall (fun t => d ∉ t) (split s d).
Proof.
  rewrite split_eq_ref. split; [done|]. split; [apply join_split_ref|].
  apply split_ref_tokens.
Qed.

(** ** [parseHostPort] *)

(** The final segment after the last colon must be a number in the port range,
    and the host must not be empty. *)
Lemma parseHostPort_accepts s h0 p0 h p :
  parseHostPort s h0 p0 = (true, h, p) ->
  h <> [] /\ 1 <= p <= 65535
  /\ exists rest, s = h ++ (":"%char :: rest) /\ (":"%char ∉ rest) /\ stoi rest = Ok p.
Proof.
  unfold parseHostPort. destruct (rfind_char ":" s) as [n|] eqn:E; [|done].
  destruct (rfind_char_Some _ _ _ E) as [Hs Hc].
  replace (substr_from s (n + 1)) with (drop (S n) s)
    by (unfold substr_from; f_equal; lia).
  replace (substr s 0 n) with (take n s) by (unfold substr; by rewrite drop_0).
  destruct (stoi (drop (S n) s)) as [v|] eqn:Ev; [|done].
  destruct (Z.ltb_spec v 1); [done|]. destruct (Z.ltb_spec 65535 v); [done|].
  intros [= Hb <- <-]. apply negb_true_iff, bool_decide_eq_false in Hb.
  rewrite u16_small by lia. split; [done|]. split; [lia|]. by exists (drop (S n) s).
Qed.

Lemma to_string_no_colon z : ":"%char ∉ to_string z.
Proof.
  assert (forall n, 0 <= n -> ":"%char ∉ decimal n) as H.
  { intros n Hn. pose proof (decimal_digits n Hn) as F. rewrite Forall_forall in F.
    intros Hin. by apply F in Hin. }
  unfold to_string. destruct (Z.ltb_spec z 0).
  - simpl. rewrite not_elem_of_cons. split; [done|]. apply H. lia.
  - by apply H.
Qed.

Lemma parseHostPort_printed h p h0 p0 :
  h <> [] -> 1 <= p <= 65535 ->
  parseHostPort (h ++ ":" ++ to_string p) h0 p0 = (true, h, p).
Proof.
  intros Hh Hp. unfold parseHostPort. change (":" ++ to_string p) with (":"%char :: to_string p).
  rewrite rfind_char_app by apply to_string_no_colon.
  unfold substr, substr_from. rewrite drop_0, take_app_length.
  replace (length h + 1)%nat with (length (h ++ [":"%char])) by len_lia.
  rewrite (app_cons_assoc h _ (to_string p)), drop_app_length.
  rewrite <- (app_nil_r (to_string p)), stoi_to_string; [|unfold int_min, int_max; lia|done].
  destruct (Z.ltb_spec p 1); [lia|]. destruct (Z.ltb_spec 65535 p); [lia|]. simpl.
  rewrite u16_small by lia. by rewrite bool_decide_eq_false_2.
Qed.

(** [parseHostPort] accepts [host:port] for every non-empty host (colons included) and
    every port in 1..65535 and returns exactly these; whatever it accepts is a non-empty
    host, the last colon, and a text that [stoi] reads as the returned port, in range. *)
Theorem parseHostPort_spec :
  (forall h p h0 p0, h <> [] -> 1 <= p <= 65535 ->
     parseHostPort (h ++ ":" ++ to_string p) h0 p0 = (true, h, p))
  /\ (forall s h0 p0 h p, parseHostPort s h0 p0 = (true, h, p) ->
       h <> [] /\ 1 <= p <= 65535
       /\ exists rest, s = h ++ (":"%char :: rest) /\ (":"%char ∉ rest) /\ stoi rest = Ok p).
Proof. split; [apply parseHostPort_printed | apply parseHostPort_accepts]. Qed.

Example parseHostPort_ipv4 : parseHostPort "127.0.0.1:8554" [] 0 = (true, "127.0.0.1", 8554).
Proof. reflexivity. Qed.

(** ** URLs *)

Lemma urlDecode_cons_other c s : c <> "%"%char -> urlDecode (c :: s) = c :: urlDecode s.
Proof.
  intros Hc. destruct s as [|h [|l r]]; [done|done|].
  cbn [urlDecode]. by rewrite decide_False.
Qed.

Lemma urlDecode_escape h l r :
  0 <= hexVal h -> 0 <= hexVal l ->
  urlDecode ("%"%char :: h :: l :: r)
    = char_of_byte (Z.lor (Z.shiftl (hexVal h) 4) (hexVal l)) :: urlDecode r.
Proof.
  intros Hh Hl. cbn [urlDecode]. rewrite decide_True by done. cbv zeta.
  by rewrite (proj2 (Z.leb_le _ _) Hh), (proj2 (Z.leb_le _ _) Hl).
Qed.

Lemma urlDecode_nonempty s : s <> [] -> urlDecode s <> [].
Proof.
  destruct s as [|c [|h [|l r]]]; [done|done|done|]. intros _. cbn [urlDecode].
  case_decide; [|done]. by case_if.
Qed.

(** Percent-encoding with any set of characters left as they are. *)
Definition hex_char (d : Z) : ascii := nth (Z.to_nat d) "0123456789ABCDEF" "0"%char.

Definition percent (c : ascii) : text :=
  ["%"%char; hex_char (byte_of_char c / 16); hex_char (byte_of_char c mod 16)].

Definition urlEncode (keep : ascii -> bool) (s : text) : text :=
  flat_map (fun c => if keep c then [c] else percent c) s.

Lemma hexVal_hex_char d : 0 <= d < 16 -> hexVal (hex_char d) = d.
Proof.
  intros H. apply Z.eqb_eq.
  apply (forall_below (fun d => hexVal (hex_char d) =? d) 16); [reflexivity | done].
Qed.

Lemma urlDecode_percent c s : urlDecode (percent c ++ s) = c :: urlDecode s.
Proof.
  pose proof (byte_of_char_range c) as Hb. unfold is_byte in Hb.
  unfold percent. cbn [app].
  assert (0 <= byte_of_char c / 16 < 16) by (Z.div_mod_to_equations; lia).
  assert (0 <= byte_of_char c mod 16 < 16) by (Z.div_mod_to_equations; lia).
  rewrite urlDecode_escape; rewrite !hexVal_hex_char by done; [|lia|lia].
  rewrite lor_shiftl_add by (change (2 ^ 4) with 16; lia).
  replace (byte_of_char c / 16 * 2 ^ 4 + byte_of_char c mod 16) with (byte_of_char c)
    by (change (2 ^ 4) with 16; Z.div_mod_to_equations; lia).
  by rewrite char_of_byte_of_char.
Qed.

(** [urlDecode] inverts percent-encoding, whichever characters the encoder
    leaves unescaped, as long as it escapes the percent sign. *)
Theorem urlDecode_urlEncode keep s :
  keep "%"%char = false -> urlDecode (urlEncode keep s) = s.
Proof.
  intros Hk. induction s as [|c s IH]; [done|]. cbn [urlEncode flat_map].
  fold (urlEncode keep s). destruct (keep c) eqn:E.
  - change ([c] ++ urlEncode keep s) with (c :: urlEncode keep s).
    rewrite urlDecode_cons_other, IH by congruence. done.
  - by rewrite urlDecode_percent, IH.
Qed.

Lemma urlDecode_urlEncode_witness :
  urlDecode (urlEncode (fun _ => false) "../a b") = "../a b".
Proof. apply (urlDecode_urlEncode (fun _ => false) "../a b"). reflexivity. Defined.

Lemma urlPath_absolute scheme authority path :
  "/"%char ∉ scheme -> "/"%char ∉ authority ->
  urlPath (scheme ++ "//" ++ authority ++ "/" ++ path) = "/" ++ path.
Proof.
  intros Hs Ha. unfold urlPath. rewrite (find_app_first "/"%char "/") by done.
  unfold find_from.
  rewrite (proj2 (Nat.leb_le _ _)) by len_lia.
  replace (length scheme + 2)%nat with (length (scheme ++ "//")) by len_lia.
  rewrite (app_assoc scheme), drop_app_length.
  change ("/" ++ path) with ("/"%char :: path). rewrite find_char_app by done.
  unfold substr_from.
  replace (length (scheme ++ "//") + length authority)%nat
    with (length ((scheme ++ "//") ++ authority)) by len_lia.
  rewrite (app_assoc (scheme ++ "//")), drop_app_length. done.
Qed.

Lemma urlPath_nonempty url : url <> [] -> urlPath url <> [].
Proof.
  intros H. unfold urlPath. destruct (find "//" url); [|done].
  destruct (find_from "/" url _) as [k|] eqn:E; [|done].
  apply find_from_char_Some in E as (Hb & _). unfold substr_from.
  intros Hd. apply (f_equal length) in Hd. len_lia.
Qed.

(** The suffix is dropped as a whole segment: the result is the path or the path
    up to a slash that is not its first character. *)
Lemma stripTrackSuffix_cut p :
  stripTrackSuffix p = p
  \/ exists seg, p = stripTrackSuffix p ++ ("/"%char :: seg)
       /\ stripTrackSuffix p <> [] /\ "/"%char ∉ seg.
Proof.
  unfold stripTrackSuffix. destruct (rfind_char "/" p) as [[|n]|] eqn:E; [by left| |by left].
  destruct (rfind_char_Some _ _ _ E) as [Hp Hc].
  case_if; [|by left]. right. exists (drop (S (S n)) p).
  unfold substr. rewrite drop_0. split; [done|]. split; [|done].
  by destruct p.
Qed.
