(* ===== verification/Double.v ===== *)
(** * [double]

    IEEE 754 binary64 as the Standard Library's executable specification floats
    (53 bits of precision, maximal exponent 1024, round to nearest even), with the
    conversions the program performs: from and to integers, [std::stod], and fixed
    notation with three decimals.

    Conversions from [double] to an integer type that cannot hold the value are
    undefined in C++; they are modelled as the x86-64 instruction behaves, which
    yields the smallest 64-bit integer. *)

From Stdlib Require Export SpecFloat.
From S2P Require Import Prelude StdString.

Abbreviation double := spec_float.

(** ** Arithmetic and comparisons *)

Definition d_of_Z (z : Z) : double := binary_normalize 53 1024 z 0 false.

(** A literal such as [90000.0]. *)
Definition dzero : double := S754_zero false.
Definition dadd : double -> double -> double := SFadd 53 1024.
Definition dmul : double -> double -> double := SFmul 53 1024.
Definition ddiv : double -> double -> double := SFdiv 53 1024.
Definition dltb : double -> double -> bool := SFltb.
Definition dleb : double -> double -> bool := SFleb.

(** [std::max(0.0, x)] *)
Definition max0 (x : double) : double := if dltb dzero x then x else dzero.

(** Truncation towards zero; [None] for infinities and NaN. *)
Definition d_trunc (d : double) : option Z :=
  match d with
  | S754_zero _ => Some 0
  | S754_finite s m e =>
      let a := if 0 <=? e then Zpos m * 2 ^ e else Zpos m / 2 ^ (- e) in
      Some (if (s : bool) then - a else a)
  | _ => None
  end.

Definition i64_min : Z := - 2 ^ 63.
Definition i64_max : Z := 2 ^ 63 - 1.

(** Is [static_cast<int64_t>(d)] defined by the language? *)
Definition fits_i64 (d : double) : bool :=
  match d_trunc d with Some z => (i64_min <=? z) && (z <=? i64_max) | None => false end.

(** [static_cast<int64_t>(d)] *)
Definition cast_i64 (d : double) : Z :=
  match d_trunc d with
  | Some z => if (i64_min <=? z) && (z <=? i64_max) then z else i64_min
  | None => i64_min
  end.

(** [static_cast<uint32_t>(d)]: through a 64-bit integer. *)
Definition cast_u32 (d : double) : Z := u32 (cast_i64 d).

(** ** Printing with [std::fixed << std::setprecision(3)] *)

(** [m * 2^e * 1000] rounded to an integer, ties to even. *)
Definition round_milli (m : positive) (e : Z) : Z :=
  if 0 <=? e then Zpos m * 2 ^ e * 1000
  else
    let d := 2 ^ (- e) in
    let q := Zpos m * 1000 / d in
    let r := (Zpos m * 1000) mod d in
    if (d <? 2 * r) || ((d =? 2 * r) && Z.odd q) then q + 1 else q.

Definition three_digits (n : Z) : text :=
  [digit_char (n / 100 mod 10); digit_char (n / 10 mod 10); digit_char (n mod 10)].

Definition print_milli (neg : bool) (n : Z) : text :=
  (if neg then "-" else []) ++ decimal (n / 1000) ++ "." ++ three_digits (n mod 1000).

Definition fixed3 (d : double) : text :=
  match d with
  | S754_zero s => print_milli s 0
  | S754_finite s m e => print_milli s (round_milli m e)
  | S754_infinity s => (if (s : bool) then "-" else []) ++ "inf"
  | S754_nan => "nan"
  end.

(** ** [std::stod] *)

(** The double nearest to [num / den]: at least 64 quotient bits and a sticky bit. *)
Definition round_ratio (num den : Z) : double :=
  if num =? 0 then dzero
  else
    let sh := Z.max 0 (64 + Z.log2 den - Z.log2 num) in
    let q := num * 2 ^ sh / den in
    let sticky := if (num * 2 ^ sh) mod den =? 0 then 0 else 1 in
    binary_normalize 53 1024 (2 * q + sticky) (- (sh + 1)) false.

(** [errno == ERANGE]: overflow, or an inexact result below the normal range. *)
Definition range_error (num den : Z) (d : double) : bool :=
  match d with
  | S754_infinity _ => true
  | S754_zero _ => negb (num =? 0)
  | S754_finite _ m e =>
      (Zpos m <? 2 ^ 52)
      && negb (if 0 <=? e then Zpos m * 2 ^ e * den =? num else Zpos m * den =? num * 2 ^ (- e))
  | S754_nan => false
  end.

Definition d_neg (neg : bool) (d : double) : double := if neg then SFopp d else d.

Definition finish (neg : bool) (num den : Z) : result double :=
  let d := round_ratio num den in
  if range_error num den d then Throw out_of_range else Ok (d_neg neg d).

(** A run of digits of a base: value accumulated on [acc], number of digits, rest. *)
Section digits.
Context (base : Z) (digit : ascii -> option Z).
Fixpoint digit_run (s : text) (acc n : Z) : Z * Z * text :=
  match s with
  | c :: s' =>
      match digit c with
      | Some d => digit_run s' (acc * base + d) (n + 1)
      | None => (acc, n, s)
      end
  | [] => (acc, n, [])
  end.
End digits.

Definition dec_digit (c : ascii) : option Z := if isdigit c then Some (digit_val c) else None.

Definition hex_digit (c : ascii) : option Z :=
  if isdigit c then Some (digit_val c)
  else let n := Z.of_nat (nat_of_ascii (tolower c)) in
       if (97 <=? n) && (n <=? 102) then Some (n - 87) else None.

(** The exponent part behind the letter [mark]; 0 when it is absent or malformed. *)
Definition read_exponent (mark : ascii) (s : text) : Z :=
  match s with
  | c :: s' =>
      if decide (tolower c = mark) then
        let (neg, ds) := read_sign s' in
        if has_digit ds then
          let v := read_digits ds 0 in if (neg : bool) then - v else v
        else 0
      else 0
  | [] => 0
  end.

(** Digits, an optional fraction: mantissa, digits read, fraction digits, rest. *)
Definition read_mantissa (base : Z) (digit : ascii -> option Z) (s : text)
    : Z * Z * Z * text :=
  let '(m, n, r) := digit_run base digit s 0 0 in
  match r with
  | c :: r' =>
      if decide (c = "."%char) then
        let '(m', k, r'') := digit_run base digit r' m 0 in (m', n + k, k, r'')
      else (m, n, 0, r)
  | [] => (m, n, 0, r)
  end.

(** [m * b^x] as a fraction. *)
Definition scale (neg : bool) (m b x : Z) : result double :=
  if 0 <=? x then finish neg (m * b ^ x) 1 else finish neg m (b ^ (- x)).

Definition stod_decimal (neg : bool) (s : text) : result double :=
  let '(m, n, k, r) := read_mantissa 10 dec_digit s in
  if n =? 0 then Throw invalid_argument
  else scale neg m 10 (read_exponent "e" r - k).

Definition stod (s : text) : result double :=
  let (neg, s1) := read_sign (skip_spaces s) in
  let l := map tolower s1 in
  if starts_with "inf" l then Ok (S754_infinity neg)
  else if starts_with "nan" l then Ok S754_nan
  else if starts_with "0x" l then
    let '(m, n, k, r) := read_mantissa 16 hex_digit (drop 2 s1) in
    if n =? 0 then stod_decimal neg s1
    else scale neg m 2 (read_exponent "p" r - 4 * k)
  else stod_decimal neg s1.

(** ** Facts *)

Lemma cast_u32_range d : 0 <= cast_u32 d < 4294967296.
Proof. apply u32_range. Qed.

Lemma cast_i64_range d : i64_min <= cast_i64 d <= i64_max.
Proof.
  unfold cast_i64. destruct (d_trunc d) as [z|].
  - destruct (Z.leb_spec i64_min z), (Z.leb_spec z i64_max); simpl;
      unfold i64_min, i64_max in *; lia.
  - unfold i64_min, i64_max. lia.
Qed.

Lemma max0_not_negative d : dltb (max0 d) dzero = false.
Proof.
  unfold max0. destruct (dltb dzero d) eqn:E; [|reflexivity].
  unfold dltb, SFltb in *. destruct d as [s|s| |s m e]; try destruct s; done.
Qed.

(** A fixed-notation number is one word without a carriage return. *)
Lemma fixed3_chars d : Forall (fun c => isspace c = false /\ c <> ascii_of_nat 13) (fixed3 d).
Proof.
  assert (forall c, isdigit c = true -> isspace c = false /\ c <> ascii_of_nat 13) as D.
  { intros c H. split; [by apply isdigit_not_special|]. by intros ->. }
  assert (forall n, isdigit (digit_char (n mod 10)) = true) as D10.
  { intros n. apply digit_char_spec, Z.mod_pos_bound. lia. }
  assert (forall neg n, 0 <= n ->
    Forall (fun c => isspace c = false /\ c <> ascii_of_nat 13) (print_milli neg n)) as P.
  { intros neg n Hn. unfold print_milli. apply Forall_app. split.
    { destruct neg; repeat constructor; discriminate. }
    apply Forall_app. split.
    { eapply Forall_impl; [apply decimal_digits, Z.div_pos; lia | apply D]. }
    constructor; [split; [reflexivity|discriminate]|].
    repeat constructor; apply D, D10. }
  destruct d as [s|s| |s m e]; simpl.
  - by apply P.
  - destruct s; repeat constructor; discriminate.
  - repeat constructor; discriminate.
  - apply P. unfold round_milli. case_if; [lia|].
    assert (0 <= Z.pos m * 1000 / 2 ^ (- e)).
    { apply Z.div_pos; [lia|]. apply Z.pow_pos_nonneg; [lia|].
      apply Z.leb_gt in Heqb. lia. }
    case_if; lia.
Qed.
