(* ===== verification/RTSPRequest.v ===== *)
(** * [RTSPRequest] (src/rtsp/RTSPRequest.cpp, include/rtspserver/rtsp/RTSPRequest.hpp)

    Parsing of a complete request held in one string, header look-up and the CSeq
    number.  The parser is proved to invert a printer of requests, to keep header
    names lower-case and values trimmed, and its header loop to terminate. *)

From S2P Require Import Prelude StdString StringUtils.

(** ** Definitions *)

Record RTSPRequest := mkRequest {
  method : text;
  url : text;
  version : text;
  headers : gmap text text;
  body : text
}.

(** The [nextLine] lambda: the line that starts at [pos] and the position after its
    CRLF. *)
Definition nextLine (raw : text) (pos : nat) : option (text * nat) :=
  match find_from crlf raw pos with
  | None => None
  | Some e => Some (substr raw pos (e - pos), (e + 2)%nat)
  end.

(** One header line: [req.headers[name] = value], lines without a colon are skipped. *)
Definition parse_header_line (line : text) (hs : gmap text text) : gmap text text :=
  match find ":" line with
  | None => hs
  | Some colon =>
      let name := toLower (trim (substr line 0 colon)) in
      let value := trim (substr_from line (colon + 1)) in
      <[name := value]> hs
  end.

(** The header loop: the headers and the position where it stopped. *)
Fixpoint parse_headers (fuel : nat) (raw : text) (pos : nat) (hs : gmap text text)
    : option (gmap text text * nat) :=
  match fuel with
  | O => None
  | S f =>
      match nextLine raw pos with
      | None => Some (hs, pos)
      | Some (line, pos') =>
          if bool_decide (line = []) then Some (hs, pos')
          else parse_headers f raw pos' (parse_header_line line hs)
      end
  end.

(** The body, when a Content-Length is present and covered by the message;
    [pos + body_len] is computed in [size_t]. *)
Definition parse_body (raw : text) (pos : nat) (hs : gmap text text) : text :=
  match hs !! ("content-length" : text) with
  | None => []
  | Some v =>
      match stoul v with
      | Ok body_len =>
          if u64 (Z.of_nat pos + body_len) <=? Z.of_nat (length raw)
          then substr_z raw pos body_len else []
      | Throw _ => []
      end
  end.

Definition parse (raw : text) : option RTSPRequest :=
  match nextLine raw 0 with
  | None => None
  | Some (first, pos) =>
      match split first " " with
      | p0 :: p1 :: p2 :: _ =>
          let v := trim p2 in
          if bool_decide (find "RTSP/" v = Some 0%nat) then
            '(hs, pos') ← parse_headers (S (length raw)) raw pos ∅;
            Some {| method := trim p0; url := trim p1; version := v;
                    headers := hs; body := parse_body raw pos' hs |}
          else None
      | _ => None
      end
  end.

Definition header (r : RTSPRequest) (name : text) : text :=
  default [] (headers r !! toLower name).

Definition cseq (r : RTSPRequest) : Z :=
  let val := header r "cseq" in
  if bool_decide (val = []) then -1 else try_default (stoi val) (-1).

(** ** Lines *)

Lemma nextLine_app pre line rest :
  no_crlf line = true ->
  nextLine (pre ++ line ++ crlf ++ rest) (length pre)
    = Some (line, (length pre + length line + 2)%nat).
Proof.
  intros H. unfold nextLine. rewrite find_from_skip, find_crlf_app by done.
  unfold substr. rewrite drop_app_length.
  replace (length pre + length line - length pre)%nat with (length line) by lia.
  by rewrite take_app_length.
Qed.

Lemma nextLine_progress raw pos line pos' :
  nextLine raw pos = Some (line, pos') -> (pos + 2 <= pos' <= length raw)%nat.
Proof.
  unfold nextLine. destruct (find_from crlf raw pos) as [e|] eqn:E; [|done].
  intros [= _ <-]. apply find_from_spec in E as (b & _ & ? & Hl). simpl in Hl. lia.
Qed.

(** The header loop terminates: every line consumes at least its CRLF. *)
Lemma parse_headers_total fuel raw pos hs :
  (length raw < fuel + pos)%nat -> (pos <= length raw)%nat ->
  is_Some (parse_headers fuel raw pos hs).
Proof.
  revert pos hs. induction fuel as [|fuel IH]; intros pos hs Hf Hp; [lia|]. simpl.
  destruct (nextLine raw pos) as [[line pos']|] eqn:E; [|by eexists].
  case_bool_decide; [by eexists|]. apply nextLine_progress in E. apply IH; lia.
Qed.

(** ** Well-formed headers *)

Lemma tolower_idemp c : tolower (tolower c) = tolower c.
Proof. destruct c as [[] [] [] [] [] [] [] []]; reflexivity. Qed.

Lemma toLower_idemp s : toLower (toLower s) = toLower s.
Proof.
  unfold toLower. rewrite map_map. apply map_ext. apply tolower_idemp.
Qed.

(** What [nextLine] returns is one line. *)
Lemma nextLine_line raw pos line pos' :
  nextLine raw pos = Some (line, pos') -> no_crlf line = true.
Proof.
  unfold nextLine, find_from, substr. destruct (_ <=? _)%nat; [|done].
  destruct (find crlf (drop pos raw)) as [m|] eqn:E; [|done]. intros [= <- _].
  replace (pos + m - pos)%nat with m by lia. by apply find_crlf_no_crlf.
Qed.

(** Every stored name is lower-case and every stored value is trimmed. *)
Definition headers_wf (hs : gmap text text) : Prop :=
  map_Forall (fun k v => toLower k = k /\ trimmed v) hs.

Lemma parse_header_line_wf line hs : headers_wf hs -> headers_wf (parse_header_line line hs).
Proof.
  intros H. unfold parse_header_line. destruct (find ":" line); [|done].
  apply map_Forall_insert_2; [|done]. split; [apply toLower_idemp | apply trim_trimmed].
Qed.

Lemma parse_headers_wf fuel raw pos hs hs' pos' :
  headers_wf hs -> parse_headers fuel raw pos hs = Some (hs', pos') -> headers_wf hs'.
Proof.
  revert pos hs. induction fuel as [|fuel IH]; intros pos hs Hw; simpl; [done|].
  destruct (nextLine raw pos) as [[line p]|]; [|by intros [= <- <-]].
  case_bool_decide; [by intros [= <- <-]|].
  apply IH. by apply parse_header_line_wf.
Qed.

Lemma parse_headers_pos fuel raw pos hs hs' pos' :
  (pos <= length raw)%nat ->
  parse_headers fuel raw pos hs = Some (hs', pos') -> (pos' <= length raw)%nat.
Proof.
  revert pos hs. induction fuel as [|fuel IH]; intros pos hs Hp; simpl; [done|].
  destruct (nextLine raw pos) as [[line p]|] eqn:E; [|by intros [= <- <-]].
  apply nextLine_progress in E.
  case_bool_decide; [by intros [= <- <-]; lia|]. apply IH. lia.
Qed.

(** ** Printing a request *)

Definition render_header (h : text * text) : text := fst h ++ ": " ++ snd h ++ crlf.

Definition render (m u v : text) (hs : list (text * text)) (b : text) : text :=
  m ++ " " ++ u ++ " " ++ v ++ crlf ++ flat_map render_header hs ++ crlf ++ b.

(** The map the printed headers stand for: later lines replace earlier ones. *)
Definition header_map (hs : list (text * text)) (m : gmap text text) : gmap text text :=
  fold_left (fun acc h => <[toLower (fst h) := snd h]> acc) hs m.

Lemma header_map_other hs m k :
  Forall (fun h => toLower (fst h) <> k) hs -> header_map hs m !! k = m !! k.
Proof.
  revert m. induction hs as [|h hs IH]; intros m Hf; [done|].
  apply Forall_cons in Hf as [Hk Hf]. unfold header_map in *. cbn [fold_left].
  rewrite IH by done. by rewrite lookup_insert_ne.
Qed.

Definition no_space (s : text) : Prop := Forall (fun c => isspace c = false) s.

Definition good_header (h : text * text) : Prop :=
  trimmed (fst h) /\ trimmed (snd h) /\ (":"%char ∉ fst h)
  /\ (ascii_of_nat 13 ∉ fst h) /\ no_crlf (snd h) = true.

Lemma good_header_no_crlf n v : good_header (n, v) -> no_crlf (n ++ ": " ++ v) = true.
Proof.
  intros (_ & _ & _ & H1 & H2). apply no_crlf_app; [by apply no_cr_no_crlf| |done].
  apply (proj2 (no_crlf_cons ":" (" " ++ v))). split; [by intros [? ?]|].
  apply (proj2 (no_crlf_cons " " v)). split; [by intros [? ?]|done].
Qed.

Lemma no_space_trimmed s : no_space s -> trimmed s.
Proof.
  assert (forall t, no_space t -> skip_spaces t = t) as H.
  { intros t Ht. destruct Ht as [|c t Hc _]; [done|]. simpl. by rewrite Hc. }
  intros Hs. split; apply H; [done|]. by apply Forall_rev.
Qed.

Lemma no_space_notin s c : no_space s -> isspace c = true -> c ∉ s.
Proof.
  intros Hs Hc Hin. unfold no_space in Hs. rewrite Forall_forall in Hs.
  apply Hs in Hin. congruence.
Qed.

Lemma parse_header_line_render n v hs :
  good_header (n, v) -> parse_header_line (n ++ ": " ++ v) hs = <[toLower n := v]> hs.
Proof.
  intros (Hn & Hv & Hc & _). simpl in *. unfold parse_header_line.
  change (n ++ ": " ++ v) with (n ++ ":"%char :: " " ++ v).
  rewrite find_char_app by done. unfold substr, substr_from.
  rewrite drop_0, take_app_length, trimmed_trim by done.
  replace (length n + 1)%nat with (length (n ++ [":"%char])) by len_lia.
  rewrite (app_cons_assoc n _ (" " ++ v)), drop_app_length.
  pose proof (trim_pad " " v []) as T. rewrite app_nil_r in T.
  rewrite T; [done|repeat constructor|constructor|done].
Qed.

Lemma parse_headers_render hs pre b fuel acc :
  Forall good_header hs -> (length hs < fuel)%nat ->
  parse_headers fuel (pre ++ flat_map render_header hs ++ crlf ++ b) (length pre) acc
    = Some (header_map hs acc,
            (length pre + length (flat_map render_header hs) + 2)%nat).
Proof.
  revert pre fuel acc. induction hs as [|[n v] hs IH]; intros pre fuel acc Hg Hf;
    (destruct fuel as [|fuel]; [simpl in Hf; lia|]).
  - cbn [flat_map parse_headers]. by rewrite nextLine_app.
  - apply Forall_cons in Hg as [Hh Hg]. cbn [flat_map parse_headers].
    set (line := n ++ ": " ++ v).
    assert (render_header (n, v) = line ++ crlf) as ->.
    { unfold render_header, line. simpl. by rewrite <- app_assoc. }
    replace (pre ++ ((line ++ crlf) ++ flat_map render_header hs) ++ crlf ++ b)
      with (pre ++ line ++ crlf ++ flat_map render_header hs ++ crlf ++ b)
      by (by rewrite <- !app_assoc).
    rewrite nextLine_app by (by apply good_header_no_crlf).
    rewrite bool_decide_eq_false_2 by (unfold line; by destruct n).
    replace (parse_header_line line acc) with (<[toLower n := v]> acc)
      by (symmetry; by apply parse_header_line_render).
    specialize (IH (pre ++ line ++ crlf) fuel (<[toLower n := v]> acc) Hg).
    rewrite <- !app_assoc in IH.
    replace (length pre + length line + 2)%nat with (length (pre ++ line ++ crlf))
      by len_lia.
    rewrite IH by (simpl in Hf; lia). cbn [header_map fold_left fst snd].
    f_equal. f_equal. len_lia.
Qed.

(** The lines of the headers. *)
Definition header_line (h : text * text) : text := fst h ++ ": " ++ snd h.

Lemma lines_of_headers hs : lines_text (map header_line hs) = flat_map render_header hs.
Proof.
  induction hs as [|h hs IH]; [done|]. cbn [map]. rewrite lines_text_cons, IH.
  cbn [flat_map]. unfold render_header, header_line. by rewrite <- !app_assoc.
Qed.

Lemma good_header_line h : good_header h -> good_line (header_line h).
Proof.
  destruct h as [k v]. intros Hh. split; [by destruct k|by apply good_header_no_crlf].
Qed.

(** The request line splits into exactly its three words. *)
Lemma split_request_line m u v :
  no_space m -> no_space u -> no_space v -> split (m ++ " " ++ u ++ " " ++ v) " " = [m; u; v].
Proof.
  intros Hm Hu Hv. rewrite split_eq_ref.
  change (m ++ " " ++ u ++ " " ++ v) with (m ++ " "%char :: (u ++ " "%char :: v)).
  rewrite !split_ref_app by (by apply no_space_notin).
  by rewrite split_ref_absent by (by apply no_space_notin).
Qed.

Lemma flat_map_render_length hs : (length hs <= length (flat_map render_header hs))%nat.
Proof.
  induction hs as [|[n v] hs IH]; cbn [flat_map]; [simpl; lia|].
  assert (1 <= length (render_header (n, v)))%nat by (unfold render_header; len_lia).
  len_lia.
Qed.

Lemma parse_body_render pre b hs :
  Z.of_nat (length (pre ++ b)) < 2 ^ 64 ->
  hs !! ("content-length" : text) = Some (decimal (Z.of_nat (length b))) ->
  parse_body (pre ++ b) (length pre) hs = b.
Proof.
  intros Hl Hc. unfold parse_body. rewrite Hc.
  change (2 ^ 64) with 18446744073709551616 in Hl.
  rewrite <- (app_nil_r (decimal _)), stoul_decimal; [|split; [lia|]|done].
  2:{ change (2 ^ 64) with 18446744073709551616. len_lia. }
  rewrite u64_small by len_lia. rewrite (proj2 (Z.leb_le _ _)) by len_lia.
  unfold substr_z. rewrite drop_app_length. apply take_ge. len_lia.
Qed.

(** The request line and the headers are read back whatever the body. *)
Lemma parse_head m u v hs b :
  no_space m -> no_space u -> no_space v -> starts_with "RTSP/" v = true ->
  Forall good_header hs ->
  let head := (m ++ " " ++ u ++ " " ++ v) ++ crlf ++ flat_map render_header hs ++ crlf in
  render m u v hs b = head ++ b
  /\ parse (render m u v hs b)
     = Some {| method := m; url := u; version := v; headers := header_map hs ∅;
               body := parse_body (head ++ b) (length head) (header_map hs ∅) |}.
Proof.
  intros Hm Hu Hv Hver Hhs. cbv zeta. set (line := m ++ " " ++ u ++ " " ++ v).
  assert (render m u v hs b = line ++ crlf ++ flat_map render_header hs ++ crlf ++ b) as E.
  { unfold render, line. by rewrite <- !app_assoc. }
  assert (no_crlf line = true) as Hcr.
  { apply no_cr_no_crlf. unfold line. rewrite !not_elem_of_app.
    repeat split; first [by apply no_space_notin | decide_closed]. }
  split; [rewrite E; by rewrite <- !app_assoc|].
  unfold parse. rewrite E. pose proof (nextLine_app [] line (flat_map render_header hs ++ crlf ++ b) Hcr) as N.
  rewrite app_nil_l in N. cbn [length] in N. rewrite N.
  unfold line at 1. rewrite split_request_line by done.
  rewrite !trimmed_trim by (by apply no_space_trimmed).
  rewrite bool_decide_eq_true_2 by (destruct v; simpl in *; by rewrite ?Hver).
  pose proof (parse_headers_render hs (line ++ crlf) b) as P.
  rewrite <- !app_assoc in P.
  replace (length (line ++ crlf)) with (0 + length line + 2)%nat in P by len_lia.
  pose proof (flat_map_render_length hs).
  rewrite P by (done || len_lia). simpl mbind. cbn beta iota.
  rewrite <- !app_assoc. do 3 f_equal. len_lia.
Qed.

(** C34: Parsing inverts printing.  A request line of three space-free words whose version
    starts with [RTSP/], any list of well-formed headers and a body announced by its
    Content-Length (or no body and no announcement) are read back exactly: names
    folded to lower case, the last of several equal names winning. *)
Theorem parse_render m u v hs b :
  no_space m -> no_space u -> no_space v -> starts_with "RTSP/" v = true ->
  Forall good_header hs ->
  Z.of_nat (length (render m u v hs b)) < 2 ^ 64 ->
  (header_map hs ∅ !! ("content-length" : text) = Some (decimal (Z.of_nat (length b)))
   \/ (header_map hs ∅ !! ("content-length" : text) = None /\ b = [])) ->
  parse (render m u v hs b)
    = Some {| method := m; url := u; version := v; headers := header_map hs ∅; body := b |}.
Proof.
  intros Hm Hu Hv Hver Hhs Hlen Hbody.
  destruct (parse_head m u v hs b Hm Hu Hv Hver Hhs) as [E ->]. rewrite E in Hlen.
  do 2 f_equal. destruct Hbody as [Hb | [Hb ->]].
  - by apply parse_body_render.
  - unfold parse_body. by rewrite Hb.
Qed.

Lemma parse_render_witness :
  parse (render "SETUP" "rtsp://h/v.mp4" "RTSP/1.0"
           [(("CSeq" : text), ("3" : text)); (("Content-Length" : text), ("2" : text))] "ab")
    = Some {| method := "SETUP"; url := "rtsp://h/v.mp4"; version := "RTSP/1.0";
              headers := header_map [(("CSeq" : text), ("3" : text));
                                     (("Content-Length" : text), ("2" : text))] ∅;
              body := "ab" |}.
Proof.
  apply parse_render; try (repeat constructor; fail); try reflexivity;
    try (left; reflexivity).
  repeat constructor; try decide_closed.
Defined.

(** Whatever the input, an accepted request has lower-case header names and trimmed
    header values, and its version starts with [RTSP/]. *)
Theorem parse_headers_invariant raw r :
  parse raw = Some r ->
  headers_wf (headers r) /\ find "RTSP/" (version r) = Some 0%nat
  /\ trimmed (method r) /\ trimmed (url r).
Proof.
  unfold parse. destruct (nextLine raw 0) as [[first pos]|]; [|done].
  destruct (split first " ") as [|p0 [|p1 [|p2 l]]]; try done.
  case_bool_decide as Hv; [|done].
  destruct (parse_headers _ _ _ _) as [[hs pos']|] eqn:E; [|done].
  intros [= <-]. simpl. split; [|split; [done|split; apply trim_trimmed]].
  eapply parse_headers_wf, E. apply map_Forall_empty.
Qed.

Lemma parse_headers_invariant_witness :
  exists r, parse ("OPTIONS * RTSP/1.0" ++ crlf ++ "CSeq:  1 " ++ crlf ++ crlf) = Some r
       /\ headers_wf (headers r).
Proof.
  destruct (parse ("OPTIONS * RTSP/1.0" ++ crlf ++ "CSeq:  1 " ++ crlf ++ crlf)) as [r|] eqn:E.
  - exists r. split; [reflexivity|]. apply (parse_headers_invariant _ _ E).
  - vm_compute in E. discriminate E.
Defined.

(** A header is found under any capitalisation of its name. *)
Lemma header_case_insensitive r n n' :
  toLower n = toLower n' -> header r n = header r n'.
Proof. intros H. unfold header. by rewrite H. Qed.

(** [cseq] is the number the client sent when it is a valid [int], and -1 otherwise;
    it is always in the range of [int]. *)
Theorem cseq_spec r :
  int_min <= cseq r <= int_max
  /\ (forall z, int_min <= z <= int_max -> header r "CSeq" = to_string z -> cseq r = z)
  /\ (forall e, stoi (header r "CSeq") = Throw e -> cseq r = -1).
Proof.
  assert (header r "CSeq" = header r "cseq") as -> by (by apply header_case_insensitive).
  unfold cseq. split; [|split].
  - case_bool_decide; [unfold int_min, int_max; lia|].
    destruct (stoi _) as [z|] eqn:E; simpl; [by apply stoi_range in E | unfold int_min, int_max; lia].
  - intros z Hz ->. rewrite bool_decide_eq_false_2.
    + rewrite <- (app_nil_r (to_string z)). by rewrite stoi_to_string.
    + unfold to_string. destruct (z <? 0); [done | apply decimal_nonempty].
  - intros e ->. by case_bool_decide.
Qed.

(** ** A request cannot carry a line break on *)

Lemma split_ref_no_crlf d s t : no_crlf s = true -> t ∈ split_ref s d -> no_crlf t = true.
Proof.
  revert t. induction s as [|c s IH]; intros t Hs; cbn [split_ref].
  { by intros ->%list_elem_of_singleton. }
  apply no_crlf_cons in Hs as [Hc Hs]. case_decide.
  { intros [->|Ht]%elem_of_cons; [done|by apply IH]. }
  destruct (split_ref s d) as [|u us] eqn:E.
  { intros ->%list_elem_of_singleton. apply no_crlf_cons. split; [by intros [_ ?]|done]. }
  intros [->|Ht]%elem_of_cons; [|apply IH; [done|by right]].
  apply no_crlf_cons. split; [|apply IH; [done|by left]]. intros [-> Hh]. apply Hc. split; [done|].
  destruct s as [|e s]; cbn in E; [by simplify_eq|]. case_decide; [by simplify_eq|].
  destruct (split_ref s d); simplify_eq/=; done.
Qed.

(** Method and URL fit on a line, with no white space at their ends. *)
Definition one_line (t : text) : Prop := trimmed t /\ no_crlf t = true.

Lemma trim_one_line t : no_crlf t = true -> one_line (trim t).
Proof.
  intros H. split; [apply trim_trimmed|]. destruct (trim_cut t) as (a & b & E & _).
  rewrite E in H. apply no_crlf_app_inv in H as [_ H]. by apply no_crlf_app_inv in H as [H _].
Qed.

Lemma parse_one_line raw r : parse raw = Some r -> one_line (method r) /\ one_line (url r).
Proof.
  unfold parse. destruct (nextLine raw 0) as [[first pos]|] eqn:En; [|done].
  apply nextLine_line in En. destruct (split first " ") as [|p0 [|p1 [|p2 l]]] eqn:Es; try done.
  rewrite split_eq_ref in Es. case_bool_decide; [|done].
  destruct (parse_headers _ _ _ _) as [[hs pos']|]; [|done]. intros [= <-].
  split; apply trim_one_line, (split_ref_no_crlf " " first); try done; rewrite Es; set_solver.
Qed.

(** The malformed inputs [parse] refuses: no line, fewer than three words, another
    protocol. *)
Lemma parse_rejects raw :
  parse raw = None <->
    nextLine raw 0 = None
    \/ exists first pos, nextLine raw 0 = Some (first, pos)
       /\ ((length (split first " ") < 3)%nat
           \/ exists p0 p1 p2 l, split first " " = p0 :: p1 :: p2 :: l
                /\ find "RTSP/" (trim p2) <> Some 0%nat).
Proof.
  unfold parse. destruct (nextLine raw 0) as [[first pos]|] eqn:E; [|by split; [left|]].
  apply nextLine_progress in E.
  destruct (parse_headers_total (S (length raw)) raw pos ∅) as [[hs pos'] P]; [lia|lia|].
  destruct (split first " ") as [|p0 [|p1 [|p2 l]]] eqn:S; try (split; [|done];
    intros _; right; exists first, pos; split; [done|left; rewrite S; simpl; lia]).
  rewrite P. case_bool_decide as Hv; split; simpl; try done.
  - intros [?|(f & p & [= <- <-] & [H|(? & ? & ? & ? & H & ?)])]; [done| |];
      rewrite S in H; simplify_eq/=; first [lia|done].
  - intros _. right. exists first, pos. split; [done|]. right.
    by exists p0, p1, p2, l.
Qed.
