(* ===== verification/RTSPResponse.v ===== *)
(** * [RTSPResponse] (src/rtsp/RTSPResponse.cpp, include/rtspserver/rtsp/RTSPResponse.hpp)

    The response under construction, its factories and its wire format.  The wire
    format is read back with the header loop of [RTSPRequest], which shows that a
    client recovers every header and the exact body. *)

From Stdlib Require Import Sorted.
From S2P Require Import Prelude StdString StringUtils RTSPRequest.

(** ** [std::map<std::string, std::string>]

    An association list kept in the order of the keys, which is the order the
    response is printed in. *)

Fixpoint text_ltb (a b : text) : bool :=
  match a, b with
  | _, [] => false
  | [], _ :: _ => true
  | c :: a', d :: b' =>
      if decide (c = d) then text_ltb a' b' else byte_of_char c <? byte_of_char d
  end.

(** [m[k] = v] *)
Fixpoint map_set (k v : text) (m : list (text * text)) : list (text * text) :=
  match m with
  | [] => [(k, v)]
  | (k', v') :: m' =>
      if decide (k = k') then (k, v) :: m'
      else if text_ltb k k' then (k, v) :: m
      else (k', v') :: map_set k v m'
  end.

(** [m.find(k)] *)
Fixpoint map_find (k : text) (m : list (text * text)) : option text :=
  match m with
  | [] => None
  | (k', v) :: m' => if decide (k = k') then Some v else map_find k m'
  end.

(** ** The response *)

Record RTSPResponse := mkResponse {
  status : Z;
  reason : text;
  rheaders : list (text * text);
  rbody : text
}.

#[global] Instance RTSPResponse_updatable : Updatable RTSPResponse := fun r =>
  {| status := status r; reason := reason r; rheaders := rheaders r; rbody := rbody r |}.

(** The default member initialisers. *)
Definition RTSPResponse_default : RTSPResponse :=
  {| status := 200; reason := "OK"; rheaders := []; rbody := [] |}.

(** [r.headers[k] = v] *)
Definition set_header (k v : text) (r : RTSPResponse) : RTSPResponse :=
  r <| rheaders := map_set k v (rheaders r) |>.

(** The broken-down UTC time [std::gmtime] returns. *)
Record tm := {
  tm_sec : Z; tm_min : Z; tm_hour : Z; tm_mday : Z; tm_mon : Z; tm_year : Z; tm_wday : Z
}.

Definition two_digits (n : Z) : text :=
  [digit_char (n / 10 mod 10); digit_char (n mod 10)].

Definition weekday_name (n : Z) : text :=
  nth (Z.to_nat n) ["Sun"; "Mon"; "Tue"; "Wed"; "Thu"; "Fri"; "Sat"] "?".
Definition month_name (n : Z) : text :=
  nth (Z.to_nat n)
    ["Jan"; "Feb"; "Mar"; "Apr"; "May"; "Jun"; "Jul"; "Aug"; "Sep"; "Oct"; "Nov"; "Dec"] "?".

(** [std::put_time(..., "%a, %d %b %Y %H:%M:%S GMT")] *)
Definition timestamp (t : tm) : text :=
  weekday_name (tm_wday t) ++ ", " ++ two_digits (tm_mday t) ++ " "
  ++ month_name (tm_mon t) ++ " " ++ to_string (tm_year t + 1900) ++ " "
  ++ two_digits (tm_hour t) ++ ":" ++ two_digits (tm_min t) ++ ":"
  ++ two_digits (tm_sec t) ++ " GMT".

Definition print_header (h : text * text) : text := fst h ++ ": " ++ snd h ++ crlf.

Definition toString (r : RTSPResponse) : text :=
  "RTSP/1.0 " ++ to_string (status r) ++ " " ++ reason r ++ crlf
  ++ "Server: RTSP-Server/1.0" ++ crlf
  ++ flat_map print_header (rheaders r)
  ++ (if bool_decide (rbody r = []) then []
      else match map_find "Content-Length" (rheaders r) with
           | None => "Content-Length: " ++ to_string (Z.of_nat (length (rbody r))) ++ crlf
           | Some _ => []
           end)
  ++ crlf
  ++ rbody r.

(** ** Factories

    [now] is the UTC time [timestamp()] reads. *)

Section factories.
Context (now : tm).

Definition options (cseq : Z) (public_methods : text) : RTSPResponse :=
  let r := RTSPResponse_default in
  let r := set_header "CSeq" (to_string cseq) r in
  let r := set_header "Public" public_methods r in
  set_header "Date" (timestamp now) r.

Definition describe (cseq : Z) (sdp base_url : text) : RTSPResponse :=
  let r := RTSPResponse_default in
  let r := set_header "CSeq" (to_string cseq) r in
  let r := set_header "Date" (timestamp now) r in
  let r := set_header "Content-Type" "application/sdp" r in
  let r := set_header "Content-Base" base_url r in
  let r := set_header "Content-Length" (to_string (Z.of_nat (length sdp))) r in
  r <| rbody := sdp |>.

Definition setup (cseq : Z) (session_id transport : text) : RTSPResponse :=
  let r := RTSPResponse_default in
  let r := set_header "CSeq" (to_string cseq) r in
  let r := set_header "Transport" transport r in
  let r := set_header "Session" (session_id ++ ";timeout=60") r in
  set_header "Date" (timestamp now) r.

Definition play (cseq : Z) (session_id range rtp_info : text) : RTSPResponse :=
  let r := RTSPResponse_default in
  let r := set_header "CSeq" (to_string cseq) r in
  let r := set_header "Session" session_id r in
  let r := set_header "Date" (timestamp now) r in
  let r := if bool_decide (range = []) then r else set_header "Range" range r in
  if bool_decide (rtp_info = []) then r else set_header "RTP-Info" rtp_info r.

Definition ok (cseq : Z) (session_id : text) : RTSPResponse :=
  let r := RTSPResponse_default in
  let r := set_header "CSeq" (to_string cseq) r in
  let r := set_header "Date" (timestamp now) r in
  if bool_decide (session_id = []) then r else set_header "Session" session_id r.

Definition error (cseq : Z) (status_code : Z) (reason_phrase : text) : RTSPResponse :=
  let r := RTSPResponse_default in
  let r := r <| status := status_code |> <| reason := reason_phrase |> in
  let r := set_header "CSeq" (to_string cseq) r in
  set_header "Date" (timestamp now) r.
End factories.

(** ** The map keeps its keys in strict order *)

Lemma text_ltb_irrefl a : text_ltb a a = false.
Proof. induction a as [|c a IH]; simpl; [done|]. by rewrite decide_True. Qed.

Lemma text_ltb_trans a b c : text_ltb a b = true -> text_ltb b c = true -> text_ltb a c = true.
Proof.
  revert b c. induction a as [|x a IH]; intros [|y b] [|z c]; simpl; try done.
  repeat case_decide; subst; try done; rewrite ?Z.ltb_lt; try lia; eauto.
Qed.

Lemma text_ltb_total a b : a <> b -> text_ltb a b = false -> text_ltb b a = true.
Proof.
  revert b. induction a as [|x a IH]; intros [|y b]; simpl; try done.
  repeat case_decide; subst; try done.
  - intros Hne. apply IH. congruence.
  - intros _ Hge%Z.ltb_ge. apply Z.ltb_lt.
    assert (byte_of_char x <> byte_of_char y) by (by intros ?%byte_of_char_inj). lia.
Qed.

Definition key_lt (p q : text * text) : Prop := text_ltb (fst p) (fst q) = true.

(** Strictly increasing keys: the invariant of [std::map]. *)
Definition map_sorted (m : list (text * text)) : Prop := StronglySorted key_lt m.

Lemma map_set_keys k v m q : q ∈ map_set k v m -> q = (k, v) \/ q ∈ m.
Proof.
  induction m as [|[k' v'] m IH]; simpl.
  - rewrite list_elem_of_singleton. auto.
  - case_decide; [subst|case_if]; rewrite !elem_of_cons; intros Hq;
      destruct_or! Hq; subst; auto. destruct (IH Hq); auto.
Qed.

Lemma map_set_sorted k v m : map_sorted m -> map_sorted (map_set k v m).
Proof.
  unfold map_sorted. induction 1 as [|[k' v'] m Hm IH Hall]; simpl; [repeat constructor|].
  case_decide; [subst; by constructor|]. case_if.
  - constructor; [by constructor|]. constructor; [done|].
    eapply Forall_impl; [exact Hall|]. intros [k2 v2]. unfold key_lt. simpl.
    eauto using text_ltb_trans.
  - constructor; [done|]. apply Forall_forall. intros q Hq.
    apply map_set_keys in Hq as [->|Hq].
    + unfold key_lt. simpl. by apply text_ltb_total.
    + rewrite Forall_forall in Hall. by apply Hall.
Qed.

Lemma map_find_set_eq k v m : map_find k (map_set k v m) = Some v.
Proof.
  induction m as [|[k' v'] m IH]; simpl; [by rewrite decide_True|].
  case_decide; simpl; [by rewrite decide_True|].
  case_if; simpl; [by rewrite decide_True | by rewrite decide_False].
Qed.

Lemma map_find_set_ne k k' v m : k <> k' -> map_find k (map_set k' v m) = map_find k m.
Proof.
  intros Hne. induction m as [|[k2 v2] m IH]; simpl; [by rewrite decide_False|].
  case_decide; simpl; [subst; by rewrite !decide_False|].
  case_if; simpl; [by rewrite decide_False|]. by rewrite IH.
Qed.

(** ** Reading a response back *)

Definition status_line (r : RTSPResponse) : text :=
  "RTSP/1.0 " ++ to_string (status r) ++ " " ++ reason r.

(** All header lines on the wire, in order: the Server line, the map, and the
    Content-Length fall-back. *)
Definition wire_headers (r : RTSPResponse) : list (text * text) :=
  (("Server" : text), ("RTSP-Server/1.0" : text)) :: rheaders r
  ++ (if bool_decide (rbody r = []) then []
      else match map_find "Content-Length" (rheaders r) with
           | None => [(("Content-Length" : text), to_string (Z.of_nat (length (rbody r))))]
           | Some _ => []
           end).

Definition good_value (v : text) : Prop := one_line v.

Definition response_wf (r : RTSPResponse) : Prop :=
  (ascii_of_nat 13 ∉ reason r) /\ Forall good_header (rheaders r).

Lemma toString_eq r :
  toString r = status_line r ++ crlf ++ flat_map render_header (wire_headers r)
               ++ crlf ++ rbody r.
Proof.
  unfold toString, status_line, wire_headers. cbn [flat_map].
  change (render_header ("Server", "RTSP-Server/1.0")) with ("Server: RTSP-Server/1.0" ++ crlf).
  change print_header with render_header. rewrite flat_map_app.
  case_bool_decide; [|destruct (map_find _ _)]; cbn [flat_map];
    rewrite ?app_nil_r, ?app_nil_l; unfold render_header; cbn [fst snd];
    by rewrite <- !app_assoc.
Qed.

Lemma to_string_chars z c :
  c ∈ to_string z -> isdigit c = true \/ c = "-"%char.
Proof.
  assert (forall n, 0 <= n -> c ∈ decimal n -> isdigit c = true) as H.
  { intros n Hn. pose proof (decimal_digits n Hn) as F. rewrite Forall_forall in F. apply F. }
  unfold to_string. destruct (Z.ltb_spec z 0); [|by left; apply (H z)].
  simpl. rewrite elem_of_cons. intros [->|Hin]; [by right|]. left. apply (H (- z)); [lia|done].
Qed.

Lemma to_string_notin z c : isdigit c = false -> c <> "-"%char -> c ∉ to_string z.
Proof. intros H1 H2 [H|H]%to_string_chars; congruence. Qed.

Lemma to_string_no_space z : no_space (to_string z).
Proof.
  apply Forall_forall. intros c [H| ->]%to_string_chars; [|done].
  by apply isdigit_not_special.
Qed.

Lemma to_string_good z : good_value (to_string z).
Proof.
  split; [apply no_space_trimmed, to_string_no_space | by apply no_cr_no_crlf, to_string_notin].
Qed.

Lemma wire_headers_good r : response_wf r -> Forall good_header (wire_headers r).
Proof.
  intros [_ H]. constructor.
  { split_and!; first [by split | decide_closed]. }
  apply Forall_app. split; [done|]. case_bool_decide; [constructor|].
  destruct (map_find _ _); constructor; [|constructor].
  destruct (to_string_good (Z.of_nat (length (rbody r)))).
  split_and!; first [done | by split | decide_closed].
Qed.

(** The status line and the header lines, with the blank line. *)
Definition head_text (r : RTSPResponse) : text :=
  status_line r ++ crlf ++ flat_map render_header (wire_headers r) ++ crlf.

Lemma toString_head r : toString r = head_text r ++ rbody r.
Proof. rewrite toString_eq. unfold head_text. by rewrite <- !app_assoc. Qed.

(** They are read back whatever follows. *)
Lemma head_readback r b :
  response_wf r ->
  let wire := head_text r ++ b in
  exists p,
    nextLine wire 0 = Some (status_line r, p)
    /\ parse_headers (S (length wire)) wire p ∅
       = Some (header_map (wire_headers r) ∅, length (head_text r)).
Proof.
  intros Hwf. cbv zeta. unfold head_text. rewrite <- !app_assoc.
  set (hs := wire_headers r). set (l := status_line r).
  assert (no_crlf l = true) as Hl.
  { destruct Hwf as [Hr _]. apply no_cr_no_crlf. unfold l, status_line. rewrite !not_elem_of_app.
    repeat split; first [by apply to_string_notin | done | decide_closed]. }
  exists (length (l ++ crlf)). split.
  - pose proof (nextLine_app [] l (flat_map render_header hs ++ crlf ++ b) Hl) as N.
    rewrite app_nil_l in N. cbn [length] in N. rewrite N. do 2 f_equal. len_lia.
  - pose proof (parse_headers_render hs (l ++ crlf) b) as P.
    rewrite <- !app_assoc in P. pose proof (flat_map_render_length hs).
    rewrite P; [|by apply wire_headers_good|len_lia].
    do 2 f_equal. len_lia.
Qed.

(** Shared form of the read-back property. *)
Lemma toString_readback_aux r :
  response_wf r ->
  let wire := toString r in
  exists p q,
    nextLine wire 0 = Some (status_line r, p)
    /\ parse_headers (S (length wire)) wire p ∅ = Some (header_map (wire_headers r) ∅, q)
    /\ drop q wire = rbody r.
Proof.
  intros Hwf. cbv zeta. rewrite toString_head.
  destruct (head_readback r (rbody r) Hwf) as (p & H1 & H2).
  exists p, (length (head_text r)). split_and!; [done|done|]. by rewrite drop_app_length.
Qed.

(** The wire format is read back without loss.  The first line is the status line, the
    header lines up to the blank one give exactly the Server line and the headers of the
    response, and what remains is the body. *)
Theorem toString_readback r :
  response_wf r ->
  let wire := toString r in
  exists p q,
    nextLine wire 0 = Some (status_line r, p)
    /\ parse_headers (S (length wire)) wire p ∅ = Some (header_map (wire_headers r) ∅, q)
    /\ drop q wire = rbody r.
Proof. apply toString_readback_aux. Qed.

(** ** The factories build well-formed responses *)

Definition header_name_ok (k : text) : Prop :=
  trimmed k /\ (":"%char ∉ k) /\ (ascii_of_nat 13 ∉ k).

Lemma set_header_wf k v r :
  header_name_ok k -> good_value v -> response_wf r -> response_wf (set_header k v r).
Proof.
  intros (Hk1 & Hk2 & Hk3) [Hv1 Hv2] [Hr Hh]. split; [done|].
  change (Forall good_header (map_set k v (rheaders r))).
  apply Forall_forall. intros q [->|Hq]%map_set_keys; [by split_and!|].
  rewrite Forall_forall in Hh. by apply Hh.
Qed.

Lemma default_wf : response_wf RTSPResponse_default.
Proof. split; [decide_closed | constructor]. Qed.

(** A string whose first and last words are not empty is trimmed. *)
Lemma trimmed_words a b c :
  no_space a -> a <> [] -> no_space c -> c <> [] -> trimmed (a ++ b ++ c).
Proof.
  intros Ha Hae Hc Hce. split.
  - destruct Ha as [|x a Hx _]; [done|]. by apply skip_spaces_head.
  - rewrite app_assoc, rev_app_distr. apply Forall_rev in Hc.
    assert (rev c <> []) as Hre.
    { intros H. apply (f_equal (@rev ascii)) in H. by rewrite rev_involutive in H. }
    destruct Hc as [|x r Hx _]; [done|]. by apply skip_spaces_head.
Qed.

(** No carriage return and no white space at the start: holds of the day and month
    names and of the two-digit fields. *)
Lemma two_digits_no_space n : no_space (two_digits n).
Proof.
  assert (forall d, isspace (digit_char (d mod 10)) = false) as H.
  { intros d. apply isdigit_not_special, digit_char_spec, Z.mod_pos_bound. lia. }
  repeat constructor; apply H.
Qed.

Lemma nth_no_space (l : list text) d n :
  forallb (fun t => forallb (fun c => negb (isspace c)) t) (d :: l) = true ->
  no_space (nth n l d).
Proof.
  intros H. rewrite forallb_forall in H.
  assert (In (nth n l d) (d :: l)) as Hin.
  { destruct (nth_in_or_default n l d) as [Hi| ->]; [by right | by left]. }
  apply H in Hin. rewrite forallb_forall in Hin. apply Forall_forall. intros c Hc.
  apply list_elem_of_In, Hin in Hc. by destruct (isspace c).
Qed.

Lemma timestamp_good t : good_value (timestamp t).
Proof.
  assert (no_space (weekday_name (tm_wday t))) as Hw by (apply nth_no_space; reflexivity).
  assert (no_space (month_name (tm_mon t))) as Hm by (apply nth_no_space; reflexivity).
  assert (weekday_name (tm_wday t) <> []) as Hne.
  { unfold weekday_name. by destruct (Z.to_nat (tm_wday t)) as [|[|[|[|[|[|[|[|n]]]]]]]]. }
  split.
  - set (mid := ", " ++ two_digits (tm_mday t) ++ " "
      ++ month_name (tm_mon t) ++ " " ++ to_string (tm_year t + 1900) ++ " "
      ++ two_digits (tm_hour t) ++ ":" ++ two_digits (tm_min t) ++ ":"
      ++ two_digits (tm_sec t) ++ " ").
    replace (timestamp t) with (weekday_name (tm_wday t) ++ mid ++ "GMT")
      by (unfold timestamp, mid; by rewrite <- !app_assoc).
    apply trimmed_words; try done. by repeat constructor.
  - apply no_cr_no_crlf. unfold timestamp. rewrite !not_elem_of_app.
    repeat split; first [ by apply to_string_notin
      | apply no_space_notin; [first [done | apply two_digits_no_space]|done]
      | decide_closed].
Qed.

Lemma toString_readback_witness :
  exists p q,
    let wire := toString (error {| tm_sec := 1; tm_min := 2; tm_hour := 3; tm_mday := 4;
                                   tm_mon := 5; tm_year := 126; tm_wday := 6 |}
                            7 404 "Not Found") in
    nextLine wire 0 = Some (("RTSP/1.0 404 Not Found" : text), p)
    /\ drop q wire = [].
Proof.
  destruct (toString_readback
    (error {| tm_sec := 1; tm_min := 2; tm_hour := 3; tm_mday := 4;
              tm_mon := 5; tm_year := 126; tm_wday := 6 |} 7 404 "Not Found"))
    as (p & q & H1 & _ & H2).
  - split; [decide_closed|]. repeat constructor; try reflexivity; decide_closed.
  - exists p, q. split; [exact H1 | exact H2].
Defined.

Lemma header_name_literal k :
  bool_decide (trimmed k /\ (":"%char ∉ k) /\ (ascii_of_nat 13 ∉ k)) = true ->
  header_name_ok k.
Proof. apply bool_decide_eq_true_1. Qed.

#[export] Hint Resolve to_string_good timestamp_good default_wf : rtsp.

Ltac solve_wf :=
  repeat (apply set_header_wf;
    [by apply header_name_literal | first [done | by auto with rtsp | idtac] | ]);
  try apply default_wf.

(** [answers c r]: the response carries the sequence number [c]. *)
Definition answers (c : Z) (r : RTSPResponse) : Prop :=
  map_find "CSeq" (rheaders r) = Some (to_string c).

Lemma answers_set_header c k v r :
  k <> ("CSeq" : text) -> answers c r -> answers c (set_header k v r).
Proof.
  intros Hk H. unfold answers.
  change (map_find "CSeq" (map_set k v (rheaders r)) = Some (to_string c)).
  by rewrite map_find_set_ne.
Qed.

Lemma answers_set_cseq c r : answers c (set_header "CSeq" (to_string c) r).
Proof. apply map_find_set_eq. Qed.

Ltac solve_answers :=
  repeat first [apply answers_set_cseq | apply answers_set_header; [discriminate|]].

(** The number of octets a reader expects behind the headers is the length of the body. *)
Definition framed (r : RTSPResponse) : Prop :=
  match header_map (wire_headers r) ∅ !! ("content-length" : text) with
  | Some v => v = to_string (Z.of_nat (length (rbody r)))
  | None => rbody r = []
  end.

(** A response that a reader finds the borders of in a stream. *)
Definition well_framed (r : RTSPResponse) : Prop := response_wf r /\ framed r.

(** One without a body. *)
Definition plain (r : RTSPResponse) : Prop :=
  response_wf r /\ rbody r = [] /\ Forall (fun h => toLower (fst h) <> "content-length") (rheaders r).

Lemma plain_well_framed r : plain r -> well_framed r.
Proof.
  intros (Hw & Hb & Hn). split; [done|]. unfold framed, wire_headers.
  rewrite bool_decide_eq_true_2, app_nil_r by done. by rewrite header_map_other by (by constructor).
Qed.

Lemma plain_default : plain RTSPResponse_default.
Proof. split; [apply default_wf|]. split; [done|constructor]. Qed.

Lemma plain_set_header k v r :
  header_name_ok k -> toLower k <> "content-length" -> good_value v -> plain r ->
  plain (set_header k v r).
Proof.
  intros Hk Hl Hv (Hw & Hb & Hn). split; [by apply set_header_wf|]. split; [done|].
  apply Forall_forall. intros q [->|Hq]%map_set_keys; [done|].
  rewrite Forall_forall in Hn. by apply Hn.
Qed.

Ltac solve_plain :=
  repeat (apply plain_set_header;
    [by apply header_name_literal | discriminate | first [done | by auto with rtsp | idtac] | ]);
  try apply plain_default.

Lemma options_plain now c m : good_value m -> plain (options now c m).
Proof. intros Hm. unfold options. cbv zeta. solve_plain. Qed.

Lemma setup_plain now c sid tr :
  good_value tr -> good_value (sid ++ ";timeout=60") -> plain (setup now c sid tr).
Proof. intros Ht Hs. unfold setup. cbv zeta. solve_plain. Qed.

Lemma play_plain now c sid rg ri :
  good_value sid -> good_value rg -> good_value ri -> plain (play now c sid rg ri).
Proof. intros Hs Hr Hi. unfold play. cbv zeta. repeat case_bool_decide; solve_plain. Qed.

Lemma ok_plain now c sid : good_value sid -> plain (ok now c sid).
Proof. intros Hs. unfold ok. cbv zeta. case_bool_decide; solve_plain. Qed.

Lemma error_plain now c st re : ascii_of_nat 13 ∉ re -> plain (error now c st re).
Proof.
  intros Hre. unfold error. cbv zeta. solve_plain. split; [|split; [done|constructor]].
  split; [done|constructor].
Qed.

Lemma describe_wf now c sdp u : good_value u -> response_wf (describe now c sdp u).
Proof.
  intros Hu. unfold describe. cbv zeta.
  match goal with |- response_wf (?r <| rbody := _ |>) => change (response_wf r) end.
  solve_wf.
Qed.

(** Every factory echoes the CSeq it is given and, from clean arguments, builds a
    response that the wire format transports without loss. *)
Theorem factories_answer now c :
  (forall m, answers c (options now c m) /\ (good_value m -> response_wf (options now c m)))
  /\ (forall sdp u, answers c (describe now c sdp u)
        /\ (good_value u -> response_wf (describe now c sdp u)))
  /\ (forall sid tr, answers c (setup now c sid tr)
        /\ (good_value tr -> good_value (sid ++ ";timeout=60") ->
            response_wf (setup now c sid tr)))
  /\ (forall sid rg ri, answers c (play now c sid rg ri)
        /\ (good_value sid -> good_value rg -> good_value ri ->
            response_wf (play now c sid rg ri)))
  /\ (forall sid, answers c (ok now c sid) /\ (good_value sid -> response_wf (ok now c sid)))
  /\ (forall st re, answers c (error now c st re)
        /\ ((ascii_of_nat 13 ∉ re) -> response_wf (error now c st re))).
Proof.
  split_and!; intros; (split; [|intros]);
    unfold options, describe, setup, play, ok, error, answers; cbv zeta;
    repeat case_bool_decide; try solve [solve_answers]; try solve [solve_wf].
  - apply set_header_wf; [by apply header_name_literal | auto with rtsp|].
    apply set_header_wf; [by apply header_name_literal | auto with rtsp|].
    split; [done | constructor].
Qed.

Lemma describe_rheaders now c sdp u :
  rheaders (describe now c sdp u)
    = [(("CSeq" : text), to_string c); (("Content-Base" : text), u);
       (("Content-Length" : text), to_string (Z.of_nat (length sdp)));
       (("Content-Type" : text), ("application/sdp" : text));
       (("Date" : text), timestamp now)].
Proof. reflexivity. Qed.

(** Look-ups of literal names in an explicit list of printed headers. *)
Ltac header_lookup :=
  unfold header_map; cbn [fold_left fst snd app];
  repeat (rewrite lookup_insert;
    first [rewrite decide_True by decide_closed; reflexivity
          | rewrite decide_False by decide_closed]).

Lemma describe_well_framed now c sdp u :
  good_value u -> well_framed (describe now c sdp u).
Proof.
  intros Hu. split; [by apply describe_wf|]. unfold framed, wire_headers.
  rewrite describe_rheaders. cbn [map_find].
  replace (if bool_decide (rbody (describe now c sdp u) = []) then [] else _)
    with (@nil (text * text)) by (by case_bool_decide).
  match goal with |- match ?x with _ => _ end =>
    assert (x = Some (to_string (Z.of_nat (length sdp)))) as ->; [header_lookup|done] end.
Qed.

(** The client recovers the session description: the Content-Length of the DESCRIBE
    response is the length of the SDP, its CSeq is the one of the request, and what
    follows the headers is the SDP, whatever its contents. *)
Theorem describe_delivers_sdp now c sdp u :
  good_value u ->
  let wire := toString (describe now c sdp u) in
  exists p hs q,
    parse_headers (S (length wire)) wire p ∅ = Some (hs, q)
    /\ hs !! ("cseq" : text) = Some (to_string c)
    /\ hs !! ("content-length" : text) = Some (to_string (Z.of_nat (length sdp)))
    /\ drop q wire = sdp.
Proof.
  intros Hu. cbv zeta.
  assert (response_wf (describe now c sdp u)) as Hwf by (by apply describe_wf).
  destruct (toString_readback_aux _ Hwf) as (p & q & _ & Hp & Hd).
  exists p, (header_map (wire_headers (describe now c sdp u)) ∅), q.
  split; [exact Hp|]. split_and!; [| |exact Hd].
  - unfold wire_headers. rewrite describe_rheaders.
    replace (if bool_decide (rbody (describe now c sdp u) = []) then [] else _)
      with (@nil (text * text)) by (by case_bool_decide).
    header_lookup.
  - unfold wire_headers. rewrite describe_rheaders.
    replace (if bool_decide (rbody (describe now c sdp u) = []) then [] else _)
      with (@nil (text * text)) by (by case_bool_decide).
    header_lookup.
Qed.

Lemma describe_delivers_sdp_witness :
  exists p hs q,
    let wire := toString (describe {| tm_sec := 0; tm_min := 0; tm_hour := 0; tm_mday := 1;
                                      tm_mon := 0; tm_year := 70; tm_wday := 4 |}
                            2 "v=0" "rtsp://h/v.mp4/") in
    parse_headers (S (length wire)) wire p ∅ = Some (hs, q) /\ drop q wire = "v=0".
Proof.
  destruct (describe_delivers_sdp
    {| tm_sec := 0; tm_min := 0; tm_hour := 0; tm_mday := 1;
       tm_mon := 0; tm_year := 70; tm_wday := 4 |} 2 "v=0" "rtsp://h/v.mp4/")
    as (p & hs & q & H1 & _ & _ & H2).
  - split; decide_closed.
  - exists p, hs, q. split; [exact H1 | exact H2].
Defined.
