(* ===== verification/Logger.v ===== *)
(** * [Logger] and [SocketUtil] (include/rtspserver/utils/Logger.hpp, SocketUtil.hpp)

    Both backends of the logger: the built-in one, whose record is a line on one of two streams,
    and the shim over spdlog, which is a parameter.  The arguments of a call are the texts that
    [operator<<] makes of them.  A call holds the mutex while it writes, so the streams are what
    a sequence of calls leaves in them.  Also the two socket options. *)

From S2P Require Import Prelude StdString RTSPRequest RTSPResponse.

(** ** Levels *)

Inductive LogLevel := DEBUG | INFO | WARN | ERROR.

#[global] Instance LogLevel_eq_dec : EqDecision LogLevel.
Proof. solve_decision. Defined.

(** The enumerators' values. *)
Definition level_value (l : LogLevel) : Z :=
  match l with DEBUG => 0 | INFO => 1 | WARN => 2 | ERROR => 3 end.

(** ** The built-in backend *)

Module Builtin.
Record Logger := mkLogger { min_level_ : LogLevel; cout : text; cerr : text }.

#[global] Instance logger_updatable : Updatable Logger := fun g =>
  {| min_level_ := min_level_ g; cout := cout g; cerr := cerr g |}.

Definition setLevel (level : LogLevel) (g : Logger) : Logger := g <| min_level_ := level |>.
Definition getLevel (g : Logger) : LogLevel := min_level_ g.

Definition levelStr (l : LogLevel) : text :=
  match l with
  | DEBUG => "DEBUG" | INFO => "INFO " | WARN => "WARN " | ERROR => "ERROR"
  end.

(** [std::setw(3)] with the fill character ['0'], of [ms.count()] in [0, 999]. *)
Definition millis (ms : Z) : text := digit_char (ms / 100 mod 10) :: two_digits ms.

(** [std::put_time(&tm_buf, "%Y-%m-%d %H:%M:%S")] *)
Definition date (t : tm) : text :=
  to_string (tm_year t + 1900) ++ "-" ++ two_digits (tm_mon t + 1) ++ "-" ++ two_digits (tm_mday t)
  ++ " " ++ two_digits (tm_hour t) ++ ":" ++ two_digits (tm_min t) ++ ":" ++ two_digits (tm_sec t).

(** One call: its local time, its milliseconds, the level and the printed arguments. *)
Record call := mkCall { now : tm; ms : Z; level : LogLevel; args : list text }.

Definition line (c : call) : text :=
  date (now c) ++ "." ++ millis (ms c) ++ " [" ++ levelStr (level c) ++ "] " ++ concat (args c).

Definition log (c : call) (g : Logger) : Logger :=
  if level_value (level c) <? level_value (min_level_ g) then g
  else
    let record := line c ++ [ascii_of_nat 10] in
    if level_value WARN <=? level_value (level c)
    then g <| cerr := cerr g ++ record |>
    else g <| cout := cout g ++ record |>.

(** *** What the streams hold *)

Definition printed (min : LogLevel) (to_cerr : bool) (c : call) : bool :=
  (level_value min <=? level_value (level c))
  && Bool.eqb to_cerr (level_value WARN <=? level_value (level c)).

Definition records (min : LogLevel) (to_cerr : bool) (cs : list call) : text :=
  flat_map (fun c => line c ++ [ascii_of_nat 10]) (List.filter (printed min to_cerr) cs).

(** Whole records, in the order of the calls: the ones below [WARN] on [cout], the others on
    [cerr], none below the least level. *)
Lemma log_streams cs : forall g,
  let g' := foldl (fun g c => log c g) g cs in
  min_level_ g' = min_level_ g
  /\ cout g' = cout g ++ records (min_level_ g) false cs
  /\ cerr g' = cerr g ++ records (min_level_ g) true cs.
Proof.
  unfold records. induction cs as [|c cs IH]; intros g; cbn [foldl].
  { cbn. by rewrite !app_nil_r. }
  assert (forall b, printed (min_level_ g) b c
            = negb (level_value (level c) <? level_value (min_level_ g))
              && Bool.eqb b (level_value WARN <=? level_value (level c))) as Hp.
  { intros b. unfold printed. by rewrite (Z.leb_antisym (level_value (level c))). }
  destruct (IH (log c g)) as (-> & -> & ->). cbn [List.filter]. rewrite !Hp. unfold log.
  destruct (level_value (level c) <? _); [done|].
  destruct (level_value WARN <=? level_value (level c)); simpl_update;
    cbn [negb andb Bool.eqb flat_map]; by rewrite <- ?app_assoc.
Qed.

Lemma millis_no_space n : no_space (millis n).
Proof.
  constructor; [|apply two_digits_no_space].
  apply isdigit_not_special, digit_char_spec, Z.mod_pos_bound. lia.
Qed.

(** A record is one line when no argument holds a line feed. *)
Lemma line_is_one_line c :
  Forall (fun a => ascii_of_nat 10 ∉ a) (args c) -> (ascii_of_nat 10 ∉ line c).
Proof.
  intros Ha. unfold line, date. rewrite !not_elem_of_app.
  assert (ascii_of_nat 10 ∉ levelStr (level c)) as Hl by (destruct (level c); decide_closed).
  assert (ascii_of_nat 10 ∉ concat (args c)) as Hc.
  { induction Ha; cbn; [apply not_elem_of_nil|]. rewrite not_elem_of_app. by split. }
  split_and!; first
    [ done
    | by apply to_string_notin
    | apply no_space_notin; [first [apply two_digits_no_space | apply millis_no_space]|done]
    | decide_closed ].
Qed.
End Builtin.

(** ** The spdlog backend *)

Module Spdlog.
(** What the shim uses of spdlog: the levels, the global level and the sink. *)
Class Spdlog (L S : Type) := {
  debug : L; info : L; warn : L; err : L; critical : L;
  set_level : L -> S -> S;
  get_level : S -> L;
  spdlog_log : L -> text -> S -> S
}.

Section shim.
Context {L S : Type} `{!EqDecision L} `{Spdlog L S}.

Definition toSpdLevel (l : LogLevel) : L :=
  match l with DEBUG => debug | INFO => info | WARN => warn | ERROR => err end.

Definition fromSpdLevel (l : L) : LogLevel :=
  if decide (l = debug) then DEBUG
  else if decide (l = warn) then WARN
  else if decide (l = err) then ERROR
  else if decide (l = critical) then ERROR
  else INFO.

Definition setLevel (level : LogLevel) (s : S) : S := set_level (toSpdLevel level) s.
Definition getLevel (s : S) : LogLevel := fromSpdLevel (get_level s).

Definition log (level : LogLevel) (args : list text) (s : S) : S :=
  spdlog_log (toSpdLevel level) (concat args) s.

(** The two enumerations are in one-to-one correspondence, so the call sites that set and get
    the level see what they see with the built-in backend. *)
Lemma level_readback l s :
  NoDup [debug; info; warn; err; critical] ->
  (forall l s, get_level (set_level l s) = l) ->
  getLevel (setLevel l s) = l.
Proof.
  intros Hd Hg. unfold getLevel, setLevel. rewrite Hg. unfold fromSpdLevel.
  repeat (apply NoDup_cons in Hd as [?%not_elem_of_cons Hd]). destruct_and?.
  destruct l; cbn [toSpdLevel]; repeat case_decide; try done; set_solver.
Qed.
End shim.
End Spdlog.

(** ** [SocketUtil] *)

Definition O_NONBLOCK : Z := 2048.

(** [setNonBlocking(fd)] from what [fcntl(F_GETFL)] and [fcntl(F_SETFL)] return. *)
Definition setNonBlocking (getfl : Z) (setfl : Z -> Z) : bool :=
  if getfl <? 0 then false else setfl (Z.lor getfl O_NONBLOCK) =? 0.

(** [setTcpNoDelay(fd)] from what [setsockopt] returns for the flag 1. *)
Definition setTcpNoDelay (setsockopt : Z -> Z) : bool := setsockopt 1 =? 0.

(** The other flags are kept. *)
Lemma setNonBlocking_flags getfl setfl :
  setNonBlocking getfl setfl = true <->
  0 <= getfl /\ exists flags, setfl flags = 0
    /\ forall i, 0 <= i -> Z.testbit flags i = Z.testbit getfl i || (i =? 11).
Proof.
  unfold setNonBlocking. destruct (Z.ltb_spec getfl 0); [split; [done|lia]|]. rewrite Z.eqb_eq.
  assert (forall i, 0 <= i -> Z.testbit (Z.lor getfl O_NONBLOCK) i = Z.testbit getfl i || (i =? 11)) as Hb.
  { intros i Hi. rewrite Z.lor_spec. f_equal. change O_NONBLOCK with (2 ^ 11).
    destruct (Z.eqb_spec i 11) as [->|]; [done|]. by rewrite Z.pow2_bits_false by lia. }
  split.
  - intros Hs. split; [done|]. eexists. by split.
  - intros (_ & flags & Hs & Hf). replace (Z.lor getfl O_NONBLOCK) with flags; [done|].
    apply Z.bits_inj'. intros i Hi. by rewrite Hf, Hb.
Qed.
