(* ===== verification/SDPBuilder.v ===== *)
(** * [SDPBuilder] (src/sdp/SDPBuilder.cpp, include/rtspserver/sdp/SDPBuilder.hpp)

    The stream descriptions and the session description sent in answer to DESCRIBE.  What a
    client reads in it is proved in [SdpReader.v]. *)

From S2P Require Import Prelude StdString StringUtils Double.

(** ** Data *)

Record H264StreamInfo := mkH264StreamInfo {
  sps : bytes;
  pps : bytes;
  width : Z;
  height : Z;
  frame_rate : spec_float;
  duration_secs : double
}.

Record AudioStreamInfo := mkAudioStreamInfo {
  present : bool;
  sample_rate : Z;
  channels : Z;
  asc : bytes
}.

(** The default member initialisers. *)
Definition H264StreamInfo_default : H264StreamInfo :=
  {| sps := []; pps := []; width := 0; height := 0;
     frame_rate := binary_normalize 24 128 25 0 false; duration_secs := dzero |}.

Definition AudioStreamInfo_default : AudioStreamInfo :=
  {| present := false; sample_rate := 44100; channels := 2; asc := [] |}.

#[global] Instance H264StreamInfo_updatable : Updatable H264StreamInfo := fun r =>
  {| sps := sps r; pps := pps r; width := width r; height := height r;
     frame_rate := frame_rate r; duration_secs := duration_secs r |}.

#[global] Instance AudioStreamInfo_updatable : Updatable AudioStreamInfo := fun r =>
  {| present := present r; sample_rate := sample_rate r; channels := channels r;
     asc := asc r |}.

(** ** Definitions *)

(** [std::hex << std::setfill('0') << std::setw(2)] of an octet. *)
Definition hex2 (digits : text) (b : Z) : text :=
  [nth (Z.to_nat (b / 16)) digits "?"%char; nth (Z.to_nat (b mod 16)) digits "?"%char].

Definition hex2_upper : Z -> text := hex2 "0123456789ABCDEF".
Definition hex2_lower : Z -> text := hex2 "0123456789abcdef".

Definition profileLevelId (sps : bytes) : text :=
  match sps with
  | _ :: b1 :: b2 :: b3 :: _ => hex2_upper b1 ++ hex2_upper b2 ++ hex2_upper b3
  | _ => "42001f"
  end.

(** [SDPBuilder::build] *)
Definition build (info : H264StreamInfo) (server_ip stream_name base_url : text)
    (video_pt : Z) (audio : AudioStreamInfo) (audio_pt : Z) : text :=
  "v=0" ++ crlf
  ++ "o=- 1000 1 IN IP4 " ++ server_ip ++ crlf
  ++ "s=" ++ stream_name ++ crlf
  ++ "c=IN IP4 0.0.0.0" ++ crlf
  ++ "t=0 0" ++ crlf
  ++ (if dltb dzero (duration_secs info)
      then "a=range:npt=0-" ++ fixed3 (duration_secs info) ++ crlf else [])
  ++ "a=recvonly" ++ crlf
  ++ "a=control:" ++ base_url ++ crlf
  ++ "a=tool:rtsp-server" ++ crlf
  ++ "m=video 0 RTP/AVP " ++ to_string video_pt ++ crlf
  ++ "a=rtpmap:" ++ to_string video_pt ++ " H264/90000" ++ crlf
  ++ (let sps_b64 := base64Encode (sps info) in
      let pps_b64 := base64Encode (pps info) in
      let plid := profileLevelId (sps info) in
      "a=fmtp:" ++ to_string video_pt ++ " packetization-mode=1"
      ++ ";sprop-parameter-sets=" ++ sps_b64 ++ "," ++ pps_b64
      ++ ";profile-level-id=" ++ plid ++ crlf)
  ++ "a=cliprect:0,0," ++ to_string (height info) ++ "," ++ to_string (width info) ++ crlf
  ++ "a=framesize:" ++ to_string video_pt ++ " " ++ to_string (width info) ++ "-"
     ++ to_string (height info) ++ crlf
  ++ "a=control:trackID=0" ++ crlf
  ++ (if present audio then
        "m=audio 0 RTP/AVP " ++ to_string audio_pt ++ crlf
        ++ "a=rtpmap:" ++ to_string audio_pt ++ " MPEG4-GENERIC/"
           ++ to_string (sample_rate audio) ++ "/" ++ to_string (channels audio) ++ crlf
        ++ "a=fmtp:" ++ to_string audio_pt ++ " profile-level-id=1" ++ ";mode=AAC-hbr"
           ++ ";sizelength=13;indexlength=3;indexdeltalength=3"
           ++ (if bool_decide (asc audio = []) then []
               else ";config=" ++ flat_map hex2_lower (asc audio))
           ++ crlf
        ++ "a=control:trackID=1" ++ crlf
      else []).
