(* ===== verification/SdpReader.v ===== *)
(** * [SdpReader]: what a client reads in the session description

    A reader of session descriptions as a client has one, after RFC 4566 (the lines and their
    grouping), RFC 2326 (the range and the control lines), RFC 6184 (H.264) and RFC 3640 (AAC):
    it knows the grammar and nothing of the server.  Proved: it reads in the text of
    [SDPBuilder::build] what the server was asked to describe, parameter sets and decoder
    configuration included. *)

From S2P Require Import Prelude StdString StringUtils Double RTSPRequest RTSPResponse SDPBuilder.

(** ** The lines of a description *)

Definition push (c : ascii) (ls : list text) : list text :=
  match ls with [] => [[c]] | l :: ls' => (c :: l) :: ls' end.

(** The text cut at every CR LF. *)
Fixpoint cut_lines (s : text) : list text :=
  match s with
  | [] => []
  | c :: s' =>
      match s' with
      | d :: s'' =>
          if decide (c = cr /\ d = lf) then [] :: cut_lines s'' else push c (cut_lines s')
      | [] => push c (cut_lines s')
      end
  end.

(** What follows a prefix. *)
Definition after (p s : text) : option text :=
  if starts_with p s then Some (drop (length p) s) else None.

(** The first line that begins so. *)
Fixpoint line (p : text) (ls : list text) : option text :=
  match ls with
  | [] => None
  | l :: ls' => match after p l with Some v => Some v | None => line p ls' end
  end.

(** The session section, and each media section: its m= line and the lines below it. *)
Fixpoint sections (ls : list text) : list text * list (text * list text) :=
  match ls with
  | [] => ([], [])
  | l :: ls' =>
      let (section, media) := sections ls' in
      match after "m=" l with
      | Some v => ([], (v, section) :: media)
      | None => (l :: section, media)
      end
  end.

(** ** Values *)

(** Digits only. *)
Definition read_number (t : text) : option Z :=
  if forallb isdigit t && bool_decide (t <> []) then Some (read_digits t 0) else None.

(** The text around the first [c]. *)
Definition cut_at (c : ascii) (s : text) : option (text * text) :=
  n ← find [c] s; Some (take n s, drop (S n) s).

(** A number of seconds with three decimals, in milliseconds. *)
Definition read_seconds (t : text) : option Z :=
  '(whole, milli) ← cut_at "." t;
  if decide (length milli = 3%nat)
  then a ← read_number whole; b ← read_number milli; Some (a * 1000 + b)
  else None.

(** Two hexadecimal digits per octet. *)
Fixpoint read_hex (t : text) : option bytes :=
  match t with
  | [] => Some []
  | h :: l :: t' =>
      if (0 <=? hexVal h) && (0 <=? hexVal l)
      then bs ← read_hex t'; Some (hexVal h * 16 + hexVal l :: bs) else None
  | _ => None
  end.

(** The parameters of an fmtp line, cut at ";" and each at its first "=". *)
Definition read_params (t : text) : list (text * text) :=
  omap (cut_at "=") (split_ref t ";").

Fixpoint param (name : text) (ps : list (text * text)) : option text :=
  match ps with
  | [] => None
  | (n, v) :: ps' => if decide (n = name) then Some v else param name ps'
  end.

(** The value of an attribute that names the payload type first. *)
Definition for_format (pt : Z) (t : text) : option text :=
  '(n, v) ← cut_at " " t; k ← read_number n; if decide (k = pt) then Some v else None.

(** ** Tracks *)

(** What a client needs to decode: RFC 6184 names the parameter sets and the profile, RFC 3640
    the widths of the access unit header and the AudioSpecificConfig. *)
Inductive coding :=
| H264 (mode : Z) (sps pps profile : bytes)
| AAC (rate channels sizelength indexlength indexdelta : Z) (config : bytes).

Record track := mkTrack {
  t_media : text;
  t_format : Z;
  t_clock : Z;
  t_coding : coding;
  t_size : option (Z * Z);       (* width, height *)
  t_clip : option (Z * Z);       (* bottom, right *)
  t_control : text
}.

Definition read_h264 (ps : list (text * text)) : option coding :=
  mode ← param "packetization-mode" ps ≫= read_number;
  '(a, b) ← param "sprop-parameter-sets" ps ≫= cut_at ",";
  sps ← b64_decode a; pps ← b64_decode b;
  profile ← param "profile-level-id" ps ≫= read_hex;
  Some (H264 mode sps pps profile).

Definition read_aac (rate channels : Z) (ps : list (text * text)) : option coding :=
  size ← param "sizelength" ps ≫= read_number;
  index ← param "indexlength" ps ≫= read_number;
  delta ← param "indexdeltalength" ps ≫= read_number;
  config ← match param "config" ps with Some t => read_hex t | None => Some [] end;
  if decide (param "mode" ps = Some ("AAC-hbr" : text))
  then Some (AAC rate channels size index delta config) else None.

Definition read_coding (rtpmap : text) (ps : list (text * text)) : option (Z * coding) :=
  match split_ref rtpmap "/" with
  | [name; clock] =>
      rate ← read_number clock;
      if decide (name = ("H264" : text)) then c ← read_h264 ps; Some (rate, c) else None
  | [name; clock; number] =>
      rate ← read_number clock; channels ← read_number number;
      if decide (name = ("MPEG4-GENERIC" : text))
      then c ← read_aac rate channels ps; Some (rate, c) else None
  | _ => None
  end.

Definition read_pair (separator : ascii) (t : text) : option (Z * Z) :=
  '(a, b) ← cut_at separator t; x ← read_number a; y ← read_number b; Some (x, y).

Definition read_track (m : text * list text) : option track :=
  match split_ref (fst m) " " with
  | [media; _; protocol; format] =>
      pt ← read_number format;
      map ← line "a=rtpmap:" (snd m) ≫= for_format pt;
      params ← line "a=fmtp:" (snd m) ≫= for_format pt;
      '(clock, c) ← read_coding map (read_params params);
      control ← line "a=control:" (snd m);
      if decide (protocol = ("RTP/AVP" : text)) then
        Some {| t_media := media; t_format := pt; t_clock := clock; t_coding := c;
                t_size := (line "a=framesize:" (snd m) ≫= for_format pt) ≫= read_pair "-";
                t_clip := line "a=cliprect:0,0," (snd m) ≫= read_pair ",";
                t_control := control |}
      else None
  | _ => None
  end.

(** ** Descriptions *)

Record description := mkDescription {
  d_origin : text;               (* the address of the o= line *)
  d_connection : text;           (* the address of the c= line *)
  d_name : text;
  d_duration : option Z;         (* milliseconds *)
  d_control : text;
  d_receive_only : bool;
  d_tracks : list track
}.

Definition read_address (t : text) : option text := after "IN IP4 " t.

Definition read_origin (t : text) : option text :=
  '(_, t1) ← cut_at " " t; '(_, t2) ← cut_at " " t1; '(_, t3) ← cut_at " " t2;
  read_address t3.

Definition read_description (s : text) : option description :=
  let (session, media) := sections (cut_lines s) in
  _ ← line "v=0" session; _ ← line "t=0 0" session;
  origin ← line "o=" session ≫= read_origin;
  connection ← line "c=" session ≫= read_address;
  name ← line "s=" session;
  control ← line "a=control:" session;
  tracks ← mapM read_track media;
  Some {| d_origin := origin; d_connection := connection; d_name := name;
          d_duration := line "a=range:npt=0-" session ≫= read_seconds;
          d_control := control;
          d_receive_only := match line "a=recvonly" session with Some _ => true | None => false end;
          d_tracks := tracks |}.

(** ** Reading what was printed *)

Lemma cut_lines_line l rest : no_crlf l = true -> cut_lines (l ++ crlf ++ rest) = l :: cut_lines rest.
Proof.
  induction l as [|c l IH]; intros Hl; [done|]. apply no_crlf_cons in Hl as [Hc Hl].
  specialize (IH Hl). rewrite <- app_comm_cons. cbn [cut_lines].
  destruct (l ++ crlf ++ rest) as [|d s] eqn:E; [by destruct l|].
  rewrite decide_False; [by rewrite IH|]. intros [-> ->]. apply Hc. split; [done|].
  destruct l; [done|]. by injection E as -> _.
Qed.

Lemma cut_lines_text ls : Forall (fun l => no_crlf l = true) ls -> cut_lines (lines_text ls) = ls.
Proof.
  induction 1 as [|l ls Hl _ IH]; [done|]. by rewrite lines_text_cons, cut_lines_line, IH.
Qed.

Lemma read_number_decimal z : 0 <= z -> read_number (decimal z) = Some z.
Proof.
  intros Hz. unfold read_number. rewrite bool_decide_eq_true_2 by apply decimal_nonempty.
  assert (forallb isdigit (decimal z) = true) as ->.
  { apply forallb_forall. intros c Hc%list_elem_of_In. pose proof (decimal_digits z Hz) as F.
    rewrite Forall_forall in F. by apply F. }
  cbn [andb]. f_equal. pose proof (read_digits_decimal z [] Hz eq_refl) as E.
  by rewrite app_nil_r in E.
Qed.

Lemma read_number_to_string z : 0 <= z -> read_number (to_string z) = Some z.
Proof.
  intros Hz. unfold to_string. destruct (Z.ltb_spec z 0); [lia|]. by apply read_number_decimal.
Qed.

Lemma cut_at_app c a b : c ∉ a -> cut_at c (a ++ c :: b) = Some (a, b).
Proof.
  intros H. unfold cut_at. rewrite find_char_app by done. cbn [mbind option_bind].
  rewrite take_app_length. do 2 f_equal. rewrite cons_middle, app_assoc.
  by rewrite drop_app_length' by len_lia.
Qed.

Lemma for_format_to_string pt v :
  0 <= pt -> for_format pt (to_string pt ++ " " ++ v) = Some v.
Proof.
  intros Hp. unfold for_format. cbn [app]. rewrite cut_at_app.
  - cbn [mbind option_bind]. rewrite read_number_to_string by done. cbn. by rewrite decide_True.
  - apply no_space_notin; [apply to_string_no_space|done].
Qed.

(** The milliseconds shown of a duration; an unknown, a zero or an infinite one is not shown. *)
Definition milliseconds (d : double) : option Z :=
  match d with S754_finite false m e => Some (round_milli m e) | _ => None end.

Lemma round_milli_nonneg m e : 0 <= round_milli m e.
Proof.
  unfold round_milli. case_if; [lia|]. cbv zeta.
  assert (0 <= Z.pos m * 1000 / 2 ^ (- e)) by (apply Z.div_pos; [lia|apply Z.pow_pos_nonneg; lia]).
  case_if; lia.
Qed.

Lemma read_print_milli n : 0 <= n -> read_seconds (print_milli false n) = Some n.
Proof.
  intros Hn. unfold read_seconds, print_milli. cbn [app].
  assert (0 <= n / 1000) as Hq by (apply Z.div_pos; lia).
  assert (0 <= n mod 1000 < 1000) as Hr by (apply Z.mod_pos_bound; lia).
  rewrite cut_at_app.
  - cbn [mbind option_bind]. rewrite decide_True by done. rewrite read_number_decimal by done.
    cbn [mbind option_bind].
    assert (read_number (three_digits (n mod 1000)) = Some (n mod 1000)) as ->.
    { pose proof (forall_below (fun k => bool_decide (read_number (three_digits k) = Some k)) 1000)
        as H. cbv beta in H. apply (bool_decide_eq_true_1 _ (H eq_refl _ Hr)). }
    cbn [mbind option_bind]. f_equal. pose proof (Z.div_mod n 1000). lia.
  - intros Hin. pose proof (decimal_digits _ Hq) as F. rewrite Forall_forall in F.
    by apply F in Hin.
Qed.

Lemma read_fixed3 d : dltb dzero d = true -> read_seconds (fixed3 d) = milliseconds d.
Proof.
  destruct d as [s|s| |s m e]; try destruct s; try done; intros _.
  apply read_print_milli, round_milli_nonneg.
Qed.

Lemma milliseconds_none d : dltb dzero d = false -> milliseconds d = None.
Proof. by destruct d as [s|s| |s m e]; try destruct s. Qed.

Lemma read_hex_digits table b t :
  is_byte b -> (forall d, 0 <= d < 16 -> hexVal (nth (Z.to_nat d) table "?"%char) = d) ->
  read_hex (hex2 table b ++ t) = bs ← read_hex t; Some (b :: bs).
Proof.
  intros Hb Ht. unfold is_byte in Hb.
  assert (0 <= b / 16 < 16) by (Z.div_mod_to_equations; lia).
  assert (0 <= b mod 16 < 16) by (apply Z.mod_pos_bound; lia).
  unfold hex2. cbn [app read_hex]. rewrite !Ht by done.
  rewrite !(proj2 (Z.leb_le 0 _)) by lia. cbn [andb]. destruct (read_hex t); [|done].
  cbn. do 2 f_equal. pose proof (Z.div_mod b 16). lia.
Qed.

Lemma read_hex_upper b t :
  is_byte b -> read_hex (hex2_upper b ++ t) = bs ← read_hex t; Some (b :: bs).
Proof.
  intros Hb. apply read_hex_digits; [done|]. intros d Hd. apply Z.eqb_eq.
  by apply (forall_below (fun d => hexVal (nth (Z.to_nat d) _ _) =? d) 16).
Qed.

Lemma read_hex_lower bs : Forall is_byte bs -> read_hex (flat_map hex2_lower bs) = Some bs.
Proof.
  induction 1 as [|b bs Hb _ IH]; [done|]. cbn [flat_map].
  unfold hex2_lower at 1. rewrite read_hex_digits, IH; [done|done|].
  intros d Hd. apply Z.eqb_eq.
  by apply (forall_below (fun d => hexVal (nth (Z.to_nat d) _ _) =? d) 16).
Qed.

(** The profile, constraints and level of a parameter set; Baseline 3.1 without one. *)
Definition profile_of (sps : bytes) : bytes :=
  match sps with _ :: b1 :: b2 :: b3 :: _ => [b1; b2; b3] | _ => [66; 0; 31] end.

Lemma read_profile sps : Forall is_byte sps -> read_hex (profileLevelId sps) = Some (profile_of sps).
Proof.
  intros H. destruct sps as [|b0 [|b1 [|b2 [|b3 l]]]]; [reflexivity..|].
  do 4 (apply Forall_cons in H as [? H]). unfold profileLevelId.
  rewrite !read_hex_upper by done. pose proof (read_hex_upper b3 []) as E.
  rewrite app_nil_r in E. by rewrite E.
Qed.

(** *** Characters that do not occur *)

Lemma nth_avoids c (table : text) n d : c ∉ (d :: table) -> nth n table d <> c.
Proof.
  intros H E. apply H. rewrite <- E. apply list_elem_of_In.
  destruct (nth_in_or_default n table d) as [Hi| ->]; [by right | by left].
Qed.

Lemma hex2_avoids c table b : c ∉ ("?"%char :: table) -> c ∉ hex2 table b.
Proof.
  intros H. unfold hex2. rewrite !not_elem_of_cons.
  split; [|split; [|apply not_elem_of_nil]]; intros E; symmetry in E; revert E;
    by apply nth_avoids.
Qed.

Lemma hex_avoids c bs :
  c ∉ ("?0123456789abcdef" : text) -> c ∉ flat_map hex2_lower bs.
Proof.
  intros H. induction bs as [|b bs IH]; [apply not_elem_of_nil|]. cbn [flat_map].
  apply not_elem_of_app. split; [by apply hex2_avoids|done].
Qed.

Lemma base64_avoids c d : c ∉ ("="%char :: kB64Table) -> c ∉ base64Encode d.
Proof.
  intros H. assert (forall x y z, c ∉ b64_group x y z) as Hg.
  { intros x y z. assert (forall i, b64_char i <> c) as Hi by (intros i; by apply nth_avoids).
    assert ("="%char <> c) by (by intros <-; apply H; left).
    unfold b64_group. rewrite !not_elem_of_cons.
    split_and!; [| | | |apply not_elem_of_nil]; intros E; symmetry in E; revert E;
      destruct y, z; first [apply Hi|done]. }
  induction d as [|x|x y|x y z l IH] using list_ind3; cbn [base64Encode];
    first [apply not_elem_of_nil | apply Hg | idtac].
  apply not_elem_of_app. split; [apply Hg|done].
Qed.

Lemma profile_avoids c d :
  c ∉ ("?0123456789ABCDEF" : text) -> c ∉ ("42001f" : text) -> c ∉ profileLevelId d.
Proof.
  intros H H'. unfold profileLevelId. destruct d as [|? [|? [|? [|? ?]]]]; [done..|].
  rewrite !not_elem_of_app. split_and!; by apply hex2_avoids.
Qed.

(** *** Parameters of a format *)

Lemma read_params_one n v :
  "="%char ∉ n -> ";"%char ∉ n -> ";"%char ∉ v ->
  read_params (n ++ "=" ++ v) = [(n, v)].
Proof.
  intros Hn Hs Hv. unfold read_params. rewrite split_ref_absent.
  - cbn [omap list_omap]. cbn [app]. by rewrite cut_at_app.
  - rewrite !not_elem_of_app. split_and!; [done|decide_closed|done].
Qed.

Lemma read_params_cons n v t :
  "="%char ∉ n -> ";"%char ∉ n -> ";"%char ∉ v ->
  read_params (n ++ "=" ++ v ++ ";" ++ t) = (n, v) :: read_params t.
Proof.
  intros Hn Hs Hv. unfold read_params.
  replace (n ++ "=" ++ v ++ ";" ++ t) with ((n ++ "="%char :: v) ++ ";"%char :: t)
    by (by rewrite <- app_assoc).
  rewrite split_ref_app.
  - cbn [omap list_omap]. by rewrite cut_at_app.
  - rewrite not_elem_of_app, not_elem_of_cons. done.
Qed.

(** ** The lines of [SDPBuilder::build], by section *)

Definition session_lines (info : H264StreamInfo) (server_ip stream_name base_url : text)
    : list text :=
  [ "v=0"; "o=- 1000 1 IN IP4 " ++ server_ip; "s=" ++ stream_name; "c=IN IP4 0.0.0.0"; "t=0 0" ]
  ++ (if dltb dzero (duration_secs info)
      then ["a=range:npt=0-" ++ fixed3 (duration_secs info)] else [])
  ++ [ "a=recvonly"; "a=control:" ++ base_url; "a=tool:rtsp-server" ].

Definition video_attributes (info : H264StreamInfo) (pt : Z) : list text :=
  [ "a=rtpmap:" ++ to_string pt ++ " H264/90000";
    "a=fmtp:" ++ to_string pt ++ " packetization-mode=1;sprop-parameter-sets="
      ++ base64Encode (sps info) ++ "," ++ base64Encode (pps info)
      ++ ";profile-level-id=" ++ profileLevelId (sps info);
    "a=cliprect:0,0," ++ to_string (height info) ++ "," ++ to_string (width info);
    "a=framesize:" ++ to_string pt ++ " " ++ to_string (width info) ++ "-"
      ++ to_string (height info);
    "a=control:trackID=0" ].

Definition audio_attributes (audio : AudioStreamInfo) (pt : Z) : list text :=
  [ "a=rtpmap:" ++ to_string pt ++ " MPEG4-GENERIC/"
      ++ to_string (sample_rate audio) ++ "/" ++ to_string (channels audio);
    "a=fmtp:" ++ to_string pt
      ++ " profile-level-id=1;mode=AAC-hbr;sizelength=13;indexlength=3;indexdeltalength=3"
      ++ (if bool_decide (asc audio = []) then []
          else ";config=" ++ flat_map hex2_lower (asc audio));
    "a=control:trackID=1" ].

Definition build_lines (info : H264StreamInfo) (server_ip stream_name base_url : text)
    (video_pt : Z) (audio : AudioStreamInfo) (audio_pt : Z) : list text :=
  session_lines info server_ip stream_name base_url
  ++ ("m=video 0 RTP/AVP " ++ to_string video_pt) :: video_attributes info video_pt
  ++ (if present audio
      then ("m=audio 0 RTP/AVP " ++ to_string audio_pt) :: audio_attributes audio audio_pt
      else []).

Lemma lines_text_app l k : lines_text (l ++ k) = lines_text l ++ lines_text k.
Proof. apply flat_map_app. Qed.

Lemma build_lines_text info ip name url vpt audio apt :
  build info ip name url vpt audio apt = lines_text (build_lines info ip name url vpt audio apt).
Proof.
  unfold build, build_lines, session_lines.
  set (r := if dltb _ _ then [_] else _).
  assert (lines_text r = if dltb dzero (duration_secs info)
    then "a=range:npt=0-" ++ fixed3 (duration_secs info) ++ crlf else []) as Hr.
  { unfold r. case_if; [|done]. rewrite lines_text_cons. by rewrite <- app_assoc. }
  rewrite <- Hr. clearbody r. clear Hr. cbv zeta.
  destruct (present audio); unfold video_attributes, audio_attributes;
    rewrite !lines_text_app, !lines_text_cons, !lines_text_app, !lines_text_cons;
    change (lines_text []) with (@nil ascii); rewrite <- !app_assoc, !app_nil_l, ?app_nil_r;
    reflexivity.
Qed.

(** No line ends early. *)
Definition no_cr (t : text) : Prop := cr ∉ t.

Lemma no_cr_app t u : no_cr t -> no_cr u -> no_cr (t ++ u).
Proof. unfold no_cr. rewrite not_elem_of_app. done. Qed.

Lemma no_cr_to_string z : no_cr (to_string z).
Proof. by apply to_string_notin. Qed.

Lemma no_cr_fixed3 d : no_cr (fixed3 d).
Proof.
  intros Hin. pose proof (fixed3_chars d) as F. rewrite Forall_forall in F.
  by apply F in Hin as [_ ?].
Qed.

Lemma no_cr_base64 d : no_cr (base64Encode d).
Proof. apply base64_avoids. decide_closed. Qed.

Lemma no_cr_profile d : no_cr (profileLevelId d).
Proof. apply profile_avoids; decide_closed. Qed.

Lemma no_cr_hex bs : no_cr (flat_map hex2_lower bs).
Proof. apply hex_avoids. decide_closed. Qed.

#[export] Hint Resolve no_cr_to_string no_cr_fixed3 no_cr_base64 no_cr_profile no_cr_hex : rtsp.

Ltac solve_no_cr :=
  repeat match goal with
    | |- no_cr (_ ++ _) => apply no_cr_app
    | |- no_cr (if ?b then _ else _) => destruct b
    end;
  first [assumption | solve [auto with rtsp nocore] | decide_closed].

Lemma build_lines_cut info ip name url vpt audio apt :
  no_cr ip -> no_cr name -> no_cr url ->
  cut_lines (build info ip name url vpt audio apt) = build_lines info ip name url vpt audio apt.
Proof.
  intros Hi Hn Hu. rewrite build_lines_text. apply cut_lines_text.
  assert (Forall no_cr (build_lines info ip name url vpt audio apt)) as H;
    [|by apply (Forall_impl _ _ _ H); intros l Hl; apply no_cr_no_crlf].
  unfold build_lines, session_lines, video_attributes, audio_attributes.
  repeat match goal with
    | |- Forall _ (_ ++ _) => apply Forall_app; split
    | |- Forall _ (if ?b then _ else _) => destruct b
    | |- Forall _ (_ :: _) => constructor; [solve_no_cr|]
    | |- Forall _ [] => constructor
    end.
Qed.

Lemma build_sections info ip name url vpt audio apt :
  sections (build_lines info ip name url vpt audio apt)
    = (session_lines info ip name url,
       ("video 0 RTP/AVP " ++ to_string vpt, video_attributes info vpt)
       :: (if present audio
           then [("audio 0 RTP/AVP " ++ to_string apt, audio_attributes audio apt)] else [])).
Proof.
  unfold build_lines, session_lines.
  destruct (dltb dzero (duration_secs info)), (present audio); reflexivity.
Qed.

(** ** What is read *)

(** The tracks the server means to describe, in the client's terms. *)
Definition video_track (info : H264StreamInfo) (pt : Z) : track := {|
  t_media := "video"; t_format := pt; t_clock := 90000;
  t_coding := H264 1 (sps info) (pps info) (profile_of (sps info));
  t_size := Some (width info, height info); t_clip := Some (height info, width info);
  t_control := "trackID=0"
|}.

Definition audio_track (audio : AudioStreamInfo) (pt : Z) : track := {|
  t_media := "audio"; t_format := pt; t_clock := sample_rate audio;
  t_coding := AAC (sample_rate audio) (channels audio) 13 3 3 (asc audio);
  t_size := None; t_clip := None; t_control := "trackID=1"
|}.

Lemma to_string_avoids_space z : " "%char ∉ to_string z.
Proof. apply no_space_notin; [apply to_string_no_space|done]. Qed.

Lemma read_pair_to_string a b c :
  isdigit c = false -> 0 <= a -> 0 <= b ->
  read_pair c (to_string a ++ [c] ++ to_string b) = Some (a, b).
Proof.
  intros Hc Ha Hb. unfold read_pair. cbn [app]. rewrite cut_at_app.
  - cbn [mbind option_bind]. by rewrite !read_number_to_string.
  - unfold to_string. destruct (Z.ltb_spec a 0); [lia|]. intros Hin.
    pose proof (decimal_digits _ Ha) as F. rewrite Forall_forall in F. apply F in Hin. congruence.
Qed.

Lemma read_video_params info :
  Forall is_byte (sps info) -> Forall is_byte (pps info) ->
  read_h264 (read_params ("packetization-mode=1;sprop-parameter-sets="
      ++ base64Encode (sps info) ++ "," ++ base64Encode (pps info)
      ++ ";profile-level-id=" ++ profileLevelId (sps info)))
    = Some (H264 1 (sps info) (pps info) (profile_of (sps info))).
Proof.
  intros Hs Hp.
  pose proof (read_params_cons "packetization-mode" "1"
    ("sprop-parameter-sets" ++ "=" ++ (base64Encode (sps info) ++ "," ++ base64Encode (pps info))
     ++ ";" ++ "profile-level-id" ++ "=" ++ profileLevelId (sps info))) as E1.
  pose proof (read_params_cons "sprop-parameter-sets"
    (base64Encode (sps info) ++ "," ++ base64Encode (pps info))
    ("profile-level-id" ++ "=" ++ profileLevelId (sps info))) as E2.
  pose proof (read_params_one "profile-level-id" (profileLevelId (sps info))) as E3.
  rewrite E3 in E2 by first [decide_closed|apply profile_avoids; decide_closed].
  rewrite E2 in E1; [|decide_closed..|].
  2: { rewrite !not_elem_of_app. split_and!; first [decide_closed|apply base64_avoids; decide_closed]. }
  specialize (E1 ltac:(decide_closed) ltac:(decide_closed) ltac:(decide_closed)).
  rewrite <- !app_assoc in E1.
  match type of E1 with ?l = _ => match goal with |- read_h264 ?m = _ => change m with l end end.
  rewrite E1. unfold read_h264.
  change (param "packetization-mode" _) with (Some ("1" : text)).
  change (param "sprop-parameter-sets" _)
    with (Some (base64Encode (sps info) ++ "," ++ base64Encode (pps info))).
  change (param "profile-level-id" _) with (Some (profileLevelId (sps info))).
  cbn [mbind option_bind].
  change (read_number "1") with (Some 1). cbn [app]. rewrite cut_at_app.
  - cbn [mbind option_bind]. rewrite !base64_roundtrip by done. cbn [mbind option_bind].
    by rewrite read_profile.
  - apply base64_avoids. decide_closed.
Qed.

Lemma read_video_track info pt :
  0 <= pt -> 0 <= width info -> 0 <= height info ->
  Forall is_byte (sps info) -> Forall is_byte (pps info) ->
  read_track ("video 0 RTP/AVP " ++ to_string pt, video_attributes info pt)
    = Some (video_track info pt).
Proof.
  intros Hp Hw Hh Hs Hpp. unfold read_track.
  change (split_ref (fst _) " ") with
    (("video" : text) :: ("0" : text) :: ("RTP/AVP" : text) :: split_ref (to_string pt) " ").
  rewrite split_ref_absent by apply to_string_avoids_space.
  rewrite read_number_to_string by done. cbn [mbind option_bind snd].
  unfold video_attributes.
  change (line "a=rtpmap:" _) with (Some (to_string pt ++ " " ++ "H264/90000")).
  change (line "a=fmtp:" _) with (Some (to_string pt ++ " " ++
    ("packetization-mode=1;sprop-parameter-sets="
      ++ base64Encode (sps info) ++ "," ++ base64Encode (pps info)
      ++ ";profile-level-id=" ++ profileLevelId (sps info)))).
  change (line "a=control:" _) with (Some ("trackID=0" : text)).
  change (line "a=framesize:" _) with (Some (to_string pt ++ " " ++ (to_string (width info) ++ "-"
      ++ to_string (height info)))).
  cbn [mbind option_bind]. rewrite !for_format_to_string by done. cbn [mbind option_bind].
  unfold read_coding. change (split_ref "H264/90000" "/") with [("H264" : text); ("90000" : text)].
  cbv iota. change (read_number "90000") with (Some 90000). cbn [mbind option_bind].
  rewrite decide_True by done. rewrite read_video_params by done. cbn [mbind option_bind].
  rewrite decide_True by done.
  change (line "a=cliprect:0,0," _)
    with (Some (to_string (height info) ++ "," ++ to_string (width info))).
  cbn [mbind option_bind]. by rewrite !read_pair_to_string.
Qed.

Lemma read_audio_params audio :
  Forall is_byte (asc audio) ->
  read_aac (sample_rate audio) (channels audio) (read_params
    ("profile-level-id=1;mode=AAC-hbr;sizelength=13;indexlength=3;indexdeltalength=3"
     ++ (if bool_decide (asc audio = []) then []
         else ";config=" ++ flat_map hex2_lower (asc audio))))
    = Some (AAC (sample_rate audio) (channels audio) 13 3 3 (asc audio)).
Proof.
  intros Ha. case_bool_decide as E; [by rewrite E|].
  assert (forall t, ";"%char ∉ t -> read_params
    ("profile-level-id=1;mode=AAC-hbr;sizelength=13;indexlength=3;indexdeltalength=3"
     ++ ";config=" ++ t) =
    [ ("profile-level-id", "1"); ("mode", "AAC-hbr"); ("sizelength", "13");
      ("indexlength", "3"); ("indexdeltalength", "3"); ("config", t) ]) as ->.
  - intros t Ht. pose proof (read_params_one "config" t) as E1.
    specialize (E1 ltac:(decide_closed) ltac:(decide_closed) Ht).
    unfold read_params in *. change (split_ref (_ ++ _ ++ t) ";") with
      ([ "profile-level-id=1" : text; "mode=AAC-hbr" : text; "sizelength=13" : text;
         "indexlength=3" : text; "indexdeltalength=3" : text ]
       ++ split_ref ("config" ++ "=" ++ t) ";").
    by rewrite omap_app, E1.
  - unfold read_aac. change (param "config" _) with (Some (flat_map hex2_lower (asc audio))).
    cbv iota. by rewrite read_hex_lower.
  - apply hex_avoids. decide_closed.
Qed.

Lemma read_audio_track audio pt :
  0 <= pt -> 0 <= sample_rate audio -> 0 <= channels audio -> Forall is_byte (asc audio) ->
  read_track ("audio 0 RTP/AVP " ++ to_string pt, audio_attributes audio pt)
    = Some (audio_track audio pt).
Proof.
  intros Hp Hr Hc Ha. unfold read_track.
  change (split_ref (fst _) " ") with
    (("audio" : text) :: ("0" : text) :: ("RTP/AVP" : text) :: split_ref (to_string pt) " ").
  rewrite split_ref_absent by apply to_string_avoids_space.
  rewrite read_number_to_string by done. cbn [mbind option_bind snd].
  unfold audio_attributes.
  change (line "a=rtpmap:" _) with (Some (to_string pt ++ " " ++ ("MPEG4-GENERIC/"
    ++ to_string (sample_rate audio) ++ "/" ++ to_string (channels audio)))).
  change (line "a=fmtp:" _) with (Some (to_string pt ++ " " ++
    ("profile-level-id=1;mode=AAC-hbr;sizelength=13;indexlength=3;indexdeltalength=3"
     ++ (if bool_decide (asc audio = []) then []
         else ";config=" ++ flat_map hex2_lower (asc audio))))).
  change (line "a=control:" _) with (Some ("trackID=1" : text)).
  change (line "a=framesize:" _) with (@None text).
  change (line "a=cliprect:0,0," _) with (@None text).
  cbn [mbind option_bind]. rewrite !for_format_to_string by done. cbn [mbind option_bind].
  assert (forall z, "/"%char ∉ to_string z) as Hd by (intros z; by apply to_string_notin).
  unfold read_coding.
  change (split_ref (_ ++ to_string (sample_rate audio) ++ _) "/")
    with (("MPEG4-GENERIC" : text)
          :: split_ref (to_string (sample_rate audio) ++ "/"%char :: to_string (channels audio)) "/").
  rewrite split_ref_app, split_ref_absent by done. cbv iota.
  rewrite !read_number_to_string by done. cbn [mbind option_bind].
  rewrite decide_True by done. rewrite read_audio_params by done. cbn [mbind option_bind].
  by rewrite decide_True by done.
Qed.

(** C40: A client that reads the description finds exactly what the server was asked to
    describe: the origin address, the stream's name, the duration to the millisecond when it is
    known, the control URL, one video track with its payload type, picture size, parameter sets
    and profile, and one audio track with its rate, channels and decoder configuration exactly
    when there is audio.  The connection address is 0.0.0.0 whatever [server_ip] is. *)
Theorem sdp_read_back info server_ip stream_name base_url video_pt audio audio_pt :
  no_cr server_ip -> no_cr stream_name -> no_cr base_url ->
  0 <= video_pt -> 0 <= width info -> 0 <= height info ->
  Forall is_byte (sps info) -> Forall is_byte (pps info) ->
  (present audio = true ->
    0 <= audio_pt /\ 0 <= sample_rate audio /\ 0 <= channels audio /\ Forall is_byte (asc audio)) ->
  read_description (build info server_ip stream_name base_url video_pt audio audio_pt)
    = Some {| d_origin := server_ip; d_connection := "0.0.0.0"; d_name := stream_name;
              d_duration := milliseconds (duration_secs info); d_control := base_url;
              d_receive_only := true;
              d_tracks := video_track info video_pt
                :: (if present audio then [audio_track audio audio_pt] else []) |}.
Proof.
  intros Hip Hname Hurl Hv Hw Hh Hs Hp Ha. unfold read_description.
  rewrite build_lines_cut, build_sections by done. cbn [mapM].
  rewrite read_video_track by done.
  assert (mapM read_track (if present audio
      then [("audio 0 RTP/AVP " ++ to_string audio_pt, audio_attributes audio audio_pt)] else [])
    = Some (if present audio then [audio_track audio audio_pt] else [])) as ->.
  { destruct (present audio); [|done]. destruct Ha as (? & ? & ? & ?); [done|]. cbn [mapM].
    by rewrite read_audio_track. }
  unfold session_lines. destruct (dltb dzero (duration_secs info)) eqn:E.
  - rewrite <- read_fixed3 by done. reflexivity.
  - rewrite milliseconds_none by done. reflexivity.
Qed.

Definition sample_info : H264StreamInfo :=
  {| sps := [103; 66; 192; 30]; pps := [104; 206]; width := 640; height := 360;
     frame_rate := frame_rate H264StreamInfo_default; duration_secs := S754_finite false 5 (-1) |}.

Definition sample_audio : AudioStreamInfo :=
  {| present := true; sample_rate := 48000; channels := 2; asc := [17; 144] |}.

Lemma sdp_read_back_witness :
  read_description (build sample_info "10.0.0.1" "v.mp4" "rtsp://h/v.mp4" 96 sample_audio 97)
    = Some {| d_origin := "10.0.0.1"; d_connection := "0.0.0.0"; d_name := "v.mp4";
              d_duration := Some 2500; d_control := "rtsp://h/v.mp4";
              d_receive_only := true;
              d_tracks := [video_track sample_info 96; audio_track sample_audio 97] |}.
Proof.
  apply (sdp_read_back sample_info "10.0.0.1" "v.mp4" "rtsp://h/v.mp4" 96 sample_audio 97);
    try decide_closed; try (vm_compute; congruence).
Defined.
