(* ===== verification/RTPPacket.v ===== *)
(** * [RTPPacket] (src/rtp/RTPPacket.cpp)

    The fixed 12-octet RTP header, proved to be decoded by the field layout of
    RFC 3550 section 5.1. *)

From S2P Require Import Prelude.

Definition kHeaderSize : nat := 12.

(** [RTPPacket::build] *)
Definition build (payload : bytes) (payload_type seq timestamp ssrc : Z) (marker : bool)
    : bytes :=
  [ (* V=2, P=0, X=0, CC=0 *)
    128;
    (* M | PT *)
    u8 (Z.lor (if marker then 128 else 0) (Z.land payload_type 127));
    (* sequence number *)
    u8 (Z.shiftr seq 8); u8 seq;
    (* timestamp *)
    u8 (Z.shiftr timestamp 24); u8 (Z.shiftr timestamp 16);
    u8 (Z.shiftr timestamp 8); u8 timestamp;
    (* SSRC *)
    u8 (Z.shiftr ssrc 24); u8 (Z.shiftr ssrc 16); u8 (Z.shiftr ssrc 8); u8 ssrc ]
  ++ payload.

(** ** Specification: an RTP packet as RFC 3550 reads it *)

Record rtp_packet := {
  rtp_version : Z;
  rtp_padding : bool;
  rtp_extension : bool;
  rtp_csrc_count : Z;
  rtp_marker : bool;
  rtp_pt : Z;
  rtp_sequence : Z;
  rtp_time : Z;
  rtp_source : Z;
  rtp_data : bytes
}.

Definition be16 (a b : Z) : Z := a * 256 + b.
Definition be32 (a b c d : Z) : Z := ((a * 256 + b) * 256 + c) * 256 + d.

Definition decode (pkt : bytes) : option rtp_packet :=
  match pkt with
  | b0 :: b1 :: s1 :: s0 :: t3 :: t2 :: t1 :: t0 :: x3 :: x2 :: x1 :: x0 :: data =>
      Some {| rtp_version := b0 / 64;
              rtp_padding := Z.testbit b0 5;
              rtp_extension := Z.testbit b0 4;
              rtp_csrc_count := b0 mod 16;
              rtp_marker := Z.testbit b1 7;
              rtp_pt := b1 mod 128;
              rtp_sequence := be16 s1 s0;
              rtp_time := be32 t3 t2 t1 t0;
              rtp_source := be32 x3 x2 x1 x0;
              rtp_data := data |}
  | _ => None
  end.

Lemma be16_octets z : 0 <= z < 65536 -> be16 (u8 (Z.shiftr z 8)) (u8 z) = z.
Proof. intros H. unfold be16. bits_lia. Qed.

Lemma be32_octets z :
  0 <= z < 4294967296 ->
  be32 (u8 (Z.shiftr z 24)) (u8 (Z.shiftr z 16)) (u8 (Z.shiftr z 8)) (u8 z) = z.
Proof. intros H. unfold be32. bits_lia. Qed.

Lemma marker_octet (m : bool) pt :
  0 <= pt < 128 ->
  let b := u8 (Z.lor (if m then 128 else 0) (Z.land pt 127)) in
  Z.testbit b 7 = m /\ b mod 128 = pt.
Proof.
  intros H. cbv zeta.
  pose proof (forall_below (fun pt =>
    let b := u8 (Z.lor (if m then 128 else 0) (Z.land pt 127)) in
    eqb (Z.testbit b 7) m && (b mod 128 =? pt)) 128) as F.
  specialize (F ltac:(destruct m; vm_compute; reflexivity) pt H). cbv zeta in F.
  apply andb_prop in F as [F1 F2]. apply eqb_prop in F1. apply Z.eqb_eq in F2. done.
Qed.

Lemma build_length payload pt seq ts ssrc m :
  length (build payload pt seq ts ssrc m) = (kHeaderSize + length payload)%nat.
Proof. reflexivity. Qed.

Lemma build_bytes payload pt seq ts ssrc m :
  Forall is_byte payload -> Forall is_byte (build payload pt seq ts ssrc m).
Proof.
  intros H. unfold build. apply Forall_app. split; [|done].
  repeat (constructor; [first [apply u8_range | unfold is_byte; lia]|]). constructor.
Qed.

Lemma build_decodes payload pt seq ts ssrc m :
  0 <= pt < 128 -> 0 <= seq < 65536 -> 0 <= ts < 4294967296 -> 0 <= ssrc < 4294967296 ->
  decode (build payload pt seq ts ssrc m)
    = Some {| rtp_version := 2; rtp_padding := false; rtp_extension := false;
              rtp_csrc_count := 0; rtp_marker := m; rtp_pt := pt; rtp_sequence := seq;
              rtp_time := ts; rtp_source := ssrc; rtp_data := payload |}.
Proof.
  intros Hpt Hseq Hts Hss. unfold build. cbn [app decode].
  destruct (marker_octet m pt Hpt) as [-> ->].
  by rewrite be16_octets, !be32_octets by done.
Qed.

(** A receiver that decodes a built packet gets version 2, no padding, no extension, no
    CSRC, and the marker, payload type, sequence number, timestamp, source and payload that
    were given, for every value in the range of its field. *)
Theorem build_decode payload pt seq ts ssrc m :
  0 <= pt < 128 -> 0 <= seq < 65536 -> 0 <= ts < 4294967296 -> 0 <= ssrc < 4294967296 ->
  decode (build payload pt seq ts ssrc m)
    = Some {| rtp_version := 2; rtp_padding := false; rtp_extension := false;
              rtp_csrc_count := 0; rtp_marker := m; rtp_pt := pt; rtp_sequence := seq;
              rtp_time := ts; rtp_source := ssrc; rtp_data := payload |}.
Proof. apply build_decodes. Qed.

Lemma build_decode_witness :
  decode (build [1; 2] 96 65535 4294967295 7 true)
    = Some {| rtp_version := 2; rtp_padding := false; rtp_extension := false;
              rtp_csrc_count := 0; rtp_marker := true; rtp_pt := 96; rtp_sequence := 65535;
              rtp_time := 4294967295; rtp_source := 7; rtp_data := [1; 2] |}.
Proof. apply build_decode; lia. Defined.
