(* ===== verification/H264Packetizer.v ===== *)
(** * [H264Packetizer] (src/rtp/H264Packetizer.cpp)

    Splitting one NAL unit into RTP payloads: a single-NAL packet when it fits, FU-A
    fragments otherwise.  The fragments are reassembled by a depacketizer written
    from RFC 6184, section 5.8; sizes, fragment flags, markers and termination are
    proved for every MTU that leaves room for the fragment header. *)

From S2P Require Import Prelude.

(** ** Definitions *)

Record Packet := mkPacket { payload : bytes; marker : bool }.

(** One fragment: the FU indicator, the FU header with its S and E bits, the data. *)
Definition fu_packet (fu_indicator nal_type : Z) (first last : bool) (chunk_data : bytes)
    : Packet :=
  let fu_header := nal_type in
  let fu_header := if first then Z.lor fu_header 128 else fu_header in
  let fu_header := if last then Z.lor fu_header 64 else fu_header in
  {| payload := fu_indicator :: fu_header :: chunk_data; marker := last |}.

(** The [while (!data.empty())] loop; [None] when the fuel runs out. *)
Fixpoint fu_loop (fuel : nat) (fu_indicator nal_type fragment_size : Z) (data : bytes)
    (first : bool) : option (list Packet) :=
  match fuel with
  | O => None
  | S f =>
      if bool_decide (data = []) then Some []
      else
        let chunk := Z.to_nat (Z.min (Z.of_nat (length data)) fragment_size) in
        let last := bool_decide (chunk = length data) in
        let p := fu_packet fu_indicator nal_type first last (take chunk data) in
        ps ← fu_loop f fu_indicator nal_type fragment_size (drop chunk data) false;
        Some (p :: ps)
  end.

(** [packetize(nal, mtu)]; [mtu - 2u] is computed in [size_t]. *)
Definition packetize_fuel (fuel : nat) (nal : bytes) (mtu : Z) : option (list Packet) :=
  match nal with
  | [] => Some []
  | nal_header :: data =>
      if Z.of_nat (length nal) <=? mtu then Some [{| payload := nal; marker := true |}]
      else
        let nal_type := Z.land nal_header 31 in
        let nri := Z.land nal_header 96 in
        let fu_indicator := Z.lor nri 28 in
        let fragment_size := u64 (mtu - 2) in
        fu_loop fuel fu_indicator nal_type fragment_size data true
  end.

Definition packetize (nal : bytes) (mtu : Z) : option (list Packet) :=
  packetize_fuel (S (length nal)) nal mtu.

(** The MTU the session uses (the default argument). *)
Definition default_mtu : Z := 1400.

(** ** Specification: the receiver of RFC 6184 *)

(** Fragments of one NAL unit: same indicator and type, the S bit on the first one
    only, the E bit on the last one only. *)
Fixpoint fua_join (ps : list bytes) (fu_indicator nal_type : Z) (first : bool)
    : option bytes :=
  match ps with
  | (i :: h :: d) :: ps' =>
      if (i =? fu_indicator) && (Z.land h 31 =? nal_type) && eqb (Z.testbit h 7) first then
        if Z.testbit h 6 then (if bool_decide (ps' = []) then Some d else None)
        else d' ← fua_join ps' fu_indicator nal_type false; Some (d ++ d')
      else None
  | _ => None
  end.

Definition depacketize (ps : list bytes) : option bytes :=
  match ps with
  | (i :: rest) :: ps' =>
      if Z.land i 31 =? 28 then
        match rest with
        | h :: _ =>
            d ← fua_join ps i (Z.land h 31) true;
            Some (Z.lor (Z.land i 96) (Z.land h 31) :: d)
        | [] => None
        end
      else if bool_decide (ps' = []) then Some (i :: rest) else None
  | _ => None
  end.

(** A NAL unit a stream can carry as such: forbidden bit clear, type not FU-A. *)
Definition nal_unit (nal : bytes) : Prop :=
  match nal with
  | [] => False
  | h :: _ => 0 <= h < 128 /\ Z.land h 31 <> 28
  end.

(** ** The header octets *)

Lemma fu_header_bits t (first last : bool) :
  0 <= t < 32 ->
  let h := if first then Z.lor t 128 else t in
  let h := if last then Z.lor h 64 else h in
  Z.land h 31 = t /\ Z.testbit h 7 = first /\ Z.testbit h 6 = last /\ 0 <= h < 256.
Proof.
  intros Ht. cbv zeta.
  pose proof (forall_below (fun t =>
    let h := if first then Z.lor t 128 else t in
    let h := if last then Z.lor h 64 else h in
    (Z.land h 31 =? t) && eqb (Z.testbit h 7) first && eqb (Z.testbit h 6) last
    && (0 <=? h) && (h <? 256)) 32) as F.
  specialize (F ltac:(destruct first, last; vm_compute; reflexivity) t Ht).
  cbv zeta in F. rewrite !andb_true_iff in F. destruct F as [[[[F1 F2] F3] F4] F5].
  apply Z.eqb_eq in F1. apply eqb_prop in F2. apply eqb_prop in F3.
  apply Z.leb_le in F4. apply Z.ltb_lt in F5. done.
Qed.

Lemma nal_header_bits h :
  0 <= h < 128 ->
  0 <= Z.land h 31 < 32
  /\ Z.land (Z.lor (Z.land h 96) 28) 31 = 28
  /\ Z.lor (Z.land (Z.lor (Z.land h 96) 28) 96) (Z.land h 31) = h
  /\ 0 <= Z.lor (Z.land h 96) 28 < 256.
Proof.
  intros Hh.
  pose proof (forall_below (fun h =>
    (0 <=? Z.land h 31) && (Z.land h 31 <? 32)
    && (Z.land (Z.lor (Z.land h 96) 28) 31 =? 28)
    && (Z.lor (Z.land (Z.lor (Z.land h 96) 28) 96) (Z.land h 31) =? h)
    && (0 <=? Z.lor (Z.land h 96) 28) && (Z.lor (Z.land h 96) 28 <? 256)) 128) as F.
  specialize (F ltac:(vm_compute; reflexivity) h Hh).
  rewrite !andb_true_iff, !Z.leb_le, !Z.ltb_lt, !Z.eqb_eq in F. tauto.
Qed.

(** ** The loop *)

Section loop.
Context (ind t fs : Z) (Hfs : 1 <= fs).

(** A fragment takes at least one octet, so the data shrink. *)
Lemma chunk_bounds (data : bytes) :
  data <> [] ->
  let chunk := Z.to_nat (Z.min (Z.of_nat (length data)) fs) in
  (1 <= chunk <= length data)%nat /\ Z.of_nat chunk <= fs.
Proof. intros H. destruct data; [done|]. cbv zeta. len_lia. Qed.

Lemma fu_loop_total fuel data first :
  (length data < fuel)%nat -> is_Some (fu_loop fuel ind t fs data first).
Proof.
  revert data first. induction fuel as [|fuel IH]; intros data first Hf; [lia|]. simpl.
  case_bool_decide as Hd; [by eexists|]. pose proof (chunk_bounds data Hd) as Hc.
  cbv zeta in Hc.
  destruct (IH (drop (Z.to_nat (Z.min (Z.of_nat (length data)) fs)) data) false)
    as [ps ->]; [len_lia|]. by eexists.
Qed.

(** Sizes: two header octets and between one and [fs] octets of data. *)
Lemma fu_loop_sizes fuel data first ps :
  fu_loop fuel ind t fs data first = Some ps ->
  Forall (fun p => 3 <= Z.of_nat (length (payload p)) <= fs + 2) ps.
Proof.
  revert data first ps. induction fuel as [|fuel IH]; intros data first ps; simpl; [done|].
  case_bool_decide as Hd; [by intros [= <-]|]. pose proof (chunk_bounds data Hd) as Hc.
  cbv zeta in Hc. destruct (fu_loop fuel _ _ _ _ _) as [ps'|] eqn:E; [|done].
  intros [= <-]. constructor; [simpl; len_lia|]. eauto.
Qed.

(** Markers: the last fragment only. *)
Lemma fu_loop_markers fuel data first ps :
  data <> [] -> fu_loop fuel ind t fs data first = Some ps ->
  exists n, map marker ps = replicate n false ++ [true].
Proof.
  revert data first ps. induction fuel as [|fuel IH]; intros data first ps Hne; simpl; [done|].
  rewrite bool_decide_eq_false_2 by done. pose proof (chunk_bounds data Hne) as Hc.
  cbv zeta in Hc. set (k := Z.to_nat _) in *. clearbody k.
  destruct (fu_loop fuel _ _ _ _ _) as [ps'|] eqn:E; [|done]. intros [= <-].
  case_bool_decide as Hl; simpl.
  - exists 0%nat. rewrite Hl, drop_all in E. destruct fuel; [done|]. simpl in E.
    by injection E as <-.
  - destruct (IH (drop k data) false ps') as [n Hn]; [|done|].
    + intros H. apply (f_equal length) in H. len_lia.
    + exists (S n). by rewrite Hn.
Qed.

(** Reassembly: the receiver gets the data back. *)
Lemma fu_loop_join fuel data first ps :
  0 <= t < 32 -> data <> [] -> fu_loop fuel ind t fs data first = Some ps ->
  fua_join (map payload ps) ind t first = Some data
  /\ exists h d ps', ps = h :: ps' /\ payload h = ind :: d /\ hd_error d <> None
     /\ Z.land (hd 0 d) 31 = t.
Proof.
  intros Ht. revert data first ps.
  induction fuel as [|fuel IH]; intros data first ps Hne; simpl; [done|].
  rewrite bool_decide_eq_false_2 by done. pose proof (chunk_bounds data Hne) as Hc.
  cbv zeta in Hc. set (k := Z.to_nat _) in *. clearbody k.
  destruct (fu_loop fuel _ _ _ _ _) as [ps'|] eqn:E; [|done]. intros [= <-].
  pose proof (fu_header_bits t first (bool_decide (k = length data)) Ht) as Hh.
  cbv zeta in Hh. destruct Hh as (H31 & H7 & H6 & _).
  split; [|by do 3 eexists; split; [reflexivity|split; [reflexivity|split]]].
  cbn [map payload fu_packet fua_join]. rewrite H31, H7, H6, !Z.eqb_refl, eqb_reflx.
  cbn [andb]. case_bool_decide as Hl.
  - rewrite Hl, drop_all in E. destruct fuel; [done|]. simpl in E.
    injection E as <-. simpl. by rewrite Hl, take_ge.
  - destruct (IH (drop k data) false ps') as [-> _]; [|done|].
    + intros H. apply (f_equal length) in H. len_lia.
    + simpl. by rewrite take_drop.
Qed.
End loop.

(** ** [packetize] *)

Lemma fragment_size_range mtu : 3 <= mtu < 2 ^ 64 -> u64 (mtu - 2) = mtu - 2.
Proof. intros H. apply u64_small. change (2 ^ 64) with 18446744073709551616 in H. lia. Qed.

Lemma packetize_fits nal mtu :
  3 <= mtu < 2 ^ 64 -> nal <> [] ->
  exists ps n,
    packetize nal mtu = Some ps
    /\ Forall (fun p => 1 <= Z.of_nat (length (payload p)) <= mtu) ps
    /\ map marker ps = replicate n false ++ [true].
Proof.
  intros Hm Hne. unfold packetize, packetize_fuel. destruct nal as [|h data]; [done|].
  destruct (Z.leb_spec (Z.of_nat (length (h :: data))) mtu) as [Hle|Hgt].
  - do 2 eexists. split; [reflexivity|]. split; [|by instantiate (1 := 0%nat)].
    constructor; [|constructor]. simpl in *. lia.
  - rewrite fragment_size_range by done. cbv zeta.
    assert (1 <= mtu - 2) as Hfs by lia.
    assert (data <> []) as Hd by (intros ->; simpl in Hgt; lia).
    destruct (fu_loop_total (Z.lor (Z.land h 96) 28) (Z.land h 31) (mtu - 2) Hfs
      (S (length (h :: data))) data true) as [ps Hps]; [simpl; lia|].
    destruct (fu_loop_markers _ _ _ Hfs _ _ _ _ Hd Hps) as [n Hn].
    exists ps, n. split; [done|]. split; [|done].
    apply fu_loop_sizes in Hps; [|done]. eapply Forall_impl; [exact Hps|].
    intros p Hp. simpl in Hp. lia.
Qed.

(** C36: For every MTU of at least 3 the fragmentation loop ends, every payload is between
    1 and [mtu] octets long, and the marker is set on the last packet only. *)
Theorem packetize_terminates_and_fits nal mtu :
  3 <= mtu < 2 ^ 64 -> nal <> [] ->
  exists ps n,
    packetize nal mtu = Some ps
    /\ Forall (fun p => 1 <= Z.of_nat (length (payload p)) <= mtu) ps
    /\ map marker ps = replicate n false ++ [true].
Proof. apply packetize_fits. Qed.

Lemma packetize_terminates_and_fits_witness :
  exists ps n,
    packetize (101 :: replicate 3000 7) 1400 = Some ps
    /\ Forall (fun p => 1 <= Z.of_nat (length (payload p)) <= 1400) ps
    /\ map marker ps = replicate n false ++ [true].
Proof. apply packetize_terminates_and_fits; [lia | done]. Defined.

Lemma packetize_join nal mtu ps :
  3 <= mtu < 2 ^ 64 -> nal_unit nal ->
  packetize nal mtu = Some ps -> depacketize (map payload ps) = Some nal.
Proof.
  intros Hm Hn. unfold packetize, packetize_fuel.
  destruct nal as [|h data]; [done|]. destruct Hn as [Hh Ht].
  destruct (nal_header_bits h Hh) as (Hty & H28 & Hre & _).
  destruct (Z.leb_spec (Z.of_nat (length (h :: data))) mtu) as [Hle|Hgt].
  - intros [= <-]. simpl. by rewrite (proj2 (Z.eqb_neq _ _) Ht).
  - rewrite fragment_size_range by done. cbv zeta. intros Hps.
    assert (1 <= mtu - 2) as Hfs by lia.
    assert (data <> []) as Hd by (intros ->; simpl in Hgt; lia).
    destruct (fu_loop_join _ _ _ Hfs _ _ _ _ Hty Hd Hps)
      as (Hj & p & d & ps' & -> & Hp & Hhd & Hd31).
    destruct d as [|fh d]; [done|]. cbn [hd] in Hd31.
    cbn [map] in *. rewrite Hp in *. unfold depacketize. rewrite H28, Z.eqb_refl, Hd31, Hj.
    simpl. by rewrite Hre.
Qed.

(** C35: A receiver of the payloads recovers the NAL unit: the FU-A receiver accepts the
    indicator, type, S and E bits of every fragment and rebuilds the header octet. *)
Theorem packetize_depacketize nal mtu ps :
  3 <= mtu < 2 ^ 64 -> nal_unit nal ->
  packetize nal mtu = Some ps -> depacketize (map payload ps) = Some nal.
Proof. apply packetize_join. Qed.

Lemma packetize_depacketize_witness :
  exists ps, packetize (101 :: replicate 3000 7) 1400 = Some ps
    /\ depacketize (map payload ps) = Some (101 :: replicate 3000 7).
Proof.
  destruct (packetize (101 :: replicate 3000 7) 1400) as [ps|] eqn:E.
  - exists ps. split; [reflexivity|]. revert E. apply packetize_depacketize; [lia|].
    split; [lia | intros H; vm_compute in H; discriminate H].
  - vm_compute in E. discriminate E.
Defined.

(** With an MTU of 2 the fragment size is 0: the loop never advances, whatever the
    fuel. *)
Lemma packetize_mtu_2_diverges fuel nal :
  (2 < length nal)%nat -> packetize_fuel fuel nal 2 = None.
Proof.
  intros Hl. unfold packetize_fuel. destruct nal as [|h data]; [simpl in Hl; lia|].
  destruct (Z.leb_spec (Z.of_nat (length (h :: data))) 2); [simpl in *; lia|].
  cbv zeta. change (u64 (2 - 2)) with 0. generalize true.
  assert (data <> []) as Hd by (intros ->; simpl in Hl; lia).
  induction fuel as [|fuel IH]; intros first; [done|]. simpl.
  rewrite bool_decide_eq_false_2 by done. rewrite Z.min_r by lia.
  change (Z.to_nat 0) with 0%nat. rewrite drop_0. by rewrite IH.
Qed.

(** ** A receiver of a stream of payloads

    [receive] takes the payloads of successive NAL units in order; [acc] is the NAL unit under
    reassembly. *)

Fixpoint receive (acc : option bytes) (ps : list bytes) : option (list bytes) :=
  match ps, acc with
  | [], None => Some []
  | (i :: rest) :: ps', _ =>
      if Z.land i 31 =? 28 then
        match rest, acc with
        | h :: d, None =>
            if Z.testbit h 7 then
              let nal := Z.lor (Z.land i 96) (Z.land h 31) :: d in
              if Z.testbit h 6 then l ← receive None ps'; Some (nal :: l)
              else receive (Some nal) ps'
            else None
        | h :: d, Some a =>
            if Z.testbit h 7 then None
            else if Z.testbit h 6 then l ← receive None ps'; Some ((a ++ d) :: l)
            else receive (Some (a ++ d)) ps'
        | [], _ => None
        end
      else
        match acc with
        | None => l ← receive None ps'; Some ((i :: rest) :: l)
        | Some _ => None
        end
  | _, _ => None
  end.

Lemma receive_fragments ps : forall ind t a more d,
  Z.land ind 31 = 28 -> fua_join ps ind t false = Some d ->
  receive (Some a) (ps ++ more) = l ← receive None more; Some ((a ++ d) :: l).
Proof.
  induction ps as [|[|i [|h d0]] ps IH]; intros ind t a more d Hi Hj; try done.
  cbn [fua_join] in Hj. destruct (_ && _) eqn:Ec in Hj; [|done].
  apply andb_prop in Ec as [Ec Es]. apply andb_prop in Ec as [Ei Eh].
  apply Z.eqb_eq in Ei as ->. apply eqb_prop in Es.
  cbn [app receive]. rewrite Hi, Z.eqb_refl, Es.
  destruct (Z.testbit h 6).
  - case_bool_decide as Hp; [|done]. injection Hj as <-. by subst ps.
  - destruct (fua_join ps ind t false) as [d'|] eqn:E; [|done]. injection Hj as <-.
    rewrite (IH ind t (a ++ d0) more d' Hi E). by rewrite app_assoc.
Qed.

Lemma receive_depacketize ps nal more :
  depacketize ps = Some nal ->
  receive None (ps ++ more) = l ← receive None more; Some (nal :: l).
Proof.
  destruct ps as [|[|i rest] ps]; [done|done|]. unfold depacketize. cbn [app receive].
  destruct (Z.eqb_spec (Z.land i 31) 28) as [Hi|Hi].
  - destruct rest as [|h d0]; [done|]. cbn [fua_join]. rewrite !Z.eqb_refl. cbn [andb].
    destruct (Z.testbit h 7); [|done]. cbn [eqb]. destruct (Z.testbit h 6).
    + case_bool_decide as Hp; [|done]. cbn. intros [= <-]. by subst ps.
    + destruct (fua_join ps i (Z.land h 31) false) as [d'|] eqn:E; [|done]. cbn.
      intros [= <-]. rewrite (receive_fragments ps i _ _ more d' Hi E). done.
  - case_bool_decide as Hp; [|done]. intros [= <-]. by subst ps.
Qed.
