(* ===== verification/AnnexBParser.v ===== *)
(** * [AnnexBParser] (include/rtspserver/media/AnnexBParser.hpp)

    Splitting an Annex-B byte stream into NAL units.  Views are pairs (offset, length)
    into the buffer; the owning split copies them.  Proved: the loops terminate, the
    two splits agree, views stay inside the buffer and do not overlap, and a stream
    written with any mix of 3- and 4-byte start codes is split back into its NAL units. *)

From S2P Require Import Prelude.

(** ** Definitions *)

Definition byte_at (data : bytes) (i : nat) : Z := nth i data 0.

(** [startCodeLength(data, size, offset)] *)
Definition startCodeLength (data : bytes) (size offset : nat) : nat :=
  if ((offset + 4 <=? size)%nat && (byte_at data offset =? 0)
      && (byte_at data (offset + 1) =? 0) && (byte_at data (offset + 2) =? 0)
      && (byte_at data (offset + 3) =? 1))%bool then 4%nat
  else if ((offset + 3 <=? size)%nat && (byte_at data offset =? 0)
      && (byte_at data (offset + 1) =? 0) && (byte_at data (offset + 2) =? 1))%bool then 3%nat
  else 0%nat.

(** A [std::span] into the buffer. *)
Abbreviation view := (nat * nat)%type.

Definition view_data (data : bytes) (v : view) : bytes := take (snd v) (drop (fst v) data).

(** The [while (i < size)] loop of [splitView] with the final [if]. *)
Fixpoint splitView_loop (fuel : nat) (data : bytes) (i nal_start : nat) (nals : list view)
    : option (list view) :=
  let size := length data in
  match fuel with
  | O => None
  | S f =>
      if (i <? size)%nat then
        let sc_len := startCodeLength data size i in
        if (0 <? sc_len)%nat then
          let nals := if (nal_start <? i)%nat
                      then nals ++ [(nal_start, i - nal_start)%nat] else nals in
          splitView_loop f data (i + sc_len) (i + sc_len) nals
        else splitView_loop f data (i + 1) nal_start nals
      else
        Some (if (nal_start <? size)%nat
              then nals ++ [(nal_start, size - nal_start)%nat] else nals)
  end.

Definition splitView (data : bytes) : list view :=
  let size := length data in
  let sc := startCodeLength data size 0 in
  let nal_start := if (0 <? sc)%nat then sc else size in
  default [] (splitView_loop (S size) data sc nal_start []).

(** The owning [split]: the same loop, copying the octets. *)
Fixpoint split_loop (fuel : nat) (data : bytes) (i nal_start : nat) (nals : list bytes)
    : option (list bytes) :=
  let size := length data in
  match fuel with
  | O => None
  | S f =>
      if (i <? size)%nat then
        let sc_len := startCodeLength data size i in
        if (0 <? sc_len)%nat then
          let nals := if (nal_start <? i)%nat
                      then nals ++ [take (i - nal_start) (drop nal_start data)] else nals in
          split_loop f data (i + sc_len) (i + sc_len) nals
        else split_loop f data (i + 1) nal_start nals
      else
        Some (if (nal_start <? size)%nat
              then nals ++ [take (size - nal_start) (drop nal_start data)] else nals)
  end.

Definition split (data : bytes) : list bytes :=
  let size := length data in
  let sc := startCodeLength data size 0 in
  let nal_start := if (0 <? sc)%nat then sc else size in
  default [] (split_loop (S size) data sc nal_start []).

(** ** Start codes on suffixes *)

Definition sc_at (l : bytes) : nat :=
  match l with
  | a :: b :: c :: r =>
      if (a =? 0) && (b =? 0) then
        if c =? 1 then 3%nat
        else match r with
             | d :: _ => if (c =? 0) && (d =? 1) then 4%nat else 0%nat
             | [] => 0%nat
             end
      else 0%nat
  | _ => 0%nat
  end.

Lemma byte_at_drop data o k : byte_at data (o + k) = nth k (drop o data) 0.
Proof.
  unfold byte_at. revert data. induction o as [|o IH]; intros data; [by rewrite drop_0|].
  destruct data; simpl; [by destruct k | apply IH].
Qed.

Lemma startCodeLength_sc_at data o :
  startCodeLength data (length data) o = sc_at (drop o data).
Proof.
  unfold startCodeLength. pose proof (byte_at_drop data o 0) as E0.
  rewrite Nat.add_0_r in E0. rewrite E0, !byte_at_drop. clear E0.
  destruct (drop o data) as [|a [|b [|c [|d r]]]] eqn:E;
    apply (f_equal length) in E; rewrite length_drop in E; simpl in E; simpl;
    repeat match goal with |- context [(?x <=? ?y)%nat] =>
      destruct (Nat.leb_spec x y); try lia end; simpl; try done;
    repeat match goal with |- context [?x =? ?y] => destruct (Z.eqb_spec x y) end;
    simpl; congruence.
Qed.

Lemma sc_at_length l : (sc_at l <= length l)%nat.
Proof.
  destruct l as [|a [|b [|c r]]]; simpl; try lia.
  repeat case_if; try lia. destruct r; [lia|]. case_if; simpl; lia.
Qed.

Lemma sc_at_cases l : sc_at l = 0%nat \/ sc_at l = 3%nat \/ sc_at l = 4%nat.
Proof.
  destruct l as [|a [|b [|c r]]]; simpl; auto.
  repeat case_if; auto. destruct r; auto. case_if; auto.
Qed.

(** ** Termination, agreement, safety *)

Lemma splitView_loop_total fuel data i ns nals :
  (length data < fuel + i)%nat -> (i <= length data)%nat ->
  is_Some (splitView_loop fuel data i ns nals).
Proof.
  revert i ns nals. induction fuel as [|fuel IH]; intros i ns nals Hf Hi; simpl; [lia|].
  destruct (Nat.ltb_spec i (length data)); [|by eexists].
  rewrite startCodeLength_sc_at.
  pose proof (sc_at_length (drop i data)) as Hl. rewrite length_drop in Hl.
  destruct (Nat.ltb_spec 0 (sc_at (drop i data))); apply IH; lia.
Qed.

Lemma split_loop_views fuel data i ns nals :
  split_loop fuel data i ns (map (view_data data) nals)
    = (l ← splitView_loop fuel data i ns nals; Some (map (view_data data) l)).
Proof.
  revert i ns nals. induction fuel as [|fuel IH]; intros i ns nals; simpl; [done|].
  destruct (i <? length data)%nat.
  - destruct (0 <? startCodeLength data (length data) i)%nat; [|apply IH].
    rewrite <- IH. f_equal. destruct (ns <? i)%nat; [|done]. by rewrite map_app.
  - simpl. f_equal. destruct (ns <? length data)%nat; [|done]. by rewrite map_app.
Qed.

(** The owning split returns copies of exactly the views: one octet sequence per view,
    in the same order. *)
Theorem split_copies_views data : split data = map (view_data data) (splitView data).
Proof.
  unfold split, splitView. cbv zeta.
  set (ns := if (0 <? _)%nat then _ else _).
  pose proof (split_loop_views (S (length data)) data
    (startCodeLength data (length data) 0) ns []) as E.
  change (map (view_data data) []) with (@nil bytes) in E. rewrite E.
  destruct (splitView_loop_total (S (length data)) data
    (startCodeLength data (length data) 0) ns []) as [l ->]; [lia| |done].
  rewrite startCodeLength_sc_at, drop_0. apply sc_at_length.
Qed.

(** Views ordered, non-empty, each behind a start code, all ending at or before [e]. *)
Fixpoint views_below (l : list view) (b e : nat) : Prop :=
  match l with
  | [] => (b <= e)%nat
  | (o, n) :: l' => (b + 3 <= o)%nat /\ (0 < n)%nat /\ views_below l' (o + n) e
  end.

Lemma views_below_snoc l b o n :
  (exists e, views_below l b e /\ (e + 3 <= o)%nat) -> (0 < n)%nat ->
  views_below (l ++ [(o, n)]) b (o + n).
Proof.
  intros (e & Hl & He) Hn. revert b Hl. induction l as [|[o' n'] l IH]; intros b Hl; simpl in *.
  - repeat split; lia.
  - destruct Hl as (? & ? & Hl). split_and!; auto.
Qed.

Lemma views_below_weaken l b e e' : views_below l b e -> (e <= e')%nat -> views_below l b e'.
Proof.
  revert b. induction l as [|[o n] l IH]; intros b; simpl; [lia|].
  intros (? & ? & ?) ?. auto.
Qed.

(** The loop invariant: what is emitted ends three octets before [nal_start], or
    nothing is pending yet. *)
Lemma splitView_loop_views fuel data i ns nals l e :
  (i <= length data)%nat -> views_below nals 0 e ->
  ((e + 3 <= ns)%nat /\ (ns <= i)%nat \/ ns = length data /\ (e <= i)%nat) ->
  splitView_loop fuel data i ns nals = Some l -> views_below l 0 (length data).
Proof.
  revert i ns nals e. induction fuel as [|fuel IH]; intros i ns nals e Hi Hv Hns; simpl; [done|].
  destruct (Nat.ltb_spec i (length data)) as [Hlt|Hge].
  - rewrite startCodeLength_sc_at.
    pose proof (sc_at_length (drop i data)) as Hl. rewrite length_drop in Hl.
    destruct (Nat.ltb_spec 0 (sc_at (drop i data))) as [Hp|Hz].
    + destruct (Nat.ltb_spec ns i) as [Hn|Hn].
      * apply (IH _ _ _ i); [lia| |destruct (sc_at_cases (drop i data)); lia].
        replace i with (ns + (i - ns))%nat at 2 by lia.
        apply views_below_snoc; [|lia]. exists e. split; [done|lia].
      * apply (IH _ _ _ e); [lia|done|]. left.
        destruct (sc_at_cases (drop i data)); lia.
    + apply (IH _ _ _ e); [lia|done|]. lia.
  - intros [= <-]. destruct (Nat.ltb_spec ns (length data)).
    + replace (length data) with (ns + (length data - ns))%nat at 2 by lia.
      apply views_below_snoc; [|lia]. exists e. split; [done|lia].
    + eapply views_below_weaken; [done|]. lia.
Qed.

Lemma splitView_below data : views_below (splitView data) 0 (length data).
Proof.
  unfold splitView. cbv zeta. rewrite startCodeLength_sc_at, drop_0.
  pose proof (sc_at_length data) as Hl. pose proof (sc_at_cases data) as Hc.
  set (ns := if (0 <? _)%nat then _ else _).
  destruct (splitView_loop_total (S (length data)) data (sc_at data) ns []) as [l E]; [lia|lia|].
  rewrite E. simpl. apply (splitView_loop_views _ _ _ _ _ _ 0) in E; [done|lia|simpl; lia|].
  unfold ns. destruct (Nat.ltb_spec 0 (sc_at data)); lia.
Qed.

(** Every view lies inside the buffer, is non-empty, starts behind at least a 3-byte
    start code, and views come in order without overlapping. *)
Theorem splitView_in_bounds data : views_below (splitView data) 0 (length data).
Proof. apply splitView_below. Qed.

(** ** Round trip *)

(** No start code inside, and no trailing zero octet (ISO 14496-10, 7.4.1). *)
Definition clean (nal : bytes) : Prop :=
  (forall k, sc_at (drop k nal) = 0%nat) /\ last nal <> Some 0.

Definition start_code (four : bool) : bytes := if four then [0; 0; 0; 1] else [0; 0; 1].

Definition annexb (units : list (bool * bytes)) : bytes :=
  flat_map (fun u => start_code (fst u) ++ snd u) units.

Lemma sc_at_start_code four r : sc_at (start_code four ++ r) = length (start_code four).
Proof. by destruct four. Qed.

(** Inside a clean NAL unit no start code is seen, whatever follows it. *)
Lemma sc_at_clean nal k r :
  clean nal -> (k < length nal)%nat -> sc_at (drop k nal ++ r) = 0%nat.
Proof.
  intros [Hsc Hlast] Hk. specialize (Hsc k).
  assert (last (drop k nal) <> Some 0) as Hl by (by rewrite last_drop).
  destruct (drop k nal) as [|a [|b [|c [|d x]]]] eqn:E; simpl in *.
  - apply (f_equal length) in E. rewrite length_drop in E. simpl in E. lia.
  - destruct (Z.eqb_spec a 0); [congruence|]. destruct r as [|? [|? ?]]; done.
  - destruct (Z.eqb_spec b 0); [congruence|]. rewrite andb_false_r. by destruct r.
  - destruct ((a =? 0) && (b =? 0))%bool; [|done]. destruct (c =? 1); [done|].
    destruct (Z.eqb_spec c 0); [congruence|]. by destruct r.
  - done.
Qed.

(** Scanning a NAL unit moves to its end without emitting anything. *)
Lemma split_loop_scan fuel pre nal r ns nals k :
  let data := pre ++ nal ++ r in
  clean nal -> (k <= length nal)%nat ->
  (length data < fuel + (length pre + (length nal - k)))%nat ->
  exists fuel', (length data < fuel' + (length pre + length nal))%nat
    /\ split_loop fuel data (length pre + (length nal - k)) ns nals
       = split_loop fuel' data (length pre + length nal) ns nals.
Proof.
  cbv zeta. intros Hc. revert fuel. induction k as [|k IH]; intros fuel Hk Hf.
  - exists fuel. by rewrite Nat.sub_0_r in *.
  - destruct fuel as [|fuel]; [len_lia|].
    destruct (IH fuel) as (fuel' & Hf' & E); [lia|lia|].
    exists fuel'. split; [done|]. rewrite <- E. cbn [split_loop].
    rewrite (proj2 (Nat.ltb_lt _ _)) by len_lia.
    rewrite startCodeLength_sc_at.
    replace (drop (length pre + (length nal - S k)) (pre ++ nal ++ r))
      with (drop (length nal - S k) nal ++ r).
    2:{ rewrite <- drop_drop, drop_app_length. rewrite drop_app_le by lia. done. }
    rewrite sc_at_clean by (done || lia). simpl.
    by replace (length pre + (length nal - S k) + 1)%nat
      with (length pre + (length nal - k))%nat by lia.
Qed.

Lemma split_loop_annexb units fuel pre nal nals :
  let data := pre ++ nal ++ annexb units in
  clean nal -> nal <> [] -> Forall (fun u => clean (snd u) /\ snd u <> []) units ->
  (length data < fuel + length pre)%nat ->
  split_loop fuel data (length pre) (length pre) nals
    = Some (nals ++ nal :: map snd units).
Proof.
  cbv zeta. revert fuel pre nal nals.
  induction units as [|[four u] units IH]; intros fuel pre nal nals Hc Hne Hu Hf.
  - destruct (split_loop_scan fuel pre nal [] (length pre) nals (length nal))
      as (fuel' & Hf' & E); [done|lia|len_lia|].
    rewrite Nat.sub_diag, Nat.add_0_r in E. cbn [annexb flat_map] in *. rewrite E.
    destruct fuel' as [|fuel']; [len_lia|]. cbn [split_loop].
    rewrite (proj2 (Nat.ltb_ge _ _)) by len_lia.
    destruct nal as [|x nal]; [done|].
    rewrite (proj2 (Nat.ltb_lt _ _)) by len_lia. do 2 f_equal.
    rewrite drop_app_length. rewrite take_ge by len_lia. by rewrite app_nil_r.
  - apply Forall_cons in Hu as [[Hcu Hneu] Hu]. cbn [snd] in *.
    set (r := annexb ((four, u) :: units)) in *.
    assert (r = start_code four ++ u ++ annexb units) as Er.
    { unfold r. cbn [annexb flat_map fst snd]. by rewrite <- app_assoc. }
    assert (0 < length (start_code four) <= 4)%nat as Hsl by (destruct four; simpl; lia).
    destruct (split_loop_scan fuel pre nal r (length pre) nals (length nal))
      as (fuel' & Hf' & E); [done|lia|len_lia|].
    rewrite Nat.sub_diag, Nat.add_0_r in E. rewrite E.
    destruct fuel' as [|fuel']; [len_lia|]. cbn [split_loop].
    rewrite (proj2 (Nat.ltb_lt _ (length (pre ++ nal ++ r)))) by (rewrite Er; len_lia).
    rewrite startCodeLength_sc_at, app_assoc.
    replace (length pre + length nal)%nat with (length (pre ++ nal)) by len_lia.
    rewrite drop_app_length, Er, sc_at_start_code.
    rewrite (proj2 (Nat.ltb_lt 0 _)) by lia.
    rewrite (proj2 (Nat.ltb_lt (length pre) _)) by (destruct nal; [done|len_lia]).
    replace (take (length (pre ++ nal) - length pre)
      (drop (length pre) ((pre ++ nal) ++ start_code four ++ u ++ annexb units))) with nal.
    2:{ rewrite <- !app_assoc, drop_app_length.
        replace (length (pre ++ nal) - length pre)%nat with (length nal) by len_lia.
        by rewrite take_app_length. }
    specialize (IH fuel' (pre ++ nal ++ start_code four) u (nals ++ [nal]) Hcu Hneu Hu).
    rewrite <- !app_assoc in IH. rewrite <- !app_assoc.
    replace (length (pre ++ nal) + length (start_code four))%nat
      with (length (pre ++ nal ++ start_code four)) by len_lia.
    rewrite IH; [done|]. rewrite Er in Hf'. len_lia.
Qed.

Lemma split_annexb_units units :
  Forall (fun u => clean (snd u) /\ snd u <> []) units ->
  split (annexb units) = map snd units.
Proof.
  intros H. destruct units as [|[four u] units]; [reflexivity|].
  apply Forall_cons in H as [[Hc Hne] H]. cbn [snd] in *.
  unfold split. cbv zeta. rewrite startCodeLength_sc_at, drop_0.
  assert (annexb ((four, u) :: units) = start_code four ++ u ++ annexb units) as E.
  { cbn [annexb flat_map fst snd]. by rewrite <- app_assoc. }
  rewrite E, sc_at_start_code.
  rewrite (proj2 (Nat.ltb_lt 0 _)) by (destruct four; simpl; lia).
  pose proof (split_loop_annexb units (S (length (start_code four ++ u ++ annexb units)))
    (start_code four) u []) as L. cbv zeta in L. rewrite L; [done..|]. lia.
Qed.

(** C37: A stream of clean, non-empty NAL units written with 3- or 4-byte start codes in any
    mix is split back into exactly these NAL units. *)
Theorem split_annexb units :
  Forall (fun u => clean (snd u) /\ snd u <> []) units ->
  split (annexb units) = map snd units.
Proof. apply split_annexb_units. Qed.

Lemma split_annexb_witness :
  split (annexb [(true, [103; 66; 0; 30]); (false, [104; 206]); (true, [101; 0; 0; 2])])
    = [[103; 66; 0; 30]; [104; 206]; [101; 0; 0; 2]].
Proof.
  apply (split_annexb [(true, [103; 66; 0; 30]); (false, [104; 206]); (true, [101; 0; 0; 2])]).
  repeat constructor; try done; intros k; do 5 (destruct k as [|k]; [reflexivity|]); reflexivity.
Defined.

(** ** [INalParser] *)

(** The hooks a parser class provides to its base [INalParser<Derived>]. *)
Class NalParserImpl (Derived : Type) := {
  splitViewImpl : Derived -> bytes -> list view;
  splitImpl : Derived -> bytes -> list bytes
}.

(** The two member functions of the base. *)
Module INalParser.
Section derived.
Context {Derived : Type} `{NalParserImpl Derived}.
Definition splitView (this : Derived) (buf : bytes) : list view := splitViewImpl this buf.
Definition split (this : Derived) (buf : bytes) : list bytes := splitImpl this buf.
End derived.
End INalParser.

(** What generic code relies on: the views lie in the buffer, one behind the other, and the owning
    split copies exactly them. *)
Class NalParserLaws (Derived : Type) `{NalParserImpl Derived} := {
  views_inside (this : Derived) buf : views_below (splitViewImpl this buf) 0 (length buf);
  split_copies (this : Derived) buf : splitImpl this buf = map (view_data buf) (splitViewImpl this buf)
}.

(** [AnnexBParser] has no state. *)
Inductive AnnexBParser := AnnexBParser_make.

#[export] Instance annexb_impl : NalParserImpl AnnexBParser := {|
  splitViewImpl _ buf := splitView buf;
  splitImpl _ buf := split buf
|}.

#[export] Instance annexb_laws : NalParserLaws AnnexBParser := {|
  views_inside _ := splitView_below;
  split_copies _ := split_copies_views
|}.

Lemma views_below_le vs : forall lo hi, views_below vs lo hi -> (lo <= hi)%nat.
Proof.
  induction vs as [|[o n] vs IH]; intros lo hi; cbn; [done|]. intros (? & ? & ?%IH). lia.
Qed.

(** The owning split of any parser never holds more octets than the buffer. *)
Lemma views_below_size data vs : forall lo hi,
  views_below vs lo hi -> (hi <= length data)%nat ->
  (length (concat (map (view_data data) vs)) <= hi - lo)%nat.
Proof.
  induction vs as [|[o n] vs IH]; intros lo hi Hv Hl; cbn [map concat views_below] in *; [cbn; lia|].
  destruct Hv as (? & ? & Hv). pose proof (views_below_le _ _ _ Hv). specialize (IH _ _ Hv Hl).
  rewrite length_app. unfold view_data at 1. cbn [fst snd]. rewrite length_take, length_drop. lia.
Qed.

Lemma split_size {Derived} `{NalParserLaws Derived} (this : Derived) buf :
  (length (concat (INalParser.split this buf)) <= length buf)%nat.
Proof.
  unfold INalParser.split. rewrite split_copies.
  pose proof (views_below_size buf _ _ _ (views_inside this buf) ltac:(lia)). lia.
Qed.
