(* ===== verification/UniqueFd.v ===== *)
(** * [UniqueFd] (include/rtspserver/utils/UniqueFd.hpp)

    The owner of a file descriptor.  The members are functions on [fd_]; a run of them over any
    number of owners closes every descriptor it was given exactly once, unless it gave it
    away. *)

From S2P Require Import Prelude.

Definition kInvalid : Z := -1.

(** [UniqueFd()] *)
Definition UniqueFd_default : Z := kInvalid.

Definition valid (fd_ : Z) : bool := 0 <=? fd_.

(** [close()]: the descriptors passed to [::close], and [fd_] afterwards. *)
Definition close (fd_ : Z) : list Z * Z :=
  if valid fd_ then ([fd_], kInvalid) else ([], fd_).

(** [release()] *)
Definition release (fd_ : Z) : Z * Z := (fd_, kInvalid).

(** [reset(fd)] *)
Definition reset (fd fd_ : Z) : list Z * Z := (fst (close fd_), fd).

(** The move constructor: the new owner and the old one. *)
Definition move_construct (o : Z) : Z * Z := release o.

(** The move assignment to another owner: the descriptors closed, this owner and the other. *)
Definition move_assign (fd_ o : Z) : list Z * Z * Z :=
  let '(tmp, o) := release o in
  let '(closed, fd_) := reset tmp fd_ in
  (closed, fd_, o).

(** ** Programs over owners *)

Record owners := mkOwners {
  handles : list Z;
  (* history: descriptors given to an owner, closed by one, and taken back from one *)
  acquired : list Z;
  closed : list Z;
  released : list Z
}.

#[global] Instance owners_updatable : Updatable owners := fun w =>
  {| handles := handles w; acquired := acquired w; closed := closed w; released := released w |}.

(** [UniqueFd f(fd)], [f.reset(fd)], [f.release()], [UniqueFd g(std::move(f))],
    [f = std::move(g)] and [~UniqueFd]; an owner is named by its position. *)
Inductive call :=
| Construct (fd : Z)
| Reset (i : nat) (fd : Z)
| Release (i : nat)
| MoveConstruct (i : nat)
| MoveAssign (i j : nat)
| Destroy (i : nat).

Definition run_call (k : call) (w : owners) : owners :=
  match k with
  | Construct fd => w <| handles := handles w ++ [fd] |> <| acquired := acquired w ++ [fd] |>
  | Reset i fd =>
      match handles w !! i with
      | None => w
      | Some h =>
          let '(cl, h) := reset fd h in
          w <| handles := <[i := h]> (handles w) |> <| acquired := acquired w ++ [fd] |>
            <| closed := closed w ++ cl |>
      end
  | Release i =>
      match handles w !! i with
      | None => w
      | Some h =>
          let '(fd, h) := release h in
          w <| handles := <[i := h]> (handles w) |> <| released := released w ++ [fd] |>
      end
  | MoveConstruct i =>
      match handles w !! i with
      | None => w
      | Some h =>
          let '(fd, h) := move_construct h in
          w <| handles := <[i := h]> (handles w) ++ [fd] |>
      end
  | MoveAssign i j =>
      match handles w !! i, handles w !! j with
      | Some h, Some o =>
          if (i =? j)%nat then w
          else
            let '(cl, h, o) := move_assign h o in
            w <| handles := <[j := o]> (<[i := h]> (handles w)) |> <| closed := closed w ++ cl |>
      | _, _ => w
      end
  | Destroy i =>
      match handles w !! i with
      | None => w
      | Some h =>
          let '(cl, h) := close h in
          w <| handles := <[i := h]> (handles w) |> <| closed := closed w ++ cl |>
      end
  end.

Definition owners_init : owners := {| handles := []; acquired := []; closed := []; released := [] |}.

Definition run_calls (ks : list call) : owners := fold_left (fun w k => run_call k w) ks owners_init.

(** How often a descriptor occurs. *)
Definition copies (fd : Z) (l : list Z) : nat := length (filter (fun x => x = fd) l).

(** ** Conservation *)

Section conservation.
Context (fd : Z) (Hfd : 0 <= fd).

Lemma copies_app a b : copies fd (a ++ b) = (copies fd a + copies fd b)%nat.
Proof. unfold copies. by rewrite filter_app, length_app. Qed.

Lemma copies_insert l i h h' :
  l !! i = Some h ->
  (copies fd (<[i := h']> l) + copies fd [h] = copies fd l + copies fd [h'])%nat.
Proof.
  intros E. rewrite <- (take_drop_middle l i h E) at 2.
  rewrite insert_take_drop by (by apply lookup_lt_Some in E).
  change (h :: drop (S i) l) with ([h] ++ drop (S i) l).
  change (h' :: drop (S i) l) with ([h'] ++ drop (S i) l).
  rewrite !copies_app. lia.
Qed.

Lemma copies_kInvalid : copies fd [kInvalid] = 0%nat.
Proof. unfold copies. rewrite filter_cons_False; [done|]. unfold kInvalid. lia. Qed.

Lemma copies_close h :
  (copies fd (fst (close h)) = copies fd [h] /\ copies fd [snd (close h)] = 0)%nat.
Proof.
  unfold close, valid. destruct (Z.leb_spec 0 h); [split; [done|apply copies_kInvalid]|].
  cbn [fst snd]. assert (copies fd [h] = 0%nat) as ->; [|done].
  unfold copies. rewrite filter_cons_False; [done|lia].
Qed.

Definition balanced (w : owners) : Prop :=
  copies fd (acquired w)
  = (copies fd (closed w) + copies fd (released w) + copies fd (handles w))%nat.

Lemma run_call_balanced k w : balanced w -> balanced (run_call k w).
Proof.
  unfold balanced. intros H. destruct k as [f|i f|i|i|i j|i]; cbn [run_call].
  - simpl_update. rewrite !copies_app. lia.
  - destruct (handles w !! i) as [h|] eqn:E; [|done]. unfold reset. simpl_update.
    pose proof (copies_insert _ _ _ f E). destruct (copies_close h). rewrite !copies_app. lia.
  - destruct (handles w !! i) as [h|] eqn:E; [|done]. unfold release. simpl_update.
    pose proof (copies_insert _ _ _ kInvalid E). pose proof copies_kInvalid.
    rewrite !copies_app. lia.
  - destruct (handles w !! i) as [h|] eqn:E; [|done]. unfold move_construct, release. simpl_update.
    pose proof (copies_insert _ _ _ kInvalid E). pose proof copies_kInvalid.
    rewrite !copies_app. lia.
  - destruct (handles w !! i) as [h|] eqn:E; [|done].
    destruct (handles w !! j) as [o|] eqn:F; [|done].
    destruct (Nat.eqb_spec i j) as [->|Hne]; [done|]. unfold move_assign, release, reset.
    simpl_update. destruct (copies_close h). pose proof copies_kInvalid.
    pose proof (copies_insert _ _ _ o E).
    assert (<[i := o]> (handles w) !! j = Some o) as F' by (by rewrite list_lookup_insert_ne).
    pose proof (copies_insert _ _ _ kInvalid F'). rewrite !copies_app. lia.
  - destruct (handles w !! i) as [h|] eqn:E; [|done].
    destruct (copies_close h) as [C1 C2]. destruct (close h) as [cl h']. cbn [fst snd] in *.
    simpl_update. pose proof (copies_insert _ _ _ h' E). rewrite !copies_app. lia.
Qed.

Lemma run_calls_balanced ks : balanced (run_calls ks).
Proof.
  unfold run_calls. assert (balanced owners_init) as H by done. revert H.
  generalize owners_init as w. induction ks as [|k ks IH]; intros w H; [done|].
  cbn [fold_left]. by apply IH, run_call_balanced.
Qed.
End conservation.

(** Descriptors are neither leaked nor closed twice.  Over any program of constructions,
    resets, releases, moves and destructions on any number of owners, every descriptor is
    closed, released or held exactly as often as it was given to an owner; so when no owner
    holds it any more and it was never released, it has been closed exactly once for each time
    it was acquired, and a descriptor that was never acquired is never closed. *)
Theorem closed_exactly_once (ks : list call) (fd : Z) :
  0 <= fd ->
  let w := run_calls ks in
  copies fd (acquired w)
    = (copies fd (closed w) + copies fd (released w) + copies fd (handles w))%nat
  /\ (copies fd (handles w) = 0%nat -> copies fd (released w) = 0%nat ->
      copies fd (closed w) = copies fd (acquired w))
  /\ (copies fd (acquired w) = 0%nat -> copies fd (closed w) = 0%nat).
Proof.
  intros Hfd w. pose proof (run_calls_balanced fd Hfd ks) as H. unfold balanced in H.
  subst w. lia.
Qed.

Lemma closed_exactly_once_witness :
  closed (run_calls [Construct 5; MoveConstruct 0; Reset 1 6; Destroy 0; Destroy 1]) = [5; 6]
  /\ copies 5 (closed (run_calls [Construct 5; MoveConstruct 0; Reset 1 6; Destroy 0; Destroy 1]))
     = 1%nat.
Proof.
  split; [reflexivity|].
  exact (proj1 (proj2 (closed_exactly_once
    [Construct 5; MoveConstruct 0; Reset 1 6; Destroy 0; Destroy 1] 5 ltac:(lia))) eq_refl eq_refl).
Defined.
