(* ===== verification/Queues.v ===== *)
(** * [NonBlockingQueue] and [BlockingQueue] (include/rtspserver/utils/)

    Every member function holds the queue's mutex from its first access to its last,
    so each is one atomic step on the queue's state.  A call that waits on a condition
    variable is a step guarded by the predicate it waits for; the absence of a step is
    the blocked caller. *)

From S2P Require Import Prelude.

(** ** [NonBlockingQueue] *)

Module NonBlockingQueue.
Section nbq.
Context {T : Type}.

(** [queue_], front first. *)
Definition push (item : T) (q : list T) : list T := q ++ [item].

Definition try_pop (q : list T) : option T * list T :=
  match q with
  | [] => (None, [])
  | item :: q' => (Some item, q')
  end.

Definition empty (q : list T) : bool :=
  match q with [] => true | _ => false end.

Definition size (q : list T) : nat := length q.

(** An access by any thread. *)
Inductive op := OpPush (item : T) | OpTryPop.

(** A run of accesses in the order the mutex was taken: what was popped, and the
    final queue. *)
Fixpoint run (ops : list op) (q : list T) : list T * list T :=
  match ops with
  | [] => ([], q)
  | OpPush item :: ops' => run ops' (push item q)
  | OpTryPop :: ops' =>
      match try_pop q with
      | (Some x, q') => let (xs, q'') := run ops' q' in (x :: xs, q'')
      | (None, q') => run ops' q'
      end
  end.

Definition pushed (ops : list op) : list T :=
  omap (fun o => match o with OpPush x => Some x | OpTryPop => None end) ops.
End nbq.
Arguments op : clear implicits.

Lemma run_conserves {T} (ops : list (op T)) q :
  fst (run ops q) ++ snd (run ops q) = q ++ pushed ops.
Proof.
  revert q. induction ops as [|[x|] ops IH]; intros q; simpl.
  - by rewrite app_nil_r.
  - rewrite IH. unfold push. rewrite <- app_assoc. done.
  - destruct q as [|y q]; simpl.
    + apply (IH []).
    + specialize (IH q). destruct (run ops q) as [xs q'']. simpl in *. by rewrite IH.
Qed.

(** Whatever the interleaving of the accesses of any number of threads, nothing is
    lost, duplicated or reordered: the items popped, followed by those still queued, are
    the items first queued, followed by those pushed, in order. *)
Theorem nonblocking_fifo {T} (ops : list (op T)) q :
  fst (run ops q) ++ snd (run ops q) = q ++ pushed ops
  /\ (forall x : T, try_pop (push x []) = (Some x, []))
  /\ (fst (try_pop q) = None <-> q = []).
Proof.
  split; [apply run_conserves|]. split; [done|]. by destruct q.
Qed.
End NonBlockingQueue.

(** ** [BlockingQueue] *)

Module BlockingQueue.
Section bq.
(** [Capacity]; 0 means unbounded. *)
Context {T : Type} (Capacity : nat).

Record bqueue := mkQueue { queue_ : list T; closed_ : bool }.

Definition init : bqueue := {| queue_ := []; closed_ := false |}.

Definition is_full (q : bqueue) : bool :=
  if (Capacity =? 0)%nat then false else (Capacity <=? length (queue_ q))%nat.

Definition size (q : bqueue) : nat := length (queue_ q).
Definition empty (q : bqueue) : bool := match queue_ q with [] => true | _ => false end.
Definition is_closed (q : bqueue) : bool := closed_ q.
Definition capacity : nat := Capacity.

Definition enqueue (v : T) (q : bqueue) : bqueue :=
  {| queue_ := queue_ q ++ [v]; closed_ := closed_ q |}.

Definition dequeue (q : bqueue) : option T * bqueue :=
  match queue_ q with
  | [] => (None, q)
  | v :: q' => (Some v, {| queue_ := q'; closed_ := closed_ q |})
  end.

(** [push]: [None] while the caller waits for space; it then returns or throws. *)
Definition push (v : T) (q : bqueue) : option (result unit * bqueue) :=
  if closed_ q then Some (Throw runtime_error, q)
  else if is_full q then None
  else Some (Ok tt, enqueue v q).

(** [push_for] when its wait ends, by notification or by timeout. *)
Definition push_for (v : T) (q : bqueue) : bool * bqueue :=
  if closed_ q then (false, q)
  else let ok := negb (is_full q) || closed_ q in
    if negb ok || closed_ q then (false, q) else (true, enqueue v q).

Definition try_push (v : T) (q : bqueue) : bool * bqueue :=
  if closed_ q || is_full q then (false, q) else (true, enqueue v q).

(** [pop]: [None] while the caller waits for an item. *)
Definition pop (q : bqueue) : option (option T * bqueue) :=
  if negb (empty q) || closed_ q then Some (dequeue q) else None.

(** [pop_for] when its wait ends; [try_pop] does not wait. *)
Definition pop_for (q : bqueue) : option T * bqueue := dequeue q.
Definition try_pop (q : bqueue) : option T * bqueue := dequeue q.

Definition close (q : bqueue) : bqueue := {| queue_ := queue_ q; closed_ := true |}.

(** ** Transitions *)

Inductive event :=
| Pushed (v : T)        (* a push, push_for or try_push that succeeded *)
| Refused               (* one that threw or returned false *)
| Popped (v : T)        (* any pop that returned an item *)
| GaveUp                (* a timed or non-blocking pop without an item *)
| Finished              (* the blocking pop returned nullopt *)
| Closed.

Inductive step : bqueue -> event -> bqueue -> Prop :=
| step_push v q q' : push v q = Some (Ok tt, q') -> step q (Pushed v) q'
| step_push_throw v q q' : push v q = Some (Throw runtime_error, q') -> step q Refused q'
| step_push_for v q q' : push_for v q = (true, q') -> step q (Pushed v) q'
| step_push_for_fail v q q' : push_for v q = (false, q') -> step q Refused q'
| step_try_push v q q' : try_push v q = (true, q') -> step q (Pushed v) q'
| step_try_push_fail v q q' : try_push v q = (false, q') -> step q Refused q'
| step_pop v q q' : pop q = Some (Some v, q') -> step q (Popped v) q'
| step_pop_end q q' : pop q = Some (None, q') -> step q Finished q'
| step_try_pop v q q' : try_pop q = (Some v, q') -> step q (Popped v) q'
| step_try_pop_none q q' : try_pop q = (None, q') -> step q GaveUp q'
| step_pop_for v q q' : pop_for q = (Some v, q') -> step q (Popped v) q'
| step_pop_for_none q q' : pop_for q = (None, q') -> step q GaveUp q'
| step_close q : step q Closed (close q).

Inductive steps : bqueue -> list event -> bqueue -> Prop :=
| steps_nil q : steps q [] q
| steps_snoc q es q' e q'' : steps q es q' -> step q' e q'' -> steps q (es ++ [e]) q''.

Definition pushes (es : list event) : list T :=
  omap (fun e => match e with Pushed v => Some v | _ => None end) es.
Definition pops (es : list event) : list T :=
  omap (fun e => match e with Popped v => Some v | _ => None end) es.

(** Each step adds at the back, removes at the front, or leaves the items alone;
    [closed_] is only ever set. *)
Lemma step_effect q e q' :
  step q e q' ->
  match e with
  | Pushed v => closed_ q = false /\ is_full q = false /\ q' = enqueue v q
  | Popped v => queue_ q = v :: queue_ q' /\ closed_ q' = closed_ q
  | Refused => (closed_ q = true \/ is_full q = true) /\ q' = q
  | GaveUp => queue_ q = [] /\ q' = q
  | Finished => queue_ q = [] /\ closed_ q = true /\ q' = q
  | Closed => q' = close q
  end.
Proof.
  destruct 1 as [v q q' H|v q q' H|v q q' H|v q q' H|v q q' H|v q q' H|v q q' H|q q' H
                |v q q' H|q q' H|v q q' H|q q' H|q];
    [..|reflexivity];
    unfold push, push_for, try_push, pop, pop_for, try_pop, dequeue, empty in H; destruct (closed_ q) eqn:Ec; destruct (is_full q) eqn:Ef;
    destruct (queue_ q) as [|x r] eqn:Eq; simpl in H; simplify_eq/=; auto.
Qed.

(** The invariant of a queue of the given capacity. *)
Definition within_capacity (q : bqueue) : Prop :=
  Capacity <> 0%nat -> (length (queue_ q) <= Capacity)%nat.

Lemma enqueue_within q v :
  is_full q = false -> within_capacity q -> within_capacity (enqueue v q).
Proof.
  unfold is_full, within_capacity. intros Hf Hw HC. specialize (Hw HC).
  destruct (Nat.eqb_spec Capacity 0); [done|]. apply Nat.leb_gt in Hf.
  simpl. len_lia.
Qed.

Lemma steps_invariant q es q' :
  steps q es q' -> within_capacity q ->
  pops es ++ queue_ q' = queue_ q ++ pushes es
  /\ within_capacity q' /\ (closed_ q = true -> closed_ q' = true /\ pushes es = []).
Proof.
  induction 1 as [q|q es q1 e q2 Hs IH Hstep]; intros Hw.
  - simpl. rewrite app_nil_r. done.
  - destruct (IH Hw) as (Hf & Hw1 & Hc). apply step_effect in Hstep.
    unfold pops, pushes in *. rewrite !omap_app.
    destruct e; simpl; rewrite ?app_nil_r.
    + destruct Hstep as (Hcl & Hfu & ->). simpl. split.
      { by rewrite app_assoc, Hf, app_assoc. }
      split; [by apply enqueue_within|]. intros Hq. destruct (Hc Hq). congruence.
    + by destruct Hstep as [_ ->].
    + destruct Hstep as [Hq Hcl]. split.
      { by rewrite <- app_assoc, <- Hf, Hq. }
      split.
      { intros HC. specialize (Hw1 HC). rewrite Hq in Hw1. simpl in Hw1. lia. }
      rewrite Hcl. done.
    + by destruct Hstep as [_ ->].
    + by destruct Hstep as (_ & _ & ->).
    + subst q2. simpl. split; [done|]. split; [done|]. intros Hq. by destruct (Hc Hq).
Qed.

End bq.
Arguments bqueue : clear implicits.
Arguments event : clear implicits.

(** Along every interleaving of calls the queue is first-in first-out and never above
    its capacity: items popped followed by items queued are exactly the items pushed, in
    order.  Once closed it accepts nothing more, and the blocking [pop] reports the end only
    when the queue is closed and all items have been delivered. *)
Theorem blocking_fifo {T} (Capacity : nat) (es es' : list (event T)) q q' :
  steps Capacity init es q -> steps Capacity q es' q' ->
  pops es ++ queue_ q = pushes es
  /\ within_capacity Capacity q
  /\ (closed_ q = true -> closed_ q' = true /\ pops es' ++ queue_ q' = queue_ q)
  /\ (forall q'', pop q = Some (None, q'') ->
        closed_ q = true /\ pops es = pushes es).
Proof.
  intros H1 H2.
  assert (within_capacity (T := T) Capacity init) as H0 by (intros ?; simpl; lia).
  destruct (steps_invariant _ _ _ _ H1 H0) as (Hf & Hw & _).
  destruct (steps_invariant _ _ _ _ H2 Hw) as (Hf' & _ & Hc').
  simpl in Hf. split; [done|]. split; [done|]. split.
  - intros Hc. destruct (Hc' Hc) as [Hcl Hp]. split; [done|].
    by rewrite Hf', Hp, app_nil_r.
  - intros q'' Hp.
    assert (step Capacity q Finished q'') as Hs by (by apply step_pop_end).
    apply step_effect in Hs as (Hq & Hc & _). split; [done|].
    by rewrite Hq, app_nil_r in Hf.
Qed.

Lemma blocking_fifo_witness :
  exists q q' : bqueue Z,
    steps 2 init [Pushed 1; Pushed 2; Refused; Popped 1; Closed] q
    /\ steps 2 q [Popped 2; Finished] q'
    /\ pops [Pushed 1; Pushed 2; Refused; Popped 1; Closed] ++ queue_ q
         = pushes [Pushed 1; Pushed 2; Refused; Popped 1; Closed].
Proof.
  assert (steps 2 init [Pushed 1; Pushed 2; Refused; Popped 1; Closed]
            {| queue_ := [2]; closed_ := true |}) as H1.
  { apply (steps_snoc _ _ [Pushed 1; Pushed 2; Refused; Popped 1] {| queue_ := [2]; closed_ := false |});
      [|apply step_close].
    apply (steps_snoc _ _ [Pushed 1; Pushed 2; Refused] {| queue_ := [1; 2]; closed_ := false |});
      [|by apply step_pop].
    apply (steps_snoc _ _ [Pushed 1; Pushed 2] {| queue_ := [1; 2]; closed_ := false |});
      [|by apply (step_try_push_fail _ 3)].
    apply (steps_snoc _ _ [Pushed 1] {| queue_ := [1]; closed_ := false |});
      [|by apply step_push].
    apply (steps_snoc _ _ [] init); [constructor|by apply step_push]. }
  assert (steps 2 {| queue_ := [2]; closed_ := true |} [Popped 2; Finished]
            {| queue_ := []; closed_ := true |}) as H2.
  { apply (steps_snoc _ _ [Popped 2] {| queue_ := []; closed_ := true |});
      [|by apply step_pop_end].
    apply (steps_snoc _ _ [] {| queue_ := [2]; closed_ := true |});
      [constructor|by apply step_pop]. }
  exists {| queue_ := [2]; closed_ := true |}, {| queue_ := []; closed_ := true |}.
  split; [exact H1|]. split; [exact H2|]. exact (proj1 (blocking_fifo _ _ _ _ _ H1 H2)).
Defined.
End BlockingQueue.
