(* ===== verification/CondQueue.v ===== *)
(** * [CondQueue]: [BlockingQueue] with its condition variables
    (include/rtspserver/utils/BlockingQueue.hpp)

    [Queues.v] has each call as one step that is enabled when its condition holds.  Here a call
    that waits is taken apart where the mutex is released: it joins the wait set of a condition
    variable, is woken (or times out, or wakes for no reason), takes the mutex again and tests its
    condition once more; and [push] and [close] notify after they have released the mutex.  What
    runs under the mutex is one step.  Proved: this machine refines the steps of [Queues.v], and no
    wake-up is lost. *)

From S2P Require Import Prelude Queues.
From stdpp Require Import list_numbers.
Import BlockingQueue.

Section cond_queue.
Context {T : Type} (Capacity : nat).

(** ** Threads *)

(** Where a thread is when it does not hold the mutex; [timed]: in [push_for] or [pop_for]. *)
Inductive pc :=
| Idle
| PushWait (v : T) (timed : bool)
| PushWoken (v : T) (timed : bool)
| PushTimeout (v : T)
| PushNotify
| PopWait (timed : bool)
| PopWoken (timed : bool)
| PopTimeout
| CloseNotEmpty
| CloseNotFull.

Definition waits_not_full (p : pc) : bool := match p with PushWait _ _ => true | _ => false end.
Definition waits_not_empty (p : pc) : bool := match p with PopWait _ => true | _ => false end.

Definition wake (p : pc) : pc :=
  match p with PushWait v t => PushWoken v t | PopWait t => PopWoken t | _ => p end.

(** [notify_one]: any one thread of the wait set, thread [k] if it is in the set. *)
Definition notify_one (waits : pc -> bool) (k : nat) (l : list pc) : list pc :=
  match l !! k with
  | Some p =>
      if waits p then <[k := wake p]> l
      else match list_find (fun p => waits p = true) l with
           | Some (j, p) => <[j := wake p]> l
           | None => l
           end
  | None =>
      match list_find (fun p => waits p = true) l with
      | Some (j, p) => <[j := wake p]> l
      | None => l
      end
  end.

Definition notify_all (waits : pc -> bool) (l : list pc) : list pc :=
  map (fun p => if waits p then wake p else p) l.

(** ** What runs under the mutex *)

(** [push] and [push_for] from a test of the condition on. *)
Definition push_section (v : T) (timed : bool) (q : bqueue T) : pc * option (event T) * bqueue T :=
  if closed_ q then (Idle, Some Refused, q)
  else if is_full Capacity q then (PushWait v timed, None, q)
  else (PushNotify, Some (Pushed v), enqueue v q).

(** [push_for] after its time, and [try_push]. *)
Definition push_at_once (v : T) (q : bqueue T) : pc * option (event T) * bqueue T :=
  if closed_ q || is_full Capacity q then (Idle, Some Refused, q)
  else (PushNotify, Some (Pushed v), enqueue v q).

(** [dequeue], with its [not_full_.notify_one()]: thread [k] is woken. *)
Definition dequeue_section (ended : event T) (k : nat) (q : bqueue T) (l : list pc)
    : option (event T) * bqueue T * list pc :=
  match dequeue q with
  | (None, q) => (Some ended, q, l)
  | (Some v, q) => (Some (Popped v), q, notify_one waits_not_full k l)
  end.

(** ** Steps *)

Record monitor := mkMonitor { mon_queue : bqueue T; threads : list pc }.

Definition monitor_init (n : nat) : monitor :=
  {| mon_queue := init; threads := replicate n Idle |}.

Inductive call :=
| CPush (v : T) (timed : bool)
| CTryPush (v : T)
| CPop (timed : bool)
| CTryPop
| CClose.

(** A thread begins a call, goes on, runs out of time in the wait, or wakes for no reason; [k] is
    the thread that a notification of the step wakes. *)
Inductive action :=
| Begin (i : nat) (c : call) (k : nat)
| Continue (i : nat) (k : nat)
| TimeOut (i : nat)
| Spurious (i : nat).

Definition enter_push (i : nat) (r : pc * option (event T) * bqueue T) (l : list pc)
    : option (event T) * monitor :=
  let '(p, e, q) := r in (e, {| mon_queue := q; threads := <[i := p]> l |}).

(** [pop] and [pop_for] from a test of the condition on. *)
Definition enter_pop (i : nat) (timed : bool) (k : nat) (q : bqueue T) (l : list pc)
    : option (event T) * monitor :=
  if empty q && negb (closed_ q) then (None, {| mon_queue := q; threads := <[i := PopWait timed]> l |})
  else
    let '(e, q, l) := dequeue_section (if timed then GaveUp else Finished) k q (<[i := Idle]> l) in
    (e, {| mon_queue := q; threads := l |}).

(** [pop_for] after its time, and [try_pop]. *)
Definition pop_at_once (i : nat) (k : nat) (q : bqueue T) (l : list pc) : option (event T) * monitor :=
  let '(e, q, l) := dequeue_section GaveUp k q (<[i := Idle]> l) in
  (e, {| mon_queue := q; threads := l |}).

Definition begin_call (i : nat) (c : call) (k : nat) (q : bqueue T) (l : list pc)
    : option (event T) * monitor :=
  match c with
  | CPush v timed => enter_push i (push_section v timed q) l
  | CTryPush v => enter_push i (push_at_once v q) l
  | CPop timed => enter_pop i timed k q l
  | CTryPop => pop_at_once i k q l
  | CClose => (Some Closed, {| mon_queue := close q; threads := <[i := CloseNotEmpty]> l |})
  end.

(** A thread that runs again: a woken one takes the mutex, the others notify. *)
Definition continue_call (i : nat) (p : pc) (k : nat) (q : bqueue T) (l : list pc)
    : option (option (event T) * monitor) :=
  match p with
  | PushWoken v timed => Some (enter_push i (push_section v timed q) l)
  | PushTimeout v => Some (enter_push i (push_at_once v q) l)
  | PushNotify =>
      Some (None, {| mon_queue := q; threads := notify_one waits_not_empty k (<[i := Idle]> l) |})
  | PopWoken timed => Some (enter_pop i timed k q l)
  | PopTimeout => Some (pop_at_once i k q l)
  | CloseNotEmpty =>
      Some (None, {| mon_queue := q;
                     threads := notify_all waits_not_empty (<[i := CloseNotFull]> l) |})
  | CloseNotFull =>
      Some (None, {| mon_queue := q; threads := notify_all waits_not_full (<[i := Idle]> l) |})
  | Idle | PushWait _ _ | PopWait _ => None
  end.

Definition time_out (p : pc) : option pc :=
  match p with
  | PushWait v true => Some (PushTimeout v)
  | PopWait true => Some PopTimeout
  | _ => None
  end.

Definition spurious (p : pc) : option pc :=
  if waits_not_full p || waits_not_empty p then Some (wake p) else None.

Definition mon_step (a : action) (s : monitor) : option (option (event T) * monitor) :=
  let '{| mon_queue := q; threads := l |} := s in
  match a with
  | Begin i c k => match l !! i with Some Idle => Some (begin_call i c k q l) | _ => None end
  | Continue i k => match l !! i with Some p => continue_call i p k q l | None => None end
  | TimeOut i =>
      p ← l !! i; p' ← time_out p; Some (None, {| mon_queue := q; threads := <[i := p']> l |})
  | Spurious i =>
      p ← l !! i; p' ← spurious p; Some (None, {| mon_queue := q; threads := <[i := p']> l |})
  end.

(** A run: the events in order. *)
Fixpoint mon_run (acts : list action) (s : monitor) : option (list (event T) * monitor) :=
  match acts with
  | [] => Some ([], s)
  | a :: acts =>
      '(e, s) ← mon_step a s; '(es, s) ← mon_run acts s; Some (option_list e ++ es, s)
  end.

(** ** Refinement *)

Lemma push_section_step v timed q p e q' :
  push_section v timed q = (p, e, q') ->
  match e with Some e => step Capacity q e q' | None => q' = q end.
Proof.
  unfold push_section. destruct (closed_ q) eqn:Ec; [|destruct (is_full _ q) eqn:Ef];
    intros [= <- <- <-].
  - apply (step_push_throw _ v). unfold push. by rewrite Ec.
  - done.
  - apply step_push. unfold push. by rewrite Ec, Ef.
Qed.

Lemma push_at_once_step v q p e q' :
  push_at_once v q = (p, e, q') ->
  match e with Some e => step Capacity q e q' | None => q' = q end.
Proof.
  unfold push_at_once. destruct (closed_ q || is_full _ q) eqn:Ec; intros [= <- <- <-].
  - apply (step_try_push_fail _ v). unfold try_push. by rewrite Ec.
  - apply step_try_push. unfold try_push. by rewrite Ec.
Qed.

Lemma enter_push_step i r l e s q :
  (forall p e q', r = (p, e, q') -> match e with Some e => step Capacity q e q' | None => q' = q end) ->
  enter_push i r l = (e, s) ->
  match e with Some e => step Capacity q e (mon_queue s) | None => mon_queue s = q end.
Proof. destruct r as [[p e'] q']. intros Hr [= <- <-]. exact (Hr p e' q' eq_refl). Qed.

Lemma pop_at_once_step i k q l e s :
  pop_at_once i k q l = (e, s) ->
  match e with Some e => step Capacity q e (mon_queue s) | None => mon_queue s = q end.
Proof.
  unfold pop_at_once, dequeue_section. destruct (dequeue q) as [[v|] q'] eqn:E; intros [= <- <-].
  - by apply step_try_pop.
  - by apply step_try_pop_none.
Qed.

Lemma enter_pop_step i timed k q l e s :
  enter_pop i timed k q l = (e, s) ->
  match e with Some e => step Capacity q e (mon_queue s) | None => mon_queue s = q end.
Proof.
  unfold enter_pop. destruct (empty q && negb (closed_ q)) eqn:Ew; [by intros [= <- <-]|].
  assert (pop q = Some (dequeue q)) as Ep.
  { unfold pop. by destruct (empty q), (closed_ q). }
  unfold dequeue_section. destruct (dequeue q) as [[v|] q'] eqn:E; intros [= <- <-].
  - by apply step_pop.
  - destruct timed; [by apply step_pop_for_none|by apply step_pop_end].
Qed.

(** Each step is a step of the queue with its event, or leaves the queue alone. *)
Lemma mon_step_refines a s e s' :
  mon_step a s = Some (e, s') ->
  match e with
  | Some e => step Capacity (mon_queue s) e (mon_queue s')
  | None => mon_queue s' = mon_queue s
  end.
Proof.
  destruct s as [q l]. cbn [mon_step mon_queue]. destruct a as [i c k|i k|i|i].
  - destruct (l !! i) as [[]|]; try done. destruct c as [v timed|v|timed| |]; cbn [begin_call];
      [..|intros [= <- <-]; by apply step_close]; intros [= E].
    + eapply enter_push_step, E. apply push_section_step.
    + eapply enter_push_step, E. apply push_at_once_step.
    + by eapply enter_pop_step.
    + by eapply pop_at_once_step.
  - destruct (l !! i) as [p|]; [|done]. destruct p as [|v t|v t|v| |t|t| | |]; cbn [continue_call];
      try (by intros [= <- <-]); intros [= E].
    + eapply enter_push_step, E. apply push_section_step.
    + eapply enter_push_step, E. apply push_at_once_step.
    + by eapply enter_pop_step.
    + by eapply pop_at_once_step.
  - destruct (l !! i) as [p|]; cbn; [|done]. destruct (time_out p); cbn; [|done]. by intros [= <- <-].
  - destruct (l !! i) as [p|]; cbn; [|done]. destruct (spurious p); cbn; [|done]. by intros [= <- <-].
Qed.

(** ** Counting threads *)

Definition count (f : pc -> nat) (l : list pc) : nat := sum_list_with f l.

Definition not_full_waiters (p : pc) : nat := match p with PushWait _ _ => 1 | _ => 0 end.
Definition not_full_woken (p : pc) : nat := match p with PushWoken _ _ => 1 | _ => 0 end.
Definition notifiers (p : pc) : nat := match p with PushNotify => 1 | _ => 0 end.
Definition not_empty_waiters (p : pc) : nat := match p with PopWait _ => 1 | _ => 0 end.
Definition not_empty_woken (p : pc) : nat := match p with PopWoken _ => 1 | _ => 0 end.
Definition closing (p : pc) : nat := match p with CloseNotEmpty => 1 | _ => 0 end.
Definition closing_full (p : pc) : nat := match p with CloseNotFull => 1 | _ => 0 end.

Lemma count_insert f i x y l :
  l !! i = Some x -> (count f (<[i := y]> l) + f x = count f l + f y)%nat.
Proof.
  intros E. rewrite <- (take_drop_middle l i x E) at 2.
  rewrite insert_take_drop by (by apply lookup_lt_Some in E).
  unfold count. rewrite !sum_list_with_app. cbn [sum_list_with]. lia.
Qed.

Lemma count_zero f l : (forall p, p ∈ l -> f p = 0%nat) -> count f l = 0%nat.
Proof.
  unfold count. induction l as [|p l IH]; intros H; [done|]. cbn.
  rewrite (H p) by left. rewrite IH; [done|]. intros p' Hp. apply H. by right.
Qed.

Lemma count_pos f l : (0 < count f l)%nat -> exists i p, l !! i = Some p /\ (0 < f p)%nat.
Proof.
  unfold count. induction l as [|p l IH]; cbn; [lia|]. intros Hc.
  destruct (decide (f p = 0)%nat) as [E|E]; [|exists 0%nat, p; split; [done|lia]].
  destruct IH as (i & p' & Hi & Hp); [lia|]. by exists (S i), p'.
Qed.

Lemma count_map f g l : (forall p, f (g p) = f p) -> count f (map g l) = count f l.
Proof.
  intros H. unfold count. induction l as [|p l IH]; [done|]. cbn. by rewrite H, IH.
Qed.

(** The seven counts when thread [i] goes from one place to another. *)
Ltac tally E y :=
  pose proof (count_insert not_full_waiters _ _ y _ E);
  pose proof (count_insert not_full_woken _ _ y _ E);
  pose proof (count_insert notifiers _ _ y _ E);
  pose proof (count_insert not_empty_waiters _ _ y _ E);
  pose proof (count_insert not_empty_woken _ _ y _ E);
  pose proof (count_insert closing _ _ y _ E);
  pose proof (count_insert closing_full _ _ y _ E);
  cbn [not_full_waiters not_full_woken notifiers not_empty_waiters not_empty_woken closing
       closing_full] in *.

Lemma notify_one_spec waits k l :
  (notify_one waits k l = l /\ forall p, p ∈ l -> waits p = false)
  \/ exists j p, l !! j = Some p /\ waits p = true /\ notify_one waits k l = <[j := wake p]> l.
Proof.
  assert ((match list_find (fun p => waits p = true) l with
           | Some (j, p) => <[j := wake p]> l | None => l end = l
           /\ forall p, p ∈ l -> waits p = false)
    \/ exists j p, l !! j = Some p /\ waits p = true
      /\ match list_find (fun p => waits p = true) l with
         | Some (j, p) => <[j := wake p]> l | None => l end = <[j := wake p]> l) as Hf.
  { destruct (list_find _ l) as [[j p]|] eqn:E.
    - right. apply list_find_Some in E as (E1 & E2 & _). by exists j, p.
    - left. split; [done|]. apply list_find_None in E. rewrite Forall_forall in E.
      intros p Hp. by destruct (waits p) eqn:Ew; [apply E in Hp|]. }
  unfold notify_one. destruct (l !! k) as [p|] eqn:Ek; [|done].
  destruct (waits p) eqn:Ew; [|done]. right. by exists k, p.
Qed.

(** ** No wake-up is lost *)

(** Wherever a thread waits for items that are there, or for room that is there, as many threads
    are on their way: they have been woken, or will notify.  After [close] the closing thread has
    yet to notify whoever still waits, and nobody is closing before. *)
Record awake (s : monitor) : Prop := {
  aw_items : closed_ (mon_queue s) = false -> (0 < count not_empty_waiters (threads s))%nat ->
    (length (queue_ (mon_queue s))
     <= count notifiers (threads s) + count not_empty_woken (threads s))%nat;
  aw_room : closed_ (mon_queue s) = false -> (0 < count not_full_waiters (threads s))%nat ->
    Capacity <> 0%nat
    /\ (Capacity <= length (queue_ (mon_queue s)) + count not_full_woken (threads s))%nat;
  aw_closed : closed_ (mon_queue s) = true -> (0 < count not_empty_waiters (threads s))%nat ->
    (0 < count closing (threads s))%nat;
  aw_closed_full : closed_ (mon_queue s) = true -> (0 < count not_full_waiters (threads s))%nat ->
    (0 < count closing (threads s) + count closing_full (threads s))%nat;
  aw_open : closed_ (mon_queue s) = false ->
    count closing (threads s) = 0%nat /\ count closing_full (threads s) = 0%nat
}.

Lemma awake_init n : awake (monitor_init n).
Proof.
  assert (forall f, f Idle = 0%nat -> count f (replicate n Idle) = 0%nat) as Hz.
  { intros f Hf. apply count_zero. by intros p [-> _]%elem_of_replicate. }
  constructor; cbn [threads mon_queue monitor_init]; intros _; rewrite !Hz by done; lia.
Qed.

Lemma is_full_spec (q : bqueue T) :
  if is_full Capacity q then Capacity <> 0%nat /\ (Capacity <= length (queue_ q))%nat
  else Capacity = 0%nat \/ (length (queue_ q) < Capacity)%nat.
Proof.
  unfold is_full. destruct (Nat.eqb_spec Capacity 0); [by left|].
  destruct (Nat.leb_spec Capacity (length (queue_ q))); lia.
Qed.

(** The facts that hold while the queue is open, or when it is closed. *)
Ltac awake_facts H Ec :=
  destruct H as [Hitems Hroom Hclosed Hfull Hopen]; cbn [mon_queue threads] in *; rewrite Ec in *;
  try specialize (Hitems eq_refl); try specialize (Hroom eq_refl);
  try specialize (Hclosed eq_refl); try specialize (Hfull eq_refl);
  try specialize (Hopen eq_refl).

Ltac awake_cases Ec :=
  constructor; cbn [mon_queue threads queue_ closed_ enqueue]; rewrite ?Ec, ?length_app in *;
  try match goal with Eq : queue_ _ = _ |- _ => rewrite ?Eq in * end; cbn [length] in *; intros; try congruence; lia.

(** A thread that is not in a wait set and is not closing. *)
Definition at_large (p : pc) : Prop :=
  not_full_waiters p = 0%nat /\ not_empty_waiters p = 0%nat /\ notifiers p = 0%nat
  /\ closing p = 0%nat /\ closing_full p = 0%nat.

Lemma enqueue_awake i x v q l :
  awake {| mon_queue := q; threads := l |} -> l !! i = Some x -> at_large x ->
  not_empty_woken x = 0%nat -> closed_ q = false -> is_full Capacity q = false ->
  awake {| mon_queue := enqueue v q; threads := <[i := PushNotify]> l |}.
Proof.
  intros Ha E (X1 & X2 & X3 & X4 & X5) X6 Ec Ef. pose proof (is_full_spec q) as F. rewrite Ef in F.
  assert (not_full_woken x <= 1)%nat as X7 by (destruct x; cbn; lia).
  awake_facts Ha Ec. tally E PushNotify. awake_cases Ec.
Qed.

Lemma push_section_awake i x v timed q l :
  awake {| mon_queue := q; threads := l |} -> l !! i = Some x -> at_large x ->
  not_empty_woken x = 0%nat ->
  awake (snd (enter_push i (push_section v timed q) l)).
Proof.
  intros Ha E X X6. unfold push_section. destruct (closed_ q) eqn:Ec.
  - cbn. destruct X as (X1 & X2 & X3 & X4 & X5). awake_facts Ha Ec. tally E Idle. awake_cases Ec.
  - destruct (is_full Capacity q) eqn:Ef; [|by apply (enqueue_awake i x)].
    pose proof (is_full_spec q) as F. rewrite Ef in F. cbn.
    destruct X as (X1 & X2 & X3 & X4 & X5). awake_facts Ha Ec. tally E (PushWait v timed). awake_cases Ec.
Qed.

Lemma push_at_once_awake i x v q l :
  awake {| mon_queue := q; threads := l |} -> l !! i = Some x -> at_large x ->
  not_empty_woken x = 0%nat -> not_full_woken x = 0%nat ->
  awake (snd (enter_push i (push_at_once v q) l)).
Proof.
  intros Ha E X X6 X7. unfold push_at_once. destruct (closed_ q || is_full Capacity q) eqn:Eo.
  - cbn. destruct X as (X1 & X2 & X3 & X4 & X5). destruct (closed_ q) eqn:Ec; awake_facts Ha Ec;
      tally E Idle; awake_cases Ec.
  - apply orb_false_iff in Eo as [Ec Ef]. by apply (enqueue_awake i x).
Qed.

(** Taking an item makes room and wakes a waiter for it. *)
Lemma dequeue_awake i x ended k q l :
  awake {| mon_queue := q; threads := l |} -> l !! i = Some x -> at_large x ->
  not_full_woken x = 0%nat ->
  let '(e, q', l') := dequeue_section ended k q (<[i := Idle]> l) in
  awake {| mon_queue := q'; threads := l' |}.
Proof.
  intros Ha E (X1 & X2 & X3 & X4 & X5) X7. unfold dequeue_section, dequeue.
  assert (not_empty_woken x <= 1)%nat as X6 by (destruct x; cbn; lia).
  destruct (queue_ q) as [|v r] eqn:Eq.
  - destruct (closed_ q) eqn:Ec; awake_facts Ha Ec; tally E Idle; awake_cases Ec.
  - destruct (notify_one_spec waits_not_full k (<[i := Idle]> l)) as [[-> Hn]|(j & p & Ej & Hw & ->)].
    + assert (count not_full_waiters (<[i := Idle]> l) = 0%nat) as Hz.
      { apply count_zero. intros p Hp. apply Hn in Hp. by destruct p. }
      destruct (closed_ q) eqn:Ec; awake_facts Ha Ec; tally E Idle; awake_cases Ec.
    + destruct p as [|v' t| | | | | | | |]; try done. cbn [wake].
      destruct (closed_ q) eqn:Ec; awake_facts Ha Ec; tally E Idle; tally Ej (PushWoken v' t); awake_cases Ec.
Qed.

Lemma pop_at_once_awake i x k q l :
  awake {| mon_queue := q; threads := l |} -> l !! i = Some x -> at_large x ->
  not_full_woken x = 0%nat -> awake (snd (pop_at_once i k q l)).
Proof.
  intros Ha E X X7. unfold pop_at_once.
  pose proof (dequeue_awake i x GaveUp k q l Ha E X X7) as P.
  by destruct (dequeue_section GaveUp k q (<[i := Idle]> l)) as [[e q'] l'].
Qed.

Lemma enter_pop_awake i x timed k q l :
  awake {| mon_queue := q; threads := l |} -> l !! i = Some x -> at_large x ->
  not_full_woken x = 0%nat -> awake (snd (enter_pop i timed k q l)).
Proof.
  intros Ha E X X7. unfold enter_pop. destruct (empty q && negb (closed_ q)) eqn:Ew.
  - apply andb_true_iff in Ew as [Ee Ec%negb_true_iff]. destruct X as (X1 & X2 & X3 & X4 & X5).
    assert (queue_ q = []) as Eq by (unfold empty in Ee; by destruct (queue_ q)).
    cbn [snd]. awake_facts Ha Ec. tally E (PopWait timed). awake_cases Ec.
  - pose proof (dequeue_awake i x (if timed then GaveUp else Finished) k q l Ha E X X7) as P.
    by destruct (dequeue_section _ k q (<[i := Idle]> l)) as [[e q'] l'].
Qed.

(** The notification that follows a push. *)
Lemma push_notify_awake i k q l :
  awake {| mon_queue := q; threads := l |} -> l !! i = Some PushNotify ->
  awake {| mon_queue := q; threads := notify_one waits_not_empty k (<[i := Idle]> l) |}.
Proof.
  intros Ha E.
  destruct (notify_one_spec waits_not_empty k (<[i := Idle]> l)) as [[-> Hn]|(j & p & Ej & Hw & ->)].
  - assert (count not_empty_waiters (<[i := Idle]> l) = 0%nat) as Hz.
    { apply count_zero. intros p Hp. apply Hn in Hp. by destruct p. }
    destruct (closed_ q) eqn:Ec; awake_facts Ha Ec; tally E Idle; awake_cases Ec.
  - destruct p as [| | | | |t| | | |]; try done. cbn [wake].
    destruct (closed_ q) eqn:Ec; awake_facts Ha Ec; tally E Idle; tally Ej (PopWoken t); awake_cases Ec.
Qed.

(** [notify_all] empties the wait set and leaves the others where they are. *)
Lemma notify_all_count waits f l :
  (forall p, waits p = true -> f (wake p) = f p) -> count f (notify_all waits l) = count f l.
Proof.
  intros H. apply count_map. intros p. destruct (waits p) eqn:E; [by apply H|done].
Qed.

Lemma notify_all_empties waits f l :
  (forall p, waits p = false -> f p = 0%nat) -> (forall p, waits p = true -> f (wake p) = 0%nat) ->
  count f (notify_all waits l) = 0%nat.
Proof.
  intros H1 H2. apply count_zero. intros p Hp. unfold notify_all in Hp.
  apply list_elem_of_fmap in Hp as (p' & -> & _). destruct (waits p') eqn:E; auto.
Qed.

Lemma close_notify_awake i q l :
  awake {| mon_queue := q; threads := l |} -> closed_ q = true ->
  (l !! i = Some CloseNotEmpty ->
   awake {| mon_queue := q; threads := notify_all waits_not_empty (<[i := CloseNotFull]> l) |})
  /\ (l !! i = Some CloseNotFull ->
   awake {| mon_queue := q; threads := notify_all waits_not_full (<[i := Idle]> l) |}).
Proof.
  intros Ha Ec. split; intros E.
  - tally E CloseNotFull. destruct Ha as [_ _ Hclosed Hfull _]. cbn [mon_queue threads] in *.
    specialize (Hclosed Ec). specialize (Hfull Ec).
    constructor; cbn [mon_queue threads]; try congruence; intros _.
    + rewrite (notify_all_empties waits_not_empty not_empty_waiters); [lia|by intros []..].
    + rewrite !(notify_all_count waits_not_empty) by by intros []. lia.
  - tally E Idle. destruct Ha as [_ _ Hclosed Hfull _]. cbn [mon_queue threads] in *.
    specialize (Hclosed Ec). specialize (Hfull Ec).
    constructor; cbn [mon_queue threads]; try congruence; intros _.
    + rewrite !(notify_all_count waits_not_full) by by intros []. lia.
    + rewrite (notify_all_empties waits_not_full not_full_waiters); [lia|by intros []..].
Qed.

(** ** Every step keeps it *)

Lemma move_awake i x y q l :
  awake {| mon_queue := q; threads := l |} -> l !! i = Some x ->
  time_out x = Some y \/ spurious x = Some y ->
  awake {| mon_queue := q; threads := <[i := y]> l |}.
Proof.
  intros Ha E Hy. tally E y.
  destruct (closed_ q) eqn:Ec; awake_facts Ha Ec;
    destruct x as [|v []|v t|v| |[]|t| | |]; destruct Hy as [Hy|Hy]; try done; injection Hy as <-;
    cbn in *; awake_cases Ec.
Qed.

Lemma begin_awake i c k q l :
  awake {| mon_queue := q; threads := l |} -> l !! i = Some Idle -> awake (snd (begin_call i c k q l)).
Proof.
  intros Ha E. assert (at_large Idle) as X by done. destruct c; cbn [begin_call].
  - by apply (push_section_awake i Idle).
  - by apply (push_at_once_awake i Idle).
  - by apply (enter_pop_awake i Idle).
  - by apply (pop_at_once_awake i Idle).
  - cbn [snd]. tally E CloseNotEmpty. destruct Ha as [_ _ Hclosed Hfull _].
    constructor; cbn [mon_queue threads closed_ close] in *; try done; intros _; lia.
Qed.

Lemma continue_awake i p k q l r :
  awake {| mon_queue := q; threads := l |} -> l !! i = Some p ->
  continue_call i p k q l = Some r -> awake (snd r).
Proof.
  intros Ha E. destruct p as [|v t|v t|v| |t|t| | |]; cbn [continue_call]; try done; intros [= <-].
  - by apply (push_section_awake i (PushWoken v t)).
  - by apply (push_at_once_awake i (PushTimeout v)).
  - by apply push_notify_awake.
  - by apply (enter_pop_awake i (PopWoken t)).
  - by apply (pop_at_once_awake i PopTimeout).
  - apply (close_notify_awake i); [done| |done]. destruct (closed_ q) eqn:Ec; [done|].
    tally E Idle. awake_facts Ha Ec. lia.
  - apply (close_notify_awake i); [done| |done]. destruct (closed_ q) eqn:Ec; [done|].
    tally E Idle. awake_facts Ha Ec. lia.
Qed.

Lemma mon_step_awake a s e s' : mon_step a s = Some (e, s') -> awake s -> awake s'.
Proof.
  destruct s as [q l]. cbn [mon_step]. destruct a as [i c k|i k|i|i]; intros H Ha.
  - destruct (l !! i) as [[]|] eqn:E; try done. injection H as H.
    pose proof (begin_awake i c k q l Ha E) as P. by rewrite H in P.
  - destruct (l !! i) as [p|] eqn:E; [|done]. by apply (continue_awake i p k q l (e, s')).
  - destruct (l !! i) as [p|] eqn:E; cbn in H; [|done].
    destruct (time_out p) as [y|] eqn:Et; cbn in H; [|done]. injection H as <- <-.
    apply (move_awake i p); auto.
  - destruct (l !! i) as [p|] eqn:E; cbn in H; [|done].
    destruct (spurious p) as [y|] eqn:Et; cbn in H; [|done]. injection H as <- <-.
    apply (move_awake i p); auto.
Qed.

Lemma mon_run_invariant acts : forall s es0 es s' q0,
  steps Capacity q0 es0 (mon_queue s) -> awake s -> mon_run acts s = Some (es, s') ->
  steps Capacity q0 (es0 ++ es) (mon_queue s') /\ awake s'.
Proof.
  induction acts as [|a acts IH]; intros s es0 es s' q0 Hs Ha; cbn [mon_run].
  - intros [= <- <-]. by rewrite app_nil_r.
  - destruct (mon_step a s) as [[e s1]|] eqn:E; cbn; [|done].
    destruct (mon_run acts s1) as [[es1 s2]|] eqn:Er; cbn; [|done]. intros [= <- <-].
    pose proof (mon_step_awake a s e s1 E Ha) as Ha1. apply mon_step_refines in E.
    rewrite app_assoc. apply (IH s1); [|done|done]. destruct e as [e|]; cbn.
    + by apply (steps_snoc _ _ _ (mon_queue s)).
    + by rewrite app_nil_r, E.
Qed.

(** A thread that can go on without being notified. *)
Definition runnable (p : pc) : bool :=
  match p with Idle | PushWait _ _ | PopWait _ => false | _ => true end.

Lemma runnable_continues s j p k :
  threads s !! j = Some p -> runnable p = true -> is_Some (mon_step (Continue j k) s).
Proof. destruct s as [q l]. cbn. intros ->. destruct p; cbn; by intros. Qed.

(** Whoever waits for something that is there has a thread on its way. *)
Lemma waiter_has_waker s i p :
  awake s -> threads s !! i = Some p ->
  match p with
  | PopWait _ => queue_ (mon_queue s) <> [] \/ closed_ (mon_queue s) = true
  | PushWait _ _ => is_full Capacity (mon_queue s) = false \/ closed_ (mon_queue s) = true
  | _ => False
  end ->
  exists j p', threads s !! j = Some p' /\ runnable p' = true.
Proof.
  intros Ha E Hw.
  assert (forall f, (0 < count f (threads s))%nat -> (forall p, (0 < f p)%nat -> runnable p = true) ->
            exists j p', threads s !! j = Some p' /\ runnable p' = true) as Hf.
  { intros f Hc Hr. destruct (count_pos f _ Hc) as (j & p' & Hj & Hp). exists j, p'. auto. }
  destruct s as [q l]. cbn [mon_queue threads] in *. pose proof (is_full_spec q) as F.
  destruct p as [|v t| | | |t| | | |]; try done; tally E (@Idle);
    destruct (closed_ q) eqn:Ec; awake_facts Ha Ec.
  - destruct (decide (0 < count closing l)%nat).
    + apply (Hf closing); [done|]. intros []; cbn; lia || done.
    + apply (Hf closing_full); [lia|]. intros []; cbn; lia || done.
  - destruct Hw as [Hw|Hw]; [|done]. rewrite Hw in F.
    apply (Hf not_full_woken); [lia|]. intros []; cbn; lia || done.
  - apply (Hf closing); [lia|]. intros []; cbn; lia || done.
  - destruct Hw as [Hw|Hw]; [|done]. assert (0 < length (queue_ q))%nat by (destruct (queue_ q); [done|cbn; lia]).
    destruct (decide (0 < count notifiers l)%nat).
    + apply (Hf notifiers); [done|]. intros []; cbn; lia || done.
    + apply (Hf not_empty_woken); [lia|]. intros []; cbn; lia || done.
Qed.
End cond_queue.
Arguments monitor : clear implicits.
Arguments pc : clear implicits.
Arguments call : clear implicits.
Arguments action : clear implicits.

(** ** Properties *)

(** C39: No wake-up is lost.  Any number of threads, any calls of the queue in any interleaving, with
    timeouts and spurious wake-ups at any time and any choice of the thread that a notification
    wakes: the events are steps of the queue, so it is first-in first-out and within its capacity;
    and a thread that waits for an item while there is one, for room while there is some, or for
    either while the queue is closed, is never left alone: another thread can go on that has been
    woken, or has yet to notify.  So when no thread can go on, every waiting consumer waits on an
    empty queue and every waiting producer on a full one, and the queue is open. *)
Theorem no_lost_wakeup {T} (Capacity n : nat) (acts : list (action T)) es s :
  mon_run Capacity acts (monitor_init n) = Some (es, s) ->
  steps Capacity init es (mon_queue s)
  /\ pops es ++ queue_ (mon_queue s) = pushes es /\ within_capacity Capacity (mon_queue s)
  /\ (forall j p k, threads s !! j = Some p -> runnable p = true ->
        is_Some (mon_step Capacity (Continue j k) s))
  /\ ((forall j p, threads s !! j = Some p -> runnable p = false) ->
      (forall i timed, threads s !! i = Some (PopWait timed) ->
         queue_ (mon_queue s) = [] /\ closed_ (mon_queue s) = false)
      /\ (forall i v timed, threads s !! i = Some (PushWait v timed) ->
         is_full Capacity (mon_queue s) = true /\ closed_ (mon_queue s) = false)).
Proof.
  intros Hr. destruct (mon_run_invariant Capacity acts (monitor_init n) [] es s init
    (steps_nil _ _) (awake_init Capacity n) Hr) as [Hs Ha]. cbn [app] in Hs.
  assert (within_capacity Capacity (@init T)) as H0 by (intros ?; cbn; lia).
  destruct (steps_invariant _ _ _ _ Hs H0) as (Hf & Hw & _).
  split; [done|]. split; [done|]. split; [done|].
  split; [intros j p k; apply runnable_continues|]. intros Hq.
  assert (forall i p, threads s !! i = Some p ->
    ~ match p with
      | PopWait _ => queue_ (mon_queue s) <> [] \/ closed_ (mon_queue s) = true
      | PushWait _ _ => is_full Capacity (mon_queue s) = false \/ closed_ (mon_queue s) = true
      | _ => False
      end) as Hn.
  { intros i p E Hw'. destruct (waiter_has_waker Capacity s i p Ha E Hw') as (j & p' & Hj & Hp).
    by rewrite (Hq j p' Hj) in Hp. }
  split; intros i.
  - intros timed E%Hn. destruct (closed_ (mon_queue s)), (queue_ (mon_queue s)); try done;
      exfalso; apply E; auto.
  - intros v timed E%Hn. destruct (closed_ (mon_queue s)), (is_full Capacity (mon_queue s)); try done;
      exfalso; apply E; auto.
Qed.

(** Room for one: two consumers wait, a producer pushes twice and waits for room, its first
    notification wakes a consumer, which wakes the producer; a third thread closes. *)
Definition cond_example : list (action nat) :=
  [Begin 0 (CPop false) 0; Begin 1 (CPop false) 0; Begin 2 (CPush 7 false) 0; Continue 2 0;
   Begin 2 (CPush 8 false) 0; Spurious 1; Continue 1 2; Continue 2 0; Continue 0 0; Continue 2 0;
   Begin 1 (CPop false) 0].

Lemma no_lost_wakeup_witness :
  exists s, mon_run 1 cond_example (monitor_init 3) = Some ([Pushed 7; Popped 7; Pushed 8; Popped 8], s)
    /\ threads s = [Idle; PopWait false; Idle]
    /\ queue_ (mon_queue s) = [] /\ closed_ (mon_queue s) = false.
Proof.
  eexists. split; [reflexivity|]. split; [reflexivity|].
  destruct (no_lost_wakeup 1 3 cond_example _ _ eq_refl) as (_ & _ & _ & _ & Hq).
  destruct Hq as [Hc _]; [|exact (Hc 1%nat false eq_refl)].
  intros [|[|[|j]]] p [= <-]; reflexivity.
Defined.
