(* ===== verification/ThreadPool.v ===== *)
(** * [ThreadPool] (include/rtspserver/utils/ThreadPool.hpp)

    A fixed set of workers over one unbounded [BlockingQueue].  The pool is a
    transition system whose steps are the queue operations, the start and end of a
    task on a worker, and the two halves of [shutdown].  Proved: every submitted task
    runs exactly once, started in submission order; once the queue is closed the
    workers always come to their end, so that [shutdown] returns, and then every task
    has run. *)

From S2P Require Import Prelude Queues.
Import BlockingQueue.

Section pool.
Context {T : Type}.

(** Where a worker is in [workerLoop]: in [tasks_.pop()], in [( *task)()], or past
    the loop. *)
Inductive worker := Waiting | Running (task : T) | Exited.

Record pool := mkPool {
  tasks_ : bqueue T;
  workers_ : list worker;
  shutdown_done_ : bool;
  (* history: tasks accepted, tasks started, tasks finished *)
  submitted : list T;
  started : list T;
  finished : list T
}.

#[global] Instance pool_updatable : Updatable pool := fun p =>
  {| tasks_ := tasks_ p; workers_ := workers_ p; shutdown_done_ := shutdown_done_ p;
     submitted := submitted p; started := started p; finished := finished p |}.

(** The constructor of [ThreadPool<N>]. *)
Definition pool_init (N : nat) : pool :=
  {| tasks_ := init; workers_ := replicate N Waiting; shutdown_done_ := false;
     submitted := []; started := []; finished := [] |}.

Definition thread_count (p : pool) : nat := length (workers_ p).

(** [submit]: throws on a closed queue.  The test with [is_closed] and the [push] are
    two steps of the source; a queue never reopens, so the throw of either is the
    throw of the second. *)
Definition submit (t : T) (p : pool) : result unit * pool :=
  match push 0 t (tasks_ p) with
  | Some (Ok _, q) => (Ok tt, p <| tasks_ := q |> <| submitted := submitted p ++ [t] |>)
  | Some (Throw e, q) => (Throw e, p)
  | None => (Throw runtime_error, p)
  end.

(** One step of [workerLoop] on worker [i]. *)
Definition worker_pop (i : nat) (p : pool) : option pool :=
  match workers_ p !! i with
  | Some Waiting =>
      match pop (tasks_ p) with
      | Some (Some t, q) =>
          Some (p <| tasks_ := q |> <| workers_ := <[i := Running t]> (workers_ p) |>
                  <| started := started p ++ [t] |>)
      | Some (None, q) =>
          Some (p <| tasks_ := q |> <| workers_ := <[i := Exited]> (workers_ p) |>)
      | None => None
      end
  | _ => None
  end.

Definition worker_finish (i : nat) (p : pool) : option pool :=
  match workers_ p !! i with
  | Some (Running t) =>
      Some (p <| workers_ := <[i := Waiting]> (workers_ p) |>
              <| finished := finished p ++ [t] |>)
  | _ => None
  end.

(** [shutdown]: the guarded flag, then [tasks_.close()]. *)
Definition shutdown_begin (p : pool) : option pool :=
  if shutdown_done_ p then None else Some (p <| shutdown_done_ := true |>).
Definition shutdown_close (p : pool) : pool := p <| tasks_ := close (tasks_ p) |>.

Definition worker_exited (w : worker) : bool :=
  match w with Exited => true | _ => false end.

(** The joins of [shutdown] have all returned. *)
Definition joined (p : pool) : bool := forallb worker_exited (workers_ p).

Inductive worker_step : pool -> pool -> Prop :=
| wstep_pop i p p' : worker_pop i p = Some p' -> worker_step p p'
| wstep_finish i p p' : worker_finish i p = Some p' -> worker_step p p'.

Inductive pool_step : pool -> pool -> Prop :=
| pstep_submit t p r p' : submit t p = (r, p') -> pool_step p p'
| pstep_worker p p' : worker_step p p' -> pool_step p p'
| pstep_shutdown p p' : shutdown_begin p = Some p' -> pool_step p p'
| pstep_close p : shutdown_done_ p = true -> pool_step p (shutdown_close p).

Inductive reachable (N : nat) : pool -> Prop :=
| reach_init : reachable N (pool_init N)
| reach_step p p' : reachable N p -> pool_step p p' -> reachable N p'.

(** ** Invariant *)

Definition running (ws : list worker) : list T :=
  omap (fun w => match w with Running t => Some t | _ => None end) ws.

Record pool_inv (N : nat) (p : pool) : Prop := {
  inv_workers : length (workers_ p) = N;
  inv_fifo : started p ++ queue_ (tasks_ p) = submitted p;
  inv_running : Permutation (started p) (finished p ++ running (workers_ p));
  inv_exited : forall i, workers_ p !! i = Some Exited ->
                 closed_ (tasks_ p) = true /\ queue_ (tasks_ p) = []
}.

Lemma running_insert ws i w w' :
  ws !! i = Some w ->
  Permutation (running [w'] ++ running ws) (running [w] ++ running (<[i := w']> ws)).
Proof.
  intros H. rewrite <- (take_drop_middle ws i w H) at 1.
  rewrite insert_take_drop by (by apply lookup_lt_Some in H).
  unfold running. rewrite !omap_app. cbn [omap list_omap].
  destruct w, w'; simpl; rewrite ?Permutation_middle; simpl; try reflexivity.
  rewrite <- !Permutation_middle. apply perm_swap.
Qed.

Lemma running_replicate N : running (replicate N Waiting) = [].
Proof. by induction N. Qed.

Lemma pool_inv_init N : pool_inv N (pool_init N).
Proof.
  constructor; simpl.
  - apply length_replicate.
  - done.
  - by rewrite running_replicate.
  - intros i H. apply lookup_replicate_1 in H as [? _]. done.
Qed.

Lemma insert_exited (ws : list worker) i j w :
  w <> Exited -> <[i := w]> ws !! j = Some Exited -> ws !! j = Some Exited.
Proof.
  intros Hw H. destruct (decide (i = j)) as [->|].
  - destruct (decide (j < length ws)%nat).
    + rewrite list_lookup_insert_eq in H by done. congruence.
    + by rewrite list_insert_ge in H by lia.
  - by rewrite list_lookup_insert_ne in H.
Qed.

Lemma worker_step_inv N p p' : pool_inv N p -> worker_step p p' -> pool_inv N p'.
Proof.
  intros Hi Hs. destruct Hs as [i q q' H|i q q' H]; destruct Hi as [Hl Hf Hr He].
  - unfold worker_pop in H. destruct (workers_ q !! i) as [[]|] eqn:Ei; try done.
    unfold pop, dequeue, BlockingQueue.empty in H.
    destruct (queue_ (tasks_ q)) as [|t r] eqn:Eq; simpl in H.
    + destruct (closed_ (tasks_ q)) eqn:Ec; [|done]. injection H as <-.
      constructor; simpl_update.
      * by rewrite length_insert.
      * by rewrite Eq.
      * rewrite Hr. apply Permutation_app_head.
        by pose proof (running_insert _ i _ Exited Ei).
      * by rewrite Eq.
    + injection H as <-. constructor; simpl_update; simpl.
      * by rewrite length_insert.
      * rewrite <- Hf, <- app_assoc. done.
      * rewrite Hr, <- app_assoc. apply Permutation_app_head.
        rewrite Permutation_app_comm. by pose proof (running_insert _ i _ (Running t) Ei).
      * intros j Hj. apply insert_exited in Hj; [|done]. by destruct (He j Hj).
  - unfold worker_finish in H. destruct (workers_ q !! i) as [[]|] eqn:Ei; try done.
    injection H as <-. constructor; simpl_update.
    + by rewrite length_insert.
    + done.
    + rewrite Hr, <- app_assoc. apply Permutation_app_head.
      by pose proof (running_insert _ i _ Waiting Ei).
    + intros j Hj. apply insert_exited in Hj; [|done]. by apply (He j).
Qed.

Lemma pool_step_inv N p p' : pool_inv N p -> pool_step p p' -> pool_inv N p'.
Proof.
  intros Hi Hs. destruct Hs as [t q r q' H|q q' H|q q' H|q H].
  - destruct Hi as [Hl Hf Hr He]. unfold submit, push, is_full in H. simpl in H.
    destruct (closed_ (tasks_ q)) eqn:Ec; injection H as <- <-.
    { constructor; try done. intros j Hj. rewrite Ec. by apply (He j). }
    constructor; simpl_update; simpl; try done.
    + by rewrite <- Hf, app_assoc.
    + intros j Hj. destruct (He j Hj). congruence.
  - eapply worker_step_inv; eauto.
  - unfold shutdown_begin in H. destruct (shutdown_done_ q); [done|]. injection H as <-.
    by destruct Hi; constructor.
  - destruct Hi as [Hl Hf Hr He]. constructor; simpl_update; simpl; try done.
    intros j Hj. by destruct (He j Hj).
Qed.

Lemma reachable_inv N p : reachable N p -> pool_inv N p.
Proof. induction 1; [apply pool_inv_init | eapply pool_step_inv; eauto]. Qed.

Lemma joined_exited ws :
  forallb worker_exited ws = true -> running ws = [] /\ (ws <> [] -> ws !! 0%nat = Some Exited).
Proof.
  induction ws as [|w ws IH]; simpl; [done|]. destruct w; try done. intros H.
  destruct (IH H) as [Hr _]. done.
Qed.

(** ** Termination after [close] *)

Definition worker_weight (w : worker) : nat :=
  match w with Waiting => 1 | Running _ => 2 | Exited => 0 end.

(** Work left: three per queued task, and what each worker still has to do. *)
Definition work (p : pool) : nat :=
  (3 * length (queue_ (tasks_ p)) + sum_list_with worker_weight (workers_ p))%nat.

Lemma weight_insert (ws : list worker) i w w' :
  ws !! i = Some w ->
  (sum_list_with worker_weight (<[i := w']> ws) + worker_weight w
    = sum_list_with worker_weight ws + worker_weight w')%nat.
Proof.
  intros H. rewrite <- (take_drop_middle ws i w H) at 2.
  rewrite insert_take_drop by (by apply lookup_lt_Some in H).
  rewrite !sum_list_with_app. simpl. lia.
Qed.

Lemma worker_step_work p p' : worker_step p p' -> (work p' < work p)%nat.
Proof.
  unfold work. intros [i q q' H|i q q' H].
  - unfold worker_pop in H. destruct (workers_ q !! i) as [[]|] eqn:Ei; try done.
    unfold pop, dequeue, BlockingQueue.empty in H.
    destruct (queue_ (tasks_ q)) as [|t r] eqn:Eq; simpl in H.
    + destruct (closed_ (tasks_ q)); [|done]. injection H as <-. simpl_update.
      pose proof (weight_insert _ _ _ Exited Ei) as W. rewrite Eq. simpl in *. lia.
    + injection H as <-. simpl_update.
      pose proof (weight_insert _ _ _ (Running t) Ei) as W. simpl in *. lia.
  - unfold worker_finish in H. destruct (workers_ q !! i) as [[]|] eqn:Ei; try done.
    injection H as <-. simpl_update.
    pose proof (weight_insert _ _ _ Waiting Ei) as W. simpl in *. lia.
Qed.

Lemma worker_progress p :
  closed_ (tasks_ p) = true -> joined p = false -> exists p', worker_step p p'.
Proof.
  intros Hc Hj.
  assert (exists i w, workers_ p !! i = Some w /\ worker_exited w = false) as (i & w & Hi & Hw).
  { unfold joined in Hj. induction (workers_ p) as [|w ws IH]; [done|].
    simpl in Hj. destruct (worker_exited w) eqn:E.
    - destruct (IH Hj) as (i & w' & ? & ?). by exists (S i), w'.
    - by exists 0%nat, w. }
  destruct w as [|t|]; [| |done].
  - assert (exists p', worker_pop i p = Some p') as [p' Hp].
    { unfold worker_pop, pop. rewrite Hi, Hc, orb_true_r. unfold dequeue.
      destruct (queue_ (tasks_ p)); by eexists. }
    exists p'. by eapply wstep_pop.
  - eexists. eapply (wstep_finish i). unfold worker_finish. by rewrite Hi.
Qed.

Lemma worker_step_closed p p' :
  worker_step p p' -> closed_ (tasks_ p) = true -> closed_ (tasks_ p') = true.
Proof.
  intros [i q q' H|i q q' H] Hc.
  - unfold worker_pop, pop, dequeue in H. destruct (workers_ q !! i) as [[]|]; try done.
    rewrite Hc, orb_true_r in H. destruct (queue_ (tasks_ q)); injection H as <-; done.
  - unfold worker_finish in H. destruct (workers_ q !! i) as [[]|]; try done.
    injection H as <-. done.
Qed.

(** From a closed pool the workers reach the joined state. *)
Lemma closed_joins p :
  closed_ (tasks_ p) = true -> exists p', rtc worker_step p p' /\ joined p' = true.
Proof.
  remember (work p) as n eqn:Hn. revert p Hn.
  induction (lt_wf n) as [n _ IH]. intros p -> Hc.
  destruct (joined p) eqn:Hj; [by exists p|].
  destruct (worker_progress p Hc Hj) as [p1 Hs].
  destruct (IH (work p1) (worker_step_work _ _ Hs) p1 eq_refl) as (p' & Hr & Hj').
  { by eapply worker_step_closed. }
  exists p'. split; [by eapply rtc_l|done].
Qed.
End pool.
Arguments pool : clear implicits.
Arguments worker : clear implicits.

(** C38: In every reachable state of a pool with [N] workers, tasks are started in the order
    of their submission, each exactly once, and a started task is either finished or on a
    worker.  When the joins of [shutdown] have returned ([N] at least 1), every accepted task
    has been executed exactly once. *)
Theorem pool_executes_all {T} (N : nat) (p : pool T) :
  reachable N p ->
  started p ++ queue_ (tasks_ p) = submitted p
  /\ Permutation (started p) (finished p ++ running (workers_ p))
  /\ ((1 <= N)%nat -> joined p = true -> Permutation (finished p) (submitted p)).
Proof.
  intros H. apply reachable_inv in H as [Hl Hf Hr He].
  split; [done|]. split; [done|]. intros HN Hj.
  destruct (joined_exited _ Hj) as [Hrun Hex].
  destruct (He 0%nat) as [_ Hq]; [apply Hex; intros E; rewrite E in Hl; simpl in Hl; lia|].
  rewrite Hq, app_nil_r in Hf. by rewrite <- Hf, Hr, Hrun, app_nil_r.
Qed.

(** A step that may not be possible. *)
Definition go {T} (p : pool T) (f : pool T -> option (pool T)) : pool T := default p (f p).

Lemma go_reachable {T} N (p : pool T) f :
  (forall p', f p = Some p' -> pool_step p p') -> reachable N p -> reachable N (go p f).
Proof.
  intros Hf Hp. unfold go. destruct (f p) as [p'|] eqn:E; [|done].
  by apply (reach_step N p); [|apply Hf].
Qed.

(** Two workers, two tasks, the second finished first; then [shutdown], and both leave. *)
Definition drained_pool : pool Z :=
  let p := snd (submit 8 (snd (submit 7 (pool_init 2)))) in
  let p := go (go p (worker_pop 0)) (worker_pop 1) in
  let p := go (go p (worker_finish 1)) (worker_finish 0) in
  let p := shutdown_close (go p shutdown_begin) in
  go (go p (worker_pop 1)) (worker_pop 0).

Lemma drained_reachable : reachable 2 drained_pool.
Proof.
  assert (forall (p : pool Z) t, reachable 2 p -> reachable 2 (snd (submit t p))) as Hs.
  { intros p t Hp. eapply reach_step; [exact Hp|]. eapply pstep_submit, surjective_pairing. }
  assert (forall (p : pool Z) i, reachable 2 p -> reachable 2 (go p (worker_pop i))) as Hp.
  { intros p i. apply go_reachable. intros p' E. by eapply pstep_worker, wstep_pop. }
  assert (forall (p : pool Z) i, reachable 2 p -> reachable 2 (go p (worker_finish i))) as Hf.
  { intros p i. apply go_reachable. intros p' E. by eapply pstep_worker, wstep_finish. }
  unfold drained_pool. cbv zeta. apply Hp, Hp. eapply reach_step; [|by apply pstep_close].
  apply go_reachable; [by apply pstep_shutdown|]. do 2 apply Hf. do 2 apply Hp. do 2 apply Hs.
  apply reach_init.
Qed.

Lemma pool_executes_all_witness :
  started drained_pool = [7; 8] /\ finished drained_pool = [8; 7] /\ joined drained_pool = true
  /\ started drained_pool ++ queue_ (tasks_ drained_pool) = submitted drained_pool
  /\ Permutation (finished drained_pool) (submitted drained_pool).
Proof.
  destruct (pool_executes_all 2 drained_pool drained_reachable) as (H1 & _ & H3).
  split; [reflexivity|]. split; [reflexivity|]. split; [reflexivity|].
  split; [exact H1|]. apply H3; [lia|reflexivity].
Defined.

(** [shutdown] returns: once the queue is closed, as long as some worker has not left
    its loop some worker can take a step, every such step decreases the work that is left,
    and so the workers reach the state in which all joins return. *)
Theorem shutdown_terminates {T} (p : pool T) :
  closed_ (tasks_ p) = true ->
  (joined p = false -> exists p', worker_step p p')
  /\ (forall p', worker_step p p' -> (work p' < work p)%nat)
  /\ (exists p', rtc worker_step p p' /\ joined p' = true).
Proof.
  intros Hc. split; [by apply worker_progress|]. split; [apply worker_step_work|].
  by apply closed_joins.
Qed.

Lemma shutdown_terminates_witness :
  exists p' : pool Z,
    rtc worker_step
      (shutdown_close ((pool_init 2) <| tasks_ := {| queue_ := [7]; closed_ := false |} |>)) p'
    /\ joined p' = true.
Proof.
  destruct (shutdown_terminates
    (shutdown_close ((pool_init 2) <| tasks_ := {| queue_ := [7]; closed_ := false |} |>)))
    as (_ & _ & H); [reflexivity | exact H].
Defined.
