(* ===== verification/RTPSender.v ===== *)
(** * [RTPSender] (src/rtp/RTPSender.cpp, include/rtspserver/rtp/RTPSender.hpp)

    The sender of one media track over a connected UDP socket, or interleaved on the RTSP
    connection.  System calls are inputs: what [socket], [bind], [inet_pton], [connect],
    [getsockname] and [send] answer, and the results of the successive [sendmsg] calls.  What
    the code does to the outside is a list of [io] actions.  Proved: a frame reaches the
    stream complete and in order whatever the partial writes, [true] is returned exactly when
    it did, and a sender never leaks a socket. *)

From S2P Require Import Prelude.

Inductive Mode := NONE | UDP | TCP.

(** [rtp_channel_] is a [uint8_t]; the file descriptors are [int]s, -1 when unset. *)
Record RTPSender := mkRTPSender {
  mode_ : Mode;
  ready_ : bool;
  udp_fd_ : Z;
  tcp_fd_ : Z;
  rtp_channel_ : Z
}.

#[global] Instance RTPSender_updatable : Updatable RTPSender := fun s =>
  {| mode_ := mode_ s; ready_ := ready_ s; udp_fd_ := udp_fd_ s; tcp_fd_ := tcp_fd_ s;
     rtp_channel_ := rtp_channel_ s |}.

#[global] Instance Mode_eq_dec : EqDecision Mode.
Proof. solve_decision. Defined.

Definition RTPSender_default : RTPSender :=
  {| mode_ := NONE; ready_ := false; udp_fd_ := -1; tcp_fd_ := -1; rtp_channel_ := 0 |}.

(** What the sender does to the operating system. *)
Inductive io :=
| OpenSocket (fd : Z)
| CloseSocket (fd : Z)
| Datagram (fd : Z) (data : bytes)
| Stream (fd : Z) (data : bytes).

(** The answers of the operating system to one set-up. *)
Record socket_calls := mkSocketCalls {
  socket_result : Z;
  bind_result : Z;
  inet_pton_result : Z;
  connect_result : Z;
  getsockname_port : option Z
}.

Definition close (s : RTPSender) : list io * RTPSender :=
  let udp_open := bool_decide (mode_ s = UDP) && (0 <=? udp_fd_ s) in
  let acts := if udp_open then [CloseSocket (udp_fd_ s)] else [] in
  let s := if udp_open then s <| udp_fd_ := -1 |> else s in
  (acts, s <| tcp_fd_ := -1 |> <| ready_ := false |> <| mode_ := NONE |>).

(** [setupUDP]: a failed [bind] is only logged. *)
Definition setupUDP (os : socket_calls) (remote_rtp_port local_port : Z) (s : RTPSender)
    : bool * list io * RTPSender :=
  let fd := socket_result os in
  let s := s <| udp_fd_ := fd |> in
  if fd <? 0 then (false, [], s)
  else if negb (inet_pton_result os =? 1) then
    (false, [OpenSocket fd; CloseSocket fd], s <| udp_fd_ := -1 |>)
  else if connect_result os <? 0 then
    (false, [OpenSocket fd; CloseSocket fd], s <| udp_fd_ := -1 |>)
  else (true, [OpenSocket fd], s <| mode_ := UDP |> <| ready_ := true |>).

Definition getLocalPort (os : socket_calls) (s : RTPSender) : Z :=
  if negb (bool_decide (mode_ s = UDP)) || (udp_fd_ s <? 0) then 0
  else match getsockname_port os with Some p => u16 p | None => 0 end.

Definition setupTCP (tcp_fd rtp_channel : Z) (s : RTPSender) : RTPSender :=
  s <| tcp_fd_ := tcp_fd |> <| rtp_channel_ := u8 rtp_channel |> <| mode_ := TCP |>
    <| ready_ := true |>.

(** [sendUDP]: one datagram; [sent] is what [::send] returned. *)
Definition sendUDP (sent : Z) (data : bytes) (s : RTPSender) : bool * list io :=
  if sent <? 0 then (false, []) else (true, [Datagram (udp_fd_ s) data]).

(** The framing header of RFC 2326, section 10.12. *)
Definition frame_header (channel : Z) (data : bytes) : bytes :=
  let n := Z.of_nat (length data) in
  [byte_of_char "$"; channel; u8 (Z.shiftr n 8); u8 n].

(** The inner loop: advance the scatter-gather vector by [advance] octets. *)
Fixpoint advance_iov (advance : nat) (iov : list bytes) : list bytes :=
  match iov with
  | [] => []
  | v :: rest =>
      if (advance =? 0)%nat then iov
      else if (length v <=? advance)%nat then advance_iov (advance - length v) rest
      else drop advance v :: rest
  end.

(** The outer loop over the results of [sendmsg]; the octets a call accepts are the first
    ones of the vector.  [None]: the loop still waits for the next result. *)
Fixpoint sendmsg_loop (results : list Z) (fd : Z) (iov : list bytes) (remaining : Z)
    : option bool * list io :=
  if 0 <? remaining then
    match results with
    | [] => (None, [])
    | n :: rest =>
        if n <=? 0 then (Some false, [])
        else
          let '(r, acts) :=
            sendmsg_loop rest fd (advance_iov (Z.to_nat n) iov) (u64 (remaining - n)) in
          (r, Stream fd (take (Z.to_nat n) (concat iov)) :: acts)
    end
  else (Some true, []).

Definition sendTCPInterleaved (results : list Z) (data : bytes) (s : RTPSender)
    : option bool * list io :=
  if 65535 <? Z.of_nat (length data) then (Some false, [])
  else sendmsg_loop results (tcp_fd_ s) [frame_header (rtp_channel_ s) data; data]
         (4 + Z.of_nat (length data)).

(** [send] *)
Definition send (sent : Z) (results : list Z) (rtp_packet : bytes) (s : RTPSender)
    : option bool * list io :=
  if negb (ready_ s) then (Some false, [])
  else if decide (mode_ s = UDP) then
    let '(b, acts) := sendUDP sent rtp_packet s in (Some b, acts)
  else sendTCPInterleaved results rtp_packet s.

(** ** Interleaved framing on the stream *)

(** The octets put on the stream [fd]. *)
Fixpoint stream_data (fd : Z) (acts : list io) : bytes :=
  match acts with
  | [] => []
  | Stream f d :: acts => (if f =? fd then d else []) ++ stream_data fd acts
  | _ :: acts => stream_data fd acts
  end.

(** [sendmsg] never reports more octets than it was given. *)
Fixpoint within (results : list Z) (remaining : Z) : Prop :=
  match results with
  | [] => True
  | n :: rest => n <= remaining /\ within rest (remaining - Z.max n 0)
  end.

Lemma concat_advance_iov n iov : concat (advance_iov n iov) = drop n (concat iov).
Proof.
  revert n. induction iov as [|v rest IH]; intros n; [by destruct n|].
  cbn [advance_iov concat]. destruct (Nat.eqb_spec n 0) as [->|]; [done|].
  destruct (Nat.leb_spec (length v) n).
  - rewrite IH, drop_app_ge by lia. done.
  - cbn [concat]. by rewrite drop_app_le by lia.
Qed.

(** The loop invariant of [sendmsg_loop]: what is on the stream and what is left in the
    vector make up the whole; with [true] nothing is left. *)
Lemma sendmsg_loop_spec fd results : forall iov remaining,
  remaining = Z.of_nat (length (concat iov)) -> remaining < 2 ^ 64 ->
  within results remaining ->
  let '(r, acts) := sendmsg_loop results fd iov remaining in
  exists rest, concat iov = stream_data fd acts ++ rest /\ (r = Some true <-> rest = []).
Proof.
  induction results as [|n results IH]; intros iov remaining Hr Hlt Hw; cbn [sendmsg_loop].
  - destruct (Z.ltb_spec 0 remaining).
    + exists (concat iov). split; [done|]. split; [done|]. intros E.
      rewrite E in Hr. simpl in Hr. lia.
    + exists []. rewrite app_nil_r. split; [|done]. apply nil_length_inv. lia.
  - destruct (Z.ltb_spec 0 remaining).
    2: { exists []. rewrite app_nil_r. split; [|done]. apply nil_length_inv. lia. }
    destruct (Z.leb_spec n 0).
    + exists (concat iov). split; [done|]. split; [done|]. intros E.
      rewrite E in Hr. simpl in Hr. lia.
    + destruct Hw as [Hn Hw]. rewrite Z.max_l in Hw by lia. rewrite u64_small by lia.
      specialize (IH (advance_iov (Z.to_nat n) iov) (remaining - n)).
      destruct (sendmsg_loop results fd _ _) as [r acts].
      destruct IH as (rest & Hc & Hiff); [rewrite concat_advance_iov; len_lia|lia|done|].
      exists rest. split; [|done]. cbn [stream_data]. rewrite Z.eqb_refl, <- app_assoc, <- Hc.
      by rewrite concat_advance_iov, take_drop.
Qed.

(** Positive results that add up to the size end the loop with [true]. *)
Lemma sendmsg_loop_done fd results : forall iov remaining,
  Forall (fun n => 0 < n) results -> 0 <= remaining < 2 ^ 64 -> within results remaining ->
  remaining <= foldr Z.add 0 results ->
  fst (sendmsg_loop results fd iov remaining) = Some true.
Proof.
  induction results as [|n results IH]; intros iov remaining Hp Hr Hw Hs; cbn [sendmsg_loop].
  - simpl in Hs. destruct (Z.ltb_spec 0 remaining); [lia|done].
  - apply Forall_cons in Hp as [Hn Hp]. destruct Hw as [Hle Hw].
    rewrite Z.max_l in Hw by lia. cbn [foldr] in Hs.
    destruct (Z.ltb_spec 0 remaining); [|done]. destruct (Z.leb_spec n 0); [lia|].
    rewrite u64_small by lia.
    specialize (IH (advance_iov (Z.to_nat n) iov) (remaining - n) Hp).
    destruct (sendmsg_loop results fd _ _). apply IH; [lia|done|lia].
Qed.

(** C33: On the interleaved connection a packet of at most 65535 octets is written as its
    frame: whatever partial writes [sendmsg] makes, the octets on the stream are a prefix of
    [$], channel, 16-bit length, packet; [send] answers [true] exactly when the prefix is the
    whole frame, and it does so when the writes are positive and add up to its size.  A larger
    packet is refused with nothing written. *)
Theorem interleaved_frame_on_stream results sent data s :
  mode_ s = TCP -> ready_ s = true -> within results (4 + Z.of_nat (length data)) ->
  let '(r, acts) := send sent results data s in
  if 65535 <? Z.of_nat (length data) then r = Some false /\ acts = []
  else exists rest,
    frame_header (rtp_channel_ s) data ++ data = stream_data (tcp_fd_ s) acts ++ rest
    /\ (r = Some true <-> rest = [])
    /\ (Forall (fun n => 0 < n) results ->
        foldr Z.add 0 results = 4 + Z.of_nat (length data) -> r = Some true).
Proof.
  intros Hm Hr Hw. unfold send, sendTCPInterleaved. rewrite Hr, decide_False by congruence.
  cbn [negb]. destruct (Z.ltb_spec 65535 (Z.of_nat (length data))); [done|].
  pose proof (sendmsg_loop_spec (tcp_fd_ s) results
    [frame_header (rtp_channel_ s) data; data] (4 + Z.of_nat (length data))) as H1.
  pose proof (sendmsg_loop_done (tcp_fd_ s) results
    [frame_header (rtp_channel_ s) data; data] (4 + Z.of_nat (length data))) as H2.
  destruct (sendmsg_loop _ _ _ _) as [r acts].
  destruct H1 as (rest & Hc & Hiff); [simpl; len_lia|lia|done|].
  exists rest. rewrite <- Hc. cbn [concat]. rewrite app_nil_r. split; [done|]. split; [done|].
  intros Hp Hs. apply H2; [done|lia|done|lia].
Qed.

Lemma interleaved_frame_on_stream_witness :
  let s := setupTCP 7 2 RTPSender_default in
  send 0 [3; 4] [128; 97; 5] s
    = (Some true, [Stream 7 [36; 2; 0]; Stream 7 [3; 128; 97; 5]])
  /\ exists rest, frame_header 2 [128; 97; 5] ++ [128; 97; 5]
       = stream_data 7 (snd (send 0 [3; 4] [128; 97; 5] s)) ++ rest /\ rest = [].
Proof.
  split; [reflexivity|].
  destruct (interleaved_frame_on_stream [3; 4] 0 [128; 97; 5] (setupTCP 7 2 RTPSender_default)
    eq_refl eq_refl) as (rest & H & [_ Hd] & Hs); [simpl; lia|].
  exists rest. split; [exact H|].
  destruct rest; [reflexivity|]. exfalso.
  apply (f_equal (@length Z)) in H. discriminate H.
Defined.

(** ** Sockets *)

Definition opened (acts : list io) : list Z :=
  omap (fun a => match a with OpenSocket fd => Some fd | _ => None end) acts.
Definition closed (acts : list io) : list Z :=
  omap (fun a => match a with CloseSocket fd => Some fd | _ => None end) acts.

(** The socket the sender holds. *)
Definition held (s : RTPSender) : list Z := if 0 <=? udp_fd_ s then [udp_fd_ s] else [].

(** The life of a sender in a session: made, set up once, closed by its destructor. *)
Definition setup_then_close (os : socket_calls) (port : Z) : list io * RTPSender :=
  let '(_, acts, s) := setupUDP os port 0 RTPSender_default in
  let '(acts', s') := close s in (acts ++ acts', s').

Lemma setupUDP_sockets os port :
  let '(ok, acts, s) := setupUDP os port 0 RTPSender_default in
  opened acts = closed acts ++ held s
  /\ ok = ready_ s
  /\ (ok = true <-> mode_ s = UDP /\ held s = [socket_result os])
  /\ (let '(acts', s') := setup_then_close os port in
      opened acts' = closed acts' /\ held s' = []).
Proof.
  unfold setup_then_close, setupUDP, close, held.
  destruct (Z.ltb_spec (socket_result os) 0) as [Hs|Hs].
  - cbn. change (bool_decide (NONE = UDP)) with false. simpl_update. cbn.
    rewrite (proj2 (Z.leb_gt 0 _)) by lia. split_and!; try done. split; [done|by intros []].
  - destruct (inet_pton_result os =? 1); cbn; [|by split_and!; try split; intros; destruct_and?].
    destruct (connect_result os <? 0); cbn; [by split_and!; try split; intros; destruct_and?|].
    change (bool_decide (UDP = UDP)) with true. simpl_update. cbn.
    rewrite (proj2 (Z.leb_le 0 _)) by lia. by split_and!.
Qed.

(** A freshly made sender that is set up for UDP and then destroyed closes exactly the
    socket it opened, on every failure path of the set-up too, and it is ready with a held
    socket exactly when the set-up answered [true]. *)
Theorem setupUDP_no_leak os port :
  let '(ok, acts, s) := setupUDP os port 0 RTPSender_default in
  opened acts = closed acts ++ held s
  /\ ok = ready_ s
  /\ (ok = true <-> mode_ s = UDP /\ held s = [socket_result os])
  /\ (let '(acts', s') := setup_then_close os port in
      opened acts' = closed acts' /\ held s' = []).
Proof. apply setupUDP_sockets. Qed.

(** What a sender that the session made holds is what its destructor closes. *)
Definition sender_ok (s : RTPSender) : Prop :=
  mode_ s <> TCP /\ closed (fst (close s)) = held s /\ opened (fst (close s)) = [].

Lemma setupUDP_sender_ok os port :
  sender_ok (snd (setupUDP os port 0 RTPSender_default)).
Proof.
  unfold setupUDP, sender_ok, close, held.
  destruct (Z.ltb_spec (socket_result os) 0) as [Hs|Hs].
  - cbn. rewrite (proj2 (Z.leb_gt 0 _)) by lia. by split_and!.
  - destruct (inet_pton_result os =? 1); cbn; [|by split_and!].
    destruct (connect_result os <? 0); cbn; [by split_and!|].
    rewrite (proj2 (Z.leb_le 0 _)) by lia. by split_and!.
Qed.

Lemma sendmsg_loop_no_sockets fd results : forall iov remaining,
  opened (snd (sendmsg_loop results fd iov remaining)) = []
  /\ closed (snd (sendmsg_loop results fd iov remaining)) = [].
Proof.
  induction results as [|n results IH]; intros iov remaining; cbn [sendmsg_loop];
    destruct (0 <? remaining); try done.
  destruct (n <=? 0); [done|].
  specialize (IH (advance_iov (Z.to_nat n) iov) (u64 (remaining - n))).
  by destruct (sendmsg_loop results fd _ _).
Qed.

Lemma send_no_sockets sent results pkt s :
  opened (snd (send sent results pkt s)) = [] /\ closed (snd (send sent results pkt s)) = [].
Proof.
  unfold send. destruct (negb (ready_ s)); [done|]. case_decide.
  - unfold sendUDP. by destruct (sent <? 0).
  - unfold sendTCPInterleaved. destruct (65535 <? _); [done|]. apply sendmsg_loop_no_sockets.
Qed.
