(* ===== verification/IRTPSender.v ===== *)
(** * [IRTPSender] (include/rtspserver/rtp/IRTPSender.hpp)

    The interface through which a session holds its two senders, with the laws that its comment
    states: a sender is configured once, then sends; and [RTPSender] as its implementation.
    Proved against the interface: the life of a sender that is configured once opens and closes
    the same sockets, and nothing is sent unless the configuration succeeded. *)

From S2P Require Import Prelude RTPSender.

(** The pure virtual member functions; what the operating system answers is an argument, as in
    [RTPSender].  [default_sender] is the constructor. *)
Class IRTPSender (S : Type) := {
  default_sender : S;
  i_setupUDP : socket_calls -> Z -> Z -> S -> bool * list io * S;
  i_setupTCP : Z -> Z -> Z -> S -> S;
  i_send : Z -> list Z -> bytes -> S -> option bool * list io * S;
  isReady : S -> bool;
  i_getLocalPort : socket_calls -> S -> Z;
  i_close : S -> list io * S
}.

(** What a caller that configures the transport once may rely on. *)
Class IRTPSenderLaws (S : Type) `{IRTPSender S} := {
  sender_wf : S -> Prop;
  sockets : S -> list Z;
  default_law : sender_wf default_sender /\ sockets default_sender = [] /\ isReady default_sender = false;
  setupUDP_law os port local_port s :
    sender_wf s -> sockets s = [] ->
    let '(ok, acts, s') := i_setupUDP os port local_port s in
    sender_wf s' /\ isReady s' = isReady s || ok /\ opened acts = closed acts ++ sockets s';
  setupTCP_law fd rtp rtcp s :
    sender_wf s -> sockets s = [] ->
    sender_wf (i_setupTCP fd rtp rtcp s) /\ isReady (i_setupTCP fd rtp rtcp s) = true
    /\ sockets (i_setupTCP fd rtp rtcp s) = [];
  send_law sent results pkt s :
    let '(r, acts, s') := i_send sent results pkt s in
    s' = s /\ opened acts = [] /\ closed acts = []
    /\ (isReady s = false -> r = Some false /\ acts = []);
  close_law s :
    sender_wf s ->
    let '(acts, s') := i_close s in
    opened acts = [] /\ closed acts = sockets s /\ sockets s' = [] /\ isReady s' = false
}.

(** ** A client *)

Section client.
Context {S : Type} `{IRTPSenderLaws S}.

Inductive configuration :=
| OverUDP (os : socket_calls) (port local_port : Z)
| OverTCP (fd rtp rtcp : Z).

Definition configure (c : configuration) (s : S) : bool * list io * S :=
  match c with
  | OverUDP os port local_port => i_setupUDP os port local_port s
  | OverTCP fd rtp rtcp => (true, [], i_setupTCP fd rtp rtcp s)
  end.

(** Packets with what the system calls of each answer. *)
Fixpoint send_all (pkts : list (Z * list Z * bytes)) (s : S) : list (option bool) * list io * S :=
  match pkts with
  | [] => ([], [], s)
  | (sent, results, pkt) :: rest =>
      let '(r, acts, s) := i_send sent results pkt s in
      let '(rs, acts', s) := send_all rest s in (r :: rs, acts ++ acts', s)
  end.

(** Made, configured, used, destroyed. *)
Definition sender_life (c : configuration) (pkts : list (Z * list Z * bytes))
    : bool * list (option bool) * list io :=
  let '(ok, acts, s) := configure c default_sender in
  let '(rs, acts', s) := send_all pkts s in
  let '(acts'', _) := i_close s in (ok, rs, acts ++ acts' ++ acts'').

Lemma configure_spec c :
  let '(ok, acts, s) := configure c default_sender in
  sender_wf s /\ isReady s = ok /\ opened acts = closed acts ++ sockets s.
Proof.
  destruct default_law as (Hw & Hs & Hr). destruct c as [os port local_port|fd rtp rtcp]; cbn [configure].
  - pose proof (setupUDP_law os port local_port default_sender Hw Hs) as P.
    destruct (i_setupUDP _ _ _ _) as [[ok acts] s]. by rewrite Hr in P.
  - destruct (setupTCP_law fd rtp rtcp default_sender Hw Hs) as (Hw' & Hr' & ->). done.
Qed.

Lemma send_all_spec pkts s :
  let '(rs, acts, s') := send_all pkts s in
  s' = s /\ opened acts = [] /\ closed acts = []
  /\ (isReady s = false -> acts = [] /\ Forall (fun r => r = Some false) rs).
Proof.
  induction pkts as [|[[sent results] pkt] pkts IH]; cbn [send_all]; [by split_and!|].
  pose proof (send_law sent results pkt s) as P. destruct (i_send sent results pkt s) as [[r acts] s1].
  destruct P as (-> & Ho & Hc & Hf). destruct (send_all pkts s) as [[rs acts'] s2].
  destruct IH as (-> & Ho' & Hc' & Hf'). unfold opened, closed in *. rewrite !omap_app, Ho, Hc, Ho', Hc'.
  split_and!; try done. intros Hr. destruct (Hf Hr) as [-> ->], (Hf' Hr) as [-> ?]. split; [done|by constructor].
Qed.
End client.

(** A sender that is configured once closes exactly the sockets it opened, whatever the system
    calls answer; when the configuration fails every [send] answers [false] and what is done is
    the failed set-up and the close alone. *)
Theorem configured_once {S} `{IRTPSenderLaws S} (c : configuration) pkts :
  let '(ok, rs, acts) := sender_life (S := S) c pkts in
  opened acts = closed acts
  /\ (ok = false -> Forall (fun r => r = Some false) rs /\ acts = (sender_life (S := S) c []).2).
Proof.
  unfold sender_life. pose proof (configure_spec (S := S) c) as P.
  destruct (configure c default_sender) as [[ok acts] s]. destruct P as (Hw & Hr & Ho).
  pose proof (send_all_spec pkts s) as Q. destruct (send_all pkts s) as [[rs acts'] s'].
  destruct Q as (-> & Ho' & Hc' & Hf). pose proof (close_law s Hw) as R. cbn [send_all].
  destruct (i_close s) as [acts'' s'']. destruct R as (Ho'' & Hc'' & _ & _). split.
  - unfold opened, closed in *. by rewrite !omap_app, Ho, Ho', Hc', Ho'', Hc'', app_nil_r.
  - intros ->. by destruct (Hf Hr) as [-> ?].
Qed.

(** ** The implementation *)

#[export] Instance rtp_sender : IRTPSender RTPSender := {|
  default_sender := RTPSender_default;
  i_setupUDP := setupUDP;
  i_setupTCP fd rtp rtcp := setupTCP fd rtp;
  i_send sent results pkt s := (send sent results pkt s, s);
  isReady := ready_;
  i_getLocalPort := getLocalPort;
  i_close := close
|}.

(** A socket is held in the mode that [close] closes. *)
Definition rtp_sender_wf (s : RTPSender) : Prop := 0 <= udp_fd_ s -> mode_ s = UDP.

Lemma held_nil s : held s = [] <-> udp_fd_ s < 0.
Proof. unfold held. destruct (Z.leb_spec 0 (udp_fd_ s)); split; try done; lia. Qed.

#[export] Program Instance rtp_sender_laws : IRTPSenderLaws RTPSender := {|
  sender_wf := rtp_sender_wf;
  sockets := held
|}.
Next Obligation. split; [|done]. unfold rtp_sender_wf. cbn. lia. Qed.
Next Obligation.
  intros os port local_port s Hw Hs. cbn. unfold setupUDP, rtp_sender_wf, held in *.
  destruct (Z.ltb_spec (socket_result os) 0); [|destruct (inet_pton_result os =? 1); cbn [negb];
    [destruct (connect_result os <? 0)|]]; cbn; rewrite ?orb_false_r, ?orb_true_r;
    try (rewrite (proj2 (Z.leb_gt 0 _)) by lia); try (rewrite (proj2 (Z.leb_le 0 _)) by lia);
    split_and!; try done; lia.
Qed.
Next Obligation.
  intros fd rtp rtcp s Hw Hs%held_nil. cbn. unfold rtp_sender_wf. cbn.
  split; [lia|]. split; [done|]. by apply held_nil.
Qed.
Next Obligation.
  intros sent results pkt s. cbn. pose proof (send_no_sockets sent results pkt s) as [Ho Hc].
  destruct (send sent results pkt s) as [r acts] eqn:E. split_and!; try done.
  intros Hr. unfold send in E. rewrite Hr in E. by injection E as <- <-.
Qed.
Next Obligation.
  intros s Hw. cbn. unfold close, held, rtp_sender_wf in *.
  destruct (Z.leb_spec 0 (udp_fd_ s)) as [H|H]; rewrite ?andb_true_r, ?andb_false_r.
  - rewrite bool_decide_eq_true_2 by auto. by split_and!.
  - cbn. rewrite (proj2 (Z.leb_gt 0 _)) by lia. by split_and!.
Qed.

(** The contract is for one configuration: a second one loses the socket of the first. *)
Example configured_twice :
  let os fd := {| socket_result := fd; bind_result := 0; inet_pton_result := 1; connect_result := 0;
                  getsockname_port := None |} in
  let '(_, acts1, s) := setupUDP (os 9) 5000 0 RTPSender_default in
  let '(_, acts2, s) := setupUDP (os 10) 5002 0 s in
  let '(acts3, _) := close s in
  opened (acts1 ++ acts2 ++ acts3) = [9; 10] /\ closed (acts1 ++ acts2 ++ acts3) = [10].
Proof. by vm_compute. Qed.

(** What a track of a session does with it. *)
Example configured_once_udp :
  let '(ok, rs, acts) := sender_life (S := RTPSender)
    (OverUDP {| socket_result := 9; bind_result := 0; inet_pton_result := 1; connect_result := 0;
                getsockname_port := None |} 5000 0) [(3, [], [1; 2; 3]); (-1, [], [4])] in
  ok = true /\ rs = [Some true; Some false]
  /\ acts = [OpenSocket 9; Datagram 9 [1; 2; 3]; CloseSocket 9].
Proof. by vm_compute. Qed.
