(* ===== verification/IMediaSource.v ===== *)
(** * [IMediaSource] (include/rtspserver/media/IMediaSource.hpp)

    The interface between the session layer and a media source.  The operations are those
    of the abstract class, in state-passing style; the laws are what the session relies on.
    The session is developed against this interface only; [MediaSource.v] gives the
    implementation that the program uses and discharges the laws. *)

From S2P Require Import Prelude Double SDPBuilder.

(** [VideoPacket]: the NAL views together with the buffer [pkt_data] they point into, so
    the model of a packet holds the octets of its NAL units. *)
Record VideoPacket := mkVideoPacket {
  nals : list bytes;
  rtp_timestamp : Z;
  is_key_frame : bool;
  vp_duration : Z
}.

Record AudioPacket := mkAudioPacket {
  data : bytes;
  ap_rtp_timestamp : Z
}.

(** The pure virtual member functions.  [make] is the default constructor; [audio_backlog] is
    not in the code: the number of audio packets that [readAudioPacket] can still deliver
    before it answers [false], which bounds the loops over it. *)
Class IMediaSource (M : Type) := {
  make : M;
  open : text -> M -> bool * M;
  isOpen : M -> bool;
  close : M -> M;
  streamInfo : M -> H264StreamInfo;
  audioInfo : M -> AudioStreamInfo;
  duration : M -> double;
  readPacket : M -> option VideoPacket * M;
  readAudioPacket : M -> option AudioPacket * M;
  audio_backlog : M -> nat;
  seek : Z -> M -> M;
  seekToSeconds : double -> M -> double * M;
  rtpOffset : M -> Z;
  audioRTPOffset : M -> Z;
  adjustRTPOffset : Z -> M -> M;
  peekNextVideoRTPTimestamp : M -> Z * M
}.

(** A well-formed source and what its operations then promise: timestamps are 32-bit and
    the operations keep the source well-formed. *)
Class MediaSourceLaws (M : Type) `{IMediaSource M} := {
  source_wf : M -> Prop;
  make_wf : source_wf make;
  open_wf path m : source_wf m -> source_wf (snd (open path m));
  readPacket_wf m : source_wf m -> source_wf (snd (readPacket m));
  readPacket_timestamp m vp m' :
    source_wf m -> readPacket m = (Some vp, m') -> 0 <= rtp_timestamp vp < 2 ^ 32;
  readAudioPacket_wf m : source_wf m -> source_wf (snd (readAudioPacket m));
  readAudioPacket_timestamp m ap m' :
    source_wf m -> readAudioPacket m = (Some ap, m') -> 0 <= ap_rtp_timestamp ap < 2 ^ 32;
  readAudioPacket_backlog m ap m' :
    source_wf m -> readAudioPacket m = (Some ap, m') -> (audio_backlog m' < audio_backlog m)%nat;
  seek_wf off m : source_wf m -> source_wf (seek off m);
  seekToSeconds_wf secs m : source_wf m -> source_wf (snd (seekToSeconds secs m));
  adjustRTPOffset_wf delta m : source_wf m -> source_wf (adjustRTPOffset delta m);
  peek_wf m : source_wf m -> source_wf (snd (peekNextVideoRTPTimestamp m));
  rtpOffset_range m : source_wf m -> 0 <= rtpOffset m < 2 ^ 32;
  audioRTPOffset_range m : source_wf m -> 0 <= audioRTPOffset m < 2 ^ 32;
  peek_range m : source_wf m -> 0 <= fst (peekNextVideoRTPTimestamp m) < 2 ^ 32
}.

(** ** A source in memory

    The interface is meant to admit other implementations than the FFmpeg one ("mock or
    file-list implementations"): this one plays two lists of packets once. *)

Module ListSource.

Record source := {
  video : list VideoPacket;
  audio : list AudioPacket;
  info : H264StreamInfo;
  ainfo : AudioStreamInfo
}.

Definition stamp (vs : list VideoPacket) : Z :=
  match vs with [] => 0 | vp :: _ => u32 (rtp_timestamp vp) end.

#[export] Instance operations : IMediaSource source := {|
  make := {| video := []; audio := []; info := H264StreamInfo_default;
             ainfo := AudioStreamInfo_default |};
  open _ m := (true, m);
  isOpen _ := true;
  close m := m;
  streamInfo m := info m;
  audioInfo m := ainfo m;
  duration _ := dzero;
  readPacket m :=
    match video m with
    | [] => (None, m)
    | vp :: vs => (Some vp, {| video := vs; audio := audio m; info := info m; ainfo := ainfo m |})
    end;
  readAudioPacket m :=
    match audio m with
    | [] => (None, m)
    | ap :: aps => (Some ap, {| video := video m; audio := aps; info := info m; ainfo := ainfo m |})
    end;
  audio_backlog m := length (audio m);
  seek _ m := m;
  seekToSeconds secs m := (secs, m);
  rtpOffset _ := 0;
  audioRTPOffset _ := 0;
  adjustRTPOffset _ m := m;
  peekNextVideoRTPTimestamp m := (stamp (video m), m)
|}.

#[export, program] Instance laws : MediaSourceLaws source := {|
  source_wf m :=
    Forall (fun vp => 0 <= rtp_timestamp vp < 2 ^ 32) (video m)
    /\ Forall (fun ap => 0 <= ap_rtp_timestamp ap < 2 ^ 32) (audio m)
|}.
Next Obligation. done. Qed.
Next Obligation. done. Qed.
Next Obligation. intros m [Hv Ha]. cbn. destruct (video m) eqn:E; cbn; [by rewrite E|]. by inversion Hv. Qed.
Next Obligation.
  intros m vp m' [Hv Ha]. cbn. destruct (video m) eqn:E; [done|]. intros [= <- _].
  by inversion Hv.
Qed.
Next Obligation. intros m [Hv Ha]. cbn. destruct (audio m) eqn:E; cbn; [by rewrite E|]. by inversion Ha. Qed.
Next Obligation.
  intros m ap m' [Hv Ha]. cbn. destruct (audio m) eqn:E; [done|]. intros [= <- _].
  by inversion Ha.
Qed.
Next Obligation. intros m ap m' _. cbn. destruct (audio m) eqn:E; [done|]. intros [= _ <-]. cbn. lia. Qed.
Next Obligation. done. Qed.
Next Obligation. done. Qed.
Next Obligation. done. Qed.
Next Obligation. done. Qed.
Next Obligation. done. Qed.
Next Obligation. done. Qed.
Next Obligation. intros m _. cbn. unfold stamp. destruct (video m); [lia|]. apply u32_range. Qed.

End ListSource.
