(* ===== verification/MediaSource.v ===== *)
(** * [MediaSource] (src/media/MediaSource.cpp, include/rtspserver/media/MediaSource.hpp,
    include/rtspserver/media/FFmpegHandle.hpp)

    The media source of the program: an FFmpeg demuxer, a bitstream filter for files that do
    not carry start codes, and the mapping of stream times to RTP timestamps.  FFmpeg is a
    parameter: the type class [FFmpeg] has one operation per library call that the source
    makes, on the types of its two contexts. *)

From S2P Require Import Prelude StdString Double SDPBuilder AnnexBParser IMediaSource.

(** ** FFmpeg *)

Record AVRational := mkQ { num : Z; den : Z }.

Inductive AVMediaType := AVMEDIA_TYPE_VIDEO | AVMEDIA_TYPE_AUDIO.

(** What the source reads of an [AVStream] and its [codecpar]. *)
Record AVStream := mkAVStream {
  codec_is_h264 : bool;
  time_base : AVRational;
  avg_frame_rate : AVRational;
  cp_width : Z;
  cp_height : Z;
  extradata : bytes;
  cp_sample_rate : Z;
  nb_channels : Z
}.

(** What it reads of an [AVPacket]. *)
Record AVPacket := mkAVPacket {
  stream_index : Z;
  flag_key : bool;
  pts : Z;
  dts : Z;
  pkt_duration : Z;
  pkt_data : bytes
}.

(** The results of [av_bsf_receive_packet]. *)
Inductive bsf_result := BsfPacket (pkt : AVPacket) | BsfEof | BsfAgain | BsfError.

Definition AV_NOPTS_VALUE : Z := - 2 ^ 63.
Definition AV_TIME_BASE : Z := 1000000.

(** The calls, in state-passing style; a negative return value is [None] or [false].
    [frames_left] is not in the library: the number of packets that [av_read_frame] can still
    deliver, which bounds the loop over it. *)
Class FFmpeg (Fmt Bsf : Type) := {
  avformat_open_input : text -> option Fmt;
  avformat_find_stream_info : Fmt -> Fmt;
  av_find_best_stream : AVMediaType -> Fmt -> Z;
  streams : Fmt -> Z -> AVStream;
  fmt_duration : Fmt -> Z;
  av_read_frame : Fmt -> option AVPacket * Fmt;
  frames_left : Fmt -> nat;
  av_seek_frame : Z -> Z -> Fmt -> bool * Fmt;
  av_bsf_alloc : text -> option Bsf;
  av_bsf_init : AVStream -> Bsf -> option Bsf;
  av_bsf_send_packet : option AVPacket -> Bsf -> bool * Bsf;
  av_bsf_receive_packet : Bsf -> bsf_result * Bsf;
  av_bsf_flush : Bsf -> Bsf;
  av_packet_alloc : nat -> bool;
  av_packet_clone : AVPacket -> option AVPacket;
  av_rescale_q : Z -> AVRational -> AVRational -> Z
}.

(** Documented behaviour the source relies on: a demuxer over a file delivers finitely many
    packets, and a seek may rewind it. *)
Class FFmpegLaws (Fmt Bsf : Type) `{FFmpeg Fmt Bsf} := {
  read_frame_decreases f pkt f' :
    av_read_frame f = (Some pkt, f') -> (frames_left f' < frames_left f)%nat
}.

(** [av_q2d] *)
Definition av_q2d (q : AVRational) : double := ddiv (d_of_Z (num q)) (d_of_Z (den q)).

(** [static_cast<float>] *)
Definition to_float (d : double) : spec_float :=
  match d with S754_finite s m e => binary_round 24 128 s m e | _ => d end.

(** [int64_t] arithmetic; the source leaves overflow undefined, the model wraps around. *)
Definition i64 (z : Z) : Z := (z + 2 ^ 63) mod 2 ^ 64 - 2 ^ 63.

(** ** State *)

(** A [PacketPtr] is empty between the calls, unless a clone failed: only whether it was
    allocated counts. *)
Record MediaSource (Fmt Bsf : Type) := mkMediaSource {
  fmt_ctx_ : option Fmt;
  bsf_ctx_ : option Bsf;
  pkt_ : bool;
  video_idx_ : Z;
  time_base_ : AVRational;
  stream_info_ : H264StreamInfo;
  audio_info_ : AudioStreamInfo;
  audio_idx_ : Z;
  audio_time_base_ : AVRational;
  audio_first_pts_ : Z;
  audio_rtp_offset_ : Z;
  audio_pkt_ : bool;
  audio_queue_ : list AudioPacket;
  rtp_offset_ : Z;
  first_pts_ : Z;
  bsf_at_eof_ : bool;
  prefetch_vp_ : option VideoPacket
}.
Arguments mkMediaSource {Fmt Bsf}. Arguments fmt_ctx_ {Fmt Bsf}. Arguments bsf_ctx_ {Fmt Bsf}.
Arguments pkt_ {Fmt Bsf}. Arguments video_idx_ {Fmt Bsf}. Arguments time_base_ {Fmt Bsf}.
Arguments stream_info_ {Fmt Bsf}. Arguments audio_info_ {Fmt Bsf}. Arguments audio_idx_ {Fmt Bsf}.
Arguments audio_time_base_ {Fmt Bsf}. Arguments audio_first_pts_ {Fmt Bsf}.
Arguments audio_rtp_offset_ {Fmt Bsf}. Arguments audio_pkt_ {Fmt Bsf}.
Arguments audio_queue_ {Fmt Bsf}. Arguments rtp_offset_ {Fmt Bsf}. Arguments first_pts_ {Fmt Bsf}.
Arguments bsf_at_eof_ {Fmt Bsf}. Arguments prefetch_vp_ {Fmt Bsf}.

#[global] Instance MediaSource_updatable Fmt Bsf : Updatable (MediaSource Fmt Bsf) := fun m =>
  mkMediaSource (fmt_ctx_ m) (bsf_ctx_ m) (pkt_ m) (video_idx_ m) (time_base_ m) (stream_info_ m)
    (audio_info_ m) (audio_idx_ m) (audio_time_base_ m) (audio_first_pts_ m)
    (audio_rtp_offset_ m) (audio_pkt_ m) (audio_queue_ m) (rtp_offset_ m) (first_pts_ m)
    (bsf_at_eof_ m) (prefetch_vp_ m).

(** The default member initialisers. *)
Definition MediaSource_default {Fmt Bsf} : MediaSource Fmt Bsf := {|
  fmt_ctx_ := None; bsf_ctx_ := None; pkt_ := false; video_idx_ := -1;
  time_base_ := mkQ 1 90000; stream_info_ := H264StreamInfo_default;
  audio_info_ := AudioStreamInfo_default; audio_idx_ := -1; audio_time_base_ := mkQ 1 44100;
  audio_first_pts_ := AV_NOPTS_VALUE; audio_rtp_offset_ := 0; audio_pkt_ := false;
  audio_queue_ := []; rtp_offset_ := 0; first_pts_ := AV_NOPTS_VALUE; bsf_at_eof_ := false;
  prefetch_vp_ := None
|}.

(** ** Parameter sets *)

(** [sps.assign(data + offset, data + offset + len)]; [None]: a copy from outside of the buffer. *)
Definition assign_from (data : bytes) (offset len : nat) : option bytes :=
  if (offset + len <=? length data)%nat then Some (take len (drop offset data)) else None.

(** Turn [i] of the loops over the parameter sets: a 16-bit length and the octets, of which only
    the first turn keeps a copy.  [inl] is the offset where the loop breaks, [inr] the set kept and
    the offset behind this one.  [None]: a read outside of the buffer. *)
Definition avcc_set (i : nat) (data : bytes) (offset : nat) (kept : bytes)
    : option (nat + bytes * nat) :=
  let size := length data in
  if (size <? offset + 2)%nat then Some (inl offset)
  else
    match data !! offset, data !! (offset + 1)%nat with
    | Some hi, Some lo =>
        let len := Z.to_nat (Z.lor (Z.shiftl hi 8) lo) in
        let offset := (offset + 2)%nat in
        if (size <? offset + len)%nat then Some (inl offset)
        else
          match (if (i =? 0)%nat then assign_from data offset len else Some kept) with
          | None => None
          | Some kept => Some (inr (kept, (offset + len)%nat))
          end
    | _, _ => None
    end.

(** [n] turns from number [i]. *)
Fixpoint avcc_sets (n i : nat) (data : bytes) (offset : nat) (kept : bytes)
    : option (bytes * nat) :=
  match n with
  | O => Some (kept, offset)
  | S n' =>
      match avcc_set i data offset kept with
      | None => None
      | Some (inl offset) => Some (kept, offset)
      | Some (inr (kept, offset)) => avcc_sets n' (S i) data offset kept
      end
  end.

(** The first NAL units of types 7 and 8 of an Annex-B stream, unless there are some. *)
Definition keep_parameter_set (info : H264StreamInfo) (nal : bytes) : H264StreamInfo :=
  match nal with
  | [] => info
  | b :: _ =>
      let type := Z.land b 31 in
      if (type =? 7) && bool_decide (sps info = []) then info <| sps := nal |>
      else if (type =? 8) && bool_decide (pps info = []) then info <| pps := nal |>
      else info
  end.

Definition has_parameter_sets (info : H264StreamInfo) : bool :=
  negb (bool_decide (sps info = [])) && negb (bool_decide (pps info = [])).

(** [parseExtradata]; [None]: a read outside of the buffer. *)
Definition parseExtradata (extra : bytes) (info : H264StreamInfo) : option (bool * H264StreamInfo) :=
  let size := length extra in
  if (size <? 4)%nat then Some (false, info)
  else
    match extra !! 0%nat with
    | None => None
    | Some 1 =>
        if (size <? 7)%nat then Some (false, info)
        else
          match extra !! 5%nat with
          | None => None
          | Some b5 =>
              match avcc_sets (Z.to_nat (Z.land b5 31)) 0 extra 6 (sps info) with
              | None => None
              | Some (s, offset) =>
                  let info := info <| sps := s |> in
                  if (size <=? offset)%nat then Some (false, info)
                  else
                    match extra !! offset with
                    | None => None
                    | Some num_pps =>
                        match avcc_sets (Z.to_nat num_pps) 0 extra (offset + 1) (pps info) with
                        | None => None
                        | Some (p, _) =>
                            let info := info <| pps := p |> in
                            Some (has_parameter_sets info, info)
                        end
                    end
              end
          end
    | Some _ =>
        let info := fold_left keep_parameter_set (AnnexBParser.split extra) info in
        Some (has_parameter_sets info, info)
    end.

(** ** Operations *)

Section media_source.
Context {Fmt Bsf : Type} `{FFmpeg Fmt Bsf}.
Implicit Types m : MediaSource Fmt Bsf.

(** [close()]; [stream_info_] and [prefetch_vp_] are left alone. *)
Definition close m : MediaSource Fmt Bsf :=
  m <| audio_pkt_ := false |> <| audio_queue_ := [] |> <| pkt_ := false |>
    <| bsf_ctx_ := None |> <| fmt_ctx_ := None |> <| video_idx_ := -1 |> <| audio_idx_ := -1 |>
    <| first_pts_ := AV_NOPTS_VALUE |> <| audio_first_pts_ := AV_NOPTS_VALUE |>
    <| rtp_offset_ := 0 |> <| audio_rtp_offset_ := 0 |>
    <| audio_info_ := AudioStreamInfo_default |> <| bsf_at_eof_ := false |>.

(** Dimensions, frame rate and duration. *)
Definition describe_video (st : AVStream) (dur : Z) (info : H264StreamInfo) : H264StreamInfo :=
  let info := info <| width := cp_width st |> <| height := cp_height st |> in
  let info :=
    if negb (den (avg_frame_rate st) =? 0) && negb (num (avg_frame_rate st) =? 0)
    then info <| frame_rate := to_float (av_q2d (avg_frame_rate st)) |> else info in
  if negb (dur =? AV_NOPTS_VALUE) && (0 <? dur)
  then info <| duration_secs := ddiv (d_of_Z dur) (d_of_Z AV_TIME_BASE) |> else info.

(** The video stream; a failure to find the parameter sets is only logged. *)
Definition open_video (fmt : Fmt) (vst : AVStream) m : MediaSource Fmt Bsf :=
  let info := describe_video vst (fmt_duration fmt) (stream_info_ m) in
  let info := match parseExtradata (extradata vst) info with
              | Some (_, info) => info
              | None => info
              end in
  m <| time_base_ := time_base vst |> <| stream_info_ := info |>.

(** The bitstream filter for AVCC; [false]: an error was reported and the container is closed. *)
Definition install_filter (st : AVStream) m : bool * MediaSource Fmt Bsf :=
  let is_avcc := (4 <=? length (extradata st))%nat && (hd 0 (extradata st) =? 1) in
  if is_avcc then
    match av_bsf_alloc "h264_mp4toannexb" with
    | None => (false, m <| bsf_ctx_ := None |> <| fmt_ctx_ := None |>)
    | Some bsf =>
        let m := m <| bsf_ctx_ := Some bsf |> in
        match av_bsf_init st bsf with
        | None => (false, m <| bsf_ctx_ := None |> <| fmt_ctx_ := None |>)
        | Some bsf => (true, m <| bsf_ctx_ := Some bsf |>)
        end
    end
  else (true, m).

(** The audio stream, if there is one. *)
Definition open_audio (fmt : Fmt) m : MediaSource Fmt Bsf :=
  let idx := av_find_best_stream AVMEDIA_TYPE_AUDIO fmt in
  if 0 <=? idx then
    let ast := streams fmt idx in
    let m := m <| audio_idx_ := idx |> <| audio_time_base_ := time_base ast |> in
    let info := (audio_info_ m) <| present := true |> <| sample_rate := cp_sample_rate ast |>
                  <| channels := nb_channels ast |> in
    let info := if (2 <=? length (extradata ast))%nat then info <| asc := extradata ast |>
                else info in
    let m := m <| audio_info_ := info |> <| audio_pkt_ := av_packet_alloc 1 |> in
    if audio_pkt_ m then m
    else m <| audio_idx_ := -1 |> <| audio_info_ := AudioStreamInfo_default |>
  else m <| audio_idx_ := -1 |>.

(** The end of [open]: the packet buffer and the audio stream. *)
Definition open_packet (fmt : Fmt) m : bool * MediaSource Fmt Bsf :=
  let m := m <| pkt_ := av_packet_alloc 0 |> in
  if negb (pkt_ m) then (false, close m) else (true, open_audio fmt m).

(** ... from the video stream on. *)
Definition open_h264 (fmt : Fmt) (vst : AVStream) m : bool * MediaSource Fmt Bsf :=
  let '(ok, m) := install_filter vst m in
  if negb ok then (false, m) else open_packet fmt m.

(** ... with the container open. *)
Definition open_container (fmt : Fmt) m : bool * MediaSource Fmt Bsf :=
  let idx := av_find_best_stream AVMEDIA_TYPE_VIDEO fmt in
  let m := m <| fmt_ctx_ := Some fmt |> <| video_idx_ := idx |> in
  if idx <? 0 then (false, m <| fmt_ctx_ := None |>)
  else
    let vst := streams fmt idx in
    if negb (codec_is_h264 vst) then (false, m <| fmt_ctx_ := None |>)
    else open_h264 fmt vst (open_video fmt vst m).

(** [open(path)] *)
Definition open (path : text) m : bool * MediaSource Fmt Bsf :=
  match avformat_open_input path with
  | None => (false, close m)
  | Some raw_fmt => open_container (avformat_find_stream_info raw_fmt) (close m)
  end.

Definition isOpen m : bool := match fmt_ctx_ m with Some _ => true | None => false end.

(** [toRTPTimestamp(pts)] *)
Definition toRTPTimestamp (t : Z) m : Z :=
  u32 (u32 (av_rescale_q t (time_base_ m) (mkQ 1 90000)) + rtp_offset_ m).

(** [duration()] *)
Definition duration m : double :=
  match fmt_ctx_ m with
  | None => dzero
  | Some fmt => if fmt_duration fmt =? AV_NOPTS_VALUE then dzero
                else ddiv (d_of_Z (fmt_duration fmt)) (d_of_Z AV_TIME_BASE)
  end.

(** [pkt->pts], or [pkt->dts] when there is none. *)
Definition packet_time (pkt : AVPacket) : Z :=
  if negb (pts pkt =? AV_NOPTS_VALUE) then pts pkt else dts pkt.

(** [processPacket]; [None]: the clone failed. *)
Definition processPacket (pkt : AVPacket) m : option VideoPacket * MediaSource Fmt Bsf :=
  let t := packet_time pkt in
  let m := if first_pts_ m =? AV_NOPTS_VALUE then m <| first_pts_ := t |> else m in
  let ts := toRTPTimestamp (i64 (t - first_pts_ m)) m in
  match av_packet_clone pkt with
  | None => (None, m)
  | Some c =>
      (Some {| nals := map (view_data (pkt_data c)) (splitView (pkt_data c));
               rtp_timestamp := ts; is_key_frame := flag_key pkt;
               vp_duration := pkt_duration pkt |}, m)
  end.

(** A packet of the audio stream is queued on the way. *)
Definition queue_audio (pkt : AVPacket) m : MediaSource Fmt Bsf :=
  if (0 <=? audio_idx_ m) && (stream_index pkt =? audio_idx_ m) then
    let t := packet_time pkt in
    let m := if audio_first_pts_ m =? AV_NOPTS_VALUE then m <| audio_first_pts_ := t |> else m in
    let ts := av_rescale_q (i64 (t - audio_first_pts_ m)) (audio_time_base_ m)
                (mkQ 1 (sample_rate (audio_info_ m))) in
    m <| audio_queue_ := audio_queue_ m ++
           [{| data := pkt_data pkt; ap_rtp_timestamp := u32 (u32 ts + audio_rtp_offset_ m) |}] |>
  else m.

(** One turn of the loop of [readPacket]: it returns, or goes on. *)
Inductive turn (A S : Type) := Return (a : A) (s : S) | Continue (s : S).
Arguments Return {A S}. Arguments Continue {A S}.

(** The filter is asked first; [Continue]: it needs input. *)
Definition pull_filter m : turn (option VideoPacket) (MediaSource Fmt Bsf) :=
  match bsf_ctx_ m with
  | None => Continue m
  | Some bsf =>
      let '(r, bsf) := av_bsf_receive_packet bsf in
      let m := m <| bsf_ctx_ := Some bsf |> in
      match r with
      | BsfPacket pkt => let '(o, m) := processPacket pkt m in Return o m
      | BsfEof | BsfError => Return None m
      | BsfAgain => if bsf_at_eof_ m then Return None m else Continue m
      end
  end.

(** The container is at its end: the filter is flushed, once. *)
Definition flush_filter m : turn (option VideoPacket) (MediaSource Fmt Bsf) :=
  match bsf_ctx_ m with
  | None => Return None m
  | Some bsf =>
      let '(_, bsf) := av_bsf_send_packet None bsf in
      Continue (m <| bsf_ctx_ := Some bsf |> <| bsf_at_eof_ := true |>)
  end.

(** A packet of the container. *)
Definition take_frame (pkt : AVPacket) m : turn (option VideoPacket) (MediaSource Fmt Bsf) :=
  if negb (stream_index pkt =? video_idx_ m) then Continue (queue_audio pkt m)
  else
    match bsf_ctx_ m with
    | None => let '(o, m) := processPacket pkt m in Return o m
    | Some bsf =>
        let '(ok, bsf) := av_bsf_send_packet (Some pkt) bsf in
        let m := m <| bsf_ctx_ := Some bsf |> in
        if ok then Continue m else Return None m
    end.

Definition read_turn m : turn (option VideoPacket) (MediaSource Fmt Bsf) :=
  match pull_filter m with
  | Return o m => Return o m
  | Continue m =>
      match fmt_ctx_ m with
      | None => Return None m
      | Some fmt =>
          let '(frame, fmt) := av_read_frame fmt in
          let m := m <| fmt_ctx_ := Some fmt |> in
          match frame with
          | None => flush_filter m
          | Some pkt => take_frame pkt m
          end
      end
  end.

(** The [while (true)]; [None]: out of fuel. *)
Fixpoint read_loop (fuel : nat) m : option (option VideoPacket * MediaSource Fmt Bsf) :=
  match fuel with
  | O => None
  | S f =>
      match read_turn m with
      | Return o m => Some (o, m)
      | Continue m => read_loop f m
      end
  end.

(** The packets that are left and two turns: the flush, and the turn after it. *)
Definition read_fuel m : nat :=
  match fmt_ctx_ m with Some fmt => S (S (S (frames_left fmt))) | None => 1 end.

(** [readPacket(out)] *)
Definition readPacket m : option VideoPacket * MediaSource Fmt Bsf :=
  match prefetch_vp_ m with
  | Some vp => (Some vp, m <| prefetch_vp_ := None |>)
  | None =>
      if negb (pkt_ m) then (None, m)
      else default (None, m) (read_loop (read_fuel m) m)
  end.

(** [readAudioPacket(out)] *)
Definition readAudioPacket m : option AudioPacket * MediaSource Fmt Bsf :=
  if audio_idx_ m <? 0 then (None, m)
  else
    match audio_queue_ m with
    | [] => (None, m)
    | ap :: q => (Some ap, m <| audio_queue_ := q |>)
    end.

Definition audio_backlog m : nat := length (audio_queue_ m).

Definition flush_bsf m : MediaSource Fmt Bsf :=
  m <| bsf_ctx_ := av_bsf_flush <$> bsf_ctx_ m |>.

(** [static_cast<uint32_t>(static_cast<double>(t) / 90000.0 * sample_rate)] *)
Definition audio_ticks (t sample_rate : Z) : Z :=
  cast_u32 (dmul (ddiv (d_of_Z t) (d_of_Z 90000)) (d_of_Z sample_rate)).

Definition has_audio_rate m : bool :=
  present (audio_info_ m) && (0 <? sample_rate (audio_info_ m)).

(** [seek(rtp_offset)]; the parameter is a [uint32_t]. *)
Definition seek (rtp_offset : Z) m : MediaSource Fmt Bsf :=
  let rtp_offset := u32 rtp_offset in
  match fmt_ctx_ m with
  | None => m
  | Some fmt =>
      let m := flush_bsf m in
      let '(_, fmt) := av_seek_frame (video_idx_ m) 0 fmt in
      m <| fmt_ctx_ := Some fmt |> <| rtp_offset_ := rtp_offset |>
        <| first_pts_ := AV_NOPTS_VALUE |> <| bsf_at_eof_ := false |>
        <| audio_first_pts_ := AV_NOPTS_VALUE |>
        <| audio_rtp_offset_ := if has_audio_rate m
                                then audio_ticks rtp_offset (sample_rate (audio_info_ m)) else 0 |>
        <| audio_queue_ := [] |>
  end.

(** The probe of [seekToSeconds]: the time of the first video packet among the next [n]. *)
Fixpoint probe (n : nat) (idx : Z) (fmt : Fmt) : option Z * Fmt :=
  match n with
  | O => (None, fmt)
  | S n =>
      match av_read_frame fmt with
      | (None, fmt) => (None, fmt)
      | (Some pkt, fmt) =>
          if stream_index pkt =? idx then (Some (packet_time pkt), fmt) else probe n idx fmt
      end
  end.

(** [seekToSeconds(position_secs)] *)
Definition seekToSeconds (position_secs : double) m : double * MediaSource Fmt Bsf :=
  match fmt_ctx_ m with
  | None => (dzero, seek 0 m)
  | Some fmt =>
      if dltb position_secs dzero then (dzero, seek 0 m)
      else
        let m := flush_bsf m in
        let tb := time_base (streams fmt (video_idx_ m)) in
        let target_ts := av_rescale_q (cast_i64 (dmul position_secs (d_of_Z AV_TIME_BASE)))
                           (mkQ 1 AV_TIME_BASE) tb in
        let '(ok, fmt) := av_seek_frame (video_idx_ m) target_ts fmt in
        if negb ok then
          let '(_, fmt) := av_seek_frame (video_idx_ m) 0 fmt in
          let m := flush_bsf (m <| fmt_ctx_ := Some fmt |>) in
          (dzero, m <| bsf_at_eof_ := false |> <| rtp_offset_ := 0 |>
                    <| first_pts_ := AV_NOPTS_VALUE |>)
        else
          let '(found, fmt) := probe 256 (video_idx_ m) fmt in
          let actual_pts := default target_ts found in
          let '(_, fmt) := av_seek_frame (video_idx_ m) actual_pts fmt in
          let m := flush_bsf (m <| fmt_ctx_ := Some fmt |>) in
          let actual_secs := dmul (d_of_Z actual_pts) (av_q2d tb) in
          (actual_secs,
           m <| bsf_at_eof_ := false |>
             <| rtp_offset_ := u32 (av_rescale_q actual_pts tb (mkQ 1 90000)) |>
             <| first_pts_ := AV_NOPTS_VALUE |> <| audio_first_pts_ := AV_NOPTS_VALUE |>
             <| audio_rtp_offset_ :=
                  cast_u32 (dmul actual_secs (d_of_Z (sample_rate (audio_info_ m)))) |>
             <| audio_queue_ := [] |>)
  end.

(** [adjustRTPOffset(delta)] *)
Definition adjustRTPOffset (delta : Z) m : MediaSource Fmt Bsf :=
  let m := m <| rtp_offset_ := u32 (rtp_offset_ m + delta) |> in
  if has_audio_rate m then
    let audio_delta := audio_ticks delta (sample_rate (audio_info_ m)) in
    m <| audio_rtp_offset_ := u32 (audio_rtp_offset_ m + audio_delta) |>
  else m.

(** [peekNextVideoRTPTimestamp()] *)
Definition peekNextVideoRTPTimestamp m : Z * MediaSource Fmt Bsf :=
  match fmt_ctx_ m with
  | None => (0, m)
  | Some _ =>
      match prefetch_vp_ m with
      | Some vp => (rtp_timestamp vp, m)
      | None =>
          match readPacket m with
          | (None, m) => (0, m)
          | (Some vp, m) => (rtp_timestamp vp, m <| prefetch_vp_ := Some vp |>)
          end
      end
  end.

#[export] Instance operations : IMediaSource (MediaSource Fmt Bsf) := {|
  IMediaSource.make := MediaSource_default;
  IMediaSource.open := open;
  IMediaSource.isOpen := isOpen;
  IMediaSource.close := close;
  IMediaSource.streamInfo := stream_info_;
  IMediaSource.audioInfo := audio_info_;
  IMediaSource.duration := duration;
  IMediaSource.readPacket := readPacket;
  IMediaSource.readAudioPacket := readAudioPacket;
  IMediaSource.audio_backlog := audio_backlog;
  IMediaSource.seek := seek;
  IMediaSource.seekToSeconds := seekToSeconds;
  IMediaSource.rtpOffset := rtp_offset_;
  IMediaSource.audioRTPOffset := audio_rtp_offset_;
  IMediaSource.adjustRTPOffset := adjustRTPOffset;
  IMediaSource.peekNextVideoRTPTimestamp := peekNextVideoRTPTimestamp
|}.
End media_source.
Arguments Return {A S}. Arguments Continue {A S}.
