(* ===== verification/SourceParts.v ===== *)
(** * [SourceParts]: which parts of the source are there (src/media/MediaSource.cpp)

    A source owns a container, perhaps a bitstream filter, a packet buffer and perhaps an audio
    stream with its own buffer, and dereferences them by one another's presence: [readPacket] tests
    the buffer and reads the container, the seeks test the container and index its streams.
    Proved: the parts come and go together, on every path through [open], and the other operations
    leave them as they are. *)

From S2P Require Import Prelude StdString Double SDPBuilder AnnexBParser IMediaSource MediaSource.

Section parts.
Context {Fmt Bsf : Type} `{FFmpeg Fmt Bsf}.
Implicit Types m : MediaSource Fmt Bsf.

Definition has_filter m : bool := match bsf_ctx_ m with Some _ => true | None => false end.
Definition has_prefetch m : bool := match prefetch_vp_ m with Some _ => true | None => false end.

(** The parts: the contexts, and the streams with what is known of them. *)
Definition parts m : bool * bool * bool * bool * Z * Z * AudioStreamInfo :=
  (isOpen m, has_filter m, pkt_ m, audio_pkt_ m, video_idx_ m, audio_idx_ m, audio_info_ m).

(** A flushed filter is there; packets wait for the audio stream only. *)
Definition settled m : Prop :=
  (bsf_at_eof_ m = true -> has_filter m = true) /\ (audio_idx_ m < 0 -> audio_queue_ m = []).

(** The container is open exactly when the packet buffer is there; the filter and the video stream
    belong to an open container; an audio stream has its buffer and its description, and without
    one there are neither. *)
Record consistent m : Prop := {
  pc_packet : pkt_ m = isOpen m;
  pc_filter : has_filter m = true -> isOpen m = true;
  pc_video : isOpen m = true -> 0 <= video_idx_ m;
  pc_audio : 0 <= audio_idx_ m ->
    isOpen m = true /\ audio_pkt_ m = true /\ present (audio_info_ m) = true;
  pc_silent : audio_idx_ m < 0 ->
    audio_pkt_ m = false /\ audio_info_ m = AudioStreamInfo_default;
  pc_settled : settled m
}.

(** Nothing but the packet that was looked ahead at, and what is known of the video. *)
Definition empty m : Prop :=
  isOpen m = false /\ has_filter m = false /\ pkt_ m = false /\ audio_pkt_ m = false
  /\ audio_queue_ m = [] /\ audio_info_ m = AudioStreamInfo_default /\ audio_idx_ m < 0.

(** ** Operations that leave the parts alone *)

Definition keeps_parts m m' : Prop := parts m' = parts m /\ (settled m -> settled m').

Lemma keeps_parts_refl m : keeps_parts m m.
Proof. done. Qed.

Lemma keeps_parts_trans m1 m2 m3 : keeps_parts m1 m2 -> keeps_parts m2 m3 -> keeps_parts m1 m3.
Proof. intros [A B] [C D]. split; [congruence|auto]. Qed.

Lemma keeps_parts_quiet m m' :
  parts m' = parts m -> bsf_at_eof_ m' = bsf_at_eof_ m \/ bsf_at_eof_ m' = false ->
  audio_queue_ m' = audio_queue_ m \/ audio_queue_ m' = [] -> keeps_parts m m'.
Proof.
  intros [= E1 E2 E3 E4 E5 E6 E7] Hb Hq. split; [unfold parts; congruence|].
  unfold settled. rewrite E2, E6. intros [A B].
  split; [destruct Hb as [-> | ->]; done|destruct Hq as [-> | ->]; done].
Qed.

Lemma consistent_kept m m' : keeps_parts m m' -> consistent m -> consistent m'.
Proof.
  intros [[= E1 E2 E3 E4 E5 E6 E7] Hs] [].
  constructor; rewrite ?E1, ?E2, ?E3, ?E4, ?E5, ?E6, ?E7; auto.
Qed.

Lemma processPacket_parts pkt m :
  keeps_parts m (snd (processPacket pkt m))
  /\ has_prefetch (snd (processPacket pkt m)) = has_prefetch m.
Proof.
  unfold processPacket. cbv zeta.
  destruct (first_pts_ m =? AV_NOPTS_VALUE), (av_packet_clone pkt); cbn [snd];
    (split; [apply keeps_parts_quiet; auto|done]).
Qed.

Lemma queue_audio_parts pkt m :
  keeps_parts m (queue_audio pkt m) /\ has_prefetch (queue_audio pkt m) = has_prefetch m.
Proof.
  unfold queue_audio. destruct (Z.leb_spec 0 (audio_idx_ m)); cbn [andb]; [|done].
  destruct (_ =? _); [|done]. cbv zeta.
  destruct (audio_first_pts_ m =? AV_NOPTS_VALUE); (split; [|done]); (split; [done|]);
    unfold settled; simpl_update; intros [A B]; (split; [exact A|lia]).
Qed.

Definition turn_source (t : turn (option VideoPacket) (MediaSource Fmt Bsf)) : MediaSource Fmt Bsf :=
  match t with Return _ m => m | Continue m => m end.

(** A turn of the loop of [readPacket] does not look ahead. *)
Definition turn_kept m (t : turn (option VideoPacket) (MediaSource Fmt Bsf)) : Prop :=
  keeps_parts m (turn_source t) /\ has_prefetch (turn_source t) = has_prefetch m.

Lemma turn_kept_trans m m' t :
  keeps_parts m m' -> has_prefetch m' = has_prefetch m -> turn_kept m' t -> turn_kept m t.
Proof. intros A B [C D]. split; [by eapply keeps_parts_trans|congruence]. Qed.

Lemma process_turn_kept pkt m : turn_kept m (let '(o, m) := processPacket pkt m in Return o m).
Proof. unfold turn_kept. pose proof (processPacket_parts pkt m). by destruct (processPacket pkt m). Qed.

Lemma set_filter_kept m b b' : bsf_ctx_ m = Some b -> keeps_parts m (m <| bsf_ctx_ := Some b' |>).
Proof.
  intros E. apply keeps_parts_quiet; [|by left..]. unfold parts, has_filter. simpl_update. by rewrite E.
Qed.

Lemma pull_filter_kept m : turn_kept m (pull_filter m).
Proof.
  unfold pull_filter. destruct (bsf_ctx_ m) as [b|] eqn:Eb; [|done].
  destruct (av_bsf_receive_packet b) as [r b']. cbv zeta. pose proof (set_filter_kept m b b' Eb) as E.
  destruct r; [|done| |done].
  - eapply turn_kept_trans; [exact E|done|apply process_turn_kept].
  - simpl_update. by destruct (bsf_at_eof_ m).
Qed.

Lemma flush_filter_kept m : turn_kept m (flush_filter m).
Proof.
  unfold flush_filter. destruct (bsf_ctx_ m) as [b|] eqn:Eb; [|done].
  destruct (av_bsf_send_packet None b) as [? b']. split; [|done]. split.
  - unfold parts, has_filter. cbn [turn_source]. simpl_update. by rewrite Eb.
  - unfold settled, has_filter. cbn [turn_source]. simpl_update. by intros [_ B].
Qed.

Lemma take_frame_kept pkt m : turn_kept m (take_frame pkt m).
Proof.
  unfold take_frame. destruct (negb _); [apply queue_audio_parts|].
  destruct (bsf_ctx_ m) as [b|] eqn:Eb; [|apply process_turn_kept].
  destruct (av_bsf_send_packet (Some pkt) b) as [ok b']. cbv zeta.
  pose proof (set_filter_kept m b b' Eb). by destruct ok.
Qed.

Lemma read_turn_kept m : turn_kept m (read_turn m).
Proof.
  unfold read_turn. pose proof (pull_filter_kept m) as P.
  destruct (pull_filter m) as [o m1|m1]; [done|]. destruct P as [P1 P2]. cbn [turn_source] in *.
  destruct (fmt_ctx_ m1) as [f|] eqn:Ef; [|done]. destruct (av_read_frame f) as [frame f']. cbv zeta.
  assert (keeps_parts m (m1 <| fmt_ctx_ := Some f' |>)) as Q.
  { apply (keeps_parts_trans _ m1); [done|]. apply keeps_parts_quiet; [|by left..].
    unfold parts, isOpen. simpl_update. by rewrite Ef. }
  destruct frame; (eapply turn_kept_trans; [exact Q|exact P2|]);
    [apply take_frame_kept|apply flush_filter_kept].
Qed.

Lemma read_loop_kept fuel : forall m o m',
  read_loop fuel m = Some (o, m') -> keeps_parts m m' /\ has_prefetch m' = has_prefetch m.
Proof.
  induction fuel as [|fuel IH]; intros m o m'; [done|]. cbn [read_loop].
  pose proof (read_turn_kept m) as [A B]. destruct (read_turn m) as [o1 m1|m1]; cbn [turn_source] in *.
  - by intros [= _ <-].
  - intros E. apply IH in E as [C D]. split; [by eapply keeps_parts_trans|congruence].
Qed.

Lemma readPacket_kept m : keeps_parts m (snd (readPacket m)).
Proof.
  unfold readPacket. destruct (prefetch_vp_ m); [by apply keeps_parts_quiet; [|left..]|].
  destruct (negb (pkt_ m)); [apply keeps_parts_refl|].
  destruct (read_loop (read_fuel m) m) as [[o m']|] eqn:E; [|apply keeps_parts_refl].
  by apply read_loop_kept in E as [? _].
Qed.

Lemma readAudioPacket_kept m : keeps_parts m (snd (readAudioPacket m)).
Proof.
  unfold readAudioPacket. destruct (Z.ltb_spec (audio_idx_ m) 0); [apply keeps_parts_refl|].
  destruct (audio_queue_ m) eqn:E; [apply keeps_parts_refl|]. split; [done|].
  unfold settled. cbn [snd]. simpl_update. intros [A B]. split; [exact A|lia].
Qed.

Lemma peek_kept m : keeps_parts m (snd (peekNextVideoRTPTimestamp m)).
Proof.
  unfold peekNextVideoRTPTimestamp. destruct (fmt_ctx_ m); [|apply keeps_parts_refl].
  destruct (prefetch_vp_ m); [apply keeps_parts_refl|]. pose proof (readPacket_kept m) as P.
  destruct (readPacket m) as [[vp|] m']; [|exact P]. cbn [snd] in *.
  apply (keeps_parts_trans _ m'); [done|]. by apply keeps_parts_quiet; [|left..].
Qed.

(** The seeks: the container goes on, the filter is flushed, the queue is emptied or kept. *)
Lemma seek_kept off m :
  keeps_parts m (seek off m) /\ has_prefetch (seek off m) = has_prefetch m.
Proof.
  unfold seek. destruct (fmt_ctx_ m) as [f|] eqn:Ef; [|done]. cbv zeta.
  destruct (av_seek_frame _ 0 f). split; [|done].
  apply keeps_parts_quiet; [|by right..]. unfold parts, isOpen, has_filter, flush_bsf. simpl_update.
  rewrite Ef. by destruct (bsf_ctx_ m).
Qed.

Lemma seekToSeconds_kept secs m :
  keeps_parts m (snd (seekToSeconds secs m))
  /\ has_prefetch (snd (seekToSeconds secs m)) = has_prefetch m.
Proof.
  unfold seekToSeconds. destruct (fmt_ctx_ m) as [f|] eqn:Ef; [|apply seek_kept].
  destruct (dltb secs dzero); [apply seek_kept|]. cbv zeta.
  destruct (av_seek_frame _ _ f) as [[] f1]; cbn [negb];
    [destruct (probe 256 _ f1) as [o f2]; destruct (av_seek_frame _ _ f2)
    |destruct (av_seek_frame _ 0 f1)];
    cbn [snd]; (split; [|done]); (apply keeps_parts_quiet; [|by right|]);
    unfold parts, isOpen, has_filter, flush_bsf; simpl_update; rewrite ?Ef;
    try (by destruct (bsf_ctx_ m)); by auto.
Qed.

Lemma adjust_kept delta m :
  keeps_parts m (adjustRTPOffset delta m)
  /\ has_prefetch (adjustRTPOffset delta m) = has_prefetch m.
Proof.
  unfold adjustRTPOffset. cbv zeta. destruct (has_audio_rate _); (split; [|done]);
    by apply keeps_parts_quiet; [|left..].
Qed.

(** ** [open] and [close] *)

Lemma empty_consistent m : empty m -> bsf_at_eof_ m = false -> consistent m.
Proof.
  intros (A & B & C & D & E & F & G) He.
  constructor; rewrite ?A, ?B, ?C, ?D, ?F; try done; [lia|]. split; [by rewrite He|done].
Qed.

Lemma close_empty m : empty (close m) /\ bsf_at_eof_ (close m) = false.
Proof. done. Qed.

(** The paths through [open] that fail leave nothing, the one that does not leaves a consistent
    source. *)
Lemma open_packet_parts fmt m :
  isOpen m = true -> 0 <= video_idx_ m -> audio_pkt_ m = false -> audio_queue_ m = [] ->
  audio_info_ m = AudioStreamInfo_default -> bsf_at_eof_ m = false ->
  let '(ok, m') := open_packet fmt m in
  consistent m' /\ isOpen m' = ok /\ (ok = false -> empty m').
Proof.
  intros Ho Hv Ha Hq Hi He. unfold open_packet. cbv zeta. simpl_update.
  destruct (av_packet_alloc 0) eqn:Ep; cbn [negb].
  2: { split; [by apply empty_consistent; apply close_empty|]. by split. }
  unfold open_audio. cbv zeta. destruct (Z.leb_spec 0 (av_find_best_stream AVMEDIA_TYPE_AUDIO fmt)).
  - set (info := if (2 <=? _)%nat then _ else _).
    assert (present info = true) as Hp by (unfold info; by destruct (2 <=? _)%nat).
    clearbody info. simpl_update. destruct (av_packet_alloc 1) eqn:Ea; cbn iota;
      (split; [|by split]); constructor; unfold settled, isOpen, has_filter in *; simpl_update;
      rewrite ?He, ?Hq, ?Ho; try done; try lia; by split.
  - split; [|by split]. constructor; unfold settled, isOpen, has_filter in *; simpl_update;
      rewrite ?He, ?Hq, ?Ho; try done; try lia; by split.
Qed.

Lemma open_parts path m :
  let '(ok, m') := open path m in
  consistent m' /\ isOpen m' = ok /\ (ok = false -> empty m').
Proof.
  unfold open. destruct (avformat_open_input path) as [raw|].
  2: { split; [by apply empty_consistent; apply close_empty|]. by split. }
  set (fmt := avformat_find_stream_info raw). unfold open_container. cbv zeta.
  assert (forall m', empty m' -> bsf_at_eof_ m' = false ->
    consistent m' /\ isOpen m' = false /\ (false = false -> empty m')) as Hfail.
  { intros m' He Hb. split; [by apply empty_consistent|]. by split; [apply He|]. }
  destruct (Z.ltb_spec (av_find_best_stream AVMEDIA_TYPE_VIDEO fmt) 0) as [|Hv]; [by apply Hfail|].
  destruct (negb _); [by apply Hfail|].
  unfold open_video, open_h264, install_filter. cbv zeta.
  set (m1 := if parseExtradata _ _ is Some (_, info) then info else _). clearbody m1.
  destruct (_ && _); [|by apply open_packet_parts].
  destruct (av_bsf_alloc _) as [b|]; [destruct (av_bsf_init _ b) as [b'|]|]; cbn [negb];
    [by apply open_packet_parts|by apply Hfail..].
Qed.
End parts.

(** C24: The parts of the source.  A new source is consistent and every operation keeps it so: the
    container is open exactly when the packet buffer is there, a filter or a video stream is there
    only with an open container, an audio stream has its buffer, its description and alone has
    packets waiting.  So no pointer that an operation follows after its own test is null.  [open]
    answers whether the source is open afterwards; when it fails, and after [close], no context is
    left, whatever was open before; and reading and seeking neither open nor close anything. *)
Theorem source_parts_consistent {Fmt Bsf} `{FFmpeg Fmt Bsf} :
  consistent (MediaSource_default (Fmt := Fmt) (Bsf := Bsf))
  /\ forall m : MediaSource Fmt Bsf,
       (consistent (close m) /\ empty (close m))
       /\ (forall path, let '(ok, m') := open path m in
            consistent m' /\ isOpen m' = ok /\ (ok = false -> empty m'))
       /\ forall m',
            m' = snd (readPacket m) \/ m' = snd (readAudioPacket m)
            \/ m' = snd (peekNextVideoRTPTimestamp m) \/ (exists off, m' = seek off m)
            \/ (exists secs, m' = snd (seekToSeconds secs m))
            \/ (exists delta, m' = adjustRTPOffset delta m) ->
            parts m' = parts m /\ (consistent m -> consistent m').
Proof.
  split; [by constructor|]. intros m.
  split; [split; [by apply empty_consistent; apply close_empty|apply close_empty]|].
  split; [intros path; apply open_parts|]. intros m' Hm'.
  assert (keeps_parts m m') as Hk.
  { destruct Hm' as [->|[->|[->|[[off ->]|[[secs ->]|[delta ->]]]]]];
      [apply readPacket_kept|apply readAudioPacket_kept|apply peek_kept|apply seek_kept
      |apply seekToSeconds_kept|apply adjust_kept]. }
  split; [apply Hk|by apply consistent_kept].
Qed.
