(* ===== verification/MediaSourceSpec.v ===== *)
(** * [MediaSourceSpec]: the FFmpeg source keeps the laws of [IMediaSource]

    Well-formedness of the source; that the loop of [readPacket] ends; what it delivers; what
    [peekNextVideoRTPTimestamp] and the seeks do to it. *)

From S2P Require Import Prelude StdString Double SDPBuilder AnnexBParser IMediaSource MediaSource.

(** ** Well-formedness *)

Section laws.
Context {Fmt Bsf : Type} `{FFmpegLaws Fmt Bsf}.
Implicit Types m : MediaSource Fmt Bsf.

Definition in_u32 (z : Z) : Prop := 0 <= z < 2 ^ 32.

(** The clocks are 32-bit, so are the stamps of the packets kept, and a source with a packet
    buffer has its container open. *)
Record source_ok m : Prop := {
  so_rtp : in_u32 (rtp_offset_ m);
  so_audio : in_u32 (audio_rtp_offset_ m);
  so_prefetch : forall vp, prefetch_vp_ m = Some vp -> in_u32 (rtp_timestamp vp);
  so_queue : Forall (fun ap => in_u32 (ap_rtp_timestamp ap)) (audio_queue_ m);
  so_open : pkt_ m = true -> isOpen m = true
}.

Lemma src_u32_in z : in_u32 (u32 z).
Proof. apply (u32_range z). Qed.

Lemma cast_u32_in d : in_u32 (cast_u32 d).
Proof. apply (cast_u32_range d). Qed.

Lemma src_zero_in : in_u32 0.
Proof. unfold in_u32. lia. Qed.

Ltac in_range := first [apply src_u32_in | apply cast_u32_in | apply src_zero_in].

Lemma default_ok : source_ok (MediaSource_default (Fmt := Fmt) (Bsf := Bsf)).
Proof. constructor; try done; in_range. Qed.

Lemma close_ok m : source_ok m -> source_ok (close m).
Proof. intros []. constructor; simpl_update; try done; in_range. Qed.

(** A change of anything else keeps it. *)
Lemma ok_same m m' :
  rtp_offset_ m' = rtp_offset_ m -> audio_rtp_offset_ m' = audio_rtp_offset_ m ->
  prefetch_vp_ m' = prefetch_vp_ m -> audio_queue_ m' = audio_queue_ m ->
  (pkt_ m' = true -> isOpen m' = true) -> source_ok m -> source_ok m'.
Proof. intros E1 E2 E3 E4 E5 []. constructor; rewrite ?E1, ?E2, ?E3, ?E4; done. Qed.

Lemma open_audio_ok fmt m : source_ok m -> source_ok (open_audio fmt m).
Proof.
  intros Ho. pose proof (so_open m Ho). unfold open_audio. cbv zeta.
  destruct (0 <=? _); [|by apply (ok_same m)]. simpl_update.
  destruct (av_packet_alloc 1), (2 <=? _)%nat; by apply (ok_same m).
Qed.

Lemma open_packet_ok fmt m :
  source_ok m -> isOpen m = true -> source_ok (snd (open_packet fmt m)).
Proof.
  intros Ho Hf. unfold open_packet. cbv zeta.
  assert (source_ok (m <| pkt_ := av_packet_alloc 0 |>)) as H1 by by apply (ok_same m).
  destruct (negb _); [by apply close_ok|by apply open_audio_ok].
Qed.

(** Steps of [open] before there is a packet buffer. *)
Lemma ok_before_packet m m' :
  rtp_offset_ m' = rtp_offset_ m -> audio_rtp_offset_ m' = audio_rtp_offset_ m ->
  prefetch_vp_ m' = prefetch_vp_ m -> audio_queue_ m' = audio_queue_ m -> pkt_ m' = false ->
  source_ok m -> source_ok m'.
Proof. intros. apply (ok_same m); try done. congruence. Qed.

Lemma open_h264_ok fmt vst m :
  source_ok m -> isOpen m = true -> pkt_ m = false -> source_ok (snd (open_h264 fmt vst m)).
Proof.
  intros Ho Hf Hp. unfold open_h264, install_filter. cbv zeta.
  destruct (_ && _); [|by apply open_packet_ok].
  destruct (av_bsf_alloc _) as [bsf|]; [destruct (av_bsf_init vst bsf) as [b|]|]; cbn [negb snd];
    [apply open_packet_ok|..]; first [done | by apply (ok_before_packet m)].
Qed.

Lemma open_container_ok fmt m :
  source_ok m -> pkt_ m = false -> source_ok (snd (open_container fmt m)).
Proof.
  intros Ho Hp. unfold open_container. cbv zeta. set (idx := av_find_best_stream _ fmt).
  destruct (idx <? 0); [by apply (ok_before_packet m)|].
  destruct (negb _); [by apply (ok_before_packet m)|].
  unfold open_video. destruct (parseExtradata _ _) as [[b info]|];
    (apply open_h264_ok; [by apply (ok_before_packet m)|done|done]).
Qed.

Lemma open_ok path m : source_ok m -> source_ok (snd (open path m)).
Proof.
  intros Ho%close_ok. unfold open. destruct (avformat_open_input path); [|done].
  by apply open_container_ok.
Qed.

Lemma processPacket_ok pkt m :
  source_ok m ->
  source_ok (snd (processPacket pkt m))
  /\ fmt_ctx_ (snd (processPacket pkt m)) = fmt_ctx_ m
  /\ forall vp, fst (processPacket pkt m) = Some vp -> in_u32 (rtp_timestamp vp).
Proof.
  intros Ho. pose proof (so_open m Ho). unfold processPacket. cbv zeta.
  set (m1 := if first_pts_ m =? AV_NOPTS_VALUE then _ else _).
  assert (source_ok m1 /\ fmt_ctx_ m1 = fmt_ctx_ m) as (Hm1 & F1)
    by (unfold m1; destruct (_ =? _); [split; [by apply (ok_same m)|done]|done]).
  destruct (av_packet_clone pkt); cbn [fst snd]; (split; [done|]; split; [done|]); [|done].
  intros vp [= <-]. apply src_u32_in.
Qed.

Lemma queue_audio_ok pkt m : source_ok m -> source_ok (queue_audio pkt m).
Proof.
  intros Ho. pose proof (so_open m Ho). unfold queue_audio. cbv zeta. destruct (_ && _); [|done].
  set (m1 := if audio_first_pts_ m =? AV_NOPTS_VALUE then _ else _).
  assert (source_ok m1) as Hm1 by (unfold m1; destruct (_ =? _); [by apply (ok_same m)|done]).
  destruct Hm1. constructor; simpl_update; try done. apply Forall_app. split; [done|].
  constructor; [apply src_u32_in|done].
Qed.

(** What a turn may end in. *)
Definition turn_ok (t : turn (option VideoPacket) (MediaSource Fmt Bsf)) : Prop :=
  match t with
  | Return o m => source_ok m /\ forall vp, o = Some vp -> in_u32 (rtp_timestamp vp)
  | Continue m => source_ok m
  end.

Lemma bsf_ok m b : source_ok m -> source_ok (m <| bsf_ctx_ := b |>).
Proof. intros Ho. pose proof (so_open m Ho). by apply (ok_same m). Qed.

Lemma process_turn_ok pkt m :
  source_ok m -> turn_ok (let '(o, m) := processPacket pkt m in Return o m).
Proof.
  intros Ho. destruct (processPacket_ok pkt m Ho) as (H1 & _ & H2).
  by destruct (processPacket pkt m).
Qed.

Lemma pull_filter_ok m : source_ok m -> turn_ok (pull_filter m).
Proof.
  intros Ho. unfold pull_filter. destruct (bsf_ctx_ m) as [bsf|]; [|done].
  destruct (av_bsf_receive_packet bsf) as [r b]. pose proof (bsf_ok m (Some b) Ho) as Hb.
  cbv zeta. destruct r; try done; [by apply process_turn_ok|].
  simpl_update. by destruct (bsf_at_eof_ m).
Qed.

Lemma flush_filter_ok m : source_ok m -> turn_ok (flush_filter m).
Proof.
  intros Ho. unfold flush_filter. destruct (bsf_ctx_ m) as [bsf|]; [|done].
  destruct (av_bsf_send_packet None bsf) as [? b]. cbn.
  pose proof (so_open m Ho). by apply (ok_same m).
Qed.

Lemma take_frame_ok pkt m : source_ok m -> turn_ok (take_frame pkt m).
Proof.
  intros Ho. unfold take_frame. destruct (negb _); [by apply queue_audio_ok|].
  destruct (bsf_ctx_ m) as [bsf|]; [|by apply process_turn_ok].
  destruct (av_bsf_send_packet (Some pkt) bsf) as [ok b]. cbv zeta.
  pose proof (bsf_ok m (Some b) Ho). by destruct ok.
Qed.

Lemma read_turn_ok m : source_ok m -> turn_ok (read_turn m).
Proof.
  intros Ho. unfold read_turn. pose proof (pull_filter_ok m Ho) as P.
  destruct (pull_filter m) as [o m1|m1]; [done|]. cbn in P.
  destruct (fmt_ctx_ m1) as [fmt|] eqn:Ef; [|done].
  destruct (av_read_frame fmt) as [frame fmt'].
  assert (source_ok (m1 <| fmt_ctx_ := Some fmt' |>)) as H1 by by apply (ok_same m1).
  cbv zeta. destruct frame; [by apply take_frame_ok|by apply flush_filter_ok].
Qed.

Lemma read_loop_ok fuel : forall m o m',
  source_ok m -> read_loop fuel m = Some (o, m') ->
  source_ok m' /\ forall vp, o = Some vp -> in_u32 (rtp_timestamp vp).
Proof.
  induction fuel as [|f IH]; intros m o m' Ho; [done|]. cbn [read_loop].
  pose proof (read_turn_ok m Ho) as P. destruct (read_turn m) as [o1 m1|m1].
  - intros [= <- <-]. exact P.
  - by apply IH.
Qed.

Lemma readPacket_ok m :
  source_ok m ->
  source_ok (snd (readPacket m))
  /\ forall vp, fst (readPacket m) = Some vp -> in_u32 (rtp_timestamp vp).
Proof.
  intros Ho. unfold readPacket. destruct (prefetch_vp_ m) as [vp|] eqn:Ep.
  - split; [|intros v [= <-]; by apply (so_prefetch m Ho)].
    destruct Ho. by constructor.
  - destruct (negb (pkt_ m)); [done|].
    destruct (read_loop (read_fuel m) m) as [[o m']|] eqn:El; [|done].
    apply (read_loop_ok (read_fuel m) m o m' Ho El).
Qed.

Lemma flush_ok m : source_ok m -> source_ok (flush_bsf m).
Proof. intros Ho. by apply bsf_ok. Qed.

Lemma seek_ok off m : source_ok m -> source_ok (seek off m).
Proof.
  intros Ho. unfold seek. destruct (fmt_ctx_ m) as [fmt|] eqn:Ef; [|done].
  destruct (av_seek_frame _ 0 fmt) as [? fmt']. destruct Ho.
  constructor; unfold flush_bsf; simpl_update; try done; try in_range.
  destruct (has_audio_rate _); in_range.
Qed.

Lemma seekToSeconds_ok secs m : source_ok m -> source_ok (snd (seekToSeconds secs m)).
Proof.
  intros Ho. unfold seekToSeconds. destruct (fmt_ctx_ m) as [fmt|] eqn:Ef; [|by apply seek_ok].
  destruct (dltb secs dzero); [by apply seek_ok|]. cbv zeta.
  destruct (av_seek_frame _ _ fmt) as [[] fmt1]; cbn [negb].
  - destruct (probe 256 _ fmt1) as [found fmt2]. destruct (av_seek_frame _ _ fmt2) as [? fmt3].
    destruct Ho. constructor; unfold flush_bsf; cbn [snd]; simpl_update; try done; in_range.
  - destruct (av_seek_frame _ 0 fmt1) as [? fmt2].
    destruct Ho. constructor; unfold flush_bsf; cbn [snd]; simpl_update; try done; in_range.
Qed.

Lemma adjust_ok delta m : source_ok m -> source_ok (adjustRTPOffset delta m).
Proof.
  intros []. unfold adjustRTPOffset. cbv zeta. destruct (has_audio_rate _);
    constructor; simpl_update; try done; in_range.
Qed.

Lemma peek_ok m :
  source_ok m ->
  source_ok (snd (peekNextVideoRTPTimestamp m)) /\ in_u32 (fst (peekNextVideoRTPTimestamp m)).
Proof.
  intros Ho. unfold peekNextVideoRTPTimestamp.
  destruct (fmt_ctx_ m) as [fmt|]; [|split; [done|apply src_zero_in]].
  destruct (prefetch_vp_ m) as [vp|] eqn:Ep; [split; [done|by apply (so_prefetch m Ho)]|].
  destruct (readPacket_ok m Ho) as [H1 H2]. destruct (readPacket m) as [[vp|] m1]; cbn in *.
  - specialize (H2 vp eq_refl). split; [|done]. destruct H1. constructor; simpl_update; try done.
    by intros v [= <-].
  - split; [done|apply src_zero_in].
Qed.

Lemma readAudioPacket_ok m :
  source_ok m ->
  source_ok (snd (readAudioPacket m))
  /\ forall ap, fst (readAudioPacket m) = Some ap -> in_u32 (ap_rtp_timestamp ap).
Proof.
  intros Ho. unfold readAudioPacket. destruct (_ <? 0); [done|].
  pose proof (so_queue m Ho) as Hq. destruct (audio_queue_ m) as [|ap q]; [done|].
  apply Forall_cons in Hq as [Ha Hq]. split; [|by intros ? [= <-]].
  destruct Ho. by constructor.
Qed.

#[export, program] Instance laws : MediaSourceLaws (MediaSource Fmt Bsf) := {|
  source_wf := source_ok
|}.
Next Obligation. exact default_ok. Qed.
Next Obligation. apply open_ok. Qed.
Next Obligation. intros m Ho. by apply readPacket_ok. Qed.
Next Obligation. intros m vp m' Ho E. apply (readPacket_ok m Ho). change (readPacket m = (Some vp, m')) in E. by rewrite E. Qed.
Next Obligation. intros m Ho. by apply readAudioPacket_ok. Qed.
Next Obligation.
  intros m ap m' Ho E. change (readAudioPacket m = (Some ap, m')) in E.
  apply (readAudioPacket_ok m Ho). by rewrite E.
Qed.
Next Obligation.
  intros m ap m' _. cbn. unfold readAudioPacket, audio_backlog. destruct (_ <? 0); [done|].
  destruct (audio_queue_ m) eqn:E; [done|]. intros [= _ <-]. simpl_update. cbn. lia.
Qed.
Next Obligation. apply seek_ok. Qed.
Next Obligation. apply seekToSeconds_ok. Qed.
Next Obligation. apply adjust_ok. Qed.
Next Obligation. intros m Ho. by apply peek_ok. Qed.
Next Obligation. intros m Ho. apply (so_rtp m Ho). Qed.
Next Obligation. intros m Ho. apply (so_audio m Ho). Qed.
Next Obligation. intros m Ho. by apply peek_ok. Qed.
End laws.

(** ** The loop of [readPacket] ends *)

Section reading.
Context {Fmt Bsf : Type} `{FFmpegLaws Fmt Bsf}.
Implicit Types m : MediaSource Fmt Bsf.

(** Turns that are left: one per packet of the container, the flush and the turn after it. *)
Definition turns_left m : nat :=
  match fmt_ctx_ m, bsf_ctx_ m with
  | None, _ => 1
  | Some fmt, None => S (frames_left fmt)
  | Some fmt, Some _ => if bsf_at_eof_ m then 1 else S (S (frames_left fmt))
  end.

Lemma processPacket_others pkt m o m' :
  processPacket pkt m = (o, m') ->
  prefetch_vp_ m' = prefetch_vp_ m /\ fmt_ctx_ m' = fmt_ctx_ m /\ bsf_ctx_ m' = bsf_ctx_ m
  /\ bsf_at_eof_ m' = bsf_at_eof_ m.
Proof.
  unfold processPacket. cbv zeta. destruct (first_pts_ m =? AV_NOPTS_VALUE), (av_packet_clone pkt);
    by intros [= <- <-].
Qed.

Lemma queue_audio_others pkt m :
  prefetch_vp_ (queue_audio pkt m) = prefetch_vp_ m /\ fmt_ctx_ (queue_audio pkt m) = fmt_ctx_ m
  /\ bsf_ctx_ (queue_audio pkt m) = bsf_ctx_ m /\ bsf_at_eof_ (queue_audio pkt m) = bsf_at_eof_ m.
Proof.
  unfold queue_audio. destruct (_ && _); [|done]. cbv zeta.
  by destruct (audio_first_pts_ m =? AV_NOPTS_VALUE).
Qed.

(** A turn that goes on has used one up, and does not touch the packet peeked at. *)
Lemma read_turn_progress m :
  match read_turn m with
  | Return _ m' => prefetch_vp_ m' = prefetch_vp_ m
  | Continue m' => prefetch_vp_ m' = prefetch_vp_ m /\ (turns_left m' < turns_left m)%nat
  end.
Proof.
  unfold read_turn, pull_filter, turns_left.
  destruct (bsf_ctx_ m) as [bsf|] eqn:Eb.
  - destruct (av_bsf_receive_packet bsf) as [[pkt| | |] b]; cbv zeta; try done.
    { destruct (processPacket _ _) as [o m1] eqn:Ep.
      by apply processPacket_others in Ep as (-> & _). }
    simpl_update. destruct (bsf_at_eof_ m) eqn:Ee; [done|].
    simpl_update. destruct (fmt_ctx_ m) as [fmt|]; [|done].
    destruct (av_read_frame fmt) as [[pkt|] fmt'] eqn:Er.
    + apply read_frame_decreases in Er. unfold take_frame. simpl_update.
      destruct (negb _).
      * pose proof (queue_audio_others pkt
          (m <| bsf_ctx_ := Some b |> <| fmt_ctx_ := Some fmt' |>)) as (-> & -> & -> & ->).
        simpl_update. rewrite Ee. split; [done|lia].
      * destruct (av_bsf_send_packet (Some pkt) b) as [[] b']; [|done]. simpl_update. rewrite Ee.
        split; [done|lia].
    + unfold flush_filter. simpl_update. cbv beta iota.
      destruct (av_bsf_send_packet None b) as [? b'].
      simpl_update. split; [done|lia].
  - destruct (fmt_ctx_ m) as [fmt|]; [|done].
    destruct (av_read_frame fmt) as [[pkt|] fmt'] eqn:Er.
    + apply read_frame_decreases in Er. unfold take_frame. simpl_update. destruct (negb _).
      * pose proof (queue_audio_others pkt (m <| fmt_ctx_ := Some fmt' |>)) as (-> & -> & -> & _).
        simpl_update. rewrite Eb. split; [done|lia].
      * rewrite Eb. destruct (processPacket _ _) as [o m1] eqn:Ep.
        by apply processPacket_others in Ep as (-> & _).
    + unfold flush_filter. simpl_update. by rewrite Eb.
Qed.

Lemma read_loop_ends fuel : forall m,
  (turns_left m <= fuel)%nat ->
  exists o m', read_loop fuel m = Some (o, m') /\ prefetch_vp_ m' = prefetch_vp_ m.
Proof.
  induction fuel as [|f IH]; intros m Hf.
  { unfold turns_left in Hf. destruct (fmt_ctx_ m), (bsf_ctx_ m), (bsf_at_eof_ m); lia. }
  cbn [read_loop]. pose proof (read_turn_progress m) as P.
  destruct (read_turn m) as [o m1|m1]; [by exists o, m1|].
  destruct P as [P1 P2]. destruct (IH m1) as (o & m2 & -> & P3); [lia|].
  exists o, m2. split; [done|congruence].
Qed.

Lemma read_fuel_enough m : (turns_left m <= read_fuel m)%nat.
Proof.
  unfold turns_left, read_fuel. destruct (fmt_ctx_ m), (bsf_ctx_ m), (bsf_at_eof_ m); lia.
Qed.

Lemma read_loop_more_fuel k fuel : forall m r,
  read_loop fuel m = Some r -> read_loop (fuel + k) m = Some r.
Proof.
  induction fuel as [|f IH]; intros m r; [done|]. cbn [read_loop Nat.add].
  destruct (read_turn m); [done|apply IH].
Qed.
End reading.

(** ** What it delivers *)

(** Documented behaviour of [h264_mp4toannexb]: one packet out for each packet in. *)
Class FilterLaws (Fmt Bsf : Type) `{FFmpeg Fmt Bsf} := {
  idle : Bsf -> Prop;
  holds : AVPacket -> Bsf -> Prop;
  convert : AVPacket -> AVPacket;
  receive_idle b : idle b -> exists b', av_bsf_receive_packet b = (BsfAgain, b') /\ idle b';
  send_idle pkt b : idle b ->
    exists b', av_bsf_send_packet (Some pkt) b = (true, b') /\ holds (convert pkt) b';
  receive_holds pkt b : holds pkt b ->
    exists b', av_bsf_receive_packet b = (BsfPacket pkt, b') /\ idle b';
  flush_idle b : idle b ->
    exists ok b' b'', av_bsf_send_packet None b = (ok, b')
      /\ av_bsf_receive_packet b' = (BsfEof, b'');
  flush_idles b : idle (av_bsf_flush b)
}.

Section delivery.
Context {Fmt Bsf : Type} `{FilterLaws Fmt Bsf}.
Implicit Types m : MediaSource Fmt Bsf.

(** The container delivers these packets. *)
Inductive demuxed : Fmt -> list AVPacket -> Fmt -> Prop :=
| demuxed_nil f : demuxed f [] f
| demuxed_cons f pkt f' l f'' :
    av_read_frame f = (Some pkt, f') -> demuxed f' l f'' -> demuxed f (pkt :: l) f''.

(** Open at a place of the container, with nothing held back. *)
Definition ready m (f : Fmt) : Prop :=
  fmt_ctx_ m = Some f /\ bsf_at_eof_ m = false
  /\ match bsf_ctx_ m with None => True | Some b => idle b end.

(** A packet as the source hands it out. *)
Definition filtered m (pkt : AVPacket) : AVPacket :=
  match bsf_ctx_ m with None => pkt | Some _ => convert pkt end.

(** Two sources that differ in their place in the container and in the audio queued. *)
Definition apart_from_place m : MediaSource Fmt Bsf :=
  m <| fmt_ctx_ := None |> <| bsf_ctx_ := None |> <| audio_first_pts_ := 0 |> <| audio_queue_ := [] |>.

(** Packets of the audio stream, the time they are counted from, and what is queued. *)
Definition is_audio m (pkt : AVPacket) : bool :=
  (0 <=? audio_idx_ m) && (stream_index pkt =? audio_idx_ m).

Definition audio_base m (pkts : list AVPacket) : Z :=
  if audio_first_pts_ m =? AV_NOPTS_VALUE then
    match List.filter (is_audio m) pkts with [] => AV_NOPTS_VALUE | p :: _ => packet_time p end
  else audio_first_pts_ m.

Definition audio_unit m (base : Z) (pkt : AVPacket) : AudioPacket := {|
  data := pkt_data pkt;
  ap_rtp_timestamp :=
    u32 (u32 (av_rescale_q (i64 (packet_time pkt - base)) (audio_time_base_ m)
                (mkQ 1 (sample_rate (audio_info_ m)))) + audio_rtp_offset_ m)
|}.

Definition audio_units m (pkts : list AVPacket) : list AudioPacket :=
  map (audio_unit m (audio_base m pkts)) (List.filter (is_audio m) pkts).

(** The turn that takes a packet of another stream. *)
Lemma turn_other m f pkt f' :
  ready m f -> av_read_frame f = (Some pkt, f') -> stream_index pkt <> video_idx_ m ->
  exists b', read_turn m = Continue (queue_audio pkt (m <| bsf_ctx_ := b' |> <| fmt_ctx_ := Some f' |>))
    /\ match bsf_ctx_ m, b' with
       | None, None => True | Some _, Some b => idle b | _, _ => False end.
Proof.
  intros (Ef & Ee & Eb) Er Hne. unfold read_turn, pull_filter, take_frame.
  destruct (bsf_ctx_ m) as [b|] eqn:Ebc.
  - destruct (receive_idle b Eb) as (b' & -> & Hi). cbv zeta. simpl_update. rewrite Ee.
    simpl_update. rewrite Ef, Er. simpl_update. destruct (Z.eqb_spec (stream_index pkt) (video_idx_ m)); [done|].
    by exists (Some b').
  - rewrite Ef, Er. simpl_update. destruct (Z.eqb_spec (stream_index pkt) (video_idx_ m)); [done|].
    exists None. split; [|done]. cbn [negb]. do 3 f_equal. destruct m. cbn in Ebc. by subst.
Qed.

(** What a queued packet changes. *)
Lemma queue_audio_spec pkt m :
  packet_time pkt <> AV_NOPTS_VALUE ->
  apart_from_place (queue_audio pkt m) = apart_from_place m
  /\ forall l, audio_queue_ (queue_audio pkt m) ++ audio_units (queue_audio pkt m) l
              = audio_queue_ m ++ audio_units m (pkt :: l).
Proof.
  intros Ht. unfold audio_units, audio_base, queue_audio. cbv zeta.
  fold (is_audio m pkt). destruct (is_audio m pkt) eqn:Ea.
  - cbn [List.filter]. rewrite Ea. destruct (Z.eqb_spec (audio_first_pts_ m) AV_NOPTS_VALUE) as [E|E].
    + split; [done|]. intros l. simpl_update. rewrite (proj2 (Z.eqb_neq _ _) Ht).
      rewrite <- app_assoc. done.
    + split; [done|]. intros l. simpl_update. rewrite (proj2 (Z.eqb_neq _ _) E).
      rewrite <- app_assoc. done.
  - split; [done|]. intros l. cbn [List.filter]. by rewrite Ea.
Qed.

(** A packet that the source skips on the way to the next video packet. *)
Definition skipped m (pkt : AVPacket) : Prop :=
  stream_index pkt <> video_idx_ m /\ packet_time pkt <> AV_NOPTS_VALUE.

Definition same_filter m m' : Prop :=
  match bsf_ctx_ m, bsf_ctx_ m' with None, None | Some _, Some _ => True | _, _ => False end.

Lemma skip_others f l f' :
  demuxed f l f' -> forall m, ready m f -> Forall (skipped m) l ->
  exists m', (forall k, read_loop (length l + k) m = read_loop k m') /\ ready m' f'
    /\ apart_from_place m' = apart_from_place m /\ same_filter m m'
    /\ audio_queue_ m' = audio_queue_ m ++ audio_units m l.
Proof.
  induction 1 as [f|f pkt f1 l f2 Hr Hd IH]; intros m Hm Hs.
  - exists m. split_and!; try done; [|unfold audio_units; cbn; by rewrite app_nil_r].
    unfold same_filter. by destruct (bsf_ctx_ m).
  - inversion Hs as [|? ? [Hv Ht] Hs']; subst.
    destruct (turn_other m f pkt f1 Hm Hr Hv) as (b' & Et & Hb).
    set (m0 := m <| bsf_ctx_ := b' |> <| fmt_ctx_ := Some f1 |>) in *.
    destruct (queue_audio_spec pkt m0 Ht) as [Ha Hq].
    destruct (queue_audio_others pkt m0) as (_ & Qf & Qb & Qe).
    destruct (IH (queue_audio pkt m0)) as (m' & Hl & Hrd & Hap & Hsf & Hau).
    + destruct Hm as (_ & He & _). unfold ready. rewrite Qf, Qb, Qe. split; [done|]. split; [done|].
      unfold m0. simpl_update. by destruct b', (bsf_ctx_ m).
    + assert (video_idx_ (queue_audio pkt m0) = video_idx_ m) as Ev
        by exact (f_equal video_idx_ Ha).
      unfold skipped. by rewrite Ev.
    + exists m'. split_and!.
      * intros k. cbn [length Nat.add read_loop]. by rewrite Et.
      * done.
      * by rewrite Hap, Ha.
      * revert Hsf. unfold same_filter. rewrite Qb. unfold m0. simpl_update.
        by destruct b', (bsf_ctx_ m).
      * by rewrite Hau, Hq.
Qed.

(** The turn that takes the video packet: without a filter it returns, with one the next
    turn does. *)
Lemma turn_video m f pkt f' k :
  ready m f -> av_read_frame f = (Some pkt, f') -> stream_index pkt = video_idx_ m ->
  exists m', read_loop (S (S k)) m = Some (processPacket (filtered m pkt) m')
    /\ ready m' f' /\ apart_from_place m' = apart_from_place m
    /\ audio_queue_ m' = audio_queue_ m /\ same_filter m m'.
Proof.
  intros (Ef & Ee & Eb) Er Hv. cbn [read_loop]. unfold read_turn, pull_filter, filtered.
  destruct (bsf_ctx_ m) as [b|] eqn:Ebc.
  - destruct (receive_idle b Eb) as (b1 & -> & H1). cbv zeta. simpl_update. rewrite Ee.
    simpl_update. rewrite Ef, Er. unfold take_frame. simpl_update. rewrite Hv, Z.eqb_refl. cbn [negb].
    destruct (send_idle pkt b1 H1) as (b2 & -> & H2). simpl_update. cbv beta iota.
    destruct (receive_holds _ b2 H2) as (b3 & -> & H3).
    exists (m <| bsf_ctx_ := Some b1 |> <| fmt_ctx_ := Some f' |> <| bsf_ctx_ := Some b2 |>
              <| bsf_ctx_ := Some b3 |>).
    split; [by destruct (processPacket _ _)|]. unfold same_filter. rewrite Ebc. by split_and!.
  - rewrite Ef, Er. unfold take_frame. simpl_update. rewrite Hv, Z.eqb_refl, Ebc. cbn [negb].
    exists (m <| fmt_ctx_ := Some f' |>). split; [by destruct (processPacket _ _)|].
    unfold ready, same_filter. simpl_update. by rewrite Ebc.
Qed.

(** The turns at the end of the container. *)
Lemma turn_end m f f' k :
  ready m f -> av_read_frame f = (None, f') ->
  exists m', read_loop (S (S k)) m = Some (None, m') /\ audio_queue_ m' = audio_queue_ m
    /\ fmt_ctx_ m' = Some f' /\ same_filter m m'
    /\ apart_from_place (m' <| bsf_at_eof_ := false |>) = apart_from_place m.
Proof.
  intros (Ef & Ee & Eb) Er. cbn [read_loop]. unfold read_turn, pull_filter.
  destruct (bsf_ctx_ m) as [b|] eqn:Ebc.
  - destruct (receive_idle b Eb) as (b1 & -> & H1). cbv zeta. simpl_update. rewrite Ee.
    simpl_update. rewrite Ef, Er. unfold flush_filter. simpl_update.
    destruct (flush_idle b1 H1) as (ok & b2 & b3 & -> & E3). simpl_update. cbv beta iota. rewrite E3.
    eexists. split; [done|]. unfold same_filter. rewrite Ebc. split_and!; try done.
    unfold apart_from_place. rewrite <- Ee. by destruct m.
  - rewrite Ef, Er. unfold flush_filter. simpl_update. rewrite Ebc.
    eexists. split; [done|]. unfold same_filter. simpl_update. rewrite Ebc. split_and!; try done.
    unfold apart_from_place. rewrite <- Ee. by destruct m.
Qed.
End delivery.

(** ** An FFmpeg in memory

    A container is a list of packets and a place in it; the filter hands packets on. *)

Module Demo.

Record fmt := mkFmt { file : list AVPacket; place : nat }.
Record bsf := mkBsf { inside : list AVPacket; flushed : bool }.

Definition video_stream : AVStream := {|
  codec_is_h264 := true; time_base := mkQ 1 1000; avg_frame_rate := mkQ 25 1;
  cp_width := 640; cp_height := 360;
  extradata := [0; 0; 0; 1; 103; 66; 0; 31; 0; 0; 0; 1; 104; 206];
  cp_sample_rate := 0; nb_channels := 0
|}.
Definition audio_stream : AVStream := {|
  codec_is_h264 := false; time_base := mkQ 1 1000; avg_frame_rate := mkQ 0 1;
  cp_width := 0; cp_height := 0; extradata := [18; 16]; cp_sample_rate := 48000; nb_channels := 2
|}.

Definition packet (idx t : Z) (key : bool) (d : bytes) : AVPacket := {|
  stream_index := idx; flag_key := key; pts := t; dts := t; pkt_duration := 40; pkt_data := d
|}.

(** A key frame, audio, a second frame, audio, a second key frame. *)
Definition packets : list AVPacket := [
  packet 0 1000 true [0; 0; 0; 1; 101; 1; 2];
  packet 1 1000 true [11; 12];
  packet 0 1040 false [0; 0; 0; 1; 65; 3];
  packet 1 1020 true [13];
  packet 0 1080 true [0; 0; 0; 1; 101; 4] ].

(** The place of the last key frame of a stream at or before a time. *)
Fixpoint key_place (idx t : Z) (l : list AVPacket) (i : nat) (found : nat) : nat :=
  match l with
  | [] => found
  | p :: l =>
      key_place idx t l (S i)
        (if (stream_index p =? idx) && flag_key p && (pts p <=? t) then i else found)
  end.

#[export] Instance ffmpeg : FFmpeg fmt bsf := {|
  avformat_open_input path := if decide (path = "/srv/missing.mp4") then None
                              else Some (mkFmt packets 0);
  avformat_find_stream_info f := f;
  av_find_best_stream k _ := match k with AVMEDIA_TYPE_VIDEO => 0 | AVMEDIA_TYPE_AUDIO => 1 end;
  streams _ i := if i =? 0 then video_stream else audio_stream;
  fmt_duration _ := 120000;
  av_read_frame f := match file f !! place f with
                     | Some p => (Some p, mkFmt (file f) (S (place f)))
                     | None => (None, f)
                     end;
  frames_left f := (length (file f) - place f)%nat;
  av_seek_frame idx t f := (true, mkFmt (file f) (key_place idx t (file f) 0 0));
  av_bsf_alloc _ := Some (mkBsf [] false);
  av_bsf_init _ b := Some b;
  av_bsf_send_packet o b := match o with
                            | Some p => (true, mkBsf (inside b ++ [p]) (flushed b))
                            | None => (true, mkBsf (inside b) true)
                            end;
  av_bsf_receive_packet b := match inside b with
                             | p :: l => (BsfPacket p, mkBsf l (flushed b))
                             | [] => (if flushed b then BsfEof else BsfAgain, b)
                             end;
  av_bsf_flush _ := mkBsf [] false;
  av_packet_alloc _ := true;
  av_packet_clone p := Some p;
  av_rescale_q a b c := (2 * a * num b * den c + den b * num c) / (2 * den b * num c)
|}.

#[export, program] Instance ffmpeg_laws : FFmpegLaws fmt bsf.
Next Obligation.
  intros f pkt f'. cbn. destruct (file f !! place f) eqn:E; [|done]. intros [= _ <-]. cbn.
  apply lookup_lt_Some in E. lia.
Qed.

#[export, program] Instance filter_laws : FilterLaws fmt bsf := {|
  idle b := b = mkBsf [] false;
  holds p b := b = mkBsf [p] false;
  convert p := p
|}.
Next Obligation. intros b ->. by eexists. Qed.
Next Obligation. intros p b ->. by eexists. Qed.
Next Obligation. intros p b ->. by eexists. Qed.
Next Obligation. intros b ->. by do 3 eexists. Qed.
Next Obligation. done. Qed.

Definition source : MediaSource fmt bsf := snd (open "/srv/a.mp4" MediaSource_default).

(** The source with its filter, as for an AVCC file. *)
Definition filtering : MediaSource fmt bsf := source <| bsf_ctx_ := Some (mkBsf [] false) |>.

Lemma rescale_0 a b : av_rescale_q 0 a b = 0.
Proof.
  cbn. replace (2 * 0 * num a * den b) with 0 by lia. rewrite Z.add_0_l.
  destruct (Z.eq_dec (den a * num b) 0) as [E|E].
  - replace (2 * den a * num b) with 0 by lia. by rewrite Z.div_0_r.
  - replace (2 * den a * num b) with (den a * num b * 2) by lia.
    rewrite <- (Z.mul_1_r (den a * num b)) at 1. by rewrite Z.div_mul_cancel_l.
Qed.

Lemma source_well_formed : source_ok source.
Proof. apply open_ok, default_ok. Qed.

Lemma read_2 : demuxed (mkFmt packets 0) [packet 0 1000 true [0; 0; 0; 1; 101; 1; 2]] (mkFmt packets 1).
Proof. eapply demuxed_cons; [reflexivity|apply demuxed_nil]. Qed.

Lemma read_next :
  demuxed (mkFmt packets 1)
    ([packet 1 1000 true [11; 12]] ++ [packet 0 1040 false [0; 0; 0; 1; 65; 3]]) (mkFmt packets 3).
Proof. do 2 (eapply demuxed_cons; [reflexivity|]). apply demuxed_nil. Qed.
End Demo.

(** ** Properties *)

Section common.
Context {Fmt Bsf : Type} `{FFmpegLaws Fmt Bsf, !FilterLaws Fmt Bsf}.
Implicit Types m : MediaSource Fmt Bsf.

Lemma readPacket_loop m k r :
  pkt_ m = true -> prefetch_vp_ m = None -> read_loop k m = Some r -> readPacket m = r.
Proof.
  intros Hp Hv Hr. unfold readPacket. rewrite Hv, Hp. cbn [negb].
  destruct (read_loop_ends (read_fuel m) m (read_fuel_enough m)) as (o & m' & E & _). rewrite E.
  apply (read_loop_more_fuel k) in E. apply (read_loop_more_fuel (read_fuel m)) in Hr.
  rewrite Nat.add_comm in Hr. cbn. congruence.
Qed.

(** The access unit made of a packet. *)
Definition access_unit m (p : AVPacket) : VideoPacket := {|
  nals := map (view_data (pkt_data p)) (splitView (pkt_data p));
  rtp_timestamp :=
    u32 (u32 (av_rescale_q
                (i64 (packet_time p
                      - (if first_pts_ m =? AV_NOPTS_VALUE then packet_time p else first_pts_ m)))
                (time_base_ m) (mkQ 1 90000)) + rtp_offset_ m);
  is_key_frame := flag_key p;
  vp_duration := pkt_duration p
|}.

(** The first packet sets the time the clock counts from. *)
Definition count_from (pkt : AVPacket) m : MediaSource Fmt Bsf :=
  if first_pts_ m =? AV_NOPTS_VALUE then m <| first_pts_ := packet_time pkt |> else m.

Lemma processPacket_unit pkt m :
  av_packet_clone pkt = Some pkt ->
  processPacket pkt m = (Some (access_unit m pkt), count_from pkt m).
Proof.
  intros Hc. unfold processPacket, access_unit, count_from. rewrite Hc. cbv zeta.
  by destruct (first_pts_ m =? AV_NOPTS_VALUE) eqn:E; rewrite ?E; simpl_update.
Qed.

Lemma count_from_others pkt m :
  fmt_ctx_ (count_from pkt m) = fmt_ctx_ m /\ bsf_ctx_ (count_from pkt m) = bsf_ctx_ m
  /\ bsf_at_eof_ (count_from pkt m) = bsf_at_eof_ m
  /\ audio_queue_ (count_from pkt m) = audio_queue_ m.
Proof. unfold count_from. by destruct (first_pts_ m =? AV_NOPTS_VALUE). Qed.

Lemma count_from_same pkt m m' :
  apart_from_place m' = apart_from_place m ->
  apart_from_place (count_from pkt m') = apart_from_place (count_from pkt m).
Proof.
  intros E. unfold count_from.
  replace (first_pts_ m') with (first_pts_ m) by exact (eq_sym (f_equal first_pts_ E)).
  destruct (first_pts_ m =? AV_NOPTS_VALUE); [|done].
  exact (f_equal (fun m => m <| first_pts_ := packet_time pkt |>) E).
Qed.

Lemma access_unit_same m m' p : apart_from_place m' = apart_from_place m -> access_unit m' p = access_unit m p.
Proof.
  intros E. unfold access_unit.
  replace (first_pts_ m') with (first_pts_ m) by exact (eq_sym (f_equal first_pts_ E)).
  replace (rtp_offset_ m') with (rtp_offset_ m) by exact (eq_sym (f_equal rtp_offset_ E)).
  by replace (time_base_ m') with (time_base_ m) by exact (eq_sym (f_equal time_base_ E)).
Qed.

(** The next video packet, and what is read on the way. *)
Lemma read_video m f others v f' f'' :
  ready m f -> pkt_ m = true -> prefetch_vp_ m = None ->
  demuxed f others f' -> Forall (skipped m) others ->
  av_read_frame f' = (Some v, f'') -> stream_index v = video_idx_ m ->
  av_packet_clone (filtered m v) = Some (filtered m v) ->
  exists m', readPacket m = (Some (access_unit m (filtered m v)), m') /\ ready m' f''
    /\ audio_queue_ m' = audio_queue_ m ++ audio_units m others /\ same_filter m m'
    /\ apart_from_place m' = apart_from_place (count_from (filtered m v) m).
Proof.
  intros Hm Hp Hv Hd Hs Er Ev Hc.
  destruct (skip_others f others f' Hd m Hm Hs) as (m1 & Hl & Hr & Ha & Hf & Hq).
  assert (video_idx_ m1 = video_idx_ m) as Ei by exact (f_equal video_idx_ Ha).
  destruct (turn_video m1 f' v f'' 0 Hr Er) as (m2 & E2 & Hr2 & Ha2 & Hq2 & Hf2); [congruence|].
  assert (filtered m1 v = filtered m v) as Ef
    by (unfold filtered; revert Hf; unfold same_filter; by destruct (bsf_ctx_ m), (bsf_ctx_ m1)).
  rewrite Ef, processPacket_unit, (access_unit_same m m2) in E2 by congruence.
  destruct (count_from_others (filtered m v) m2) as (F1 & F2 & F3 & F4).
  exists (count_from (filtered m v) m2). split; [|split; [|split; [|split]]].
  - apply (readPacket_loop m (length others + 2)); [done|done|]. by rewrite Hl.
  - unfold ready. by rewrite F1, F2, F3.
  - congruence.
  - revert Hf Hf2. unfold same_filter. rewrite F2. by destruct (bsf_ctx_ m), (bsf_ctx_ m1), (bsf_ctx_ m2).
  - apply count_from_same. congruence.
Qed.

(** The end of the container. *)
Lemma read_end m f others f' f'' :
  ready m f -> pkt_ m = true -> prefetch_vp_ m = None ->
  demuxed f others f' -> Forall (skipped m) others -> av_read_frame f' = (None, f'') ->
  exists m', readPacket m = (None, m')
    /\ audio_queue_ m' = audio_queue_ m ++ audio_units m others
    /\ fmt_ctx_ m' = Some f'' /\ same_filter m m'
    /\ apart_from_place (m' <| bsf_at_eof_ := false |>) = apart_from_place m.
Proof.
  intros Hm Hp Hv Hd Hs Er.
  destruct (skip_others f others f' Hd m Hm Hs) as (m1 & Hl & Hr & Ha & Hf & Hq).
  destruct (turn_end m1 f' f'' 0 Hr Er) as (m2 & E2 & Hq2 & Ef2 & Hf2 & Ha2).
  exists m2. split; [|split; [|split; [|split]]]; try congruence.
  - apply (readPacket_loop m (length others + 2)); [done|done|]. by rewrite Hl.
  - revert Hf Hf2. unfold same_filter. by destruct (bsf_ctx_ m), (bsf_ctx_ m1), (bsf_ctx_ m2).
Qed.

Lemma next_access_unit_lemma m f others v f' :
  ready m f -> pkt_ m = true -> prefetch_vp_ m = None ->
  demuxed f others f' -> Forall (skipped m) others ->
  (forall f'', av_read_frame f' = (Some v, f'') -> stream_index v = video_idx_ m ->
     av_packet_clone (filtered m v) = Some (filtered m v) ->
     exists m', readPacket m = (Some (access_unit m (filtered m v)), m') /\ ready m' f''
       /\ audio_queue_ m' = audio_queue_ m ++ audio_units m others)
  /\ (forall f'', av_read_frame f' = (None, f'') ->
     exists m', readPacket m = (None, m')
       /\ audio_queue_ m' = audio_queue_ m ++ audio_units m others).
Proof.
  intros Hm Hp Hv Hd Hs. split; intros f'' Er.
  - intros Ev Hc. destruct (read_video m f others v f' f'') as (m' & ? & ? & ? & _); try done. by exists m'.
  - destruct (read_end m f others f' f'') as (m' & ? & ? & _); try done. by exists m'.
Qed.
End common.

(** C19: [readPacket] returns.  For a container that delivers finitely many packets its loop
    ends: every turn that goes on uses up a packet or the one flush of the filter, so the fuel
    of the model is enough and more fuel changes nothing. *)
Theorem readPacket_returns {Fmt Bsf} `{FFmpegLaws Fmt Bsf} (m : MediaSource Fmt Bsf) :
  (exists r, read_loop (read_fuel m) m = Some r
     /\ forall k, read_loop (read_fuel m + k) m = Some r)
  /\ match read_turn m with
     | Return _ _ => True
     | Continue m' => (turns_left m' < turns_left m)%nat
     end.
Proof.
  split.
  - destruct (read_loop_ends (read_fuel m) m (read_fuel_enough m)) as (o & m' & E & _).
    exists (o, m'). split; [done|]. intros k. by apply read_loop_more_fuel.
  - pose proof (read_turn_progress m) as P. destruct (read_turn m); [done|]. apply P.
Qed.

Import (hints) Demo.

Lemma readPacket_returns_witness :
  exists r, read_loop (read_fuel Demo.filtering) Demo.filtering = Some r.
Proof.
  destruct (proj1 (readPacket_returns Demo.filtering)) as (r & E & _). by exists r.
Defined.

(** C18: What [readPacket] delivers, with and without the bitstream filter.  From a place in the
    container with nothing held back, it skips the packets of other streams, queues the audio
    among them in order, each with its RTP time counted from the first audio packet, and
    returns the next video packet (converted by the filter, if there is one): its NAL units as
    cut by [splitView], its key flag, and the RTP time counted from the first video packet plus
    the offset.  At the end of the container it returns [false], with the audio queued. *)
Theorem next_access_unit {Fmt Bsf} `{FFmpegLaws Fmt Bsf, !FilterLaws Fmt Bsf}
    (m : MediaSource Fmt Bsf) f others v f' :
  ready m f -> pkt_ m = true -> prefetch_vp_ m = None ->
  demuxed f others f' -> Forall (skipped m) others ->
  (forall f'', av_read_frame f' = (Some v, f'') -> stream_index v = video_idx_ m ->
     av_packet_clone (filtered m v) = Some (filtered m v) ->
     exists m', readPacket m = (Some (access_unit m (filtered m v)), m') /\ ready m' f''
       /\ audio_queue_ m' = audio_queue_ m ++ audio_units m others)
  /\ (forall f'', av_read_frame f' = (None, f'') ->
     exists m', readPacket m = (None, m')
       /\ audio_queue_ m' = audio_queue_ m ++ audio_units m others).
Proof. apply next_access_unit_lemma. Qed.

Lemma next_access_unit_witness :
  exists m', readPacket (snd (readPacket Demo.filtering))
      = (Some {| nals := [[65; 3]]; rtp_timestamp := 3600; is_key_frame := false; vp_duration := 40 |}, m')
    /\ ready m' (Demo.mkFmt Demo.packets 3)
    /\ audio_queue_ m' = [{| data := [11; 12]; ap_rtp_timestamp := 0 |}].
Proof.
  refine (proj1 (next_access_unit (snd (readPacket Demo.filtering)) (Demo.mkFmt Demo.packets 1)
    [Demo.packet 1 1000 true [11; 12]] (Demo.packet 0 1040 false [0; 0; 0; 1; 65; 3])
    (Demo.mkFmt Demo.packets 2) _ eq_refl eq_refl _ _) (Demo.mkFmt Demo.packets 3)
    eq_refl eq_refl eq_refl).
  - split_and!; reflexivity.
  - eapply demuxed_cons; [reflexivity|apply demuxed_nil].
  - repeat constructor; vm_compute; discriminate.
Defined.

(** Looking ahead does not change what is read.  When [peekNextVideoRTPTimestamp] is
    followed by [readPacket], the packet read is the one that [readPacket] alone would have
    read, the time peeked at is its RTP time, and the source is left in the same state; and a
    second look gives the same answer. *)
Theorem peek_then_read {Fmt Bsf} `{FFmpegLaws Fmt Bsf} (m : MediaSource Fmt Bsf) :
  isOpen m = true -> prefetch_vp_ m = None ->
  let '(t, m1) := peekNextVideoRTPTimestamp m in
  match readPacket m with
  | (None, m') => t = 0 /\ m1 = m'
  | (Some vp, m') =>
      t = rtp_timestamp vp
      /\ fst (readPacket m1) = Some vp /\ snd (readPacket m1) = m'
      /\ (isOpen m' = true -> peekNextVideoRTPTimestamp m1 = (t, m1))
  end.
Proof.
  intros Hf Hv. unfold peekNextVideoRTPTimestamp at 1. rewrite Hv. unfold isOpen in Hf.
  destruct (fmt_ctx_ m) as [fmt|] eqn:Ef; [|done].
  assert (prefetch_vp_ (snd (readPacket m)) = None) as Hn.
  { unfold readPacket. rewrite Hv. destruct (negb (pkt_ m)); [done|].
    destruct (read_loop_ends (read_fuel m) m (read_fuel_enough m)) as (o & m' & -> & E).
    cbn. by rewrite E. }
  destruct (readPacket m) as [[vp|] m']; [|done]. cbn [snd] in Hn. split; [done|].
  unfold readPacket, peekNextVideoRTPTimestamp. simpl_update. split; [done|]. split.
  - destruct m'. cbn in Hn. by subst.
  - unfold isOpen. by destruct (fmt_ctx_ m').
Qed.

Lemma peek_then_read_witness :
  fst (peekNextVideoRTPTimestamp Demo.source) = 0
  /\ fst (readPacket (snd (peekNextVideoRTPTimestamp Demo.source))) = fst (readPacket Demo.source)
  /\ is_Some (fst (readPacket Demo.source)).
Proof.
  pose proof (peek_then_read Demo.source eq_refl eq_refl) as P.
  split; [reflexivity|].
  change (fst (readPacket Demo.source)) with
    (Some {| nals := [[101; 1; 2]]; rtp_timestamp := 0; is_key_frame := true; vp_duration := 40 |}).
  split; [|by eexists]. apply P.
Defined.

(** C22: A seek keeps the packet that was looked ahead at.  Neither [seek] nor [seekToSeconds]
    nor [close] drops it: the next packet read and the next time peeked at are those from before
    the seek, whatever the position asked for. *)
Theorem seek_keeps_prefetch {Fmt Bsf} `{FFmpeg Fmt Bsf} (m : MediaSource Fmt Bsf) vp :
  prefetch_vp_ m = Some vp ->
  (forall off, fst (readPacket (seek off m)) = Some vp)
  /\ (forall secs, fst (readPacket (snd (seekToSeconds secs m))) = Some vp)
  /\ (forall secs, isOpen m = true ->
        fst (peekNextVideoRTPTimestamp (snd (seekToSeconds secs m))) = rtp_timestamp vp)
  /\ fst (readPacket (close m)) = Some vp.
Proof.
  intros Hv.
  assert (forall off, prefetch_vp_ (seek off m) = Some vp
    /\ (isOpen m = true -> isOpen (seek off m) = true)) as Hk.
  { intros off. unfold seek, isOpen. destruct (fmt_ctx_ m) as [fmt|] eqn:Ef; [|by rewrite Ef].
    by destruct (av_seek_frame _ 0 fmt). }
  assert (forall secs, prefetch_vp_ (snd (seekToSeconds secs m)) = Some vp
    /\ (isOpen m = true -> isOpen (snd (seekToSeconds secs m)) = true)) as Hs.
  { intros secs. unfold seekToSeconds. destruct (fmt_ctx_ m) as [fmt|] eqn:Ef; [|apply Hk].
    destruct (dltb secs dzero); [apply Hk|]. cbv zeta.
    destruct (av_seek_frame _ _ fmt) as [[] f1]; cbn [negb];
      [destruct (probe 256 _ f1) as [o f2]; by destruct (av_seek_frame _ _ f2)
      |by destruct (av_seek_frame _ 0 f1)]. }
  assert (forall x : MediaSource Fmt Bsf, prefetch_vp_ x = Some vp -> fst (readPacket x) = Some vp) as Hr
    by (intros x E; unfold readPacket; by rewrite E).
  split; [intros off; apply Hr, Hk|]. split; [intros secs; apply Hr, Hs|]. split; [|by apply Hr].
  intros secs Hf. destruct (Hs secs) as [E F]. specialize (F Hf). unfold peekNextVideoRTPTimestamp, isOpen in *.
  rewrite E. by destruct (fmt_ctx_ (snd (seekToSeconds secs m))).
Qed.

(** Two looks ahead with a seek between them: the second one is stale. *)
Lemma seek_keeps_prefetch_witness :
  let peeked := snd (peekNextVideoRTPTimestamp Demo.source) in
  fst (peekNextVideoRTPTimestamp (snd (seekToSeconds (d_of_Z 2) peeked))) = 0
  /\ fst (peekNextVideoRTPTimestamp (snd (seekToSeconds (d_of_Z 2) Demo.source))) = 97200.
Proof.
  intros peeked. split; [|vm_compute; reflexivity].
  exact (proj1 (proj2 (proj2 (seek_keeps_prefetch peeked
    {| nals := [[101; 1; 2]]; rtp_timestamp := 0; is_key_frame := true; vp_duration := 40 |}
    eq_refl))) (d_of_Z 2) eq_refl).
Defined.

(** C20: The RTP clock after a seek.  After [seek], and after a [seekToSeconds] of an open source
    to a position that is not negative, nothing of the container is held back, the offset is
    the one asked for, respectively the RTP time of the packet that the probe found (the
    keyframe the demuxer landed on), and the first video packet read carries exactly the
    offset, whatever its own time is. *)
Theorem clock_after_seek {Fmt Bsf} `{FFmpegLaws Fmt Bsf, !FilterLaws Fmt Bsf}
    (m : MediaSource Fmt Bsf) fmt :
  (forall a b, av_rescale_q 0 a b = 0) -> source_ok m ->
  fmt_ctx_ m = Some fmt -> pkt_ m = true -> prefetch_vp_ m = None ->
  (forall off, exists f, ready (seek off m) f /\ rtp_offset_ (seek off m) = u32 off)
  /\ (forall secs found fmt1 fmt2,
        dltb secs dzero = false ->
        let tb := time_base (streams fmt (video_idx_ m)) in
        av_seek_frame (video_idx_ m)
          (av_rescale_q (cast_i64 (dmul secs (d_of_Z AV_TIME_BASE))) (mkQ 1 AV_TIME_BASE) tb) fmt
          = (true, fmt1) ->
        probe 256 (video_idx_ m) fmt1 = (Some found, fmt2) ->
        exists f, ready (snd (seekToSeconds secs m)) f
          /\ rtp_offset_ (snd (seekToSeconds secs m)) = u32 (av_rescale_q found tb (mkQ 1 90000))
          /\ fst (seekToSeconds secs m) = dmul (d_of_Z found) (av_q2d tb))
  /\ (forall m1 f others v f' f'',
        (exists off, m1 = seek off m) \/ (exists secs, m1 = snd (seekToSeconds secs m)) ->
        ready m1 f -> demuxed f others f' -> Forall (skipped m1) others ->
        av_read_frame f' = (Some v, f'') -> stream_index v = video_idx_ m1 ->
        av_packet_clone (filtered m1 v) = Some (filtered m1 v) ->
        exists vp, fst (readPacket m1) = Some vp /\ rtp_timestamp vp = rtp_offset_ m1).
Proof.
  intros Hz Hok Ef Hp Hv. split; [|split].
  - intros off. unfold seek. rewrite Ef. destruct (av_seek_frame _ 0 fmt) as [ok f].
    exists f. split; [|done]. split_and!; try done. unfold flush_bsf. simpl_update.
    destruct (bsf_ctx_ m); cbn; [apply flush_idles|done].
  - intros secs found fmt1 fmt2 Hn tb Es Ep. unfold seekToSeconds. rewrite Ef, Hn. cbv zeta.
    change (video_idx_ (flush_bsf m)) with (video_idx_ m).
    fold tb. rewrite Es. cbn [negb].
    rewrite Ep. cbn [default].
    match goal with |- context [av_seek_frame ?i ?t fmt2] =>
      change t with found; destruct (av_seek_frame i found fmt2) as [ok f] end.
    exists f. split; [|done]. split_and!; try done. unfold flush_bsf. simpl_update.
    destruct (bsf_ctx_ m); cbn; [apply flush_idles|done].
  - intros m1 f others v f' f'' Hm1 Hr Hd Hs Er Ev Hc.
    assert (pkt_ m1 = true /\ prefetch_vp_ m1 = None /\ first_pts_ m1 = AV_NOPTS_VALUE
            /\ source_ok m1) as (P1 & V1 & F1 & O1).
    { destruct Hm1 as [[off ->]|[secs ->]]; split_and!;
        [..|by apply seek_ok| | | |by apply seekToSeconds_ok];
        unfold seekToSeconds, seek; rewrite Ef; cbv zeta;
        repeat match goal with
          | |- context [if dltb ?a ?b then _ else _] => destruct (dltb a b)
          | |- context [let '(_, _) := av_seek_frame ?i ?t ?x in _] => destruct (av_seek_frame i t x) as [[] ?]
          | |- context [let '(_, _) := probe ?n ?i ?x in _] => destruct (probe n i x)
          end; done. }
    destruct (proj1 (next_access_unit_lemma m1 f others v f' Hr P1 V1 Hd Hs) f'' Er Ev Hc)
      as (m2 & E & _). rewrite E. eexists. split; [done|]. cbn. rewrite F1.
    change (AV_NOPTS_VALUE =? AV_NOPTS_VALUE) with true. cbn iota. rewrite Z.sub_diag.
    change (i64 0) with 0. rewrite Hz. apply u32_small, (so_rtp m1 O1).
Qed.

Lemma clock_after_seek_witness :
  rtp_offset_ (snd (seekToSeconds (d_of_Z 2) Demo.source)) = 97200.
Proof.
  destruct (proj1 (proj2 (clock_after_seek Demo.source (Demo.mkFmt Demo.packets 0)
    Demo.rescale_0 Demo.source_well_formed eq_refl eq_refl eq_refl))
    (d_of_Z 2) 1080 (Demo.mkFmt Demo.packets 4) (Demo.mkFmt Demo.packets 5))
    as (f & _ & E & _); [vm_compute; reflexivity..|]. rewrite E. vm_compute. reflexivity.
Defined.
