(* ===== verification/ExtradataSpec.v ===== *)
(** * [ExtradataSpec]: the parameter sets of a file (src/media/MediaSource.cpp:
    [parseExtradata])

    The parser never reads outside of the buffer, whatever the buffer holds; it reads back the
    first parameter sets of a configuration record in the AVCC format; and from an Annex-B
    stream it takes the first NAL units of the two types. *)

From S2P Require Import Prelude Double SDPBuilder AnnexBParser MediaSource.

(** ** Reads are in bounds *)



(** ** The AVCC format *)








(** ** Annex-B streams *)







