(* ===== verification/FFmpegHandle.v ===== *)
(** * [FFmpegHandle] (include/rtspserver/media/FFmpegHandle.hpp, with the members of
    src/media/MediaSource.cpp that own a context)

    The owning pointers over FFmpeg's contexts.  FFmpeg's heap is the set of contexts that are
    allocated and not yet freed; an owner is a slot that holds a context or none.  Proved: the
    media source, the packets it hands out and the session that keeps one free every context
    exactly once and with its own deleter, and the owners agree with the presence flags that
    [MediaSource.v] keeps. *)

From S2P Require Import Prelude StdString Double SDPBuilder AnnexBParser IMediaSource MediaSource SourceParts.

(** ** FFmpeg's heap *)

(** The kinds of contexts: [AVFormatContext], [AVBSFContext] and [AVPacket]. *)
Inductive kind := FormatCtx | BSFCtx | Packet.
#[global] Instance kind_eq_dec : EqDecision kind.
Proof. solve_decision. Defined.

(** The owners: the four members of [MediaSource], the [pkt_data] of its [prefetch_vp_], of the
    session's [pending_vp_] and of the local [VideoPacket vp] of a function. *)
Inductive slot := fmt_ctx | bsf_ctx | pkt | audio_pkt | prefetch | pending | vp.
#[global] Instance slot_eq_dec : EqDecision slot.
Proof. solve_decision. Defined.

(** The types of the owners. *)
Inductive pointer := FormatCtxPtr | BSFCtxPtr | PacketPtr.

Definition pointer_of (s : slot) : pointer :=
  match s with fmt_ctx => FormatCtxPtr | bsf_ctx => BSFCtxPtr | _ => PacketPtr end.

(** [misfreed]: a context was freed that was not allocated, or by another deleter. *)
Record heap := mkHeap {
  next : nat;
  allocated : gmap nat kind;
  misfreed : bool;
  owns : slot -> option nat
}.
#[global] Instance heap_updatable : Updatable heap := fun w =>
  mkHeap (next w) (allocated w) (misfreed w) (owns w).

Definition heap_init : heap :=
  {| next := 0; allocated := ∅; misfreed := false; owns _ := None |}.

(** FFmpeg frees a context that is allocated and of the kind it is asked to free. *)
Definition free_ctx (k : kind) (h : nat) (w : heap) : heap :=
  if decide (allocated w !! h = Some k) then w <| allocated := delete h (allocated w) |>
  else w <| misfreed := true |>.

Definition avformat_close_input : nat -> heap -> heap := free_ctx FormatCtx.
Definition av_bsf_free : nat -> heap -> heap := free_ctx BSFCtx.
Definition av_packet_free : nat -> heap -> heap := free_ctx Packet.

(** FFmpeg allocates a context of a kind, or answers the null pointer. *)
Definition alloc_ctx (k : kind) (ok : bool) (w : heap) : option nat * heap :=
  if ok then (Some (next w), w <| allocated := <[next w := k]> (allocated w) |> <| next := S (next w) |>)
  else (None, w).

Definition avformat_open_input : bool -> heap -> option nat * heap := alloc_ctx FormatCtx.
Definition av_bsf_alloc : bool -> heap -> option nat * heap := alloc_ctx BSFCtx.
Definition av_packet_alloc : bool -> heap -> option nat * heap := alloc_ctx Packet.
Definition av_packet_clone : bool -> heap -> option nat * heap := alloc_ctx Packet.

(** ** The deleters *)

Definition FormatCtxDeleter (h : nat) (w : heap) : heap := avformat_close_input h w.
Definition BSFCtxDeleter (h : nat) (w : heap) : heap := av_bsf_free h w.
Definition PacketDeleter (h : nat) (w : heap) : heap := av_packet_free h w.

Definition deleter (p : pointer) : nat -> heap -> heap :=
  match p with
  | FormatCtxPtr => FormatCtxDeleter
  | BSFCtxPtr => BSFCtxDeleter
  | PacketPtr => PacketDeleter
  end.

(** ** [std::unique_ptr] *)

Definition has (s : slot) (w : heap) : bool :=
  match owns w s with Some _ => true | None => false end.

Definition set_owner (s : slot) (p : option nat) (w : heap) : heap :=
  w <| owns := fun t => if decide (t = s) then p else owns w t |>.

(** [reset(p)]: the new pointer is stored, then the old one is deleted. *)
Definition reset_to (s : slot) (p : option nat) (w : heap) : heap :=
  let old := owns w s in
  let w := set_owner s p w in
  match old with Some h => deleter (pointer_of s) h w | None => w end.

Definition reset (s : slot) (w : heap) : heap := reset_to s None w.

(** [d = std::move(s)] *)
Definition move_to (d s : slot) (w : heap) : heap :=
  let p := owns w s in
  reset_to d p (set_owner s None w).

(** [s.reset(p)], or an assignment from a factory, of what an allocation answers. *)
Definition adopt (s : slot) (r : option nat * heap) : heap := reset_to s (fst r) (snd r).

(** ** The factories and the members of the source *)

Definition make_packet (s : slot) (alloc : bool) (w : heap) : heap := adopt s (av_packet_alloc alloc w).

Definition make_bsf_context (s : slot) (found alloc : bool) (w : heap) : heap :=
  if negb found then reset s w else adopt s (av_bsf_alloc alloc w).

(** What the calls that [open] makes answer. *)
Record open_calls := mkOpenCalls {
  c_open : bool; c_video : bool; c_h264 : bool; c_avcc : bool; c_found : bool; c_alloc : bool;
  c_init : bool; c_pkt : bool; c_audio : bool; c_audio_pkt : bool
}.

(** [close()]: [prefetch_vp_] is left alone. *)
Definition close (w : heap) : heap := reset fmt_ctx (reset bsf_ctx (reset pkt (reset audio_pkt w))).

(** [open]: from the packet buffer on, ... *)
Definition open_packet (c : open_calls) (w : heap) : bool * heap :=
  let w := make_packet pkt (c_pkt c) w in
  if negb (has pkt w) then (false, close w)
  else (true, if c_audio c then make_packet audio_pkt (c_audio_pkt c) w else w).

(** ... from the bitstream filter on, ... *)
Definition open_filter (c : open_calls) (w : heap) : bool * heap :=
  if c_avcc c then
    let w := make_bsf_context bsf_ctx (c_found c) (c_alloc c) w in
    if negb (has bsf_ctx w) then (false, reset fmt_ctx w)
    else if negb (c_init c) then (false, reset fmt_ctx (reset bsf_ctx w))
    else open_packet c w
  else open_packet c w.

(** ... and all of it. *)
Definition open (c : open_calls) (w : heap) : bool * heap :=
  let w := close w in
  if negb (c_open c) then (false, w)
  else
    let w := adopt fmt_ctx (avformat_open_input true w) in
    if negb (c_video c) then (false, reset fmt_ctx w)
    else if negb (c_h264 c) then (false, reset fmt_ctx w)
    else open_filter c w.

(** [~MediaSource()]: [close], then the members. *)
Definition destroy (w : heap) : heap :=
  reset fmt_ctx (reset bsf_ctx (reset pkt (reset audio_pkt (reset prefetch (close w))))).

(** [readPacket(vp)]: [got]: a packet of the stream was found; [clone]: [av_packet_clone] had
    memory. *)
Definition readPacket (got clone : bool) (w : heap) : bool * heap :=
  if has prefetch w then (true, move_to vp prefetch w)
  else if negb (has pkt w) then (false, w)
  else if negb got then (false, w)
  else let w := adopt vp (av_packet_clone clone w) in (has vp w, w).

(** [peekNextVideoRTPTimestamp()], with the end of the life of its [vp]. *)
Definition peek (got clone : bool) (w : heap) : heap :=
  if negb (has fmt_ctx w) then w
  else if has prefetch w then w
  else
    let '(ok, w) := readPacket got clone w in
    reset vp (if ok then move_to prefetch vp w else w).

(** ** The session that uses the source *)

(** Step 5 of [pacerTick]: the packet read is kept, or dropped with [vp]. *)
Definition tick_read (got clone keep : bool) (w : heap) : heap :=
  if has pending w then w
  else
    let '(ok, w) := readPacket got clone w in
    reset vp (if ok && keep then move_to pending vp w else w).

(** [handleDescribe] and [openMedia]: the old source is destroyed, a new one is made and opened,
    and destroyed when that fails. *)
Definition open_media (c : open_calls) (w : heap) : heap :=
  let w := destroy w in
  let '(ok, w) := open c w in
  if ok then w else destroy w.

(** [~RTSPSession()], members in the reverse order of their declaration. *)
Definition end_session (w : heap) : heap := destroy (reset pending w).

Inductive call :=
| OpenMedia (c : open_calls)
| Open (c : open_calls)
| Close
| Peek (got clone : bool)
| TickRead (got clone keep : bool)
| DropPending
| ResetSource.

Definition run_call (k : call) (w : heap) : heap :=
  match k with
  | OpenMedia c => open_media c w
  | Open c => snd (open c w)
  | Close => close w
  | Peek got clone => peek got clone w
  | TickRead got clone keep => tick_read got clone keep w
  | DropPending => reset pending w
  | ResetSource => destroy w
  end.

Definition run (ks : list call) : heap := fold_left (fun w k => run_call k w) ks heap_init.

(** ** The invariant *)

(** What a pointer of a type points to. *)
Definition pointee (p : pointer) : kind :=
  match p with FormatCtxPtr => FormatCtx | BSFCtxPtr => BSFCtx | PacketPtr => Packet end.

Definition kind_of (s : slot) : kind := pointee (pointer_of s).

(** Each deleter frees what its pointers point to. *)
Lemma deleter_frees p : deleter p = free_ctx (pointee p).
Proof. by destruct p. Qed.

(** The allocated contexts are those that an owner holds, each by one owner, and by one whose
    deleter frees its kind. *)
Record balanced (w : heap) : Prop := {
  b_owned s h : owns w s = Some h -> allocated w !! h = Some (kind_of s);
  b_held h k : allocated w !! h = Some k -> exists s, owns w s = Some h;
  b_once s t h : owns w s = Some h -> owns w t = Some h -> s = t;
  b_fresh h : is_Some (allocated w !! h) -> (h < next w)%nat;
  b_fine : misfreed w = false
}.

(** As above, but a context [p] is in no owner yet. *)
Record balanced_but (p : option nat) (k : kind) (w : heap) : Prop := {
  bb_owned s h : owns w s = Some h -> allocated w !! h = Some (kind_of s) /\ p <> Some h;
  bb_loose h : p = Some h -> allocated w !! h = Some k;
  bb_held h k : allocated w !! h = Some k -> p = Some h \/ exists s, owns w s = Some h;
  bb_once s t h : owns w s = Some h -> owns w t = Some h -> s = t;
  bb_fresh h : is_Some (allocated w !! h) -> (h < next w)%nat;
  bb_fine : misfreed w = false
}.

Lemma balanced_init : balanced heap_init.
Proof.
  constructor; try done. by intros h [k [=]].
Qed.

Lemma balanced_none k w : balanced w <-> balanced_but None k w.
Proof.
  split; intros [H1 H2 H3 H4 H5]; constructor; try done.
  - intros s h E. split; [by apply H1|done].
  - intros h k' E. right. by apply (H2 h k').
  - intros s h E. by apply H1.
  - intros h k' E. by destruct (H3 h k' E).
Qed.

Lemma alloc_ctx_balanced k ok w :
  balanced w -> let '(p, w') := alloc_ctx k ok w in balanced_but p k w'.
Proof.
  intros Hb. unfold alloc_ctx. destruct ok; [|by apply balanced_none].
  destruct Hb as [H1 H2 H3 H4 H5].
  assert (allocated w !! next w = None) as Hn.
  { destruct (allocated w !! next w) eqn:E; [|done].
    pose proof (H4 (next w) (mk_is_Some _ _ E)). lia. }
  constructor; simpl_update; try done.
  - intros s h E. pose proof (H1 s h E) as Ea. assert (h <> next w) as Hne by congruence.
    rewrite lookup_insert_ne by done. split; [done|congruence].
  - intros h [= <-]. by rewrite lookup_insert_eq.
  - intros h k' [[-> ->]|[Hne E]]%lookup_insert_Some; [by left|right]. by apply (H2 h k').
  - intros h [k' [[<- _]|[_ E]]%lookup_insert_Some]; [lia|].
    pose proof (H4 h (mk_is_Some _ _ E)). lia.
Qed.

Lemma owns_set t s p w : owns (set_owner s p w) t = if decide (t = s) then p else owns w t.
Proof. done. Qed.

(** Storing the loose context, and deleting the one that was there. *)
Lemma reset_to_balanced s p w : balanced_but p (kind_of s) w -> balanced (reset_to s p w).
Proof.
  intros [H1 H2 H3 H4 H5 H6]. unfold reset_to. destruct (owns w s) as [old|] eqn:Eo.
  - destruct (H1 s old Eo) as [Ea Hp]. rewrite deleter_frees. unfold free_ctx. simpl_update.
    rewrite decide_True by done.
    constructor; simpl_update; try done.
    + intros t h. rewrite owns_set. destruct (decide (t = s)) as [->|Hne].
      * intros E. rewrite lookup_delete_ne by congruence. by apply H2.
      * intros E. rewrite lookup_delete_ne; [by apply H1|]. intros <-. by apply Hne, (H4 t s old).
    + intros h k [Hne E]%lookup_delete_Some. destruct (H3 h k E) as [->|[t Et]].
      * exists s. by rewrite owns_set, decide_True.
      * exists t. rewrite owns_set, decide_False; [done|]. intros ->. congruence.
    + intros t u h. rewrite !owns_set. destruct (decide (t = s)), (decide (u = s)); try congruence.
      * intros E F. by destruct (H1 u h F).
      * intros E F. by destruct (H1 t h E).
      * apply H4.
    + intros h [k [_ E]%lookup_delete_Some]. by apply H5.
  - constructor; simpl_update; try done.
    + intros t h. rewrite owns_set. destruct (decide (t = s)) as [->|Hne]; [apply H2|].
      intros E. by apply H1.
    + intros h k E. destruct (H3 h k E) as [->|[t Et]].
      * exists s. by rewrite owns_set, decide_True.
      * exists t. rewrite owns_set, decide_False; [done|]. intros ->. congruence.
    + intros t u h. rewrite !owns_set. destruct (decide (t = s)), (decide (u = s)); try congruence.
      * intros E F. by destruct (H1 u h F).
      * intros E F. by destruct (H1 t h E).
      * apply H4.
Qed.

Lemma reset_balanced s w : balanced w -> balanced (reset s w).
Proof. intros Hb. by apply reset_to_balanced, balanced_none. Qed.

Lemma adopt_balanced s ok w : balanced w -> balanced (adopt s (alloc_ctx (kind_of s) ok w)).
Proof.
  intros Hb. unfold adopt. pose proof (alloc_ctx_balanced (kind_of s) ok w Hb) as P.
  destruct (alloc_ctx _ ok w). by apply reset_to_balanced.
Qed.

Lemma adopt_format_balanced ok w : balanced w -> balanced (adopt fmt_ctx (avformat_open_input ok w)).
Proof. apply (adopt_balanced fmt_ctx). Qed.
Lemma adopt_filter_balanced ok w : balanced w -> balanced (adopt bsf_ctx (av_bsf_alloc ok w)).
Proof. apply (adopt_balanced bsf_ctx). Qed.
Lemma adopt_clone_balanced ok w : balanced w -> balanced (adopt vp (av_packet_clone ok w)).
Proof. apply (adopt_balanced vp). Qed.
Lemma make_packet_balanced s ok w : kind_of s = Packet -> balanced w -> balanced (make_packet s ok w).
Proof. intros E. unfold make_packet, av_packet_alloc. rewrite <- E. apply adopt_balanced. Qed.

Lemma move_to_balanced d s w : kind_of d = kind_of s -> balanced w -> balanced (move_to d s w).
Proof.
  intros Hk [H1 H2 H3 H4 H5]. unfold move_to. apply reset_to_balanced. rewrite Hk.
  constructor; simpl_update; try done.
  - intros t h. rewrite owns_set. destruct (decide (t = s)); [done|]. intros E.
    split; [by apply H1|]. intros F. by apply n, (H3 t s h).
  - intros h E. by apply H1.
  - intros h k E. destruct (H2 h k E) as [t Et]. destruct (decide (t = s)) as [->|Hne]; [by left|].
    right. exists t. by rewrite owns_set, decide_False.
  - intros t u h. rewrite !owns_set. destruct (decide (t = s)), (decide (u = s)); try done. apply H3.
Qed.

Create HintDb handles discriminated.
#[local] Hint Resolve reset_balanced adopt_format_balanced adopt_filter_balanced
  adopt_clone_balanced balanced_init : handles.
#[local] Hint Extern 1 (balanced (make_packet _ _ _)) =>
  (apply make_packet_balanced; [reflexivity|]) : handles.
#[local] Hint Extern 1 (balanced (move_to _ _ _)) => (apply move_to_balanced; [reflexivity|]) : handles.
#[local] Hint Extern 0 (balanced (snd (_, _))) => cbn [snd] : handles.

Lemma make_bsf_context_balanced found alloc w :
  balanced w -> balanced (make_bsf_context bsf_ctx found alloc w).
Proof. unfold make_bsf_context. destruct found; cbn [negb]; auto with handles. Qed.
#[local] Hint Resolve make_bsf_context_balanced : handles.

Lemma close_balanced w : balanced w -> balanced (close w).
Proof. unfold close. auto with handles. Qed.
#[local] Hint Resolve close_balanced : handles.

Lemma open_balanced c w : balanced w -> balanced (snd (open c w)).
Proof.
  intros Hb. unfold open, open_filter, open_packet. cbv zeta.
  repeat case_match; cbn [snd]; simplify_eq; auto 8 with handles.
Qed.

Lemma destroy_balanced w : balanced w -> balanced (destroy w).
Proof. unfold destroy. auto 8 with handles. Qed.
#[local] Hint Resolve destroy_balanced open_balanced : handles.

Lemma readPacket_balanced got clone w : balanced w -> balanced (snd (readPacket got clone w)).
Proof. intros Hb. unfold readPacket. repeat case_match; cbn [snd]; auto with handles. Qed.

Lemma handle_call_balanced k w : balanced w -> balanced (run_call k w).
Proof.
  intros Hb. destruct k as [c|c| |got clone|got clone keep| |]; cbn [run_call]; auto with handles.
  - unfold open_media. pose proof (open_balanced c (destroy w) (destroy_balanced w Hb)).
    destruct (open c (destroy w)) as [[] w1]; auto with handles.
  - unfold peek. do 2 (case_match; [done|]).
    pose proof (readPacket_balanced got clone w Hb). destruct (readPacket got clone w) as [[] w1];
      auto with handles.
  - unfold tick_read. case_match; [done|].
    pose proof (readPacket_balanced got clone w Hb).
    destruct (readPacket got clone w) as [[] w1], keep; cbn [andb]; auto with handles.
Qed.

Lemma run_balanced ks : balanced (run ks).
Proof.
  unfold run. pose proof balanced_init as Hb. revert Hb. generalize heap_init as w.
  induction ks as [|k ks IH]; intros w Hb; [done|]. cbn [fold_left]. by apply IH, handle_call_balanced.
Qed.

(** ** What the owners hold *)

Lemma owns_reset_to t s p w :
  owns (reset_to s p w) t = if decide (t = s) then p else owns w t.
Proof.
  unfold reset_to. destruct (owns w s); [|done]. rewrite deleter_frees. unfold free_ctx.
  by destruct (decide (allocated _ !! _ = _)).
Qed.

Lemma has_reset t s w : has t (reset s w) = if decide (t = s) then false else has t w.
Proof. unfold has, reset. rewrite owns_reset_to. by destruct (decide (t = s)). Qed.

Lemma owns_adopt t s k ok w :
  owns (adopt s (alloc_ctx k ok w)) t
  = if decide (t = s) then (if ok then Some (next w) else None) else owns w t.
Proof. unfold adopt, alloc_ctx. destruct ok; by rewrite owns_reset_to. Qed.

Lemma has_adopt t s k ok w :
  has t (adopt s (alloc_ctx k ok w)) = if decide (t = s) then ok else has t w.
Proof. unfold has. rewrite owns_adopt. destruct (decide (t = s)); [by destruct ok|done]. Qed.

Lemma has_open_input t ok w :
  has t (adopt fmt_ctx (avformat_open_input ok w)) = if decide (t = fmt_ctx) then ok else has t w.
Proof. apply has_adopt. Qed.

Lemma has_clone t ok w :
  has t (adopt vp (av_packet_clone ok w)) = if decide (t = vp) then ok else has t w.
Proof. apply has_adopt. Qed.

Lemma has_make_packet t s ok w : has t (make_packet s ok w) = if decide (t = s) then ok else has t w.
Proof. apply has_adopt. Qed.

Lemma has_make_bsf_context t s found alloc w :
  has t (make_bsf_context s found alloc w)
  = if decide (t = s) then found && alloc else has t w.
Proof.
  unfold make_bsf_context. destruct found; cbn [negb]; [apply has_adopt|apply has_reset].
Qed.

Lemma has_close t w :
  has t (close w) = match t with prefetch | pending | vp => has t w | _ => false end.
Proof. unfold close. rewrite !has_reset. by destruct t. Qed.

Lemma end_session_empty w : forall s, s <> vp -> owns (end_session w) s = None.
Proof.
  intros s Hs. unfold end_session, destroy, close, reset. rewrite !owns_reset_to. by destruct s.
Qed.

(** The local variable is empty between the calls. *)
Lemma run_vp ks : owns (run ks) vp = None.
Proof.
  assert (forall w, owns w vp = None -> forall k, owns (run_call k w) vp = None) as Hk.
  { assert (forall w s, s <> vp -> owns (reset s w) vp = owns w vp) as Hr
      by (intros w s Hs; unfold reset; rewrite owns_reset_to; by rewrite decide_False).
    assert (forall w, owns (close w) vp = owns w vp) as Hc
      by (intros w; unfold close; by rewrite !Hr).
    assert (forall w, owns (destroy w) vp = owns w vp) as Hd
      by (intros w; unfold destroy; by rewrite !Hr, Hc).
    assert (forall w s k ok, s <> vp -> owns (adopt s (alloc_ctx k ok w)) vp = owns w vp) as Ha.
    { intros w s k ok Hs. by rewrite owns_adopt, decide_False. }
    assert (forall c w, owns (snd (open c w)) vp = owns w vp) as Ho.
    { intros c w. unfold open, open_filter, open_packet, make_packet, make_bsf_context, avformat_open_input, av_bsf_alloc, av_packet_alloc. cbv zeta.
      repeat case_match; cbn [snd]; simplify_eq; rewrite ?Hc, ?Hr, ?Ha, ?Hr, ?Ha, ?Hr, ?Ha, ?Hc; done. }
    intros w Hw [c|c| |got clone|got clone keep| |]; cbn [run_call].
    - unfold open_media. pose proof (Ho c (destroy w)) as E.
      destruct (open c (destroy w)) as [[] w1]; cbn [snd] in E; rewrite ?Hd; by rewrite E, Hd.
    - by rewrite Ho.
    - by rewrite Hc.
    - unfold peek. do 2 (case_match; [done|]). destruct (readPacket got clone w) as [[] w1];
        unfold reset; by rewrite owns_reset_to.
    - unfold tick_read. case_match; [done|]. destruct (readPacket got clone w) as [[] w1], keep;
        unfold reset; by rewrite owns_reset_to.
    - by rewrite Hr.
    - by rewrite Hd. }
  unfold run. assert (owns heap_init vp = None) as E by done. revert E. generalize heap_init as w.
  induction ks as [|k ks IH]; intros w E; [done|]. cbn [fold_left]. by apply IH, Hk.
Qed.

(** ** The presence flags of [MediaSource.v] *)

Section presence.
Context {Fmt Bsf : Type} `{FFmpeg Fmt Bsf}.
Implicit Types m : MediaSource Fmt Bsf.

(** The owners hold a context exactly where the model of the source says so. *)
Definition agrees (w : heap) m : Prop :=
  has fmt_ctx w = MediaSource.isOpen m
  /\ has bsf_ctx w = (match bsf_ctx_ m with Some _ => true | None => false end)
  /\ has pkt w = pkt_ m /\ has audio_pkt w = audio_pkt_ m
  /\ has prefetch w = (match prefetch_vp_ m with Some _ => true | None => false end).

(** The answers of FFmpeg for a path. *)
Definition calls_of (path : text) : open_calls :=
  let no := {| c_open := false; c_video := false; c_h264 := false; c_avcc := false;
               c_found := false; c_alloc := false; c_init := false; c_pkt := false;
               c_audio := false; c_audio_pkt := false |} in
  match MediaSource.avformat_open_input path with
  | None => no
  | Some raw =>
      let fmt := avformat_find_stream_info raw in
      let idx := av_find_best_stream AVMEDIA_TYPE_VIDEO fmt in
      let st := streams fmt idx in
      {| c_open := true; c_video := negb (idx <? 0); c_h264 := codec_is_h264 st;
         c_avcc := (4 <=? length (extradata st))%nat && (hd 0 (extradata st) =? 1);
         c_found := true;
         c_alloc := (match MediaSource.av_bsf_alloc "h264_mp4toannexb" with Some _ => true | None => false end);
         c_init := (match MediaSource.av_bsf_alloc "h264_mp4toannexb" with
                    | Some b => match av_bsf_init st b with Some _ => true | None => false end
                    | None => false end);
         c_pkt := MediaSource.av_packet_alloc 0;
         c_audio := 0 <=? av_find_best_stream AVMEDIA_TYPE_AUDIO fmt;
         c_audio_pkt := MediaSource.av_packet_alloc 1 |}
  end.

Lemma close_agrees w m : agrees w m -> agrees (close w) (MediaSource.close m).
Proof.
  intros (_ & _ & _ & _ & H5). unfold agrees. rewrite !has_close. by destruct m.
Qed.

(** The packets and the audio stream. *)
Lemma open_packet_agrees c fmt w m :
  c_pkt c = MediaSource.av_packet_alloc 0 -> c_audio_pkt c = MediaSource.av_packet_alloc 1 ->
  c_audio c = (0 <=? av_find_best_stream AVMEDIA_TYPE_AUDIO fmt) -> agrees w m ->
  audio_pkt_ m = false ->
  fst (open_packet c w) = fst (MediaSource.open_packet fmt m)
  /\ agrees (snd (open_packet c w)) (snd (MediaSource.open_packet fmt m)).
Proof.
  intros Ep Ea Ei Hw Hf. unfold open_packet, MediaSource.open_packet. cbv zeta.
  rewrite has_make_packet, decide_True, Ep by done.
  change (pkt_ (m <| pkt_ := MediaSource.av_packet_alloc 0 |>)) with (MediaSource.av_packet_alloc 0).
  assert (agrees (make_packet pkt (MediaSource.av_packet_alloc 0) w) (m <| pkt_ := MediaSource.av_packet_alloc 0 |>)) as Hw'.
  { destruct Hw as (H1 & H2 & H3 & H4 & H5). unfold agrees, MediaSource.isOpen in *. simpl_update.
    rewrite !has_make_packet. cbn [decide]. by split_and!. }
  destruct (MediaSource.av_packet_alloc 0); cbn [negb fst snd]; [|split; [done|exact (close_agrees _ _ Hw')]].
  split; [done|]. unfold open_audio. cbv zeta. rewrite Ei, Ea.
  destruct Hw' as (H1 & H2 & H3 & H4 & H5).
  destruct (0 <=? _); [|by unfold agrees, MediaSource.isOpen in *].
  destruct (MediaSource.av_packet_alloc 1), (2 <=? _)%nat; unfold agrees, MediaSource.isOpen in *;
    rewrite !(has_make_packet _ audio_pkt); by split_and!.
Qed.

(** [open] answers the same as in [MediaSource.v] and leaves the same contexts. *)
Lemma open_agrees path w m :
  agrees w m ->
  fst (open (calls_of path) w) = fst (MediaSource.open path m)
  /\ agrees (snd (open (calls_of path) w)) (snd (MediaSource.open path m)).
Proof.
  intros Hw%close_agrees. unfold open, MediaSource.open, calls_of.
  destruct (MediaSource.avformat_open_input path) as [raw|]; [|done]. cbn [negb c_open c_video c_h264].
  set (fmt := avformat_find_stream_info raw). unfold open_container. cbv zeta.
  set (idx := av_find_best_stream AVMEDIA_TYPE_VIDEO fmt). set (st := streams fmt idx).
  assert (has fmt_ctx (close w) = false /\ audio_pkt_ (MediaSource.close m) = false
          /\ bsf_ctx_ (MediaSource.close m) = None) as (Hf0 & Ha0 & Hb0) by by rewrite has_close.
  revert Hw Hf0 Ha0 Hb0. generalize (close w) as w1, (MediaSource.close m) as m1.
  intros w1 m1 Hw Hf0 Ha0 Hb0.
  set (m2 := m1 <| fmt_ctx_ := Some fmt |> <| video_idx_ := idx |>).
  assert (agrees (adopt fmt_ctx (avformat_open_input true w1)) m2) as Hw2.
  { destruct Hw as (H1 & H2 & H3 & H4 & H5). unfold agrees, MediaSource.isOpen in *.
    rewrite !has_open_input. cbn [decide]. by split_and!. }
  assert (agrees (reset fmt_ctx (adopt fmt_ctx (avformat_open_input true w1))) (m2 <| fmt_ctx_ := None |>))
    as Hfail.
  { destruct Hw2 as (H1 & H2 & H3 & H4 & H5). unfold agrees, MediaSource.isOpen in *.
    rewrite !has_reset. cbn [decide]. by split_and!. }
  destruct (idx <? 0); cbn [negb]; [done|]. destruct (codec_is_h264 st); cbn [negb]; [|done].
  set (m3 := open_video fmt st m2).
  assert (agrees (adopt fmt_ctx (avformat_open_input true w1)) m3 /\ audio_pkt_ m3 = false /\ bsf_ctx_ m3 = None)
    as (Hw3 & Ha3 & Hb3).
  { unfold m3, open_video. by destruct (parseExtradata _ _) as [[]|]. }
  clear Hfail Hw2. clearbody m3. clear m2.
  revert Hw3. generalize (adopt fmt_ctx (avformat_open_input true w1)) as w2. intros w2 Hw2.
  unfold open_filter, open_h264, install_filter. cbv zeta. cbn [c_avcc c_found c_alloc c_init].
  destruct (_ && _); [|by apply open_packet_agrees].
  rewrite has_make_bsf_context, decide_True by done. cbn [andb].
  pose proof Hw2 as (H1 & H2 & H3 & H4 & H5).
  destruct (MediaSource.av_bsf_alloc _) as [b|]; [destruct (av_bsf_init st b) as [b'|]|]; cbn [negb].
  - apply open_packet_agrees; try done. unfold agrees, MediaSource.isOpen in *.
    rewrite !has_make_bsf_context. by split_and!.
  - split; [done|]. unfold agrees, MediaSource.isOpen in *. cbn [snd]. simpl_update.
    rewrite !has_reset, !has_make_bsf_context. by split_and!.
  - split; [done|]. unfold agrees, MediaSource.isOpen in *. cbn [snd]. simpl_update.
    rewrite !has_reset, !has_make_bsf_context. by split_and!.
Qed.

(** The other operations keep the contexts; what [readPacket] hands out comes from the place that
    [prefetch_vp_] had, or from a clone. *)
Lemma agrees_kept w m m' :
  keeps_parts m m' -> has_prefetch m' = has_prefetch m -> agrees w m -> agrees w m'.
Proof.
  intros [[= E1 E2 E3 E4 _ _ _] _] E5. unfold agrees. unfold has_filter in E2. unfold has_prefetch in E5.
  by rewrite E1, E2, E3, E4, E5.
Qed.

Lemma readPacket_agrees w m :
  owns w vp = None -> agrees w m ->
  exists got clone,
    fst (readPacket got clone w)
      = (match fst (MediaSource.readPacket m) with Some _ => true | None => false end)
    /\ agrees (snd (readPacket got clone w)) (snd (MediaSource.readPacket m)).
Proof.
  intros Hvp Hw. pose proof Hw as (H1 & H2 & H3 & H4 & H5). unfold readPacket, MediaSource.readPacket.
  rewrite H5, H3. destruct (prefetch_vp_ m) as [v|] eqn:Ev.
  - exists true, true. split; [done|]. cbn [snd]. unfold agrees, move_to, has, MediaSource.isOpen in *.
    simpl_update. rewrite !owns_reset_to. cbn [decide]. unfold set_owner. simpl_update. by split_and!.
  - destruct (pkt_ m); cbn [negb]; [|exists true, true; by split].
    destruct (read_loop (read_fuel m) m) as [[o m']|] eqn:E; cbn [default fst snd];
      [|exists false, true; by split].
    apply read_loop_kept in E as [E1 E2]. apply (agrees_kept w m m' E1 E2) in Hw.
    destruct o as [v|]; [|exists false, true; by split]. exists true, true. cbn [negb].
    rewrite has_clone, decide_True by done. split; [done|]. cbn [snd].
    unfold agrees in *. rewrite !has_clone. by cbn [decide].
Qed.
End presence.

(** ** Properties *)

(** When [open] succeeds. *)
Definition opens (c : open_calls) : bool :=
  c_open c && c_video c && c_h264 c && (negb (c_avcc c) || (c_found c && c_alloc c && c_init c))
  && c_pkt c.

(** Where there is a context after a call. *)
Ltac whereabouts :=
  repeat first
    [ rewrite has_make_packet | rewrite has_make_bsf_context | rewrite has_open_input
    | rewrite has_reset | rewrite has_close | rewrite decide_True by done
    | rewrite decide_False by done ];
  cbn [negb andb].

Lemma open_packet_outcome c w :
  let '(ok, w') := open_packet c w in
  ok = c_pkt c
  /\ has fmt_ctx w' = ok && has fmt_ctx w /\ has bsf_ctx w' = ok && has bsf_ctx w
  /\ has pkt w' = ok /\ has audio_pkt w' = ok && (if c_audio c then c_audio_pkt c else has audio_pkt w)
  /\ has prefetch w' = has prefetch w /\ has pending w' = has pending w.
Proof.
  unfold open_packet. cbv zeta. whereabouts.
  destruct (c_pkt c) eqn:Ep, (c_audio c); cbn [negb andb]; whereabouts; by split_and!.
Qed.

(** What the members of the source hold after [open]: nothing when it fails, and else what the file
    asks for, whatever they held before. *)
Lemma open_outcome c w :
  let '(ok, w') := open c w in
  ok = opens c
  /\ has fmt_ctx w' = ok /\ has bsf_ctx w' = ok && c_avcc c /\ has pkt w' = ok
  /\ has audio_pkt w' = ok && c_audio c && c_audio_pkt c
  /\ has prefetch w' = has prefetch w /\ has pending w' = has pending w.
Proof.
  unfold open, open_filter, opens. cbv zeta.
  destruct (c_open c), (c_video c), (c_h264 c); cbn [negb andb]; try (whereabouts; by split_and!).
  destruct (c_avcc c); whereabouts.
  - destruct (c_found c), (c_alloc c), (c_init c); cbn [negb andb orb]; try (whereabouts; by split_and!).
    pose proof (open_packet_outcome c
      (make_bsf_context bsf_ctx true true (adopt fmt_ctx (avformat_open_input true (close w))))) as P.
    destruct (open_packet c _) as [ok w']. revert P. whereabouts. intros (-> & -> & -> & -> & -> & -> & ->).
    by destruct (c_pkt c), (c_audio c).
  - pose proof (open_packet_outcome c (adopt fmt_ctx (avformat_open_input true (close w)))) as P.
    destruct (open_packet c _) as [ok w']. revert P. whereabouts. intros (-> & -> & -> & -> & -> & -> & ->).
    by destruct (c_pkt c), (c_audio c).
Qed.

(** C21: FFmpeg's contexts are neither leaked nor freed twice.  Over every run of the calls that the
    session makes on its source and its pending packet, whatever FFmpeg answers: each context is
    freed by FFmpeg's function for its kind and while it is allocated, the allocated contexts are
    exactly those that an owner of their type holds, no two owners share one (so the buffer of the
    packet that the session keeps outlives the source it came from), and when the session has ended
    all have been freed.  At any point of such a run [open] first gives up what the source held: when
    it fails, on whichever of its paths, the source holds no context, and when it succeeds it holds
    the container and the packet, the filter only for a file that needs it and the audio packet only
    for a file with audio. *)
Theorem contexts_freed_once (ks : list call) :
  let w := run ks in
  misfreed w = false
  /\ (forall h k, allocated w !! h = Some k <->
        exists s, owns w s = Some h /\ pointee (pointer_of s) = k)
  /\ (forall s t h, owns w s = Some h -> owns w t = Some h -> s = t)
  /\ misfreed (end_session w) = false /\ allocated (end_session w) = ∅
  /\ (forall c, let '(ok, w') := open c w in
        misfreed w' = false /\ ok = opens c
        /\ has fmt_ctx w' = ok /\ has bsf_ctx w' = ok && c_avcc c /\ has pkt w' = ok
        /\ has audio_pkt w' = ok && c_audio c && c_audio_pkt c
        /\ has prefetch w' = has prefetch w /\ has pending w' = has pending w).
Proof.
  intros w. pose proof (run_balanced ks) as Hb. fold w in Hb.
  assert (balanced (end_session w)) as He by (apply destroy_balanced, reset_balanced, Hb).
  split; [apply Hb|]. split; [|split; [apply Hb|split; [apply He|split]]].
  - intros h k. split.
    + intros E. destruct (b_held w Hb h k E) as [s Es]. exists s. split; [done|].
      pose proof (b_owned w Hb s h Es). unfold kind_of in *. congruence.
    + intros (s & Es & <-). by apply Hb.
  - apply map_empty. intros h. destruct (allocated (end_session w) !! h) as [k|] eqn:E; [|done].
    destruct (b_held _ He h k E) as [s Es]. exfalso. destruct (decide (s = vp)) as [->|Hs].
    + assert (owns (end_session w) vp = owns w vp) as Ev
        by (unfold end_session, destroy, close, reset; by rewrite !owns_reset_to).
      rewrite Ev in Es. unfold w in Es. by rewrite run_vp in Es.
    + by rewrite end_session_empty in Es.
  - intros c. pose proof (open_outcome c w) as P. pose proof (b_fine _ (open_balanced c w Hb)) as F.
    destruct (open c w) as [ok w']. by split.
Qed.

(** The presence flags of the source model are those of the owners: [open] and [close] leave the
    same contexts and answer the same, so does [readPacket] for the answers of FFmpeg that led to
    its result, and the other operations keep them. *)
Theorem owners_refine_source {Fmt Bsf} `{FFmpeg Fmt Bsf} (w : heap) (m : MediaSource Fmt Bsf) :
  agrees heap_init (MediaSource_default (Fmt := Fmt) (Bsf := Bsf)) /\
  (agrees w m -> owns w vp = None ->
   agrees (close w) (MediaSource.close m)
   /\ (forall path, fst (open (calls_of path) w) = fst (MediaSource.open path m)
        /\ agrees (snd (open (calls_of path) w)) (snd (MediaSource.open path m)))
   /\ (exists got clone,
        fst (readPacket got clone w)
          = (match fst (MediaSource.readPacket m) with Some _ => true | None => false end)
        /\ agrees (snd (readPacket got clone w)) (snd (MediaSource.readPacket m)))
   /\ (forall off secs delta, agrees w (seek off m) /\ agrees w (snd (seekToSeconds secs m))
        /\ agrees w (snd (readAudioPacket m)) /\ agrees w (adjustRTPOffset delta m))).
Proof.
  split; [done|]. intros Hw Hvp. split; [by apply close_agrees|].
  split; [intros path; by apply open_agrees|]. split; [by apply readPacket_agrees|].
  intros off secs delta.
  split_and!; (eapply agrees_kept; [| |exact Hw]);
    first [apply seek_kept | apply seekToSeconds_kept | apply readAudioPacket_kept | apply adjust_kept | idtac].
  unfold readAudioPacket. destruct (_ <? 0); [done|]. by destruct (audio_queue_ m).
Qed.

(** A describe that fails at the filter, one that succeeds, a packet that is kept while the next
    describe replaces the source, and the end. *)
Definition a_session : heap :=
  let ok := mkOpenCalls true true true true true true true true true true in
  let no_filter := mkOpenCalls true true true true true true false true true true in
  run [OpenMedia no_filter; OpenMedia ok; Peek true true; TickRead true true true; OpenMedia ok].

Example pending_outlives_source :
  owns a_session pending = Some 6%nat /\ allocated a_session !! 6%nat = Some Packet
  /\ owns a_session fmt_ctx = Some 7%nat /\ size (allocated a_session) = 5%nat
  /\ next a_session = 11%nat.
Proof. by vm_compute. Qed.
