(* ===== verification/Egress.v ===== *)
(** * [Egress]: the outbox of a session (src/server/RTSPSession.cpp: [onWritable],
    [enableWrite], [sendResponse], [pushTCPFrame])

    The write side of a session is shared by two threads: the worker of the session's pacer
    tick produces buffers, the Dispatcher writes them to the socket when epoll reports it
    writable.  Here are the operations as functions; [OutboxProtocol] has the same code as
    atomic steps of the two threads.  Proved: the socket receives the pushed buffers in order,
    unbroken, whatever the partial writes, and the byte counter that the high-watermark test
    reads is exact up to the buffer in flight. *)

From S2P Require Import Prelude StdString RTSPResponse RTPSender.
From S2P Require Queues.

(** ** State *)

(** [kOutboxHWM] of [RTSPSession<>]: 5 MiB. *)
Definition kOutboxHWM : Z := 5 * 1024 * 1024.

(** The members of [RTSPSession] that the write side uses; [epollout] is the kernel's
    registration of the descriptor: whether EPOLLOUT is among its events. *)
Record egress := mkEgress {
  outbox_ : list bytes;
  outbox_bytes_ : Z;
  wbuf_ : option bytes;
  woff_ : nat;
  epollout_armed_ : bool;
  close_after_write_ : bool;
  epollout : bool
}.

#[global] Instance egress_updatable : Updatable egress := fun e =>
  {| outbox_ := outbox_ e; outbox_bytes_ := outbox_bytes_ e; wbuf_ := wbuf_ e;
     woff_ := woff_ e; epollout_armed_ := epollout_armed_ e;
     close_after_write_ := close_after_write_ e; epollout := epollout e |}.

Definition egress_init : egress :=
  {| outbox_ := []; outbox_bytes_ := 0; wbuf_ := None; woff_ := 0; epollout_armed_ := false;
     close_after_write_ := false; epollout := false |}.

Definition size_of (buf : bytes) : Z := Z.of_nat (length buf).

(** ** The operations *)

(** [enableWrite]: compare-and-set of the flag, then [EPOLL_CTL_MOD]. *)
Definition enableWrite (e : egress) : egress :=
  if epollout_armed_ e then e else e <| epollout_armed_ := true |> <| epollout := true |>.

(** The common end of [sendResponse] and [pushTCPFrame]: count, push, arm. *)
Definition push_buffer (buf : bytes) (e : egress) : egress :=
  enableWrite (e <| outbox_bytes_ := u64 (outbox_bytes_ e + size_of buf) |>
                 <| outbox_ := Queues.NonBlockingQueue.push buf (outbox_ e) |>).

Definition sendResponse (resp : RTSPResponse) (e : egress) : egress :=
  push_buffer (to_bytes (toString resp)) e.

(** The frame built by [pushTCPFrame]; the channel and the length are truncated. *)
Definition tcp_frame (channel : Z) (rtp : bytes) : bytes :=
  let len := u16 (size_of rtp) in
  [byte_of_char "$"; u8 channel; u8 (Z.shiftr len 8); u8 (Z.land len 255)] ++ rtp.

Definition pushTCPFrame (channel : Z) (rtp : bytes) (e : egress) : egress :=
  if kOutboxHWM <? outbox_bytes_ e then e <| close_after_write_ := true |>
  else push_buffer (tcp_frame channel rtp) e.

(** What one [::send] answers: [n > 0] octets, 0, EAGAIN or EWOULDBLOCK, EINTR, or another
    error. *)
Inductive send_result := Sent (n : nat) | SentNothing | SendAgain | SendIntr | SendError.

(** The [if (!wbuf_)] block when the outbox has a buffer. *)
Definition refill (e : egress) : option egress :=
  match wbuf_ e with
  | Some _ => Some e
  | None =>
      let '(opt, q) := Queues.NonBlockingQueue.try_pop (outbox_ e) in
      match opt with
      | None => None
      | Some buf =>
          Some (e <| outbox_ := q |> <| wbuf_ := Some buf |>
                  <| outbox_bytes_ :=
                       u64 (outbox_bytes_ e - Z.min (size_of buf) (outbox_bytes_ e)) |>
                  <| woff_ := 0%nat |>)
      end
  end.

(** ... and when it is empty: EPOLLOUT is disarmed. *)
Definition disarm (e : egress) : egress :=
  e <| epollout := false |> <| epollout_armed_ := false |>.

(** After [::send] took [n] octets. *)
Definition advance (n : nat) (buf : bytes) (e : egress) : egress :=
  let woff := (woff_ e + n)%nat in
  if (length buf <=? woff)%nat then e <| wbuf_ := None |> <| woff_ := 0%nat |>
  else e <| woff_ := woff |>.

(** [onWritable] over the results of the successive [::send] calls; [None]: the loop still
    waits for the next result.  The octets written are returned as well. *)
Fixpoint onWritable (results : list send_result) (e : egress) : option bool * bytes * egress :=
  match refill e with
  | None => (Some (negb (close_after_write_ e)), [], disarm e)
  | Some e =>
      match wbuf_ e, results with
      | None, _ => (None, [], e)
      | Some buf, [] => (None, [], e)
      | Some buf, r :: rest =>
          match r with
          | Sent n =>
              let '(res, out, e') := onWritable rest (advance n buf e) in
              (res, take n (drop (woff_ e) buf) ++ out, e')
          | SentNothing => (Some false, [], e)
          | SendAgain => (Some true, [], e)
          | SendIntr => onWritable rest e
          | SendError => (Some false, [], e)
          end
      end
  end.

(** ** What is still to be written *)

Definition unwritten (e : egress) : bytes :=
  match wbuf_ e with Some buf => drop (woff_ e) buf | None => [] end.

Definition pending (e : egress) : bytes := unwritten e ++ concat (outbox_ e).

(** A half-written buffer has octets left; the counter is the size of the outbox. *)
Record egress_wf (e : egress) : Prop := {
  wf_woff : match wbuf_ e with Some buf => (woff_ e < length buf)%nat | None => True end;
  wf_nonempty : Forall (fun b => b <> []) (outbox_ e);
  wf_bytes : outbox_bytes_ e = size_of (concat (outbox_ e));
  wf_bound : outbox_bytes_ e < 2 ^ 64
}.

Lemma size_of_app a b : size_of (a ++ b) = size_of a + size_of b.
Proof. unfold size_of. len_lia. Qed.

Lemma size_of_nonneg a : 0 <= size_of a.
Proof. unfold size_of. lia. Qed.

Lemma refill_spec e e' :
  egress_wf e -> refill e = Some e' ->
  egress_wf e' /\ pending e' = pending e /\ is_Some (wbuf_ e')
  /\ close_after_write_ e' = close_after_write_ e.
Proof.
  intros [Hw Hn Hb Hlt] H. unfold refill in H. destruct (wbuf_ e) as [buf|] eqn:Ew.
  - injection H as <-. rewrite Ew. repeat split; try done. by rewrite Ew.
  - unfold Queues.NonBlockingQueue.try_pop in H.
    destruct (outbox_ e) as [|buf q] eqn:Eo; [done|]. injection H as <-.
    apply Forall_cons in Hn as [Hbuf Hn]. cbn [concat] in Hb. rewrite size_of_app in Hb.
    pose proof (size_of_nonneg buf). pose proof (size_of_nonneg (concat q)).
    repeat split; simpl_update; try done.
    + destruct buf; [done|simpl; lia].
    + rewrite Z.min_l, u64_small by lia. lia.
    + rewrite Z.min_l, u64_small by lia. lia.
    + unfold pending, unwritten. simpl_update. rewrite Ew, Eo, drop_0. done.
Qed.

Lemma refill_None e : refill e = None <-> wbuf_ e = None /\ outbox_ e = [].
Proof.
  unfold refill, Queues.NonBlockingQueue.try_pop.
  destruct (wbuf_ e), (outbox_ e); split; intros; destruct_and?; try done.
Qed.

Lemma advance_spec n buf e :
  egress_wf e -> wbuf_ e = Some buf ->
  egress_wf (advance n buf e)
  /\ take n (drop (woff_ e) buf) ++ pending (advance n buf e) = pending e
  /\ close_after_write_ (advance n buf e) = close_after_write_ e.
Proof.
  intros [Hw Hn Hb Hlt] Eb. unfold advance, pending, unwritten. rewrite Eb.
  destruct (Nat.leb_spec (length buf) (woff_ e + n)); simpl_update.
  - repeat split; simpl_update; try done. rewrite take_ge by len_lia. done.
  - repeat split; simpl_update; try done; rewrite ?Eb; [lia|].
    by rewrite app_assoc, <- drop_drop, take_drop.
Qed.

Lemma onWritable_spec results : forall e,
  egress_wf e ->
  let '(res, out, e') := onWritable results e in
  egress_wf e' /\ out ++ pending e' = pending e
  /\ close_after_write_ e' = close_after_write_ e.
Proof.
  induction results as [|r results IH]; intros e Hwf; cbn [onWritable];
    (destruct (refill e) as [e1|] eqn:Er;
      [ apply refill_spec in Er as (Hwf1 & Hp1 & [buf Eb] & Hc1); [|done]; rewrite Eb
      | by destruct Hwf ]).
  - done.
  - destruct r as [n| | | |]; try done.
    + destruct (advance_spec n buf e1 Hwf1 Eb) as (Hwf2 & Hp2 & Hc2).
      specialize (IH _ Hwf2). destruct (onWritable results (advance n buf e1)) as [[res out] e'].
      destruct IH as (Hwf' & Hp' & Hc'). split; [done|]. split; [|congruence].
      by rewrite <- app_assoc, Hp', Hp2.
    + specialize (IH _ Hwf1). destruct (onWritable results e1) as [[res out] e'].
      destruct IH as (Hwf' & Hp' & Hc'). split; [done|]. split; congruence.
Qed.

(** The order of the octets does not depend on the counter. *)
Lemma refill_pending e e' : refill e = Some e' -> pending e' = pending e.
Proof.
  unfold refill, pending, unwritten. destruct (wbuf_ e) as [buf|] eqn:Ew.
  { intros [= <-]. by rewrite Ew. }
  unfold Queues.NonBlockingQueue.try_pop. destruct (outbox_ e) as [|buf q]; [done|].
  by intros [= <-].
Qed.

Lemma advance_pending n buf e :
  wbuf_ e = Some buf -> take n (drop (woff_ e) buf) ++ pending (advance n buf e) = pending e.
Proof.
  intros Eb. unfold advance, pending, unwritten. rewrite Eb.
  destruct (Nat.leb_spec (length buf) (woff_ e + n)); simpl_update.
  - by rewrite take_ge by len_lia.
  - by rewrite Eb, app_assoc, <- drop_drop, take_drop.
Qed.

Lemma onWritable_order results : forall e,
  let '(_, out, e') := onWritable results e in out ++ pending e' = pending e.
Proof.
  induction results as [|r results IH]; intros e; cbn [onWritable];
    (destruct (refill e) as [e1|] eqn:Er; [apply refill_pending in Er as <-|done]);
    destruct (wbuf_ e1) as [buf|] eqn:Eb; try done.
  destruct r as [n| | | |]; try done.
  - specialize (IH (advance n buf e1)). destruct (onWritable results _) as [[res out] e'].
    by rewrite <- (advance_pending n buf e1 Eb), <- IH, app_assoc.
  - specialize (IH e1). by destruct (onWritable results e1) as [[res out] e'].
Qed.

(** The calls that make progress, and what they take at most. *)
Definition taken (r : send_result) : nat := match r with Sent n => n | _ => 0 end.
Definition progress (r : send_result) : Prop :=
  match r with Sent n => (1 <= n)%nat | SendIntr => True | _ => False end.

(** With enough progress the outbox drains. *)
Lemma onWritable_drains results : forall e,
  egress_wf e -> Forall progress results ->
  (length (pending e) <= length (filter (fun r => taken r <> 0%nat) results))%nat ->
  let '(res, out, e') := onWritable results e in
  res = Some (negb (close_after_write_ e)) /\ pending e' = [] /\ epollout e' = false.
Proof.
  induction results as [|r results IH]; intros e Hwf Hp Hl; cbn [onWritable];
    (destruct (refill e) as [e1|] eqn:Er;
      [ apply refill_spec in Er as (Hwf1 & Hp1 & [buf Eb] & Hc1); [|done]; rewrite Eb
      | apply refill_None in Er as [Ew Eo]; split; [done|]; split; [|done];
        change (pending (disarm e)) with (pending e); unfold pending, unwritten;
        by rewrite Ew, Eo ]).
  - rewrite <- Hp1 in Hl. simpl in Hl. unfold pending, unwritten in Hl. rewrite Eb in Hl.
    destruct Hwf1 as [Hw _ _ _]. rewrite Eb in Hw. len_lia.
  - apply Forall_cons in Hp as [Hr Hp]. destruct r as [n| | | |]; try done; simpl in Hr.
    + destruct (advance_spec n buf e1 Hwf1 Eb) as (Hwf2 & Hp2 & Hc2).
      specialize (IH _ Hwf2 Hp). destruct (onWritable results _) as [[res out] e'].
      rewrite <- Hc1, <- Hc2. apply IH. rewrite filter_cons_True in Hl by (simpl; lia).
      rewrite <- Hp1, <- Hp2 in Hl. destruct Hwf1 as [Hw _ _ _]. rewrite Eb in Hw. len_lia.
    + specialize (IH _ Hwf1 Hp). destruct (onWritable results e1) as [[res out] e'].
      rewrite <- Hc1. apply IH. rewrite filter_cons_False in Hl by (simpl; lia). by rewrite Hp1.
Qed.

(** [onWritable] writes the pending octets in order: whatever [send] answers, what it wrote
    followed by what is pending afterwards is what was pending before, the byte counter stays
    the size of the outbox, and the close flag is left alone.  When the socket keeps taking
    octets the call returns with nothing pending, EPOLLOUT disarmed, and answers whether the
    connection stays open. *)
Theorem onWritable_writes_pending results e :
  egress_wf e ->
  let '(res, out, e') := onWritable results e in
  egress_wf e' /\ out ++ pending e' = pending e
  /\ close_after_write_ e' = close_after_write_ e
  /\ (Forall progress results ->
      (length (pending e) <= length (filter (fun r => taken r <> 0%nat) results))%nat ->
      res = Some (negb (close_after_write_ e)) /\ pending e' = [] /\ epollout e' = false).
Proof.
  intros H. pose proof (onWritable_spec results e H) as H1.
  pose proof (onWritable_drains results e H) as H2.
  destruct (onWritable results e) as [[res out] e'].
  destruct H1 as (? & ? & ?). by split_and!.
Qed.

Lemma onWritable_writes_pending_witness :
  let e := push_buffer [9; 9] (push_buffer [1; 2; 3] egress_init) in
  snd (fst (onWritable [Sent 2; SendIntr; Sent 1; Sent 1; Sent 1] e)) = [1; 2; 3; 9; 9]
  /\ epollout e = true /\ egress_wf (snd (onWritable [Sent 2; SendAgain] e)).
Proof.
  split; [reflexivity|]. split; [reflexivity|].
  refine (proj1 (onWritable_writes_pending [Sent 2; SendAgain]
    (push_buffer [9; 9] (push_buffer [1; 2; 3] egress_init)) _)).
  constructor; [exact I | repeat constructor; discriminate | reflexivity | reflexivity].
Defined.

Lemma push_buffer_spec buf e :
  egress_wf e -> buf <> [] -> outbox_bytes_ e + size_of buf < 2 ^ 64 ->
  egress_wf (push_buffer buf e) /\ pending (push_buffer buf e) = pending e ++ buf
  /\ epollout_armed_ (push_buffer buf e) = true
  /\ close_after_write_ (push_buffer buf e) = close_after_write_ e.
Proof.
  intros [Hw Hn Hb Hlt] Hbuf Hs. pose proof (size_of_nonneg buf).
  pose proof (size_of_nonneg (concat (outbox_ e))).
  assert (u64 (outbox_bytes_ e + size_of buf) = outbox_bytes_ e + size_of buf) as Hu
    by (apply u64_small; lia).
  unfold push_buffer, enableWrite, Queues.NonBlockingQueue.push. simpl_update.
  destruct (epollout_armed_ e) eqn:Ea; (split; [constructor; simpl_update|]);
    rewrite ?Hu, ?concat_app, ?size_of_app; simpl; rewrite ?app_nil_r;
    try done; try lia; try (by apply Forall_app; split; [|constructor]);
    unfold pending, unwritten; simpl_update; rewrite ?concat_app; simpl;
    by rewrite ?app_nil_r, ?app_assoc.
Qed.

Lemma tcp_frame_nonempty channel rtp : tcp_frame channel rtp <> [].
Proof. done. Qed.

Lemma toString_nonempty r : to_bytes (toString r) <> [].
Proof. done. Qed.
