(* ===== verification/OutboxProtocol.v ===== *)
(** * [OutboxProtocol]: the write side of a session under concurrency
    (src/server/RTSPSession.cpp: [onWritable], [enableWrite], [sendResponse],
    [pushTCPFrame])

    The operations of [Egress] as the atomic steps of two threads: the Dispatcher, which
    runs [onWritable] when epoll reports EPOLLOUT, and the one worker that holds the
    session's pacer tick, which pushes buffers.  Every access to an atomic, to the locked
    queue or to epoll is a step of its own.  [onWritable] of [Egress] is the run of
    Dispatcher steps without interference. *)

From S2P Require Import Prelude Egress.

(** Where the Dispatcher is in [onWritable]. *)
Inductive dispatcher :=
| DIdle            (* in epoll_wait *)
| DTop             (* head of the loop *)
| DLoad            (* buffer taken, [outbox_bytes_.load] to come *)
| DSub (m : Z)     (* [outbox_bytes_.fetch_sub(m)] to come *)
| DSend            (* [::send] to come *)
| DMod             (* outbox seen empty, EPOLL_CTL_MOD without EPOLLOUT to come *)
| DStore           (* [epollout_armed_.store(false)] to come *)
| DCheck           (* [close_after_write_.load] to come *)
| DClosed.         (* returned false *)

(** Where the worker is in [sendResponse] or [pushTCPFrame]. *)
Inductive producer :=
| PIdle
| PAdd (buf : bytes)   (* [outbox_bytes_.fetch_add] to come *)
| PPush (buf : bytes)  (* [outbox_.push] to come *)
| PCas                 (* the compare-and-set of [enableWrite] to come *)
| PMod.                (* EPOLL_CTL_MOD with EPOLLOUT to come *)

(** [wire] and [accepted] are history: the octets on the socket, the buffers pushed. *)
Record conn := mkConn {
  eg : egress;
  disp : dispatcher;
  prod : producer;
  wire : bytes;
  accepted : list bytes
}.

#[global] Instance conn_updatable : Updatable conn := fun c =>
  {| eg := eg c; disp := disp c; prod := prod c; wire := wire c; accepted := accepted c |}.

Definition conn_init : conn :=
  {| eg := egress_init; disp := DIdle; prod := PIdle; wire := []; accepted := [] |}.

(** [::send] returned [r] for the buffer [buf]. *)
Definition after_send (r : send_result) (buf : bytes) (c : conn) : conn :=
  match r with
  | Sent n => c <| eg := advance n buf (eg c) |> <| disp := DTop |>
                <| wire := wire c ++ take n (drop (woff_ (eg c)) buf) |>
  | SendIntr => c <| disp := DTop |>
  | SendAgain => c <| disp := DIdle |>
  | SentNothing | SendError => c <| disp := DClosed |>
  end.

Inductive dispatcher_step : conn -> conn -> Prop :=
| d_event c : disp c = DIdle -> epollout (eg c) = true ->
    dispatcher_step c (c <| disp := DTop |>)
| d_keep c : disp c = DTop -> is_Some (wbuf_ (eg c)) ->
    dispatcher_step c (c <| disp := DSend |>)
| d_pop c buf q : disp c = DTop -> wbuf_ (eg c) = None -> outbox_ (eg c) = buf :: q ->
    dispatcher_step c
      (c <| eg := (eg c) <| outbox_ := q |> <| wbuf_ := Some buf |> |> <| disp := DLoad |>)
| d_empty c : disp c = DTop -> wbuf_ (eg c) = None -> outbox_ (eg c) = [] ->
    dispatcher_step c (c <| disp := DMod |>)
| d_load c buf : disp c = DLoad -> wbuf_ (eg c) = Some buf ->
    dispatcher_step c (c <| disp := DSub (Z.min (size_of buf) (outbox_bytes_ (eg c))) |>)
| d_sub c m : disp c = DSub m ->
    dispatcher_step c
      (c <| eg := (eg c) <| outbox_bytes_ := u64 (outbox_bytes_ (eg c) - m) |>
                       <| woff_ := 0%nat |> |> <| disp := DSend |>)
| d_send c r buf : disp c = DSend -> wbuf_ (eg c) = Some buf ->
    dispatcher_step c (after_send r buf c)
| d_mod c : disp c = DMod ->
    dispatcher_step c (c <| eg := (eg c) <| epollout := false |> |> <| disp := DStore |>)
| d_store c : disp c = DStore ->
    dispatcher_step c (c <| eg := (eg c) <| epollout_armed_ := false |> |> <| disp := DCheck |>)
| d_check c : disp c = DCheck ->
    dispatcher_step c
      (c <| disp := if close_after_write_ (eg c) then DClosed else DIdle |>).

(** The buffers in memory fit its address space, hence the bound of [p_add]. *)
Inductive producer_step : conn -> conn -> Prop :=
| p_response c buf : prod c = PIdle -> buf <> [] -> producer_step c (c <| prod := PAdd buf |>)
| p_frame c buf : prod c = PIdle -> buf <> [] ->
    producer_step c
      (if kOutboxHWM <? outbox_bytes_ (eg c)
       then c <| eg := (eg c) <| close_after_write_ := true |> |>
       else c <| prod := PAdd buf |>)
| p_close c : prod c = PIdle ->
    producer_step c (c <| eg := (eg c) <| close_after_write_ := true |> |>)
| p_add c buf : prod c = PAdd buf -> outbox_bytes_ (eg c) + size_of buf < 2 ^ 64 ->
    producer_step c
      (c <| eg := (eg c) <| outbox_bytes_ := u64 (outbox_bytes_ (eg c) + size_of buf) |> |>
         <| prod := PPush buf |>)
| p_push c buf : prod c = PPush buf ->
    producer_step c
      (c <| eg := (eg c) <| outbox_ := Queues.NonBlockingQueue.push buf (outbox_ (eg c)) |> |>
         <| prod := PCas |> <| accepted := accepted c ++ [buf] |>)
| p_cas c : prod c = PCas ->
    producer_step c
      (if epollout_armed_ (eg c) then c <| prod := PIdle |>
       else c <| eg := (eg c) <| epollout_armed_ := true |> |> <| prod := PMod |>)
| p_mod c : prod c = PMod ->
    producer_step c (c <| eg := (eg c) <| epollout := true |> |> <| prod := PIdle |>).

Definition conn_step (c c' : conn) : Prop := dispatcher_step c c' \/ producer_step c c'.

Definition conn_reachable (c : conn) : Prop := rtc conn_step conn_init c.

(** ** The sequential operations are runs of these steps *)

(** One refill of [wbuf_], in steps. *)
Lemma refill_run e e1 p w a :
  refill e = Some e1 ->
  rtc dispatcher_step
    {| eg := e; disp := DTop; prod := p; wire := w; accepted := a |}
    {| eg := e1; disp := DSend; prod := p; wire := w; accepted := a |}.
Proof.
  unfold refill, Queues.NonBlockingQueue.try_pop. destruct (wbuf_ e) as [buf|] eqn:Ew.
  - intros [= <-]. eapply rtc_once, (d_keep {| eg := e |}); [done|]. by exists buf.
  - destruct (outbox_ e) as [|buf q] eqn:Eo; [done|]. intros [= <-].
    eapply rtc_l; [by eapply (d_pop {| eg := e |})|].
    eapply rtc_l; [by eapply d_load|]. by eapply rtc_once, d_sub.
Qed.

Lemma disarm_run e p w a :
  refill e = None ->
  rtc dispatcher_step
    {| eg := e; disp := DTop; prod := p; wire := w; accepted := a |}
    {| eg := disarm e; disp := if negb (close_after_write_ e) then DIdle else DClosed;
       prod := p; wire := w; accepted := a |}.
Proof.
  intros [Ew Eo]%refill_None.
  eapply rtc_l; [by eapply (d_empty {| eg := e |})|].
  eapply rtc_l; [by eapply d_mod|]. eapply rtc_l; [by eapply d_store|].
  eapply rtc_l; [by eapply d_check|]. simpl_update.
  change (close_after_write_ _) with (close_after_write_ e) at 1.
  destruct (close_after_write_ e); reflexivity.
Qed.

Lemma onWritable_run results : forall e p w a,
  let '(res, out, e') := onWritable results e in
  forall b, res = Some b ->
  rtc dispatcher_step
    {| eg := e; disp := DTop; prod := p; wire := w; accepted := a |}
    {| eg := e'; disp := if b then DIdle else DClosed; prod := p; wire := w ++ out;
       accepted := a |}.
Proof.
  induction results as [|r results IH]; intros e p w a; cbn [onWritable];
    (destruct (refill e) as [e1|] eqn:Er;
      [| intros b [= <-]; rewrite app_nil_r; by apply disarm_run ]).
  - by destruct (wbuf_ e1).
  - destruct (wbuf_ e1) as [buf|] eqn:Eb; [|done].
    pose proof (refill_run e e1 p w a Er) as Hrun.
    pose proof (d_send {| eg := e1; disp := DSend; prod := p; wire := w; accepted := a |}
      r buf eq_refl Eb) as Hsend.
    destruct r as [n| | | |]; cbn [after_send] in Hsend;
      try (intros b [= <-]; rewrite app_nil_r; by eapply rtc_r).
    + specialize (IH (advance n buf e1) p (w ++ take n (drop (woff_ e1) buf)) a).
      destruct (onWritable results (advance n buf e1)) as [[res out] e'].
      intros b Hb. rewrite app_assoc. etrans; [exact Hrun|].
      eapply rtc_l; [exact Hsend|]. by apply IH.
    + specialize (IH e1 p w a). destruct (onWritable results e1) as [[res out] e'].
      intros b Hb. etrans; [exact Hrun|]. eapply rtc_l; [exact Hsend|].
      by apply IH.
Qed.

(** ** Invariants of every interleaving *)

(** Octets counted but not in the outbox: being pushed, or taken and not yet subtracted. *)
Definition counted_push (p : producer) : Z :=
  match p with PPush buf => size_of buf | _ => 0 end.
Definition counted_pop (c : conn) : Z :=
  match disp c with
  | DLoad | DSub _ => size_of (default [] (wbuf_ (eg c)))
  | _ => 0
  end.

Record conn_inv (c : conn) : Prop := {
  ci_stream : wire c ++ pending (eg c) = concat (accepted c);
  ci_bytes : outbox_bytes_ (eg c)
    = size_of (concat (outbox_ (eg c))) + counted_push (prod c) + counted_pop c;
  ci_bound : outbox_bytes_ (eg c) < 2 ^ 64;
  ci_sub : match disp c with
           | DSub m => m = size_of (default [] (wbuf_ (eg c)))
           | _ => True
           end;
  ci_wbuf : match disp c with
            | DLoad | DSub _ => is_Some (wbuf_ (eg c)) /\ woff_ (eg c) = 0%nat
            | DSend => is_Some (wbuf_ (eg c))
            | DMod | DStore | DCheck => wbuf_ (eg c) = None
            | _ => True
            end;
  ci_woff : wbuf_ (eg c) = None -> woff_ (eg c) = 0%nat;
  ci_armed : match disp c with
             | DTop | DLoad | DSub _ | DSend | DMod => epollout (eg c) = true
             | DStore => epollout (eg c) = false /\ epollout_armed_ (eg c) = true
             | _ => True
             end;
  ci_arming : (epollout (eg c) = true -> epollout_armed_ (eg c) = true /\ prod c <> PMod)
    /\ (epollout_armed_ (eg c) = true ->
        epollout (eg c) = true \/ prod c = PMod \/ disp c = DStore)
    /\ (prod c = PMod -> epollout_armed_ (eg c) = true /\ disp c <> DStore)
}.

Lemma conn_inv_init : conn_inv conn_init.
Proof. by constructor; cbn. Qed.

Lemma inv_stream_pop (c : conn) buf q :
  wbuf_ (eg c) = None -> outbox_ (eg c) = buf :: q -> woff_ (eg c) = 0%nat ->
  pending ((eg c) <| outbox_ := q |> <| wbuf_ := Some buf |>) = pending (eg c).
Proof.
  intros Ew Eo E0. unfold pending, unwritten. simpl_update. by rewrite Ew, Eo, E0, drop_0.
Qed.

Lemma advance_same n buf e :
  outbox_ (advance n buf e) = outbox_ e /\ outbox_bytes_ (advance n buf e) = outbox_bytes_ e
  /\ epollout (advance n buf e) = epollout e
  /\ epollout_armed_ (advance n buf e) = epollout_armed_ e
  /\ (wbuf_ (advance n buf e) = None -> woff_ (advance n buf e) = 0%nat \/ wbuf_ e = None).
Proof. unfold advance. case_match; simpl_update; repeat split; auto. Qed.

(** The fields of the invariant that a step leaves to propositional reasoning. *)
Ltac conn_solve :=
  solve [ done | lia | intuition (try discriminate; try congruence; eauto; done) ].

Lemma dispatcher_step_inv c c' : dispatcher_step c c' -> conn_inv c -> conn_inv c'.
Proof.
  intros Hs [Hst Hb Hlt Hsub Hw Hwo Ha (Hr1 & Hr2 & Hr3)].
  destruct Hs as [c Ed He|c Ed Hwb|c buf q Ed Ew Eo|c Ed Ew Eo|c buf Ed Ew|c m Ed|c r buf Ed Ew
    |c Ed|c Ed|c Ed]; unfold counted_pop in *; rewrite Ed in *.
  - constructor; unfold counted_pop; simpl_update; conn_solve.
  - constructor; unfold counted_pop; simpl_update; conn_solve.
  - specialize (Hwo Ew). constructor; unfold counted_pop; simpl_update; try conn_solve.
    + by rewrite inv_stream_pop.
    + simpl. rewrite Hb, Eo. cbn [concat]. rewrite size_of_app. lia.
  - constructor; unfold counted_pop; simpl_update; conn_solve.
  - rewrite Ew in *. cbn [default] in *.
    pose proof (size_of_nonneg (concat (outbox_ (eg c)))).
    assert (0 <= counted_push (prod c)) by (destruct (prod c); simpl; lia || apply size_of_nonneg).
    constructor; unfold counted_pop; simpl_update; rewrite ?Ew; cbn [default id]; try conn_solve.
    unfold id in *. lia.
  - destruct Hw as [[buf Ew] Hw0]. rewrite Ew in *. cbn [default] in *. unfold id in *. subst m.
    pose proof (size_of_nonneg (concat (outbox_ (eg c)))). pose proof (size_of_nonneg buf).
    assert (0 <= counted_push (prod c)) by (destruct (prod c); simpl; lia || apply size_of_nonneg).
    constructor; unfold counted_pop; simpl_update; rewrite ?u64_small by lia;
      try conn_solve; try lia.
    unfold pending, unwritten in *. simpl_update. by rewrite Ew, Hw0 in *.
  - destruct (advance_same (taken r) buf (eg c)) as (E1 & E2 & E3 & E4 & E5).
    destruct r as [n| | | |]; cbn [after_send taken] in *;
      constructor; unfold counted_pop; simpl_update; rewrite ?E1, ?E2, ?E3, ?E4;
      try conn_solve; try lia.
    by rewrite <- app_assoc, advance_pending.
  - constructor; unfold counted_pop; simpl_update; conn_solve.
  - constructor; unfold counted_pop; simpl_update; conn_solve.
  - constructor; unfold counted_pop; simpl_update; destruct (close_after_write_ (eg c));
      conn_solve.
Qed.

Lemma producer_step_inv c c' : producer_step c c' -> conn_inv c -> conn_inv c'.
Proof.
  intros Hs [Hst Hb Hlt Hsub Hw Hwo Ha (Hr1 & Hr2 & Hr3)].
  destruct Hs as [c buf Ep Hbuf|c buf Ep Hbuf|c Ep|c buf Ep Hm|c buf Ep|c Ep|c Ep];
    unfold counted_pop in *; rewrite Ep in *; cbn [counted_push] in *.
  - constructor; unfold counted_pop; simpl_update; conn_solve.
  - destruct (kOutboxHWM <? outbox_bytes_ (eg c));
      constructor; unfold counted_pop; simpl_update; rewrite ?Ep; conn_solve.
  - constructor; unfold counted_pop; simpl_update; rewrite ?Ep; conn_solve.
  - pose proof (size_of_nonneg buf). pose proof (size_of_nonneg (concat (outbox_ (eg c)))).
    assert (0 <= match disp c with
                 | DLoad | DSub _ => size_of (default [] (wbuf_ (eg c)))
                 | _ => 0
                 end) by (destruct (disp c); lia || apply size_of_nonneg).
    constructor; unfold counted_pop; simpl_update; cbn [counted_push];
      rewrite ?u64_small by lia; conn_solve.
  - constructor; unfold counted_pop, Queues.NonBlockingQueue.push; simpl_update;
      cbn [counted_push]; rewrite ?concat_app, ?size_of_app; cbn [concat];
      rewrite ?app_nil_r; try conn_solve.
    unfold pending, unwritten in *. simpl_update. rewrite concat_app. cbn [concat].
    by rewrite app_nil_r, !app_assoc, <- Hst, !app_assoc.
  - destruct (epollout_armed_ (eg c)) eqn:Ea; constructor; unfold counted_pop; simpl_update;
      cbn [counted_push]; try conn_solve; destruct (disp c); conn_solve.
  - constructor; unfold counted_pop; simpl_update; cbn [counted_push]; try conn_solve;
      destruct (disp c); conn_solve.
Qed.

Lemma conn_reachable_inv c : conn_reachable c -> conn_inv c.
Proof.
  assert (forall c0, rtc conn_step c0 c -> conn_inv c0 -> conn_inv c) as H.
  { induction 1 as [|c0 c1 c2 [Hs|Hs] _ IH]; [done| |]; intros Hi; apply IH;
      [by eapply dispatcher_step_inv | by eapply producer_step_inv]. }
  intros Hr. by eapply H, conn_inv_init.
Qed.

(** C7: Whatever the interleaving of the Dispatcher and the worker, and whatever [send]
    answers, the octets on the socket followed by the pending ones are the pushed buffers in
    the order of their pushes: nothing is lost, repeated or torn, so that responses and
    interleaved frames stay intact.  The counter that the high-watermark test reads is the
    size of the outbox, plus the buffer being pushed and the one being taken. *)
Theorem outbox_interleavings c :
  conn_reachable c ->
  wire c ++ pending (eg c) = concat (accepted c)
  /\ outbox_bytes_ (eg c)
     = size_of (concat (outbox_ (eg c))) + counted_push (prod c) + counted_pop c
  /\ outbox_bytes_ (eg c) < 2 ^ 64.
Proof. intros H. by destruct (conn_reachable_inv c H). Qed.

(** A run: the worker pushes a buffer, the Dispatcher finds it half written and finished. *)
Definition pushed_one (buf : bytes) : conn :=
  conn_init <| eg := push_buffer buf egress_init |> <| accepted := [buf] |>.

Lemma push_run buf :
  buf <> [] -> size_of buf < 2 ^ 64 -> conn_reachable (pushed_one buf).
Proof.
  intros Hb Hs. unfold conn_reachable.
  eapply rtc_l; [right; by apply (p_response _ buf)|].
  eapply rtc_l; [right; by apply p_add|]. eapply rtc_l; [right; by apply p_push|].
  eapply rtc_l; [right; by apply p_cas|]. by eapply rtc_once; right; apply p_mod.
Qed.

Lemma outbox_interleavings_witness :
  let c := pushed_one [1; 2; 3] in
  conn_reachable c /\ wire c ++ pending (eg c) = [1; 2; 3].
Proof.
  assert (conn_reachable (pushed_one [1; 2; 3])) as H by (by apply push_run).
  split; [exact H|]. exact (proj1 (outbox_interleavings _ H)).
Defined.

(** [enableWrite] without interference: the compare-and-set, and the EPOLL_CTL_MOD when it
    succeeded. *)
Definition enableWrite_run (c c' : conn) : Prop :=
  producer_step c c' /\ prod c' = PIdle
  \/ exists c1, producer_step c c1 /\ prod c1 = PMod /\ producer_step c1 c'.

(** The arming of EPOLLOUT.  When neither thread is in the middle of an operation the flag
    agrees with the registration, so that an armed session with pending octets makes progress:
    the Dispatcher can run [onWritable].  And [enableWrite] on a session whose Dispatcher waits
    leaves EPOLLOUT registered, whatever was the case before. *)
Theorem epollout_arming c :
  conn_reachable c ->
  (prod c = PIdle -> disp c = DIdle -> epollout (eg c) = epollout_armed_ (eg c))
  /\ (epollout (eg c) = true -> epollout_armed_ (eg c) = true)
  /\ (forall c', prod c = PCas -> disp c = DIdle -> enableWrite_run c c' ->
        epollout (eg c') = true).
Proof.
  intros H. destruct (conn_reachable_inv c H) as [_ _ _ _ _ _ _ (H1 & H2 & H3)].
  split; [|split; [by intros E; apply H1|]].
  - intros Ep Ed. destruct (epollout (eg c)) eqn:E1.
    + by destruct (H1 eq_refl).
    + destruct (epollout_armed_ (eg c)) eqn:E2; [|done].
      destruct (H2 eq_refl) as [|[]]; congruence.
  - intros c' Ep Ed [[Hs Hp]|(c1 & Hs & Hp & Hs')].
    + inversion Hs; subst; try congruence.
      destruct (epollout_armed_ (eg c)) eqn:Ea; [|done]. simpl_update.
      destruct (H2 eq_refl) as [|[]]; [done|congruence|congruence].
    + by inversion Hs'; subst; try congruence.
Qed.

Lemma epollout_arming_witness :
  conn_reachable (pushed_one [1; 2; 3])
  /\ epollout (eg (pushed_one [1; 2; 3])) = epollout_armed_ (eg (pushed_one [1; 2; 3])).
Proof.
  assert (conn_reachable (pushed_one [1; 2; 3])) as H by (by apply push_run).
  split; [exact H|]. exact (proj1 (epollout_arming _ H) eq_refl eq_refl).
Defined.

(** Both threads at rest, octets to write, and no EPOLLOUT registered. *)
Definition stranded (c : conn) : Prop :=
  disp c = DIdle /\ prod c = PIdle /\ pending (eg c) <> [] /\ epollout (eg c) = false.

(** The Dispatcher has drained one buffer and seen the outbox empty; [a] is pushed before
    the flag is cleared, so that its compare-and-set fails. *)
Definition stranded_state (a b : bytes) : conn :=
  {| eg := {| outbox_ := [b]; outbox_bytes_ := size_of b; wbuf_ := None; woff_ := 0;
              epollout_armed_ := false; close_after_write_ := false; epollout := false |};
     disp := DIdle; prod := PIdle; wire := a; accepted := [a; b] |}.

Lemma stranded_reachable a b :
  a <> [] -> b <> [] -> size_of a < 2 ^ 64 -> size_of b < 2 ^ 64 ->
  conn_reachable (stranded_state a b).
Proof.
  intros Ha Hb Hsa Hsb. pose proof (size_of_nonneg a). pose proof (size_of_nonneg b).
  unfold conn_reachable. etrans; [by apply (push_run a)|].
  assert (u64 (0 + size_of a) = size_of a) as Ea by (apply u64_small; lia).
  assert (u64 (0 + size_of b) = size_of b) as Eb by (apply u64_small; lia).
  eapply rtc_l; [left; by apply d_event|]. eapply rtc_l; [left; by eapply d_pop|].
  eapply rtc_l; [left; by eapply d_load|]. eapply rtc_l; [left; by eapply d_sub|].
  eapply rtc_l; [left; by eapply (d_send _ (Sent (length a)))|].
  cbn [after_send]. unfold advance. simpl_update. cbn [Nat.add].
  rewrite (proj2 (Nat.leb_le _ _)), take_ge by (rewrite ?length_drop; lia).
  eapply rtc_l; [left; by apply d_empty|]. eapply rtc_l; [left; by apply d_mod|].
  eapply rtc_l; [right; by apply (p_response _ b)|].
  eapply rtc_l; [right; apply p_add; [reflexivity|]|].
  { cbn. rewrite Ea, Z.min_l, Z.sub_diag by lia. change (u64 0) with 0. lia. }
  eapply rtc_l; [right; by apply p_push|]. eapply rtc_l; [right; by apply p_cas|].
  eapply rtc_l; [left; by apply d_store|]. eapply rtc_l; [left; by apply d_check|].
  cbn. rewrite Ea, Z.min_l, Z.sub_diag by lia. change (u64 0) with 0. rewrite Eb. reflexivity.
Qed.

(** C32: The wake-up can be lost.  A buffer pushed between the Dispatcher's empty test and its
    store of [epollout_armed_] leaves a reachable state in which both threads are at rest, the
    buffer is in the outbox, EPOLLOUT is not registered, and the Dispatcher cannot take a step:
    the buffer waits until the next push, if there is one. *)
Theorem wakeup_can_be_lost a b :
  a <> [] -> b <> [] -> size_of a < 2 ^ 64 -> size_of b < 2 ^ 64 ->
  conn_reachable (stranded_state a b)
  /\ stranded (stranded_state a b)
  /\ (forall c', ~ dispatcher_step (stranded_state a b) c').
Proof.
  intros Ha Hb Hsa Hsb. split; [by apply stranded_reachable|]. split.
  - split_and!; try done. unfold pending. cbn. by rewrite app_nil_r.
  - intros c' Hs. by inversion Hs.
Qed.

Lemma wakeup_can_be_lost_witness :
  stranded (stranded_state [1] [2; 3]).
Proof. apply (wakeup_can_be_lost [1] [2; 3]); by vm_compute. Defined.
