(* ===== verification/Ingress.v ===== *)
(** * [Ingress]: the read side of a session (src/server/RTSPSession.cpp: [onReadable])

    [recv] fills the receive buffer; the buffer is then cut into interleaved binary frames,
    which are dropped, and complete RTSP messages, which are parsed.  The results of [recv]
    are inputs.  Proved: the buffer limit; a stream of frames and messages is cut exactly at
    their borders; the cut does not depend on how the stream was segmented; the loop ends when
    no Content-Length wraps the [size_t] sum, and there are inputs on which it never ends. *)

From S2P Require Import Prelude StdString StringUtils RTSPRequest.

(** [kMaxRecvBuf] and [kRecvChunk] of [RTSPSession<>]. *)
Definition kMaxRecvBuf : nat := Z.to_nat (16 * 1024).
Definition kRecvChunk : nat := Z.to_nat 8192.

(** What one [::recv] answers: octets, end of file, EAGAIN or EWOULDBLOCK, EINTR, or another
    error. *)
Inductive recv_result := Recv (data : text) | RecvEof | RecvAgain | RecvIntr | RecvError.

(** The first loop.  [None]: the loop still waits for the next result. *)
Fixpoint recv_loop (results : list recv_result) (recv_buf_ : text) : option (bool * text) :=
  match results with
  | [] => None
  | Recv data :: rest =>
      let recv_buf_ := recv_buf_ ++ data in
      if (kMaxRecvBuf <? length recv_buf_)%nat then Some (false, recv_buf_)
      else recv_loop rest recv_buf_
  | RecvEof :: _ => Some (false, recv_buf_)
  | RecvAgain :: _ => Some (true, recv_buf_)
  | RecvIntr :: rest => recv_loop rest recv_buf_
  | RecvError :: _ => Some (false, recv_buf_)
  end.

(** One turn of the loop that drops interleaved frames. *)
Inductive frame_scan := NoFrame | PartialFrame | WholeFrame (fsz : nat).

Definition scan_frame (recv_buf_ : text) : frame_scan :=
  match recv_buf_ with
  | "$"%char :: _ =>
      if (length recv_buf_ <? 4)%nat then PartialFrame
      else
        let plen := Z.lor (Z.shiftl (byte_of_char (nth 2 recv_buf_ "0"%char)) 8)
                          (byte_of_char (nth 3 recv_buf_ "0"%char)) in
        let fsz := Z.to_nat (4 + u16 plen) in
        if (length recv_buf_ <? fsz)%nat then PartialFrame else WholeFrame fsz
  | _ => NoFrame
  end.

(** The [for] loop over the two spellings of the header. *)
Fixpoint content_length (hnames : list text) (header_block : text) : Z :=
  match hnames with
  | [] => 0
  | hname :: rest =>
      match find hname header_block with
      | None => content_length rest header_block
      | Some cl =>
          match find_from ":" header_block cl with
          | None => 0
          | Some colon =>
              let vs := S colon in
              match find_from crlf header_block vs with
              | None => 0
              | Some ve => try_default (stoul (trim (substr header_block vs (ve - vs)))) 0
              end
          end
      end
  end.

Definition body_length (header_block : text) : Z :=
  content_length [crlf ++ "Content-Length:"; crlf ++ "content-length:"] header_block.

(** The cut of one message: the octets it takes, or [None] when it is not complete.  The sum
    is a [size_t]. *)
Definition message_size (recv_buf_ : text) : option nat :=
  match find (crlf ++ crlf) recv_buf_ with
  | None => None
  | Some end_pos =>
      let body_start := (end_pos + 4)%nat in
      let header_block := substr recv_buf_ 0 body_start in
      let total := u64 (Z.of_nat body_start + body_length header_block) in
      if Z.of_nat (length recv_buf_) <? total then None else Some (Z.to_nat total)
  end.

(** The second loop of [onReadable].  [None]: out of fuel. *)
Fixpoint parse_loop (fuel : nat) (recv_buf_ : text) (out : list RTSPRequest)
    : option (list RTSPRequest * text) :=
  match fuel with
  | O => None
  | S f =>
      match scan_frame recv_buf_ with
      | PartialFrame => Some (out, recv_buf_)
      | WholeFrame fsz => parse_loop f (drop fsz recv_buf_) out
      | NoFrame =>
          if bool_decide (recv_buf_ = []) then Some (out, recv_buf_)
          else
            match message_size recv_buf_ with
            | None => Some (out, recv_buf_)
            | Some n =>
                let full := substr recv_buf_ 0 n in
                parse_loop f (drop n recv_buf_)
                  (match parse full with Some req => out ++ [req] | None => out end)
            end
      end
  end.

(** [onReadable], with the fuel of its parse loop. *)
Definition onReadable (fuel : nat) (results : list recv_result) (recv_buf_ : text)
    : option (bool * list RTSPRequest * text) :=
  match recv_loop results recv_buf_ with
  | None => None
  | Some (false, buf) => Some (false, [], buf)
  | Some (true, buf) =>
      match parse_loop fuel buf [] with
      | None => None
      | Some (out, buf) => Some (true, out, buf)
      end
  end.

(** ** The cut of the buffer as one function *)

(** What the head of the buffer is. *)
Inductive item := Skip (n : nat) | Message (n : nat) | Wait.

Definition next_item (buf : text) : item :=
  match scan_frame buf with
  | PartialFrame => Wait
  | WholeFrame n => Skip n
  | NoFrame =>
      if bool_decide (buf = []) then Wait
      else match message_size buf with None => Wait | Some n => Message n end
  end.

Definition parsed (raw : text) : list RTSPRequest :=
  match parse raw with Some r => [r] | None => [] end.

Lemma parse_loop_step f buf out :
  parse_loop (S f) buf out =
    match next_item buf with
    | Wait => Some (out, buf)
    | Skip n => parse_loop f (drop n buf) out
    | Message n => parse_loop f (drop n buf) (out ++ parsed (take n buf))
    end.
Proof.
  cbn [parse_loop]. unfold next_item, parsed, substr. rewrite drop_0.
  destruct (scan_frame buf); [|done|done]. case_bool_decide; [done|].
  destruct (message_size buf); [|done]. destruct (parse _); by rewrite ?app_nil_r.
Qed.

(** The requests found so far are only carried along. *)
Lemma parse_loop_out f : forall buf out,
  parse_loop f buf out =
    match parse_loop f buf [] with Some (o, b) => Some (out ++ o, b) | None => None end.
Proof.
  induction f as [|f IH]; intros buf out; [done|]. rewrite !parse_loop_step.
  destruct (next_item buf) as [n|n|]; [apply IH| |by rewrite app_nil_r].
  rewrite IH, (IH _ ([] ++ _)). destruct (parse_loop f (drop n buf) []) as [[o b]|]; [|done].
  by rewrite app_assoc.
Qed.

Lemma parse_loop_more_fuel f f' buf out r :
  (f <= f')%nat -> parse_loop f buf out = Some r -> parse_loop f' buf out = Some r.
Proof.
  revert f' buf out. induction f as [|f IH]; intros f' buf out Hf; [done|].
  destruct f' as [|f']; [lia|]. rewrite !parse_loop_step.
  destruct (next_item buf); [| |done]; apply IH; lia.
Qed.

(** ** Items are decided by the octets they span *)

Lemma scan_frame_more buf d n :
  scan_frame buf = WholeFrame n ->
  (4 <= n <= length buf)%nat /\ scan_frame (buf ++ d) = WholeFrame n.
Proof.
  destruct buf as [|c buf]; [done|]. unfold scan_frame. cbn [app].
  destruct c as [[] [] [] [] [] [] [] []]; try done.
  destruct (Nat.ltb_spec (length ("$"%char :: buf)) 4) as [|H4]; [done|].
  destruct (Nat.ltb_spec (length ("$"%char :: buf ++ d)) 4) as [|H4']; [len_lia|].
  change ("$"%char :: buf ++ d) with (("$"%char :: buf) ++ d).
  rewrite !app_nth1 by lia. set (plen := Z.lor _ _). pose proof (u16_range plen).
  destruct (Nat.ltb_spec (length ("$"%char :: buf)) (Z.to_nat (4 + u16 plen))); [done|].
  intros [= <-]. split; [lia|].
  destruct (Nat.ltb_spec (length (("$"%char :: buf) ++ d)) (Z.to_nat (4 + u16 plen)));
    [len_lia|done].
Qed.

Lemma scan_frame_none buf d :
  buf <> [] -> scan_frame buf = NoFrame -> scan_frame (buf ++ d) = NoFrame.
Proof.
  destruct buf as [|c buf]; [done|]. intros _. unfold scan_frame. cbn [app].
  destruct c as [[] [] [] [] [] [] [] []]; try done. by repeat case_match.
Qed.

Lemma message_size_more buf d n :
  message_size buf = Some n -> (n <= length buf)%nat /\ message_size (buf ++ d) = Some n.
Proof.
  unfold message_size. destruct (find (crlf ++ crlf) buf) as [e|] eqn:E; [|done].
  rewrite (find_more _ _ d _ E). apply find_Some_bound in E.
  change (length (crlf ++ crlf)) with 4%nat in E.
  unfold substr. rewrite !drop_0, take_app_le by lia. set (total := u64 _).
  pose proof (u64_range (Z.of_nat (e + 4) + body_length (take (e + 4) buf))).
  destruct (Z.ltb_spec (Z.of_nat (length buf)) total); [done|]. intros [= <-].
  destruct (Z.ltb_spec (Z.of_nat (length (buf ++ d))) total); [len_lia|].
  split; [lia|done].
Qed.

Lemma next_item_more buf d i :
  next_item buf = i ->
  match i with
  | Wait => True
  | Skip n => (4 <= n <= length buf)%nat /\ next_item (buf ++ d) = Skip n
  | Message n => (n <= length buf)%nat /\ next_item (buf ++ d) = Message n
  end.
Proof.
  intros <-. unfold next_item. destruct (scan_frame buf) eqn:E; [|done|].
  - case_bool_decide as Hb; [done|]. rewrite (scan_frame_none buf d Hb E).
    destruct (message_size buf) eqn:Em; [|done].
    rewrite bool_decide_eq_false_2; [|by intros [? ?]%app_nil].
    apply (message_size_more _ d) in Em as [? ->]. done.
  - apply (scan_frame_more _ d) in E as [? ->]. done.
Qed.

(** ** Segmentation *)

Lemma parse_loop_app f1 : forall f2 buf d o1 r1 o2 r2,
  parse_loop f1 buf [] = Some (o1, r1) ->
  parse_loop f2 (r1 ++ d) [] = Some (o2, r2) ->
  parse_loop (f1 + f2) (buf ++ d) [] = Some (o1 ++ o2, r2).
Proof.
  induction f1 as [|f1 IH]; intros f2 buf d o1 r1 o2 r2 H1 H2; [done|].
  rewrite parse_loop_step in H1. cbn [Nat.add].
  destruct (next_item buf) as [n|n|] eqn:E; apply (next_item_more _ d) in E.
  - destruct E as [Hn E]. rewrite parse_loop_step, E, drop_app_le by lia. by eapply IH.
  - destruct E as [Hn E]. rewrite parse_loop_step, E, drop_app_le, take_app_le by lia.
    rewrite parse_loop_out in H1. rewrite parse_loop_out.
    destruct (parse_loop f1 (drop n buf) []) as [[o r]|] eqn:Ep; [|done].
    injection H1 as <- <-. rewrite (IH f2 _ d o r o2 r2 Ep H2). by rewrite app_assoc.
  - injection H1 as <- <-.
    exact (parse_loop_more_fuel f2 (S (f1 + f2)) (buf ++ d) [] (o2, r2) ltac:(lia) H2).
Qed.

(** The octets that the [recv] loop appends. *)
Fixpoint received (results : list recv_result) : text :=
  match results with
  | Recv data :: rest => data ++ received rest
  | RecvIntr :: rest => received rest
  | _ => []
  end.

Lemma recv_loop_received results : forall buf buf',
  recv_loop results buf = Some (true, buf') -> buf' = buf ++ received results.
Proof.
  induction results as [|[data| | | |] results IH]; intros buf buf' H; cbn [recv_loop received] in *; try done.
  - destruct (kMaxRecvBuf <? length (buf ++ data))%nat; [done|]. apply IH in H as ->.
    by rewrite app_assoc.
  - injection H as <-. by rewrite app_nil_r.
  - by apply IH.
Qed.

Lemma recv_loop_bounded results : forall buf buf',
  (length buf <= kMaxRecvBuf)%nat ->
  recv_loop results buf = Some (true, buf') -> (length buf' <= kMaxRecvBuf)%nat.
Proof.
  induction results as [|[data| | | |] results IH]; intros buf buf' Hl H; cbn [recv_loop] in H; try done.
  - destruct (Nat.ltb_spec kMaxRecvBuf (length (buf ++ data))); [done|]. by eapply IH.
  - by injection H as <-.
  - by eapply IH.
Qed.

(** C27: The requests do not depend on how TCP segmented the stream.  Two wakes of the Dispatcher,
    with whatever [recv] results, find together the requests that one wake finds which receives
    the same octets in one piece, in the same order, and leave the same rest in the buffer. *)
Theorem segmentation_independent f1 f2 rs1 rs2 buf o1 r1 o2 r2 :
  onReadable f1 rs1 buf = Some (true, o1, r1) ->
  onReadable f2 rs2 r1 = Some (true, o2, r2) ->
  (length (buf ++ received rs1 ++ received rs2) <= kMaxRecvBuf)%nat ->
  onReadable (f1 + f2) [Recv (received rs1 ++ received rs2); RecvAgain] buf
    = Some (true, o1 ++ o2, r2).
Proof.
  unfold onReadable. intros H1 H2 Hl.
  destruct (recv_loop rs1 buf) as [[[] b1]|] eqn:E1; [|done|done].
  destruct (parse_loop f1 b1 []) as [[p1 q1]|] eqn:P1; [|done]. injection H1 as -> ->.
  destruct (recv_loop rs2 r1) as [[[] b2]|] eqn:E2; [|done|done].
  destruct (parse_loop f2 b2 []) as [[p2 q2]|] eqn:P2; [|done]. injection H2 as -> ->.
  apply recv_loop_received in E1 as ->. apply recv_loop_received in E2 as ->.
  cbn [recv_loop]. rewrite (proj2 (Nat.ltb_ge _ _)) by done.
  rewrite (app_assoc buf). by rewrite (parse_loop_app f1 f2 _ _ o1 r1 o2 r2).
Qed.

Lemma segmentation_independent_witness :
  exists o r,
    onReadable 9 [Recv "OPTIONS * RTSP/1.0"; RecvIntr; RecvAgain] [] = Some (true, [], "OPTIONS * RTSP/1.0")
    /\ onReadable 9 [Recv (crlf ++ crlf ++ "$"); RecvAgain] "OPTIONS * RTSP/1.0" = Some (true, o, r)
    /\ o <> []
    /\ onReadable 18 [Recv ("OPTIONS * RTSP/1.0" ++ crlf ++ crlf ++ "$"); RecvAgain] []
       = Some (true, o, r).
Proof.
  do 2 eexists. split; [reflexivity|]. split; [reflexivity|]. split; [discriminate|].
  apply (segmentation_independent 9 9 [Recv "OPTIONS * RTSP/1.0"; RecvIntr; RecvAgain]
    [Recv (crlf ++ crlf ++ "$"); RecvAgain] [] [] "OPTIONS * RTSP/1.0"); try reflexivity.
  apply Nat.leb_le. reflexivity.
Defined.

(** ** Framing *)

(** An interleaved binary frame. *)
Definition frame_text (channel : ascii) (data : text) : text :=
  let len := Z.of_nat (length data) in
  "$"%char :: channel :: char_of_byte (Z.shiftr len 8) :: char_of_byte len :: data.

(** A message as RFC 2326 has it, section 4: a first line, header lines, a blank line, and a body of
    as many octets as a Content-Length line says, or none. *)
Record message := mkMessage {
  m_start : text;
  m_headers : list (text * text);
  m_body : text
}.

Definition field_line (h : text * text) : text := fst h ++ ":" ++ snd h.

Definition message_lines (m : message) : list text := m_start m :: map field_line (m_headers m).

Definition message_text (m : message) : text := lines_text (message_lines m) ++ crlf ++ m_body m.

Definition is_length (h : text * text) : Prop := toLower (fst h) = "content-length".
#[global] Instance is_length_dec h : Decision (is_length h).
Proof. apply _. Defined.

(** A name of the header that the code looks for; others of the same letters are not seen. *)
Definition known_spelling (name : text) : Prop := name = "Content-Length" \/ name = "content-length".

Record message_ok (m : message) : Prop := {
  mo_start : m_start m <> [] /\ no_crlf (m_start m) = true;
  mo_not_frame : starts_with "$" (m_start m) = false;
  mo_fields : Forall (fun h => (":"%char ∉ fst h) /\ no_crlf (field_line h) = true) (m_headers m);
  mo_length :
    match filter is_length (m_headers m) with
    | [] => m_body m = []
    | [h] => known_spelling (fst h) /\ trim (snd h) = decimal (Z.of_nat (length (m_body m)))
    | _ => False
    end;
  mo_size : Z.of_nat (length (message_text m)) < 2 ^ 64
}.

Inductive unit_ := Frame (channel : ascii) (data : text) | Request (m : message).

Definition unit_text (u : unit_) : text :=
  match u with Frame ch data => frame_text ch data | Request m => message_text m end.

Definition unit_ok (u : unit_) : Prop :=
  match u with
  | Frame _ data => Z.of_nat (length data) < 2 ^ 16
  | Request m => message_ok m
  end.

(** The requests of a unit; a frame has none. *)
Definition unit_requests (u : unit_) : list RTSPRequest :=
  match u with Frame _ _ => [] | Request m => parsed (message_text m) end.

Lemma scan_frame_text ch data d :
  Z.of_nat (length data) < 2 ^ 16 ->
  scan_frame (frame_text ch data ++ d) = WholeFrame (length (frame_text ch data)).
Proof.
  intros Hl. apply (scan_frame_more (frame_text ch data) d).
  unfold frame_text, scan_frame. cbn [length nth Nat.ltb Nat.leb].
  set (len := Z.of_nat (length data)) in *.
  assert (forall z, byte_of_char (char_of_byte z) = u8 z) as Hb.
  { intros z. unfold byte_of_char, char_of_byte. rewrite N_ascii_embedding.
    - rewrite Z2N.id; [done|]. apply u8_range.
    - pose proof (u8_range z). lia. }
  rewrite !Hb, lor_shiftl_add by (lia || apply u8_range).
  replace (Z.to_nat (4 + u16 (u8 (Z.shiftr len 8) * 2 ^ 8 + u8 len)))
    with (S (S (S (S (length data))))) by bits_lia.
  destruct (length data) as [|k] eqn:Ek; [done|]. by rewrite (proj2 (Nat.leb_gt _ _)) by lia.
Qed.

(** The name of a field line is what stands before its first colon. *)
Lemma field_line_name name h :
  (":"%char ∉ name) -> (":"%char ∉ fst h) -> starts_with (name ++ ":") (field_line h) = true -> fst h = name.
Proof.
  intros Hn Hh (t & Ht)%starts_with_spec. unfold field_line in Ht. rewrite <- app_assoc in Ht.
  assert (length (fst h) = length name) as Hl.
  { pose proof (find_char_app ":" (fst h) (snd h) Hh) as F1. pose proof (find_char_app ":" name t Hn) as F2.
    change (fst h ++ ":"%char :: snd h) with (fst h ++ ":" ++ snd h) in F1.
    rewrite Ht in F1. change (":" ++ t) with (":"%char :: t) in F1. congruence. }
  by apply (app_inj_1 _ _ _ _ Hl) in Ht as [-> _].
Qed.

(** Lines that do not begin with a name of the header. *)
Definition other_lines (name : text) (hs : list (text * text)) : Prop :=
  Forall (fun l => no_crlf l = true /\ starts_with (name ++ ":") l = false) (map field_line hs).

Lemma lines_without name hs :
  (":"%char ∉ name) ->
  Forall (fun h => (":"%char ∉ fst h) /\ no_crlf (field_line h) = true) hs ->
  Forall (fun h => fst h <> name) hs -> other_lines name hs.
Proof.
  intros Hn Hf Hne. apply Forall_map, Forall_forall. intros h Hin. rewrite Forall_forall in Hf, Hne.
  destruct (Hf h Hin) as [Hc Hl]. split; [done|]. destruct (starts_with _ _) eqn:E; [|done].
  by apply field_line_name, (Hne h Hin) in E.
Qed.

(** [content_length] where the first name is announced nowhere, ... *)
Lemma content_length_absent name names start hs :
  (ascii_of_nat 13 ∉ name) -> no_crlf start = true -> other_lines name hs ->
  let block := lines_text (start :: map field_line hs) ++ crlf in
  content_length ((crlf ++ name ++ ":") :: names) block = content_length names block.
Proof.
  intros Hcr Hs Ho. cbv zeta. cbn [content_length]. rewrite lines_text_cons, <- !app_assoc.
  rewrite find_absent_header; [done| |by destruct name|done|done].
  rewrite not_elem_of_app. split; [done|decide_closed].
Qed.

(** ... and where it is. *)
Lemma content_length_present name names start hs1 v hs2 n :
  (":"%char ∉ name) -> (ascii_of_nat 13 ∉ name) -> no_crlf start = true ->
  other_lines name hs1 -> no_crlf v = true -> trim v = decimal n -> 0 <= n < 2 ^ 64 ->
  content_length ((crlf ++ name ++ ":") :: names)
    (lines_text (start :: map field_line (hs1 ++ (name, v) :: hs2)) ++ crlf) = n.
Proof.
  intros Hn Hcr Hs Ho Hv Ht Hrange.
  set (rest := lines_text (map field_line hs2) ++ crlf).
  assert (exists a, lines_text (start :: map field_line (hs1 ++ (name, v) :: hs2)) ++ crlf
      = a ++ crlf ++ name ++ ":" ++ v ++ crlf ++ rest
    /\ find (crlf ++ name ++ ":") (a ++ crlf ++ name ++ ":" ++ v ++ crlf ++ rest) = Some (length a))
    as (a & -> & Hf).
  { rewrite lines_text_cons, map_app. cbn [map]. unfold other_lines in Ho.
    assert (starts_with (name ++ ":") (name ++ ":" ++ v ++ crlf ++ rest) = true) as Hhere.
    { apply starts_with_spec. exists (v ++ crlf ++ rest). by rewrite <- app_assoc. }
    revert start Hs. induction (map field_line hs1) as [|l ls IH]; intros start Hs.
    - exists start. rewrite app_nil_l, lines_text_cons. unfold field_line at 1. cbn [fst snd].
      split; [unfold rest; by rewrite <- !app_assoc|]. by apply find_crlf_line.
    - apply Forall_cons in Ho as [[Hl Hnot] Ho]. destruct (IH Ho l Hl) as (a & E & F).
      exists (start ++ crlf ++ a). rewrite <- app_comm_cons, lines_text_cons.
      rewrite <- !app_assoc in E. rewrite <- !app_assoc. split; [by rewrite E|].
      rewrite find_crlf_skip, F by done. rewrite <- E, starts_with_line, Hnot; [cbn; f_equal; len_lia|].
      rewrite not_elem_of_app. split; [done|decide_closed]. }
  cbn [content_length]. rewrite Hf.
  rewrite find_from_skip.
  assert (find ":" (crlf ++ name ++ ":" ++ v ++ crlf ++ rest) = Some (2 + length name)%nat) as ->.
  { rewrite app_assoc. change (":" ++ v ++ crlf ++ rest) with (":"%char :: (v ++ crlf ++ rest)).
    rewrite find_char_app; [f_equal; len_lia|]. rewrite not_elem_of_app. split; [decide_closed|done]. }
  replace (S (length a + (2 + length name)))%nat with (length (a ++ crlf ++ name ++ ":")) by len_lia.
  replace (a ++ crlf ++ name ++ ":" ++ v ++ crlf ++ rest)
    with ((a ++ crlf ++ name ++ ":") ++ v ++ crlf ++ rest) by (by rewrite <- !app_assoc).
  rewrite find_from_skip, find_crlf_app by done. unfold substr. rewrite drop_app_length.
  replace (_ + length v - _)%nat with (length v) by lia. rewrite take_app_length, Ht.
  rewrite <- (app_nil_r (decimal n)), stoul_decimal by done. done.
Qed.

Lemma body_length_message m :
  message_ok m ->
  body_length (lines_text (message_lines m) ++ crlf) = Z.of_nat (length (m_body m)).
Proof.
  intros [[_ Hs] _ Hf Hlen Hsize]. unfold body_length, message_lines.
  set (A := ("Content-Length" : text)). set (B := ("content-length" : text)).
  change (crlf ++ "Content-Length:") with (crlf ++ A ++ ":").
  change (crlf ++ "content-length:") with (crlf ++ B ++ ":").
  assert ((":"%char ∉ A) /\ (":"%char ∉ B)) as [HA HB] by (split; decide_closed).
  assert ((ascii_of_nat 13 ∉ A) /\ (ascii_of_nat 13 ∉ B)) as [HA' HB'] by (split; decide_closed).
  assert (forall name hs, toLower name = "content-length" -> filter is_length hs = [] ->
    Forall (fun h => fst h <> name) hs) as Hno.
  { intros name hs Hname E. apply Forall_forall. intros h Hin <-.
    assert (h ∈ filter is_length hs) as Hh by (by apply list_elem_of_filter).
    rewrite E in Hh. by apply elem_of_nil in Hh. }
  destruct (filter is_length (m_headers m)) as [|h [|]] eqn:El; [|destruct Hlen as [Hk Ht]|done].
  - rewrite !content_length_absent by (done || by apply lines_without, Hno). by rewrite Hlen.
  - assert (exists hs1 hs2, m_headers m = hs1 ++ h :: hs2 /\ filter is_length hs1 = []) as (hs1 & hs2 & E & E1).
    { clear -El. induction (m_headers m) as [|x hs IH]; [done|].
      destruct (decide (is_length x)).
      - rewrite filter_cons_True in El by done. injection El as -> _. by exists [], hs.
      - rewrite filter_cons_False in El by done. destruct (IH El) as (hs1 & hs2 & -> & E).
        exists (x :: hs1), hs2. by rewrite filter_cons_False. }
    rewrite E in Hf |- *. apply Forall_app in Hf as [Hf1 [[_ Hl] Hf2]%Forall_cons].
    destruct h as [name v]. cbn [fst snd] in *. unfold field_line in Hl. cbn [fst snd] in Hl.
    assert (no_crlf v = true) as Hv by (by apply no_crlf_app_inv in Hl as [_ [_ ?]%no_crlf_app_inv]).
    assert (0 <= Z.of_nat (length (m_body m)) < 2 ^ 64) as Hr.
    { revert Hsize. unfold message_text. rewrite !length_app. lia. }
    destruct Hk as [-> | ->].
    + apply content_length_present; try done. by apply lines_without, Hno.
    + rewrite content_length_absent; [|done|done|].
      * apply content_length_present; try done. by apply lines_without, Hno.
      * unfold other_lines. rewrite map_app. apply Forall_app. split; [by apply lines_without, Hno|].
        cbn [map]. constructor; [by split|]. apply lines_without; [done|done|].
        assert (filter is_length hs2 = []) as E2.
        { rewrite E in El. rewrite filter_app, E1, filter_cons_True in El by done. by injection El. }
        by apply Hno.
Qed.

(** The code cuts a message at its end. *)
Lemma message_cut m :
  message_ok m ->
  message_text m <> [] /\ scan_frame (message_text m) = NoFrame
  /\ message_size (message_text m) = Some (length (message_text m)).
Proof.
  intros Hm. pose proof Hm as [[Hne Hs] Hd Hf _ Hsize].
  assert (Forall good_line (message_lines m)) as Hls.
  { constructor; [by split|]. apply Forall_map. apply (Forall_impl _ _ _ Hf).
    intros h [_ Hh]. split; [|done]. unfold field_line. by destruct (fst h). }
  destruct (find_blank_line (message_lines m) (m_body m) Hls) as (n & Hn & Hl); [done|].
  fold (message_text m) in Hn. split; [|split].
  - unfold message_text, message_lines. rewrite lines_text_cons. by destruct (m_start m).
  - unfold message_text, message_lines. rewrite lines_text_cons, <- !app_assoc.
    destruct (m_start m) as [|c t]; [done|]. cbn in Hd. cbn [app scan_frame].
    by destruct c as [[] [] [] [] [] [] [] []], t.
  - unfold message_size. rewrite Hn. cbv zeta. unfold substr. rewrite drop_0.
    assert (take (n + 4) (message_text m) = lines_text (message_lines m) ++ crlf) as ->.
    { unfold message_text. rewrite app_assoc.
      replace (n + 4)%nat with (length (lines_text (message_lines m) ++ crlf)) by len_lia.
      by rewrite take_app_length. }
    rewrite body_length_message by done.
    assert (Z.of_nat (length (message_text m)) = Z.of_nat (n + 4) + Z.of_nat (length (m_body m))) as E
      by (unfold message_text; len_lia).
    rewrite u64_small by (rewrite <- E; change 18446744073709551616 with (2 ^ 64); lia).
    rewrite <- E, Z.ltb_irrefl. f_equal. lia.
Qed.

Lemma next_item_unit u d :
  unit_ok u ->
  next_item (unit_text u ++ d)
    = match u with
      | Frame _ _ => Skip (length (unit_text u))
      | Request _ => Message (length (unit_text u))
      end.
Proof.
  destruct u as [ch data|m]; cbn [unit_ok unit_text]; intros Hu.
  - unfold next_item. by rewrite scan_frame_text.
  - destruct (message_cut m Hu) as (Hne & Hs & Hm). unfold next_item.
    rewrite (scan_frame_none _ d Hne Hs), bool_decide_eq_false_2 by (by intros [? ?]%app_nil).
    by rewrite (proj2 (message_size_more _ d _ Hm)).
Qed.

(** The beginning of a unit, or nothing. *)
Definition incomplete (tail : text) : Prop :=
  tail = [] \/ exists u d, unit_ok u /\ unit_text u = tail ++ d /\ d <> [].

Lemma incomplete_waits tail : incomplete tail -> next_item tail = Wait.
Proof.
  intros [->|(u & d & Hu & E & Hd)]; [done|].
  pose proof (next_item_unit u [] Hu) as P. rewrite app_nil_r, E in P.
  pose proof (next_item_more tail d (next_item tail) eq_refl) as Q.
  assert (0 < length d)%nat by (destruct d; [done|cbn; lia]).
  rewrite length_app in P. destruct (next_item tail) as [n|n|]; [| |done]; destruct Q as [Hn Q];
    rewrite Q in P; destruct u; try done; injection P as ->; lia.
Qed.

Lemma parse_stream us tail :
  Forall unit_ok us -> next_item tail = Wait ->
  parse_loop (S (length us)) (concat (map unit_text us) ++ tail) []
    = Some (concat (map unit_requests us), tail).
Proof.
  intros Hok Ht. induction Hok as [|u us Hu Hok IH].
  - cbn [map concat app length]. by rewrite parse_loop_step, Ht.
  - cbn [map concat length]. rewrite <- app_assoc, parse_loop_step, next_item_unit by done.
    destruct u as [ch data|m]; cbn [unit_text unit_requests] in *.
    + rewrite drop_app_length. exact IH.
    + rewrite drop_app_length, take_app_length, parse_loop_out, IH. done.
Qed.

(** C28: Framing.  A buffer that holds any sequence of interleaved frames and messages, and then
    the beginning of another one, is cut at their borders.  A message ends behind the blank line
    after its header lines, or as many octets later as its one Content-Length line says, whatever
    its other lines and its body hold.  [onReadable] finds exactly the parses of the messages, in
    order, skips the frames whatever octets they carry, keeps the rest, and its loop needs one turn
    per unit. *)
Theorem framing_exact us tail :
  Forall unit_ok us -> incomplete tail ->
  onReadable (S (length us)) [RecvAgain] (concat (map unit_text us) ++ tail)
    = Some (true, concat (map unit_requests us), tail).
Proof.
  intros H Ht. unfold onReadable. cbn [recv_loop]. rewrite parse_stream; [done|done|].
  by apply incomplete_waits.
Qed.

(** A message with a body that holds an end-of-headers, behind a frame that looks like one. *)
Definition example_message : message := {|
  m_start := "SET_PARAMETER * RTSP/1.0";
  m_headers := [(("CSeq" : text), (" 7" : text)); (("content-length" : text), ("  5 " : text))];
  m_body := "a" ++ crlf ++ crlf
|}.

Lemma framing_exact_witness :
  exists req,
    parse (message_text example_message) = Some req /\ body req = m_body example_message
    /\ onReadable 4 [RecvAgain]
         (concat (map unit_text [Request example_message; Frame "1" ("$" ++ crlf ++ crlf);
                                 Request example_message]) ++ "SET_PARAMETER * RTSP")
       = Some (true, [req; req], "SET_PARAMETER * RTSP").
Proof.
  assert (message_ok example_message) as Hm.
  { constructor; [split; [discriminate|reflexivity]|reflexivity| | |reflexivity].
    - repeat constructor; decide_closed.
    - split; [by right|reflexivity]. }
  eexists. split; [reflexivity|]. split; [reflexivity|].
  refine (framing_exact [Request example_message; Frame "1" ("$" ++ crlf ++ crlf);
                         Request example_message] "SET_PARAMETER * RTSP" _ _).
  - constructor; [exact Hm|]. constructor; [reflexivity|]. constructor; [exact Hm|]. by constructor.
  - right. exists (Request example_message), (drop 20 (message_text example_message)).
    split; [exact Hm|]. split; [reflexivity|discriminate].
Defined.

(** ** Termination, and its failure *)

(** No header block within the buffer announces a body that wraps the [size_t] sum. *)
Definition no_wrap (buf : text) : Prop :=
  forall k n, (0 < n)%nat -> (k + n <= length buf)%nat ->
    0 <= body_length (take n (drop k buf))
    /\ Z.of_nat n + body_length (take n (drop k buf)) < 2 ^ 64.

Lemma message_size_positive buf n :
  no_wrap buf -> message_size buf = Some n -> (0 < n)%nat.
Proof.
  intros Hw. unfold message_size, substr.
  destruct (find (crlf ++ crlf) buf) as [e|] eqn:E; [|done]. apply find_Some_bound in E.
  change (length (crlf ++ crlf)) with 4%nat in E.
  destruct (Hw 0%nat (e + 4)%nat) as [H0 H1]; [lia|lia|]. rewrite drop_0 in *.
  rewrite u64_small by (split; [lia|]; change 18446744073709551616 with (2 ^ 64); lia).
  case_if; [done|]. intros [= <-]. lia.
Qed.

(** For instance, a buffer without a line end. *)
Lemma no_cr_no_wrap buf :
  ascii_of_nat 13 ∉ buf -> Z.of_nat (length buf) < 2 ^ 64 -> no_wrap buf.
Proof.
  intros Hcr Hl k n Hn Hk.
  assert (body_length (take n (drop k buf)) = 0) as ->; [|lia].
  assert (ascii_of_nat 13 ∉ take n (drop k buf)) as H.
  { intros [i Hi]%list_elem_of_lookup_1. apply Hcr, (list_elem_of_lookup_2 buf (k + i)).
    apply lookup_take_Some in Hi as [Hi _]. by rewrite lookup_drop in Hi. }
  unfold body_length. cbn [content_length].
  assert (forall p, find (crlf ++ p) (take n (drop k buf)) = None) as Hf
    by (intros p; by apply find_first_absent). by rewrite !Hf.
Qed.

Lemma no_wrap_drop buf n : no_wrap buf -> no_wrap (drop n buf).
Proof. intros H k m Hm Hk. rewrite length_drop in Hk. rewrite drop_drop. apply H; lia. Qed.

Lemma parse_loop_total f : forall buf out,
  no_wrap buf -> (length buf < f)%nat -> is_Some (parse_loop f buf out).
Proof.
  induction f as [|f IH]; intros buf out Hw Hl; [lia|]. rewrite parse_loop_step.
  destruct (next_item buf) as [n|n|] eqn:E; [| |by eexists].
  - pose proof (next_item_more buf [] _ E) as [Hn _]. apply IH; [by apply no_wrap_drop|].
    rewrite length_drop. lia.
  - pose proof (next_item_more buf [] _ E) as [Hn _].
    assert (0 < n)%nat.
    { apply (message_size_positive buf); [done|]. unfold next_item in E.
      destruct (scan_frame buf); [|done|done]. case_bool_decide; [done|].
      by destruct (message_size buf); [injection E as ->|]. }
    apply IH; [by apply no_wrap_drop|]. rewrite length_drop. lia.
Qed.

Lemma parse_loop_rest f : forall buf out o r,
  parse_loop f buf out = Some (o, r) -> (length r <= length buf)%nat.
Proof.
  induction f as [|f IH]; intros buf out o r H; [done|]. rewrite parse_loop_step in H.
  destruct (next_item buf); [| |by injection H as _ <-]; apply IH in H;
    rewrite length_drop in H; lia.
Qed.

(** C30: [onReadable] returns, with a turn of its loop for every octet of the buffer as more than
    enough, when no Content-Length wraps the sum; it then keeps at most [kMaxRecvBuf] octets,
    and it answers [false] as soon as the buffer would exceed this. *)
Theorem onReadable_returns rs buf ok buf1 :
  recv_loop rs buf = Some (ok, buf1) -> (length buf <= kMaxRecvBuf)%nat -> no_wrap buf1 ->
  exists out buf2,
    onReadable (S (length buf1)) rs buf = Some (ok, out, buf2)
    /\ (ok = true -> (length buf2 <= kMaxRecvBuf)%nat)
    /\ ((kMaxRecvBuf < length buf1)%nat -> ok = false).
Proof.
  intros Hr Hl Hw. unfold onReadable. rewrite Hr.
  destruct ok.
  - pose proof (recv_loop_bounded _ _ _ Hl Hr) as Hb.
    destruct (parse_loop_total (S (length buf1)) buf1 [] Hw) as [[o r] Hp]; [lia|]. rewrite Hp.
    exists o, r. split; [done|]. split; [|lia]. intros _. apply parse_loop_rest in Hp. lia.
  - by exists [], buf1.
Qed.

Lemma onReadable_returns_witness :
  exists out buf2,
    onReadable 6 [Recv "abc"; Recv "de"; RecvAgain] [] = Some (true, out, buf2).
Proof.
  destruct (onReadable_returns [Recv "abc"; Recv "de"; RecvAgain] [] true "abcde")
    as (out & buf2 & H & _ & _); [reflexivity | apply Nat.leb_le; reflexivity | | by exists out, buf2].
  apply no_cr_no_wrap; [decide_closed | vm_compute; reflexivity].
Defined.

(** The request whose Content-Length is minus the size of its header block. *)
Definition wrapping_request : text :=
  "OPTIONS * RTSP/1.0" ++ crlf ++ "Content-Length: -43" ++ crlf ++ crlf.

(** C31: A client can stop the Dispatcher.  After one well-sized request whose Content-Length is
    a negative number, which [stoul] accepts, the [size_t] sum is 0, nothing is taken from the
    buffer, and [onReadable] never returns, whatever the fuel. *)
Theorem negative_content_length_diverges fuel :
  (length wrapping_request <= kRecvChunk)%nat
  /\ onReadable fuel [Recv wrapping_request; RecvAgain] [] = None.
Proof.
  split; [by apply Nat.leb_le|]. unfold onReadable.
  replace (recv_loop _ []) with (Some (true, wrapping_request)) by by vm_compute.
  replace (parse_loop fuel wrapping_request []) with (None : option (list RTSPRequest * text));
    [done|]. symmetry.
  induction fuel as [|fuel IH]; [done|]. rewrite parse_loop_step.
  replace (next_item wrapping_request) with (Message 0) by by vm_compute.
  rewrite drop_0, take_0. exact IH.
Qed.
