(* ===== verification/Path.v ===== *)
(** * [Path]: the parts of [std::filesystem::path] that the session uses

    [fs::path] in its POSIX form: the element sequence of a path, [operator/] and
    [lexically_relative], as the C++ standard and libstdc++ define them.  Resolution against
    the file system ([weakly_canonical], [exists]) is not defined here: it is an input of the
    definitions that use it. *)

From S2P Require Import Prelude StdString StringUtils.

(** [p.is_absolute()], which on POSIX is [p.has_root_directory()]. *)
Definition is_absolute (p : text) : bool := starts_with "/" p.

(** [path::begin() .. path::end()]: the root directory, the file names, and an empty element
    when a file name is followed by a final separator. *)
Definition elements (p : text) : list text :=
  let names := filter (fun n => n <> []) (split_ref p "/") in
  (if is_absolute p then [("/" : text)] else [])
  ++ names
  ++ (if bool_decide (names <> []) && bool_decide (last p = Some "/"%char) then [[]] else []).

(** [p / q] *)
Definition append (p q : text) : text :=
  if is_absolute q then q
  else if bool_decide (p = []) || bool_decide (last p = Some "/"%char) then p ++ q
  else p ++ "/" ++ q.

(** [std::mismatch] on two element sequences. *)
Fixpoint mismatch (a b : list text) : list text * list text :=
  match a, b with
  | x :: a', y :: b' => if decide (x = y) then mismatch a' b' else (a, b)
  | _, _ => (a, b)
  end.

Definition dot : text := ".".
Definition dotdot : text := "..".

(** The count over the rest of the base: names less [..] elements. *)
Fixpoint depth (b : list text) : Z :=
  match b with
  | [] => 0
  | x :: b' =>
      depth b' + (if decide (x = dotdot) then -1
                  else if bool_decide (x = []) || bool_decide (x = dot) then 0 else 1)
  end.

(** [p.lexically_relative(base)], as its element sequence; the empty path is []. *)
Definition lexically_relative (p base : text) : list text :=
  if negb (Bool.eqb (is_absolute p) (is_absolute base)) then []
  else
    let '(a, b) := mismatch (elements p) (elements base) in
    if bool_decide (a = []) && bool_decide (b = []) then [dot]
    else
      let n := depth b in
      if (n =? 0) && bool_decide (a = [] \/ head a = Some []) then [dot]
      else if 0 <=? n then replicate (Z.to_nat n) dotdot ++ a
      else [].

(** ** Containment *)

(** The form of a canonical directory: absolute, no empty, [.] or [..] element. *)
Definition canonical_dir (p : text) : Prop :=
  is_absolute p = true
  /\ Forall (fun x => x <> [] /\ x <> dot /\ x <> dotdot) (elements p).

(** [q] names [p] or something below it. *)
Definition below (p q : text) : Prop :=
  exists rest, elements q = elements p ++ rest.

Lemma mismatch_spec a b :
  exists c, a = c ++ fst (mismatch a b) /\ b = c ++ snd (mismatch a b).
Proof.
  revert b. induction a as [|x a IH]; intros b; [by exists []|].
  destruct b as [|y b]; [by exists []|]. cbn [mismatch]. case_decide; [|by exists []].
  subst y. destruct (IH b) as (c & H1 & H2). exists (x :: c). cbn. by rewrite <- H1, <- H2.
Qed.

Lemma depth_normal b :
  Forall (fun x => x <> [] /\ x <> dot /\ x <> dotdot) b -> depth b = Z.of_nat (length b).
Proof.
  induction 1 as [|x b (H1 & H2 & H3) _ IH]; [done|]. cbn [depth length].
  rewrite decide_False, !bool_decide_eq_false_2 by done. cbn. lia.
Qed.

(** A relative path from a canonical directory that does not begin with [..] stays below. *)
Lemma lexically_relative_below p base :
  canonical_dir base -> is_absolute p = true ->
  head (lexically_relative p base) <> Some dotdot -> below base p.
Proof.
  intros [Ha Hn] Hp. unfold lexically_relative. rewrite Ha, Hp. cbn [Bool.eqb negb].
  destruct (mismatch_spec (elements p) (elements base)) as (c & Ec & Eb).
  destruct (mismatch (elements p) (elements base)) as [a b]. cbn [fst snd] in *.
  assert (Forall (fun x => x <> [] /\ x <> dot /\ x <> dotdot) b) as Hb.
  { rewrite Eb in Hn. by apply Forall_app in Hn as [_ ?]. }
  rewrite (depth_normal b Hb). intros Hh. unfold below.
  destruct b as [|y b].
  - rewrite app_nil_r in Eb. exists a. by rewrite Eb.
  - exfalso. rewrite (bool_decide_eq_false_2 (y :: b = [])), andb_false_r in Hh by done.
    cbn [length] in Hh. rewrite (proj2 (Z.eqb_neq _ _)) in Hh by lia. cbn [andb] in Hh.
    rewrite (proj2 (Z.leb_le _ _)), Nat2Z.id in Hh by lia. by apply Hh.
Qed.

Example elements_ex : elements "/srv//media/" = ["/"; "srv"; "media"; []].
Proof. reflexivity. Qed.

Example relative_ex :
  lexically_relative "/srv/x/a" "/srv/media" = ["..": text; "x"; "a"]
  /\ lexically_relative "/srv/media/a" "/srv/media" = ["a" : text].
Proof. split; reflexivity. Qed.
