(* ===== verification/Session.v ===== *)
(** * [Session]: the RTSP side of a session (src/server/RTSPSession.cpp,
    include/rtspserver/server/RTSPSession.hpp: the state and the request handlers)

    The members of [RTSPSession] that the worker holding the pacer tick owns, and the
    handlers as state transformers that may throw.  The media source is any implementation of
    the interface [IMediaSource]; the answers of the operating system to one handler call (the
    clock, the date, the file system, the sockets) are an [env]. *)

From S2P Require Import Prelude StdString StringUtils Double RTSPRequest RTSPResponse.
From S2P Require Import SDPBuilder RTPSender IMediaSource Path Egress.

(** ** State *)

Inductive State := INIT | READY | PLAYING | PAUSED.

#[global] Instance State_eq_dec : EqDecision State.
Proof. solve_decision. Defined.

(** Time points and durations of [steady_clock] are nanoseconds. *)
Record session (M : Type) := mkSession {
  client_ip_ : text;
  media_root_ : text;
  state_ : State;
  session_id_ : text;
  media_source_ : option M;
  describe_done_ : bool;
  rtp_sender_ : option RTPSender;
  audio_rtp_sender_ : option RTPSender;
  use_tcp_ : bool;
  rtp_channel_ : Z;
  rtcp_channel_ : Z;
  audio_rtp_channel_ : Z;
  audio_rtcp_channel_ : Z;
  payload_type_ : Z;
  audio_payload_type_ : Z;
  transport_ready_ : bool;
  audio_transport_ready_ : bool;
  wall_start_ : Z;
  pause_start_ : Z;
  first_frame_ : bool;
  loop_video_offset_ : Z;
  audio_loop_offset_ : Z;
  pending_vp_ : option VideoPacket;
  pending_ap_ : option AudioPacket;
  last_video_rtp_ : Z;
  last_frame_dur_ : option Z;
  resume_waiting_for_idr_ : bool;
  last_keyframe_npt_ : double;
  last_npt_ : double;
  npt_end_ : double;
  rtp_seq_ : Z;
  ssrc_ : Z;
  audio_rtp_seq_ : Z;
  audio_ssrc_ : Z;
  cmd_queue_ : list RTSPRequest;
  (* [outbox_], [outbox_bytes_], [epollout_armed_], [close_after_write_], ... *)
  out : egress;
  (* history: what the RTP senders did to the operating system *)
  udp_io : list io
}.
Arguments mkSession {M}.
Arguments client_ip_ {M}. Arguments media_root_ {M}. Arguments state_ {M}.
Arguments session_id_ {M}. Arguments media_source_ {M}. Arguments describe_done_ {M}.
Arguments rtp_sender_ {M}. Arguments audio_rtp_sender_ {M}. Arguments use_tcp_ {M}.
Arguments rtp_channel_ {M}. Arguments rtcp_channel_ {M}. Arguments audio_rtp_channel_ {M}.
Arguments audio_rtcp_channel_ {M}. Arguments payload_type_ {M}.
Arguments audio_payload_type_ {M}. Arguments transport_ready_ {M}.
Arguments audio_transport_ready_ {M}. Arguments wall_start_ {M}. Arguments pause_start_ {M}.
Arguments first_frame_ {M}. Arguments loop_video_offset_ {M}.
Arguments audio_loop_offset_ {M}. Arguments pending_vp_ {M}. Arguments pending_ap_ {M}.
Arguments last_video_rtp_ {M}. Arguments last_frame_dur_ {M}.
Arguments resume_waiting_for_idr_ {M}. Arguments last_keyframe_npt_ {M}.
Arguments last_npt_ {M}. Arguments npt_end_ {M}. Arguments rtp_seq_ {M}. Arguments ssrc_ {M}.
Arguments audio_rtp_seq_ {M}. Arguments audio_ssrc_ {M}. Arguments cmd_queue_ {M}.
Arguments out {M}. Arguments udp_io {M}.

#[global] Instance session_updatable M : Updatable (session M) := fun s =>
  mkSession (client_ip_ s) (media_root_ s) (state_ s) (session_id_ s) (media_source_ s)
    (describe_done_ s) (rtp_sender_ s) (audio_rtp_sender_ s) (use_tcp_ s) (rtp_channel_ s)
    (rtcp_channel_ s) (audio_rtp_channel_ s) (audio_rtcp_channel_ s) (payload_type_ s)
    (audio_payload_type_ s) (transport_ready_ s) (audio_transport_ready_ s) (wall_start_ s)
    (pause_start_ s) (first_frame_ s) (loop_video_offset_ s) (audio_loop_offset_ s)
    (pending_vp_ s) (pending_ap_ s) (last_video_rtp_ s) (last_frame_dur_ s)
    (resume_waiting_for_idr_ s) (last_keyframe_npt_ s) (last_npt_ s) (npt_end_ s) (rtp_seq_ s)
    (ssrc_ s) (audio_rtp_seq_ s) (audio_ssrc_ s) (cmd_queue_ s) (out s) (udp_io s).

(** The binary64 constants of the source. *)
Definition minus_one : double := d_of_Z (-1).

(** The constructor; the identifier and the two SSRCs come from [std::random_device]. *)
Definition session_init {M} (client_ip media_root session_id : text) (ssrc audio_ssrc : Z)
    : session M := {|
  client_ip_ := client_ip; media_root_ := media_root; state_ := INIT;
  session_id_ := session_id; media_source_ := None; describe_done_ := false;
  rtp_sender_ := None; audio_rtp_sender_ := None; use_tcp_ := false;
  rtp_channel_ := 0; rtcp_channel_ := 1; audio_rtp_channel_ := 2; audio_rtcp_channel_ := 3;
  payload_type_ := 96; audio_payload_type_ := 97;
  transport_ready_ := false; audio_transport_ready_ := false;
  wall_start_ := 0; pause_start_ := 0; first_frame_ := true;
  loop_video_offset_ := 0; audio_loop_offset_ := 0;
  pending_vp_ := None; pending_ap_ := None; last_video_rtp_ := 0; last_frame_dur_ := None;
  resume_waiting_for_idr_ := false;
  last_keyframe_npt_ := dzero; last_npt_ := dzero; npt_end_ := minus_one;
  rtp_seq_ := 0; ssrc_ := ssrc; audio_rtp_seq_ := 0; audio_ssrc_ := audio_ssrc;
  cmd_queue_ := []; out := egress_init; udp_io := []
|}.

(** [makeSessionId] and [makeSSRC], from what their generators answer. *)
Definition makeSessionId (rng : Z) : text := to_string (u64 rng).
Definition makeSSRC (rng : Z) : Z := u32 rng.

(** The constructor. *)
Definition session_make {M} (client_ip media_root : text) (rng_id rng_ssrc rng_audio : Z) : session M :=
  session_init client_ip media_root (makeSessionId rng_id) (makeSSRC rng_ssrc) (makeSSRC rng_audio).

(** What the operating system answers while one request is handled. *)
Record env := mkEnv {
  env_now : Z;
  env_date : tm;
  env_sockets : socket_calls;
  fs_weakly_canonical : text -> result text;
  fs_exists : text -> result bool
}.

(** [nptRange] *)
Definition nptRange (secs : double) : text := "npt=" ++ fixed3 secs ++ "-".

(** [fs::relative(p, base, ec)]; [None] when [ec] is set. *)
Definition fs_relative (e : env) (p base : text) : option (list text) :=
  match fs_weakly_canonical e p, fs_weakly_canonical e base with
  | Ok p', Ok base' => Some (lexically_relative p' base')
  | _, _ => None
  end.

(** The relative path of [openMedia], from the URL path. *)
Definition media_rel (url_path : text) : text :=
  let rel := urlDecode url_path in
  let rel := if starts_with "/" rel then substr_from rel 1 else rel in
  let rel := stripTrackSuffix rel in
  if starts_with "/" rel then substr_from rel 1 else rel.

(** The containment test of [openMedia]. *)
Definition escaped (e : env) (canonical_full canonical_root : text) : bool :=
  match fs_relative e canonical_full canonical_root with
  | None => true
  | Some rel_check => bool_decide (head rel_check = Some dotdot)
  end.

(** [media_source_ != nullptr] *)
Definition has_source {M} (s : session M) : bool :=
  match media_source_ s with Some _ => true | None => false end.

(** ** Handlers *)

Section handlers.
Context {M : Type} `{IMediaSource M}.

Definition sendResponse (resp : RTSPResponse) : SE (session M) unit :=
  SE_modify (fun s => s <| out := Egress.sendResponse resp (out s) |>).

(** Replacing a sender destroys the old one. *)
Definition destroy (old : option RTPSender) : list io :=
  match old with Some r => fst (RTPSender.close r) | None => [] end.

Definition handleOptions (e : env) (req : RTSPRequest) : SE (session M) unit :=
  sendResponse (RTSPResponse.options (env_date e) (cseq req)
                  "OPTIONS, DESCRIBE, SETUP, PLAY, PAUSE, TEARDOWN").

Definition respond_error (e : env) (c code : Z) (why : text) : SE (session M) unit :=
  sendResponse (RTSPResponse.error (env_date e) c code why).

Definition openMedia (e : env) (url : text) (c : Z) : SE (session M) bool :=
  let* s := SE_get in
  let url_path := urlPath url in
  if bool_decide (url_path = []) || bool_decide (url_path = "/") then
    do* respond_error e c 404 "Not Found";
    SE_ret false
  else
    let full_path := Path.append (media_root_ s) (media_rel url_path) in
    let* canonical_root := SE_lift (fs_weakly_canonical e (media_root_ s)) in
    let* canonical_full := SE_lift (fs_weakly_canonical e full_path) in
    if escaped e canonical_full canonical_root then
      do* respond_error e c 403 "Forbidden";
      SE_ret false
    else
      let* found := SE_lift (fs_exists e full_path) in
      if negb found then
        do* respond_error e c 404 "Not Found";
        SE_ret false
      else
        let '(opened, m) := open full_path make in
        do* SE_modify (fun s => s <| media_source_ := Some m |>);
        if opened then SE_ret true
        else
          do* respond_error e c 415 "Unsupported Media Type";
          do* SE_modify (fun s => s <| media_source_ := None |>);
          SE_ret false.

Definition handleDescribe (e : env) (req : RTSPRequest) : SE (session M) unit :=
  do* SE_modify (fun s => s <| media_source_ := None |>);
  let* opened := openMedia e (url req) (cseq req) in
  if opened then
    let* s := SE_get in
    match media_source_ s with
    | None => SE_ret tt
    | Some m =>
        let url_path := urlPath (url req) in
        let rel := if starts_with "/" url_path then substr_from url_path 1 else url_path in
        let rel := stripTrackSuffix rel in
        let sdp := SDPBuilder.build (streamInfo m) "0.0.0.0" rel (url req) (payload_type_ s)
                     (audioInfo m) (audio_payload_type_ s) in
        do* SE_modify (fun s => s <| describe_done_ := true |>);
        sendResponse (RTSPResponse.describe (env_date e) (cseq req) sdp (url req ++ "/"))
    end
  else SE_ret tt.

(** The [interleaved=] pair of a Transport header, stored number by number: when the second
    one makes [stoi] throw, the first one is already stored. *)
Definition parse_interleaved (transport_hdr : text)
    (set_rtp set_rtcp : Z -> session M -> session M) : SE (session M) unit :=
  match find "interleaved=" transport_hdr with
  | None => SE_ret tt
  | Some pos =>
      let il_pos := (pos + 12)%nat in
      match find_from "-" transport_hdr il_pos with
      | None => SE_ret tt
      | Some dash =>
          let* a := SE_lift (stoi (substr transport_hdr il_pos (dash - il_pos))) in
          do* SE_modify (set_rtp a);
          let* b := SE_lift (stoi (substr_from transport_hdr (dash + 1))) in
          SE_modify (set_rtcp b)
      end
  end.

Definition interleaved_transport (rtp rtcp : Z) : text :=
  "RTP/AVP/TCP;unicast;interleaved=" ++ to_string rtp ++ "-" ++ to_string rtcp.

Definition udp_transport (client_rtp_port srv_port : Z) : text :=
  "RTP/AVP;unicast;client_port=" ++ to_string client_rtp_port ++ "-"
  ++ to_string (client_rtp_port + 1) ++ ";server_port=" ++ to_string srv_port ++ "-"
  ++ to_string (u16 (srv_port + 1)).

(** The TCP branch of [handleSetup]: the response transport. *)
Definition setup_tcp (is_audio_track : bool) (transport_hdr : text) : SE (session M) text :=
  do* SE_modify (fun s => s <| use_tcp_ := true |>);
  if is_audio_track then
    do* parse_interleaved transport_hdr (fun a s => s <| audio_rtp_channel_ := a |>)
          (fun b s => s <| audio_rtcp_channel_ := b |>);
    do* SE_modify (fun s => s <| audio_transport_ready_ := true |>);
    SE_gets (fun s => interleaved_transport (audio_rtp_channel_ s) (audio_rtcp_channel_ s))
  else
    do* parse_interleaved transport_hdr (fun a s => s <| rtp_channel_ := a |>)
          (fun b s => s <| rtcp_channel_ := b |>);
    do* SE_modify (fun s => s <| transport_ready_ := true |>);
    SE_gets (fun s => interleaved_transport (rtp_channel_ s) (rtcp_channel_ s)).

(** The [client_port=] number, up to the dash, else the semicolon, else the end. *)
Definition client_port_text (transport_hdr : text) (cp_pos : nat) : text :=
  match find_from "-" transport_hdr cp_pos with
  | Some dash => substr transport_hdr cp_pos (dash - cp_pos)
  | None =>
      match find_from ";" transport_hdr cp_pos with
      | Some semi => substr transport_hdr cp_pos (semi - cp_pos)
      | None => substr_from transport_hdr cp_pos
      end
  end.

(** A new sender replaces the one of the track and is set up. *)
Definition fresh_sender (e : env) (client_rtp_port : Z) (old : option RTPSender)
    : bool * list io * RTPSender :=
  let '(ok, acts, snd_) := setupUDP (env_sockets e) client_rtp_port 0 RTPSender_default in
  (ok, destroy old ++ acts, snd_).

(** The UDP branch of [handleSetup]; [None]: an error was answered. *)
Definition setup_udp (e : env) (c : Z) (is_audio_track : bool) (transport_hdr : text)
    : SE (session M) (option text) :=
  do* SE_modify (fun s => s <| use_tcp_ := false |>);
  match find "client_port=" transport_hdr with
  | None =>
      do* respond_error e c 461 "Unsupported Transport";
      SE_ret None
  | Some pos =>
      let* port := SE_lift (stoi (client_port_text transport_hdr (pos + 12))) in
      let client_rtp_port := u16 port in
      let* s := SE_get in
      if is_audio_track then
        let '(ok, acts, sender) := fresh_sender e client_rtp_port (audio_rtp_sender_ s) in
        do* SE_modify (fun s => s <| audio_rtp_sender_ := Some sender |>
                                  <| udp_io := udp_io s ++ acts |>);
        if negb ok then
          do* respond_error e c 500 "Internal Server Error";
          SE_ret None
        else
          do* SE_modify (fun s => s <| audio_transport_ready_ := true |>);
          SE_ret (Some (udp_transport client_rtp_port (getLocalPort (env_sockets e) sender)))
      else
        let '(ok, acts, sender) := fresh_sender e client_rtp_port (rtp_sender_ s) in
        do* SE_modify (fun s => s <| rtp_sender_ := Some sender |>
                                  <| udp_io := udp_io s ++ acts |>);
        if negb ok then
          do* respond_error e c 500 "Internal Server Error";
          SE_ret None
        else
          do* SE_modify (fun s => s <| transport_ready_ := true |>);
          SE_ret (Some (udp_transport client_rtp_port (getLocalPort (env_sockets e) sender)))
  end.

Definition handleSetup (e : env) (req : RTSPRequest) : SE (session M) unit :=
  let* s := SE_get in
  if negb (describe_done_ s) || negb (has_source s) then
    respond_error e (cseq req) 455 "Method Not Valid In This State"
  else
    let transport_hdr := header req "transport" in
    if bool_decide (transport_hdr = []) then respond_error e (cseq req) 400 "Bad Request"
    else
      let is_audio_track := contains "trackID=1" (url req) in
      let* response_transport :=
        (if contains "RTP/AVP/TCP" transport_hdr || contains "interleaved" transport_hdr then
           let* t := setup_tcp is_audio_track transport_hdr in
           SE_ret (Some t)
         else setup_udp e (cseq req) is_audio_track transport_hdr) in
      match response_transport with
      | None => SE_ret tt
      | Some t =>
          do* SE_modify (fun s => if is_audio_track then s else s <| state_ := READY |>);
          let* s := SE_get in
          sendResponse (RTSPResponse.setup (env_date e) (cseq req) (session_id_ s) t)
      end.
(** [seekAndReset] *)
Definition seekAndReset (npt_secs : double) (adjust_offset : bool) (s : session M) : session M :=
  match media_source_ s with
  | None => s
  | Some m =>
      let '(_, m) := seekToSeconds npt_secs m in
      let idr_rtp := rtpOffset m in
      let m :=
        if adjust_offset && negb (last_video_rtp_ s =? 0) && (idr_rtp <? last_video_rtp_ s)
        then adjustRTPOffset (u32 (last_video_rtp_ s - idr_rtp)) m else m in
      s <| media_source_ := Some m |> <| first_frame_ := true |> <| pending_vp_ := None |>
        <| pending_ap_ := None |>
  end.

(** The Range header: start, end, and whether a start was given. *)
Definition parse_range (rh : text) : double * double * bool :=
  match find "npt=" rh with
  | None => (dzero, minus_one, false)
  | Some p =>
      let val := substr_from rh (p + 4) in
      match find "-" val with
      | None => (dzero, minus_one, false)
      | Some dash =>
          let start_s := substr val 0 dash in
          let end_s := substr_from val (dash + 1) in
          let '(npt_start, has_range) :=
            if negb (bool_decide (start_s = [])) && negb (bool_decide (start_s = "now")) then
              match stod start_s with Ok d => (d, true) | Throw _ => (dzero, false) end
            else (dzero, false) in
          let npt_end_val :=
            if negb (bool_decide (end_s = [])) then try_default (stod end_s) minus_one
            else minus_one in
          (npt_start, npt_end_val, has_range)
      end
  end.

(** [url], a slash when it has none at its end, and the track. *)
Definition track_url (url track : text) : text :=
  (if negb (bool_decide (url = [])) && negb (bool_decide (last url = Some "/"%char))
   then url ++ "/" else url) ++ track.

(** Case A of [handlePlay]: resume from PAUSE. *)
Definition play_resume (e : env) (s : session M) : session M * text * text :=
  let s :=
    if negb (pause_start_ s =? 0) then
      let s := if negb (first_frame_ s)
               then s <| wall_start_ := wall_start_ s + (env_now e - pause_start_ s) |>
               else s in
      s <| pause_start_ := 0 |>
    else s in
  (s, nptRange (max0 (last_npt_ s)), []).

(** Case B: scale change. *)
Definition play_scale (s : session M) : session M * text * text :=
  let s := seekAndReset (last_keyframe_npt_ s) true s in
  (s, nptRange (max0 (last_npt_ s)), []).

(** Case C: fresh play or seek: the pacing state starts anew, ... *)
Definition reset_pacing (npt_end_val : double) (s : session M) : session M :=
  s <| loop_video_offset_ := 0 |> <| audio_loop_offset_ := 0 |> <| last_video_rtp_ := 0 |>
    <| last_frame_dur_ := None |> <| resume_waiting_for_idr_ := true |>
    <| last_keyframe_npt_ := dzero |> <| last_npt_ := dzero |> <| npt_end_ := npt_end_val |>
    <| pause_start_ := 0 |>.

(** ... the RTP timestamp of the next frame is looked up, ... *)
Definition peek_rtptime (s : session M) : Z * session M :=
  match media_source_ s with
  | None => (0, s)
  | Some m =>
      let '(t, m) := peekNextVideoRTPTimestamp m in
      (t, s <| media_source_ := Some m |>)
  end.

(** ... and RTP-Info names both tracks. *)
Definition rtp_info_text (url : text) (rtptime : Z) (s : session M) : text :=
  let ri := "url=" ++ track_url url "trackID=0" ++ ";seq=" ++ to_string (rtp_seq_ s)
            ++ ";rtptime=" ++ to_string rtptime in
  match media_source_ s with
  | Some m =>
      if audio_transport_ready_ s && present (audioInfo m) then
        ri ++ ",url=" ++ track_url url "trackID=1" ++ ";seq=" ++ to_string (audio_rtp_seq_ s)
           ++ ";rtptime=" ++ to_string (audioRTPOffset m)
      else ri
  | None => ri
  end.

Definition play_seek (url : text) (npt_start npt_end_val : double) (has_range : bool)
    (s : session M) : session M * text * text :=
  let s := seekAndReset (if has_range then npt_start else dzero) false s in
  let '(rtptime, s) := peek_rtptime (reset_pacing npt_end_val s) in
  (s, (if has_range then nptRange npt_start else "npt=0.000-"), rtp_info_text url rtptime s).

Definition handlePlay (e : env) (req : RTSPRequest) : SE (session M) unit :=
  let* s := SE_get in
  if decide (state_ s = INIT) then
    respond_error e (cseq req) 455 "Method Not Valid In This State"
  else
    let is_resume := bool_decide (state_ s = PAUSED) in
    let has_scale := negb (bool_decide (header req "scale" = [])) in
    let '(npt_start, npt_end_val, has_range) := parse_range (header req "range") in
    let has_range := if has_scale then false else has_range in
    let '(s', range_echo, rtp_info) :=
      if is_resume then play_resume e s
      else if has_scale then play_scale s
      else play_seek (url req) npt_start npt_end_val has_range s in
    do* SE_modify (fun _ => s' <| state_ := PLAYING |>);
    sendResponse (RTSPResponse.play (env_date e) (cseq req) (session_id_ s') range_echo rtp_info).

Definition handlePause (e : env) (req : RTSPRequest) : SE (session M) unit :=
  let* s := SE_get in
  if negb (bool_decide (state_ s = PLAYING)) then
    respond_error e (cseq req) 455 "Method Not Valid In This State"
  else
    do* SE_modify (fun s => s <| pause_start_ := env_now e |> <| state_ := PAUSED |>);
    let resp := RTSPResponse.ok (env_date e) (cseq req) (session_id_ s) in
    let resp :=
      if has_source s then
        let cur_secs := if dltb (last_npt_ s) dzero then dzero else last_npt_ s in
        set_header "Range" (nptRange cur_secs) resp
      else resp in
    sendResponse resp.

Definition handleTeardown (e : env) (req : RTSPRequest) : SE (session M) unit :=
  do* SE_modify (fun s => s <| state_ := INIT |>);
  let* s := SE_get in
  do* sendResponse (RTSPResponse.ok (env_date e) (cseq req) (session_id_ s));
  SE_modify (fun s => s <| out := (out s) <| close_after_write_ := true |> |>).

Definition handleRequest (e : env) (req : RTSPRequest) : SE (session M) unit :=
  if decide (method req = "OPTIONS") then handleOptions e req
  else if decide (method req = "DESCRIBE") then handleDescribe e req
  else if decide (method req = "SETUP") then handleSetup e req
  else if decide (method req = "PLAY") then handlePlay e req
  else if decide (method req = "PAUSE") then handlePause e req
  else if decide (method req = "TEARDOWN") then handleTeardown e req
  else respond_error e (cseq req) 501 "Not Implemented".
End handlers.
