(* ===== verification/SessionSpec.v ===== *)
(** * [SessionSpec]: the RTSP state machine as an abstract specification

    [fsm] says which status code may answer a method in a state and what the next state is.
    The handlers of [Session] refine it: a request that is handled produces exactly one
    response, with the CSeq of the request, and the transition it announces; a handler that
    throws has answered nothing and changed no state.  Also: what [openMedia] serves lies below
    the media root. *)

From S2P Require Import Prelude StdString StringUtils Double RTSPRequest RTSPResponse.
From S2P Require Import SDPBuilder RTPSender IMediaSource Path Egress Session.

(** ** The abstract state machine of RFC 2326 as the server implements it *)

Definition rtsp_methods : list text :=
  ["OPTIONS"; "DESCRIBE"; "SETUP"; "PLAY"; "PAUSE"; "TEARDOWN"].

(** [fsm method status before after] *)
Inductive fsm : text -> Z -> State -> State -> Prop :=
| fsm_options st : fsm "OPTIONS" 200 st st
| fsm_describe st code : code ∈ [200; 403; 404; 415] -> fsm "DESCRIBE" code st st
| fsm_setup_refused st code : code ∈ [400; 455; 461; 500] -> fsm "SETUP" code st st
| fsm_setup_video st : fsm "SETUP" 200 st READY
| fsm_setup_audio st : fsm "SETUP" 200 st st
| fsm_play_refused : fsm "PLAY" 455 INIT INIT
| fsm_play st : st <> INIT -> fsm "PLAY" 200 st PLAYING
| fsm_pause_refused st : st <> PLAYING -> fsm "PAUSE" 455 st st
| fsm_pause : fsm "PAUSE" 200 PLAYING PAUSED
| fsm_teardown st : fsm "TEARDOWN" 200 st INIT
| fsm_other m st : (m ∉ rtsp_methods) -> fsm m 501 st st.

(** ** What the handlers do to the outbox and the state *)

Section spec.
Context {M : Type} `{IMediaSource M}.
Implicit Types s : session M.

(** One response with status [code] for the request numbered [c]; a reader finds its borders in
    a stream when [P] holds. *)
Definition answered_if (P : Prop) (c code : Z) s s' : Prop :=
  exists resp, status resp = code /\ answers c resp /\ (P -> well_framed resp)
    /\ out s' = Egress.sendResponse resp (out s).

Definition answered : Z -> Z -> session M -> session M -> Prop := answered_if True.

(** What the handlers leave alone. *)
Definition keeps s s' : Prop := session_id_ s' = session_id_ s /\ cmd_queue_ s' = cmd_queue_ s.

Lemma keeps_refl s : keeps s s.
Proof. done. Qed.

Lemma keeps_trans s1 s2 s3 : keeps s1 s2 -> keeps s2 s3 -> keeps s1 s3.
Proof. intros [A B] [C D]. split; congruence. Qed.

(** Everything but the media source and the write side. *)
Definition core s : session M := s <| out := egress_init |> <| media_source_ := None |>.

Lemma core_state s s' : core s' = core s -> state_ s' = state_ s.
Proof. intros E. exact (f_equal state_ E). Qed.

Lemma core_keeps s s' : core s' = core s -> keeps s s'.
Proof. intros E. split; [exact (f_equal session_id_ E)|exact (f_equal cmd_queue_ E)]. Qed.

Lemma error_answers d c code why : answers c (RTSPResponse.error d c code why).
Proof. unfold RTSPResponse.error, answers. cbv zeta. solve_answers. Qed.

Lemma answered_error d c code why s s' :
  ascii_of_nat 13 ∉ why -> out s' = Egress.sendResponse (RTSPResponse.error d c code why) (out s) ->
  answered c code s s'.
Proof.
  intros Hw E. eexists. split; [|split; [apply error_answers|split; [|exact E]]]; [done|].
  intros _. by apply plain_well_framed, error_plain.
Qed.

Ltac solve_refusal := eapply answered_error; [|reflexivity]; decide_closed.

Lemma respond_error_spec e c code why s :
  ascii_of_nat 13 ∉ why ->
  exists s', respond_error e c code why s = (s', Ok tt)
    /\ core s' = core s /\ answered c code s s' /\ media_source_ s' = media_source_ s.
Proof.
  intros Hw. eexists. split; [reflexivity|]. split; [reflexivity|]. split; [|reflexivity].
  by eapply answered_error.
Qed.

(** What [openMedia] passes to [open]. *)
Definition served (e : env) (root path : text) : Prop :=
  exists canonical_root canonical_full,
    fs_weakly_canonical e root = Ok canonical_root
    /\ fs_weakly_canonical e path = Ok canonical_full
    /\ escaped e canonical_full canonical_root = false
    /\ fs_exists e path = Ok true.

Definition media_path (u : text) s : text :=
  Path.append (media_root_ s) (media_rel (urlPath u)).

Lemma openMedia_spec e u c s :
  match openMedia e u c s with
  | (s', Ok true) =>
      core s' = core s /\ out s' = out s
      /\ exists m, served e (media_root_ s) (media_path u s)
           /\ open (media_path u s) make = (true, m) /\ media_source_ s' = Some m
  | (s', Ok false) =>
      core s' = core s
      /\ (media_source_ s' = None \/ media_source_ s' = media_source_ s)
      /\ exists code, (code ∈ [403; 404; 415]) /\ answered c code s s'
  | (s', Throw _) => s' = s
  end.
Proof.
  unfold openMedia, SE_bind, SE_get, SE_lift. cbn beta iota.
  destruct (_ || _).
  { split; [reflexivity|]. split; [by right|]. exists 404. split; [set_solver|].
    solve_refusal. }
  fold (media_path u s). set (path := media_path u s).
  destruct (fs_weakly_canonical e (media_root_ s)) as [root|] eqn:Er; [|done].
  destruct (fs_weakly_canonical e path) as [full|] eqn:Ef; [|done].
  destruct (escaped e full root) eqn:Ee.
  { split; [reflexivity|]. split; [by right|]. exists 403. split; [set_solver|].
    solve_refusal. }
  destruct (fs_exists e path) as [[]|] eqn:Ex; [| |done]; cbn [negb].
  2: { split; [reflexivity|]. split; [by right|]. exists 404. split; [set_solver|].
    solve_refusal. }
  destruct (open path make) as [[] m] eqn:Eo.
  - split; [reflexivity|]. split; [reflexivity|]. exists m.
    split; [|done]. by exists root, full.
  - split; [reflexivity|]. split; [by left|]. exists 415. split; [set_solver|].
    solve_refusal.
Qed.

Lemma describe_answers d c sdp u : answers c (RTSPResponse.describe d c sdp u).
Proof. unfold RTSPResponse.describe, answers. cbv zeta. solve_answers. Qed.
(** Everything but what a SETUP chooses, and the write side. *)
Definition setup_core s : session M :=
  s <| out := egress_init |> <| use_tcp_ := false |> <| rtp_channel_ := 0 |>
    <| rtcp_channel_ := 0 |> <| audio_rtp_channel_ := 0 |> <| audio_rtcp_channel_ := 0 |>
    <| rtp_sender_ := None |> <| audio_rtp_sender_ := None |> <| udp_io := [] |>
    <| transport_ready_ := false |> <| audio_transport_ready_ := false |>.

(** [transport_ready_] of the track of a SETUP. *)
Definition track_ready (is_audio_track : bool) s : bool :=
  if is_audio_track then audio_transport_ready_ s else transport_ready_ s.

(** A transport flag is never taken back. *)
Definition ready_kept s s' : Prop :=
  (transport_ready_ s = true -> transport_ready_ s' = true)
  /\ (audio_transport_ready_ s = true -> audio_transport_ready_ s' = true).

Lemma parse_interleaved_spec hdr (f g : Z -> session M -> session M) s :
  (forall a s, setup_core (f a s) = setup_core s /\ out (f a s) = out s /\ ready_kept s (f a s)) ->
  (forall a s, setup_core (g a s) = setup_core s /\ out (g a s) = out s /\ ready_kept s (g a s)) ->
  let '(s', _) := parse_interleaved hdr f g s in
  setup_core s' = setup_core s /\ out s' = out s /\ ready_kept s s'.
Proof.
  intros Hf Hg. unfold parse_interleaved, SE_bind, SE_lift, SE_modify, SE_ret.
  destruct (find "interleaved=" hdr) as [pos|]; [|by split_and!].
  destruct (find_from "-" hdr (pos + 12)) as [dash|]; [|by split_and!].
  destruct (stoi _) as [a|]; [|by split_and!]. cbn beta iota.
  destruct (Hf a s) as (H1 & H2 & H3 & H4).
  destruct (stoi (substr_from hdr (dash + 1))) as [b|]; [|by split_and!]. cbn beta iota.
  destruct (Hg b (f a s)) as (G1 & G2 & G3 & G4).
  split; [congruence|]. split; [congruence|]. split; auto.
Qed.

(** The transports that are announced are one word. *)
Lemma word_value t : no_space t -> good_value t.
Proof.
  intros Ht. split; [by apply no_space_trimmed|].
  by apply no_cr_no_crlf, no_space_notin.
Qed.

Ltac solve_word :=
  repeat first [apply Forall_app; split | apply to_string_no_space | solve [repeat constructor]].

Lemma interleaved_transport_value a b : good_value (interleaved_transport a b).
Proof. apply word_value. unfold interleaved_transport. solve_word. Qed.

Lemma udp_transport_value a b : good_value (udp_transport a b).
Proof. apply word_value. unfold udp_transport. solve_word. Qed.

Lemma setup_core_keeps s s' : setup_core s' = setup_core s -> keeps s s'.
Proof. intros E. split; [exact (f_equal session_id_ E)|exact (f_equal cmd_queue_ E)]. Qed.

Lemma setup_tcp_spec b hdr s :
  let '(s', r) := setup_tcp b hdr s in
  setup_core s' = setup_core s /\ out s' = out s /\ ready_kept s s'
  /\ (is_ok r = true -> track_ready b s' = true)
  /\ match r with Ok t => good_value t | Throw _ => True end.
Proof.
  unfold setup_tcp, SE_bind at 1, SE_modify at 1. cbn beta iota.
  set (s0 := s <| use_tcp_ := true |>).
  destruct b; unfold SE_bind at 1;
    match goal with |- context [parse_interleaved hdr ?f ?g s0] =>
      pose proof (parse_interleaved_spec hdr f g s0 ltac:(by intros; split_and!)
        ltac:(by intros; split_and!)) as P;
      destruct (parse_interleaved hdr f g s0) as [s1 [[]|x]]
    end; destruct P as (P1 & P2 & P3 & P4); cbn; split_and!; try done;
    try apply interleaved_transport_value; split; intros; simpl_update; auto.
Qed.

Lemma setup_udp_spec e c b hdr s :
  let '(s', r) := setup_udp e c b hdr s in
  setup_core s' = setup_core s /\ ready_kept s s'
  /\ match r with
     | Ok (Some t) => out s' = out s /\ track_ready b s' = true /\ good_value t
     | Ok None => exists code, (code ∈ [461; 500]) /\ answered c code s s'
     | Throw _ => out s' = out s
     end.
Proof.
  unfold setup_udp, SE_bind, SE_modify, SE_lift, SE_get, SE_ret. cbn beta iota.
  destruct (find "client_port=" hdr) as [pos|].
  2: { split_and!; try done. exists 461. split; [set_solver|]. solve_refusal. }
  destruct (stoi _) as [port|]; [|by split_and!]. cbn beta iota.
  destruct b; unfold fresh_sender;
    destruct (setupUDP _ _ _ _) as [[ok acts] sender]; destruct ok; cbn [negb fst]; (split; [done|]);
    (split; [by split|]); try (split; [done|]; split; [done|apply udp_transport_value]);
    exists 500; (split; [set_solver|]); solve_refusal.
Qed.

Lemma setup_answers d c sid t : answers c (RTSPResponse.setup d c sid t).
Proof. unfold RTSPResponse.setup, answers. cbv zeta. solve_answers. Qed.

Lemma play_answers d c sid r i : answers c (RTSPResponse.play d c sid r i).
Proof.
  unfold RTSPResponse.play, answers. cbv zeta. repeat case_bool_decide; solve_answers.
Qed.

Lemma play_status d c sid r i : status (RTSPResponse.play d c sid r i) = 200.
Proof. unfold RTSPResponse.play. cbv zeta. by repeat case_bool_decide. Qed.

Lemma ok_status d c sid : status (RTSPResponse.ok d c sid) = 200.
Proof. unfold RTSPResponse.ok. cbv zeta. by case_bool_decide. Qed.

Lemma ok_answers d c sid : answers c (RTSPResponse.ok d c sid).
Proof. unfold RTSPResponse.ok, answers. cbv zeta. case_bool_decide; solve_answers. Qed.
(** TEARDOWN asks for the connection to be closed. *)
Definition closing (m : text) (e : egress) : egress :=
  if decide (m = "TEARDOWN") then e <| close_after_write_ := true |> else e.

(** The client's text that responses echo, and the name of the session, fit on a line. *)
Definition clean (req : RTSPRequest) s : Prop :=
  one_line (url req) /\ exists n, session_id_ s = to_string n.

(** The contract of a handler: one response and the transition it announces, or, when it
    throws, none and no transition. *)
Definition conforms (req : RTSPRequest) s (res : session M * result unit) : Prop :=
  keeps s (fst res)
  /\ match res with
     | (s', Ok _) =>
         exists resp, answers (cseq req) resp
           /\ fsm (method req) (status resp) (state_ s) (state_ s')
           /\ (clean req s -> well_framed resp)
           /\ out s' = closing (method req) (Egress.sendResponse resp (out s))
     | (s', Throw _) => out s' = out s /\ state_ s' = state_ s
     end.

Lemma sendResponse_effect resp (e : egress) :
  outbox_ (Egress.sendResponse resp e) = outbox_ e ++ [to_bytes (toString resp)]
  /\ epollout_armed_ (Egress.sendResponse resp e) = true
  /\ close_after_write_ (Egress.sendResponse resp e) = close_after_write_ e.
Proof.
  unfold Egress.sendResponse, push_buffer, enableWrite. simpl_update.
  destruct (epollout_armed_ e) eqn:E; simpl_update; by rewrite ?E.
Qed.

Lemma closing_effect m (e : egress) :
  outbox_ (closing m e) = outbox_ e /\ epollout_armed_ (closing m e) = epollout_armed_ e
  /\ close_after_write_ (closing m e) = close_after_write_ e || bool_decide (m = "TEARDOWN").
Proof.
  unfold closing. case_decide; simpl_update.
  - by rewrite bool_decide_eq_true_2, orb_true_r.
  - by rewrite bool_decide_eq_false_2, orb_false_r.
Qed.

Lemma answered_conforms req code s s' :
  keeps s s' -> answered_if (clean req s) (cseq req) code s s' ->
  fsm (method req) code (state_ s) (state_ s') ->
  method req <> "TEARDOWN" -> conforms req s (s', Ok tt).
Proof.
  intros Hk (resp & <- & Ha & Hw & Ho) Hf Hm. split; [done|]. exists resp. rewrite Ho.
  unfold closing. by rewrite decide_False.
Qed.

Lemma refused_conforms req code s s' :
  core s' = core s -> answered (cseq req) code s s' ->
  fsm (method req) code (state_ s) (state_ s) ->
  method req <> "TEARDOWN" -> conforms req s (s', Ok tt).
Proof.
  intros Hc (resp & Hs & Ha & Hw & Ho) Hf Hm. apply (answered_conforms _ code); [|..|done].
  - by apply core_keeps.
  - exists resp. split_and!; auto.
  - by rewrite (core_state _ _ Hc).
Qed.

(** Text that the server composes of clean parts. *)
Lemma session_value s req : clean req s -> good_value (session_id_ s).
Proof. intros (_ & n & ->). apply to_string_good. Qed.

Lemma timeout_value s req : clean req s -> good_value (session_id_ s ++ ";timeout=60").
Proof.
  intros (_ & n & ->). split; [|].
  - apply no_space_trimmed, Forall_app. split; [apply to_string_no_space|by repeat constructor].
  - apply no_crlf_app; [|done|done]. apply (to_string_good n).
Qed.

Lemma base_value req s : clean req s -> good_value (url req ++ "/").
Proof.
  intros [[[Ht Hr] Hl] _]. split; [split|by apply no_crlf_app].
  - destruct (url req) as [|c u]; [done|]. cbn in Ht. cbn. destruct (isspace c) eqn:E; [|done].
    exfalso. destruct (skip_spaces_cut u) as (a & Ha & _). apply (f_equal length) in Ha.
    rewrite Ht in Ha. len_lia.
  - by rewrite rev_app_distr.
Qed.

Lemma handleDescribe_conforms e req s :
  method req = "DESCRIBE" -> conforms req s (handleDescribe e req s).
Proof.
  intros Em. unfold handleDescribe, SE_bind, SE_modify. cbn beta iota.
  set (s0 := s <| media_source_ := None |>).
  pose proof (openMedia_spec e (url req) (cseq req) s0) as P.
  destruct (openMedia e (url req) (cseq req) s0) as [s1 [[]|x]].
  - destruct P as (Hc & Ho & m & _ & _ & Hm). unfold SE_get. cbn beta iota.
    rewrite Hm. unfold sendResponse, SE_modify. apply (answered_conforms _ 200).
    + exact (core_keeps s0 s1 Hc).
    + eexists. split; [|split; [apply describe_answers|split]]; [done| |].
      * intros Hcl. apply describe_well_framed. by apply (base_value req s).
      * simpl_update. by rewrite Ho.
    + rewrite Em. simpl_update. rewrite (core_state _ _ Hc). apply fsm_describe. set_solver.
    + by rewrite Em.
  - destruct P as (Hc & _ & code & Hin & Ha). apply (refused_conforms _ code); [done|exact Ha| |].
    + rewrite Em. apply fsm_describe. set_solver.
    + by rewrite Em.
  - by subst s1.
Qed.

(** The end of [handleSetup], after a transport has been set up. *)
Lemma setup_done_conforms e req s s1 t (audio : bool) :
  method req = "SETUP" -> setup_core s1 = setup_core s -> out s1 = out s -> good_value t ->
  conforms req s
    ((do* SE_modify (fun s => if audio then s else s <| state_ := READY |>);
      let* s := SE_get in
      sendResponse (RTSPResponse.setup (env_date e) (cseq req) (session_id_ s) t)) s1).
Proof.
  intros Em Hc Ho Ht. unfold SE_bind, SE_modify, sendResponse, SE_get. cbn beta iota.
  pose proof (setup_core_keeps _ _ Hc) as [Hs Hq].
  apply (answered_conforms _ 200); [| | |by rewrite Em].
  - by destruct audio.
  - eexists. split; [|split; [apply setup_answers|split]]; [done| |].
    + intros Hcl. apply plain_well_framed, setup_plain; [done|].
      destruct (timeout_value s req Hcl) as [V1 V2]. rewrite <- Hs in V1, V2. by destruct audio.
    + destruct audio; simpl_update; by rewrite Ho.
  - rewrite Em. pose proof (f_equal state_ Hc) as Hst. cbn in Hst. destruct audio; cbn.
    + rewrite Hst. apply fsm_setup_audio.
    + apply fsm_setup_video.
Qed.

Lemma handleSetup_conforms e req s :
  method req = "SETUP" -> conforms req s (handleSetup e req s).
Proof.
  intros Em. unfold handleSetup. unfold SE_bind at 1, SE_get at 1. cbn beta iota.
  assert (forall code why, code ∈ [400; 455; 461; 500] -> ascii_of_nat 13 ∉ why ->
    conforms req s (respond_error e (cseq req) code why s)) as Hrefuse.
  { intros code why Hin Hw.
    destruct (respond_error_spec e (cseq req) code why s Hw) as (s' & -> & Hc & Ha & _).
    apply (refused_conforms _ code); [done|done| |by rewrite Em]. rewrite Em. by apply fsm_setup_refused. }
  destruct (_ || _); [apply Hrefuse; [set_solver|decide_closed]|].
  case_bool_decide; [apply Hrefuse; [set_solver|decide_closed]|].
  set (audio := contains "trackID=1" (url req)). set (hdr := header req "transport").
  unfold SE_bind at 1. destruct (_ || _).
  - unfold SE_bind at 1. pose proof (setup_tcp_spec audio hdr s) as P.
    destruct (setup_tcp audio hdr s) as [s1 [t|x]]; destruct P as (Hc & Ho & _ & _ & Ht).
    + unfold SE_ret. cbn beta iota. simple apply setup_done_conforms; done.
    + split; [by apply setup_core_keeps|]. split; [done|]. exact (f_equal state_ Hc).
  - pose proof (setup_udp_spec e (cseq req) audio hdr s) as P.
    destruct (setup_udp e (cseq req) audio hdr s) as [s1 [[t|]|x]]; destruct P as (Hc & _ & P).
    + destruct P as (Ho & _ & Ht). simple apply setup_done_conforms; done.
    + destruct P as (code & Hin & resp & Hst & Ha & Hw & Ho).
      apply (answered_conforms _ code); [by apply setup_core_keeps| | |by rewrite Em].
      * exists resp. split_and!; auto.
      * rewrite Em. pose proof (f_equal state_ Hc) as Hs. cbn in Hs. rewrite Hs.
        apply fsm_setup_refused. set_solver.
    + split; [by apply setup_core_keeps|]. split; [done|]. exact (f_equal state_ Hc).
Qed.
(** The three cases of PLAY leave the write side alone. *)
Definition write_side s : text * list RTSPRequest * egress := (session_id_ s, cmd_queue_ s, out s).

Lemma seekAndReset_out d b s : write_side (seekAndReset d b s) = write_side s.
Proof. unfold seekAndReset. destruct (media_source_ s); [|done]. by destruct (seekToSeconds _ _). Qed.

Lemma peek_rtptime_out s : write_side (snd (peek_rtptime s)) = write_side s.
Proof. unfold peek_rtptime. destruct (media_source_ s); [|done]. by destruct (peekNextVideoRTPTimestamp _). Qed.

(** What PLAY echoes fits on a line: the positions are numbers, and the URL is one line. *)
Lemma nptRange_value d : good_value (nptRange d).
Proof.
  apply word_value. unfold nptRange. apply Forall_app. split; [by repeat constructor|].
  apply Forall_app. split; [|by repeat constructor].
  eapply Forall_impl; [apply fixed3_chars|]. by intros c [? _].
Qed.

Lemma word_then_line w u : no_space w -> no_crlf u = true -> no_crlf (w ++ u) = true.
Proof.
  intros Hw Hu. induction Hw as [|c w Hc Hw IH]; [done|]. apply (proj2 (no_crlf_cons c (w ++ u))).
  split; [|done]. by intros [-> _].
Qed.

Lemma line_then_word u w : no_crlf u = true -> no_space w -> no_crlf (u ++ w) = true.
Proof.
  intros Hu Hw. apply no_crlf_app; [done|by apply (word_value w)|].
  destruct Hw as [|c w Hc _]; [done|]. by intros [= ->].
Qed.

Lemma track_url_line u track : no_crlf u = true -> no_space track -> no_crlf (track_url u track) = true.
Proof.
  intros Hu Ht. unfold track_url. apply line_then_word; [|done]. case_if; [|done].
  apply line_then_word; [done|by repeat constructor].
Qed.

Lemma to_string_nonempty n : to_string n <> [].
Proof. unfold to_string. destruct (n <? 0); [done|apply decimal_nonempty]. Qed.

(** One track of RTP-Info. *)
Lemma track_info_value u track sq t :
  no_crlf u = true -> no_space track ->
  let w := "url=" ++ track_url u track ++ ";seq=" ++ to_string sq ++ ";rtptime=" ++ to_string t in
  good_value w /\ no_crlf w = true.
Proof.
  intros Hu Ht w. assert (no_crlf w = true) as Hw.
  { apply word_then_line; [by repeat constructor|]. apply line_then_word; [by apply track_url_line|].
    solve_word. }
  split; [split; [|done]|done].
  replace w with ("url=" ++ (track_url u track ++ ";seq=" ++ to_string sq ++ ";rtptime=") ++ to_string t)
    by (unfold w; by rewrite <- !app_assoc).
  apply trimmed_words; [by repeat constructor|done|apply to_string_no_space|apply to_string_nonempty].
Qed.

Lemma rtp_info_value req t s s' : clean req s -> good_value (rtp_info_text (url req) t s').
Proof.
  intros [[_ Hu] _]. unfold rtp_info_text. cbv zeta.
  destruct (track_info_value (url req) "trackID=0" (rtp_seq_ s') t Hu) as [Hg Hl];
    [by repeat constructor|].
  destruct (media_source_ s') as [m|]; [|exact Hg]. destruct (_ && _); [|exact Hg].
  destruct (track_info_value (url req) "trackID=1" (audio_rtp_seq_ s') (audioRTPOffset m) Hu)
    as [_ Hl2]; [by repeat constructor|].
  set (ri := _ ++ _) in Hg, Hl |- *. set (rest := _ ++ track_url _ "trackID=1" ++ _) in Hl2.
  change (good_value (ri ++ "," ++ rest)). split; [|].
  - destruct Hg as [_ _]. unfold ri, rest.
    replace (_ ++ "," ++ _) with
      ("url=" ++ (track_url (url req) "trackID=0" ++ ";seq=" ++ to_string (rtp_seq_ s') ++ ";rtptime="
        ++ to_string t ++ ",url=" ++ track_url (url req) "trackID=1" ++ ";seq="
        ++ to_string (audio_rtp_seq_ s') ++ ";rtptime=") ++ to_string (audioRTPOffset m))
      by (by rewrite <- !app_assoc).
    apply trimmed_words; [by repeat constructor|done|apply to_string_no_space|apply to_string_nonempty].
  - apply no_crlf_app; [exact Hl|by apply word_then_line; [repeat constructor|]|done].
Qed.

Lemma play_cases_out e req s (c : session M * text * text) ns ne hr :
  c = play_resume e s \/ c = play_scale s \/ c = play_seek (url req) ns ne hr s ->
  write_side (fst (fst c)) = write_side s
  /\ (clean req s -> good_value (snd (fst c)) /\ good_value (snd c)).
Proof.
  unfold play_resume, play_scale, play_seek. intros [->|[->| ->]].
  - split; [by destruct (pause_start_ s =? 0), (first_frame_ s)|].
    intros _. split; [apply nptRange_value|done].
  - split; [apply seekAndReset_out|]. intros _. split; [apply nptRange_value|done].
  - set (s1 := reset_pacing _ _). pose proof (peek_rtptime_out s1) as Hp.
    destruct (peek_rtptime s1) as [t s2]. cbn [fst snd] in *. rewrite Hp. split.
    + etrans; [|apply seekAndReset_out]. done.
    + intros Hc. split; [|by apply (rtp_info_value req t s)].
      destruct hr; [apply nptRange_value|done].
Qed.

Lemma handlePlay_conforms e req s :
  method req = "PLAY" -> conforms req s (handlePlay e req s).
Proof.
  intros Em. unfold handlePlay, SE_get. unfold SE_bind at 1. cbn beta iota.
  case_decide as Hs.
  - destruct (respond_error_spec e (cseq req) 455 "Method Not Valid In This State" s)
      as (s' & -> & Hc & Ha & _); [decide_closed|].
    apply (refused_conforms _ 455); [done|done| |by rewrite Em].
    rewrite Em, Hs. apply fsm_play_refused.
  - destruct (parse_range (header req "range")) as [[ns ne] hr].
    set (hr' := if negb _ then false else hr).
    set (c := if bool_decide (state_ s = PAUSED) then _ else _).
    destruct (play_cases_out e req s c ns ne hr') as [Ho Hv].
    { unfold c. repeat case_if; auto. }
    destruct c as [[s1 rg] ri]. unfold write_side in Ho. cbn [fst snd] in Ho, Hv.
    injection Ho as Hi Hq Ho. unfold SE_bind, SE_modify, sendResponse.
    apply (answered_conforms _ 200); [by split| | |by rewrite Em].
    + eexists. split; [|split; [|split; [|simpl_update; rewrite Ho; reflexivity]]];
        [apply play_status|apply play_answers|].
      intros Hc. destruct (Hv Hc). apply plain_well_framed, play_plain; [|done|done].
      rewrite Hi. by apply (session_value s req).
    + rewrite Em. by apply fsm_play.
Qed.

Lemma handlePause_conforms e req s :
  method req = "PAUSE" -> conforms req s (handlePause e req s).
Proof.
  intros Em. unfold handlePause, SE_get. unfold SE_bind at 1. cbn beta iota.
  case_bool_decide as Hs; cbn [negb].
  - unfold SE_bind, SE_modify, sendResponse. cbn beta iota.
    apply (answered_conforms _ 200); [done| | |by rewrite Em].
    + eexists. split; [|split; [|split; [|reflexivity]]].
      * destruct (has_source s); apply ok_status.
      * destruct (has_source s); [|apply ok_answers].
        apply answers_set_header; [discriminate|apply ok_answers].
      * intros Hc. apply plain_well_framed.
        assert (plain (RTSPResponse.ok (env_date e) (cseq req) (session_id_ s))) as Hp
          by (by apply ok_plain, (session_value s req)).
        destruct (has_source s); [|done].
        apply plain_set_header; [by apply header_name_literal|discriminate|apply nptRange_value|done].
    + rewrite Em, Hs. apply fsm_pause.
  - destruct (respond_error_spec e (cseq req) 455 "Method Not Valid In This State" s)
      as (s' & -> & Hc & Ha & _); [decide_closed|].
    apply (refused_conforms _ 455); [done|done| |by rewrite Em].
    rewrite Em. by apply fsm_pause_refused.
Qed.

Lemma handleTeardown_conforms e req s :
  method req = "TEARDOWN" -> conforms req s (handleTeardown e req s).
Proof.
  intros Em. unfold handleTeardown, SE_bind, SE_get, SE_modify, sendResponse. cbn beta iota.
  split; [done|]. eexists. split; [apply ok_answers|]. split; [|split].
  - rewrite Em, ok_status. apply fsm_teardown.
  - intros Hc. by apply plain_well_framed, ok_plain, (session_value s req).
  - unfold closing. by rewrite decide_True.
Qed.

Lemma options_answers d c m : answers c (RTSPResponse.options d c m).
Proof. unfold RTSPResponse.options, answers. cbv zeta. solve_answers. Qed.

Lemma handleRequest_conforms e req s : conforms req s (handleRequest e req s).
Proof.
  unfold handleRequest. repeat case_decide.
  - apply (answered_conforms _ 200); [done| | |by rewrite H0].
    + eexists. split; [|split; [apply options_answers|split; [|reflexivity]]]; [done|].
      intros _. by apply plain_well_framed, options_plain.
    + rewrite H0. apply fsm_options.
  - by apply handleDescribe_conforms.
  - by apply handleSetup_conforms.
  - by apply handlePlay_conforms.
  - by apply handlePause_conforms.
  - by apply handleTeardown_conforms.
  - destruct (respond_error_spec e (cseq req) 501 "Not Implemented" s) as (s' & -> & Hc & Ha & _);
      [decide_closed|].
    apply (refused_conforms _ 501); [done|done| |done].
    apply fsm_other. unfold rtsp_methods. rewrite !not_elem_of_cons. split_and!; try done.
    apply not_elem_of_nil.
Qed.
End spec.

(** C1: The handlers implement the RTSP state machine.  A request that is handled gets exactly
    one response, pushed behind what the outbox holds with EPOLLOUT armed: it carries the CSeq
    of the request, its status is one that the machine allows for the method in the state, and
    the state after is the one the machine announces; only TEARDOWN asks for the connection to
    be closed.  A handler that throws has answered nothing and moved nothing. *)
Theorem handleRequest_refines_fsm {M} `{IMediaSource M} e req (s : session M) :
  match handleRequest e req s with
  | (s', Ok _) =>
      exists resp, answers (cseq req) resp
        /\ fsm (method req) (status resp) (state_ s) (state_ s')
        /\ outbox_ (out s') = outbox_ (out s) ++ [to_bytes (toString resp)]
        /\ epollout_armed_ (out s') = true
        /\ close_after_write_ (out s')
           = close_after_write_ (out s) || bool_decide (method req = "TEARDOWN")
  | (s', Throw _) => out s' = out s /\ state_ s' = state_ s
  end.
Proof.
  pose proof (handleRequest_conforms e req s) as P.
  destruct (handleRequest e req s) as [s' [[]|x]]; destruct P as [_ P]; [|exact P].
  destruct P as (resp & Ha & Hf & _ & ->). exists resp.
  destruct (closing_effect (method req) (Egress.sendResponse resp (out s))) as (-> & -> & ->).
  destruct (sendResponse_effect resp (out s)) as (-> & -> & ->). by split_and!.
Qed.

(** ** Containment of the served files *)

(** What the documentation of [weakly_canonical] promises: its result is canonical already,
    and an absolute path is resolved to an absolute path. *)
Record resolves (weakly_canonical : text -> result text) : Prop := {
  resolve_idempotent p q : weakly_canonical p = Ok q -> weakly_canonical q = Ok q;
  resolve_absolute p q :
    weakly_canonical p = Ok q -> is_absolute p = true -> is_absolute q = true
}.

Lemma append_absolute p q : is_absolute p = true -> is_absolute (Path.append p q) = true.
Proof.
  intros Hp. unfold Path.append. destruct (is_absolute q) eqn:Hq; [done|].
  unfold is_absolute in *. apply starts_with_spec in Hp as [t ->].
  case_if; apply starts_with_spec; eexists; by rewrite <- !app_assoc.
Qed.

Lemma served_below e root path :
  resolves (fs_weakly_canonical e) -> canonical_dir root ->
  fs_weakly_canonical e root = Ok root -> is_absolute path = true ->
  served e root path ->
  exists full, fs_weakly_canonical e path = Ok full /\ below root full.
Proof.
  intros [Hid Habs] Hroot Hr Hp (cr & cf & Hcr & Hcf & Hesc & _).
  rewrite Hr in Hcr. injection Hcr as <-. exists cf. split; [done|].
  unfold escaped, fs_relative in Hesc. rewrite (Hid _ _ Hcf), Hr in Hesc.
  apply bool_decide_eq_false in Hesc.
  apply lexically_relative_below; [done| |done]. by eapply Habs.
Qed.

(** C8: No request leaves the media root.  With a media root that is a canonical directory, as
    [main] makes it, whatever the URL (percent-encoded dots, doubled slashes, an absolute path
    behind them), a source that [openMedia] opens for a client was opened on a path that
    resolves, through all symbolic links, to the root or something below it, and which exists. *)
Theorem openMedia_confined {M} `{IMediaSource M} e u c (s s' : session M) :
  resolves (fs_weakly_canonical e) ->
  canonical_dir (media_root_ s) ->
  fs_weakly_canonical e (media_root_ s) = Ok (media_root_ s) ->
  openMedia e u c s = (s', Ok true) ->
  exists path full m,
    open path make = (true, m) /\ media_source_ s' = Some m
    /\ fs_weakly_canonical e path = Ok full /\ below (media_root_ s) full
    /\ fs_exists e path = Ok true.
Proof.
  intros Hw Hroot Hr Ho. pose proof (openMedia_spec e u c s) as P. rewrite Ho in P.
  destruct P as (_ & _ & m & Hs & Hop & Hm).
  destruct (served_below e (media_root_ s) (media_path u s)) as (full & Hf & Hb); try done.
  { apply append_absolute, Hroot. }
  exists (media_path u s), full, m. destruct Hs as (? & ? & _ & _ & _ & Hx). by split_and!.
Qed.

(** A file system with one symbolic link inside the root and one that leaves it. *)
Definition example_resolve (p : text) : result text :=
  if decide (p = "/srv/link.mp4") then Ok ("/srv/data/v.mp4" : text)
  else if decide (p = "/srv/out.mp4") then Ok ("/home/secret.mp4" : text)
  else Ok p.

Definition example_env : env := {|
  env_now := 0;
  env_date := {| tm_sec := 0; tm_min := 0; tm_hour := 0; tm_mday := 1; tm_mon := 0;
                 tm_year := 125; tm_wday := 3 |};
  env_sockets := {| socket_result := 9; bind_result := 0; inet_pton_result := 1;
                    connect_result := 0; getsockname_port := Some 40000 |};
  fs_weakly_canonical := example_resolve;
  fs_exists := fun _ => Ok true
|}.

Import ListSource.

Definition example_session : session ListSource.source :=
  session_init "10.0.0.7" "/srv" "4711" 1 2.

Lemma example_resolves : resolves example_resolve.
Proof.
  split; intros p q; unfold example_resolve; repeat case_decide; intros [= <-]; try done;
    by repeat case_decide.
Qed.

Lemma openMedia_confined_witness :
  exists path full m,
    open path make = (true, m)
    /\ media_source_ (fst (openMedia example_env "rtsp://h/link.mp4/trackID=0" 2 example_session))
       = Some m
    /\ fs_weakly_canonical example_env path = Ok full /\ below "/srv" full
    /\ fs_exists example_env path = Ok true.
Proof.
  apply (openMedia_confined example_env "rtsp://h/link.mp4/trackID=0" 2 example_session).
  - exact example_resolves.
  - split; [reflexivity|]. cbn. repeat constructor; discriminate.
  - reflexivity.
  - reflexivity.
Defined.

(** The link that leaves the root gets 403. *)
Example traversal_refused :
  snd (openMedia example_env "rtsp://h/out.mp4" 2 example_session) = Ok false
  /\ answered 2 403 example_session
       (fst (openMedia example_env "rtsp://h/out.mp4" 2 example_session)).
Proof. split; [reflexivity|]. eapply answered_error; [|reflexivity]; decide_closed. Qed.
