(* ===== verification/Pacer.v ===== *)
(** * [Pacer]: the pacer tick of a session (src/server/RTSPSession.cpp: [sendVideoRTP],
    [sendAudioRTP], [pacerTick])

    One tick drains the command queue and then advances the media by at most one video frame
    and the audio that is due.  The steps carry the numbers of the source's comments. *)

From S2P Require Import Prelude StdString Double RTSPRequest RTSPResponse SDPBuilder RTPPacket.
From S2P Require Import H264Packetizer RTPSender IMediaSource Egress Session.

Section pacer.
Context {M : Type} `{IMediaSource M}.

(** A datagram of a track's sender; [sent pkt] is what [::send] answers for the packet, which
    the session does not look at. *)
Definition send_udp (sent : bytes -> Z) (sender : option RTPSender) (pkt : bytes) (s : session M)
    : session M :=
  match sender with
  | None => s
  | Some r => s <| udp_io := udp_io s ++ snd (RTPSender.send (sent pkt) [] pkt r) |>
  end.

(** [sendVideoRTP] *)
Definition sendVideoRTP (sent : bytes -> Z) (payload : bytes) (ts : Z) (marker : bool) (s : session M)
    : session M :=
  let pkt := RTPPacket.build payload (u8 (payload_type_ s)) (rtp_seq_ s) ts (ssrc_ s) marker in
  let s := s <| rtp_seq_ := u16 (rtp_seq_ s + 1) |> in
  if use_tcp_ s then s <| out := pushTCPFrame (rtp_channel_ s) pkt (out s) |>
  else send_udp sent (rtp_sender_ s) pkt s.

(** [sendAudioRTP] *)
Definition sendAudioRTP (sent : bytes -> Z) (rtp_pkt : bytes) (s : session M) : session M :=
  if use_tcp_ s then s <| out := pushTCPFrame (audio_rtp_channel_ s) rtp_pkt (out s) |>
  else send_udp sent (audio_rtp_sender_ s) rtp_pkt s.

(** 1. The drain of the command queue; [true]: the tick ends after a TEARDOWN.  [envs i] is
    what the operating system answers to the [i]-th request of the tick. *)
Fixpoint drain_commands (envs : nat -> env) (i : nat) (cmds : list RTSPRequest)
    : SE (session M) bool :=
  match cmds with
  | [] => SE_ret false
  | req :: rest =>
      do* SE_modify (fun s => s <| cmd_queue_ := rest |>);
      do* handleRequest (envs i) req;
      if decide (method req = "TEARDOWN") then SE_ret true
      else drain_commands envs (S i) rest
  end.

(** 2. Not playing. *)
Definition playing (s : session M) : bool :=
  bool_decide (state_ s = PLAYING) && has_source s && transport_ready_ s.

Definition idle_tick (now : Z) (s : session M) : session M :=
  let s := if bool_decide (state_ s = PAUSED) && (pause_start_ s =? 0)
           then s <| pause_start_ := now |> else s in
  if bool_decide (state_ s = PAUSED) then s else s <| pending_vp_ := None |>.

(** 3. *)
Definition absorb_pause (now : Z) (s : session M) : session M :=
  if negb (pause_start_ s =? 0) then
    let s := if negb (first_frame_ s)
             then s <| wall_start_ := wall_start_ s + (now - pause_start_ s) |> else s in
    s <| pause_start_ := 0 |>
  else s.

(** 4. *)
Definition discard_stale (s : session M) : session M :=
  if first_frame_ s then s <| pending_vp_ := None |> else s.

(** 4b. [false]: the tick ends. *)
Definition idr_gate (s : session M) : bool * session M :=
  if resume_waiting_for_idr_ s then
    match pending_vp_ s with
    | None => (true, s)
    | Some vp =>
        if is_key_frame vp then (true, s <| resume_waiting_for_idr_ := false |>)
        else (false, s <| pending_vp_ := None |>)
    end
  else (true, s).

(** 5. End of the file: seek to the start with the clock running on. *)
Definition loop_source (m : M) (s : session M) : session M :=
  s <| media_source_ :=
         Some (seek (u32 (last_video_rtp_ s + default 0 (last_frame_dur_ s))) m) |>
    <| first_frame_ := true |> <| loop_video_offset_ := 0 |> <| audio_loop_offset_ := 0 |>
    <| last_video_rtp_ := 0 |> <| resume_waiting_for_idr_ := false |>
    <| npt_end_ := minus_one |> <| pending_ap_ := None |>.

Definition d_90000 : double := d_of_Z 90000.

(** 5. The next frame; [false]: the tick ends. *)
Definition read_frame (m : M) (s : session M) : bool * session M :=
  match pending_vp_ s with
  | Some _ => (true, s)
  | None =>
      match readPacket m with
      | (None, m) => (false, loop_source m s)
      | (Some vp, m) =>
          let s := s <| media_source_ := Some m |> in
          if bool_decide (nals vp = []) then (false, s)
          else if (first_frame_ s || resume_waiting_for_idr_ s) && negb (is_key_frame vp)
          then (false, s)
          else
            let s := s <| resume_waiting_for_idr_ := false |> in
            if dltb dzero (npt_end_ s)
               && dleb (npt_end_ s) (ddiv (d_of_Z (rtp_timestamp vp)) d_90000)
            then (false, s <| state_ := PAUSED |>)
            else (true, s <| pending_vp_ := Some vp |>)
      end
  end.

(** The end of step 5. *)
Definition clear_gate (s : session M) : session M :=
  match pending_vp_ s with
  | Some vp => if resume_waiting_for_idr_ s && is_key_frame vp
               then s <| resume_waiting_for_idr_ := false |> else s
  | None => s
  end.

(** 6. The wall-clock anchor. *)
Definition anchor (now : Z) (m : M) (vp : VideoPacket) (s : session M) : session M :=
  if first_frame_ s then
    let s := s <| wall_start_ := now |> <| loop_video_offset_ := rtp_timestamp vp |> in
    let sr := sample_rate (audioInfo m) in
    let s :=
      if 0 <? sr then
        s <| audio_loop_offset_ :=
               cast_u32 (dmul (ddiv (d_of_Z (loop_video_offset_ s)) d_90000) (d_of_Z sr)) |>
      else s in
    s <| first_frame_ := false |>
  else s.

(** [duration_cast<steady_clock::duration>(duration<double>(secs))] *)
Definition to_nanoseconds (secs : double) : Z := cast_i64 (dmul secs (d_of_Z (10 ^ 9))).

(** 7. *)
Definition media_secs (vp : VideoPacket) (s : session M) : double :=
  ddiv (d_of_Z (u32 (rtp_timestamp vp - loop_video_offset_ s))) d_90000.

Definition video_send_time (vp : VideoPacket) (s : session M) : Z :=
  wall_start_ s + to_nanoseconds (media_secs vp s).

(** 8. The NAL units of a frame: for a key frame the parameter sets of the stream first, in
    place of those in the frame. *)
Definition nal_type (nal : bytes) : Z := Z.land (hd 0 nal) 31.

Definition keep_nal (key : bool) (nal : bytes) : bool :=
  negb (bool_decide (nal = [])) && negb (key && ((nal_type nal =? 7) || (nal_type nal =? 8))).

Definition nal_list (info : H264StreamInfo) (vp : VideoPacket) : list bytes :=
  (if is_key_frame vp
   then (if bool_decide (sps info = []) then [] else [sps info])
        ++ (if bool_decide (pps info = []) then [] else [pps info])
   else [])
  ++ filter (fun nal => keep_nal (is_key_frame vp) nal = true) (nals vp).

(** The payloads of one NAL unit with their marker. *)
Fixpoint mark_last (last_nal : bool) (ps : list Packet) : list (bytes * bool) :=
  match ps with
  | [] => []
  | [p] => [(payload p, last_nal)]
  | p :: ps => (payload p, false) :: mark_last last_nal ps
  end.

Definition nal_payloads (last_nal : bool) (nal : bytes) : list (bytes * bool) :=
  mark_last last_nal (default [] (packetize nal default_mtu)).

Fixpoint frame_payloads (nal_list : list bytes) : list (bytes * bool) :=
  match nal_list with
  | [] => []
  | [nal] => nal_payloads true nal
  | nal :: rest => nal_payloads false nal ++ frame_payloads rest
  end.

Definition send_frame (sent : bytes -> Z) (m : M) (vp : VideoPacket) (s : session M) : session M :=
  fold_left (fun s p => sendVideoRTP sent (fst p) (rtp_timestamp vp) (snd p) s)
    (frame_payloads (nal_list (streamInfo m) vp)) s.

(** 8b. *)
Definition track (m : M) (vp : VideoPacket) (s : session M) : session M :=
  let abs_npt_secs := dadd (ddiv (d_of_Z (rtpOffset m)) d_90000) (media_secs vp s) in
  let s := if is_key_frame vp then s <| last_keyframe_npt_ := abs_npt_secs |> else s in
  let s := s <| last_npt_ := abs_npt_secs |> in
  let s :=
    if negb (last_video_rtp_ s =? 0) && (last_video_rtp_ s <? rtp_timestamp vp)
    then s <| last_frame_dur_ := Some (rtp_timestamp vp - last_video_rtp_ s) |> else s in
  s <| last_video_rtp_ := rtp_timestamp vp |> <| pending_vp_ := None |>.

(** 9. One audio frame: the AU headers section of RFC 3640, one AU. *)
Definition au_packet (data : bytes) : bytes :=
  let au_size := u16 (Z.of_nat (length data)) in
  [0; 16; u8 (Z.land (Z.shiftr au_size 5) 255); u8 (Z.shiftl (Z.land au_size 31) 3)] ++ data.

Definition sendOneAudio (sent : bytes -> Z) (ap : AudioPacket) (s : session M) : session M :=
  if bool_decide (data ap = []) then s
  else
    let pkt := RTPPacket.build (au_packet (data ap)) (u8 (audio_payload_type_ s))
                 (audio_rtp_seq_ s) (ap_rtp_timestamp ap) (audio_ssrc_ s) true in
    sendAudioRTP sent pkt (s <| audio_rtp_seq_ := u16 (audio_rtp_seq_ s + 1) |>).

Definition audio_send_time (sample_rate : Z) (ap : AudioPacket) (s : session M) : Z :=
  wall_start_ s
  + to_nanoseconds (ddiv (d_of_Z (u32 (ap_rtp_timestamp ap - audio_loop_offset_ s)))
                         (d_of_Z sample_rate)).

Definition audioIsDue (now sample_rate : Z) (ap : AudioPacket) (s : session M) : bool :=
  audio_send_time sample_rate ap s <=? now.

(** The [while (readAudioPacket(ap))] loop; the backlog of the source is fuel enough. *)
Fixpoint audio_loop (fuel : nat) (now : Z) (sent : bytes -> Z) (sample_rate : Z) (m : M) (s : session M)
    : session M :=
  match fuel with
  | O => s <| media_source_ := Some m |>
  | S f =>
      match readAudioPacket m with
      | (None, m) => s <| media_source_ := Some m |>
      | (Some ap, m) =>
          if negb (audioIsDue now sample_rate ap s) then
            s <| media_source_ := Some m |> <| pending_ap_ := Some ap |>
          else audio_loop f now sent sample_rate m (sendOneAudio sent ap s)
      end
  end.

(** 9. *)
Definition send_audio (now : Z) (sent : bytes -> Z) (m : M) (s : session M) : session M :=
  let rate := sample_rate (audioInfo m) in
  if audio_transport_ready_ s && (0 <? rate) then
    let s :=
      match pending_ap_ s with
      | Some ap =>
          if audioIsDue now rate ap s then (sendOneAudio sent ap s) <| pending_ap_ := None |>
          else s
      | None => s
      end in
    match pending_ap_ s with
    | Some _ => s
    | None => audio_loop (S (audio_backlog m)) now sent rate m s
    end
  else s.

(** Steps 6 to 9, with a frame at hand. *)
Definition send_when_due (now : Z) (sent : bytes -> Z) (m : M) (vp : VideoPacket) (s : session M)
    : session M :=
  let s := anchor now m vp s in
  if now <? video_send_time vp s then s
  else
    let s := send_frame sent m vp s in
    let s := track m vp s in
    send_audio now sent m s.

(** Steps 2 to 9. *)
Definition media_tick (now : Z) (sent : bytes -> Z) (s : session M) : session M :=
  if negb (playing s) then idle_tick now s
  else
    let s := discard_stale (absorb_pause now s) in
    let '(go, s) := idr_gate s in
    if negb go then s
    else
      match media_source_ s with
      | None => s
      | Some m =>
          let '(go, s) := read_frame m s in
          if negb go then s
          else
            let s := clear_gate s in
            match media_source_ s, pending_vp_ s with
            | Some m, Some vp => send_when_due now sent m vp s
            | _, _ => s
            end
      end.

(** [pacerTick(now)] *)
Definition pacerTick (envs : nat -> env) (now : Z) (sent : bytes -> Z) : SE (session M) unit :=
  let* s := SE_get in
  let* torn_down := drain_commands envs 0 (cmd_queue_ s) in
  if torn_down then SE_ret tt else SE_modify (media_tick now sent).
End pacer.
