(* ===== verification/PacerSpec.v ===== *)
(** * [PacerSpec]: what a pacer tick puts on the wire

    The access unit of a due frame reaches a receiver: consecutive sequence numbers, one
    timestamp, the marker on the last packet only, NAL units that reassemble to the ones sent.
    A frame leaves when its time on the schedule has come and not before; after a seek the first
    one that leaves is a key frame. *)

From S2P Require Import Prelude Double SDPBuilder RTPPacket H264Packetizer RTPSender.
From S2P Require Import IMediaSource Egress Session Pacer.

(** ** The payloads of an access unit *)

Lemma mark_last_fst b ps : map fst (mark_last b ps) = map payload ps.
Proof.
  induction ps as [|p ps IH]; [done|]. destruct ps as [|q ps]; [done|].
  cbn [mark_last map] in *. by rewrite IH.
Qed.

Lemma mark_last_snd b ps :
  ps <> [] -> map snd (mark_last b ps) = replicate (length ps - 1) false ++ [b].
Proof.
  induction ps as [|p ps IH]; [done|]. intros _. destruct ps as [|q ps]; [done|].
  change (map snd (mark_last b (p :: q :: ps)))
    with (false :: map snd (mark_last b (q :: ps))). rewrite IH by done. cbn [length].
  replace (S (S (length ps)) - 1)%nat with (S (S (length ps) - 1))%nat by lia. done.
Qed.

(** The fragments of one NAL unit at the MTU of the program. *)
Lemma nal_payloads_spec b nal :
  nal_unit nal ->
  exists ps n,
    nal_payloads b nal = mark_last b ps
    /\ map snd (nal_payloads b nal) = replicate n false ++ [b]
    /\ Forall (fun p => 1 <= Z.of_nat (length (fst p)) <= default_mtu) (nal_payloads b nal)
    /\ depacketize (map fst (nal_payloads b nal)) = Some nal.
Proof.
  intros Hn. assert (3 <= default_mtu < 2 ^ 64) as Hm by (unfold default_mtu; lia).
  destruct (packetize_fits nal default_mtu Hm) as (ps & n & Hp & Hs & Hk);
    [by destruct nal|]. unfold nal_payloads. rewrite Hp. cbn [default id].
  assert (ps <> []) as Hne by (intros ->; by destruct n).
  exists ps, (length ps - 1)%nat. split; [done|]. rewrite mark_last_snd, mark_last_fst by done.
  split; [done|]. split; [|by apply (packetize_join nal default_mtu)].
  apply Forall_map with (f := fst) (P := fun l => 1 <= Z.of_nat (length l) <= default_mtu).
  rewrite mark_last_fst. by apply Forall_map.
Qed.

Lemma frame_payloads_spec nals :
  Forall nal_unit nals ->
  receive None (map fst (frame_payloads nals)) = Some nals
  /\ Forall (fun p => 1 <= Z.of_nat (length (fst p)) <= default_mtu) (frame_payloads nals)
  /\ (nals <> [] -> exists n, map snd (frame_payloads nals) = replicate n false ++ [true]).
Proof.
  induction 1 as [|nal nals Hn Hns (IH1 & IH2 & IH3)]; [done|].
  destruct nals as [|nal' nals].
  - destruct (nal_payloads_spec true nal Hn) as (ps & n & _ & Hk & Hs & Hd).
    cbn [frame_payloads]. split; [|split; [done|]; intros _; by exists n].
    rewrite <- (app_nil_r (map fst _)), (receive_depacketize _ nal [] Hd). done.
  - destruct (nal_payloads_spec false nal Hn) as (ps & n & _ & Hk & Hs & Hd).
    cbn [frame_payloads] in *. rewrite !map_app.
    split; [by rewrite (receive_depacketize _ nal _ Hd), IH1|].
    split; [by apply Forall_app|]. intros _. destruct (IH3 ltac:(done)) as [k Hk'].
    exists (n + 1 + k)%nat. rewrite Hk, Hk', !replicate_add, <- !app_assoc. done.
Qed.

(** ** The packets of an access unit *)

Fixpoint rtp_packets (pt ts ssrc seq : Z) (ps : list (bytes * bool)) : list bytes :=
  match ps with
  | [] => []
  | (p, mk) :: ps => RTPPacket.build p pt seq ts ssrc mk
                     :: rtp_packets pt ts ssrc (u16 (seq + 1)) ps
  end.

(** What the RTP receiver reads from the [i]-th packet. *)
Definition received_packet (pt ts ssrc seq : Z) (i : nat) (p : bytes * bool) : rtp_packet :=
  {| rtp_version := 2; rtp_padding := false; rtp_extension := false; rtp_csrc_count := 0;
     rtp_marker := snd p; rtp_pt := pt; rtp_sequence := u16 (seq + Z.of_nat i);
     rtp_time := ts; rtp_source := ssrc; rtp_data := fst p |}.

Lemma u16_succ seq i : u16 (u16 (seq + 1) + Z.of_nat i) = u16 (seq + Z.of_nat (S i)).
Proof. unfold u16. rewrite Zplus_mod_idemp_l. f_equal. lia. Qed.

Lemma imap_ext_seq {A B} (f g : nat -> A -> B) l :
  (forall i x, f i x = g i x) -> imap f l = imap g l.
Proof. intros H. apply imap_ext. auto. Qed.

Lemma rtp_packets_decode pt ts ssrc ps : forall seq,
  0 <= pt < 128 -> 0 <= seq < 65536 -> 0 <= ts < 4294967296 -> 0 <= ssrc < 4294967296 ->
  map decode (rtp_packets pt ts ssrc seq ps)
    = map Some (imap (received_packet pt ts ssrc seq) ps).
Proof.
  induction ps as [|[p mk] ps IH]; intros seq Hpt Hseq Hts Hss; [done|].
  cbn [rtp_packets map imap]. rewrite build_decodes by done. f_equal.
  - unfold received_packet. cbn. by rewrite Z.add_0_r, u16_small.
  - rewrite IH by (done || apply u16_range). f_equal. apply imap_ext_seq.
    intros i x. unfold received_packet, compose. by rewrite u16_succ.
Qed.

Lemma rtp_packets_length pt ts ssrc ps : forall seq,
  length (rtp_packets pt ts ssrc seq ps) = length ps.
Proof. induction ps as [|[p mk] ps IH]; intros seq; [done|]. cbn. by rewrite IH. Qed.

Lemma rtp_packets_small pt ts ssrc ps : forall seq,
  Forall (fun p => 1 <= Z.of_nat (length (fst p)) <= default_mtu) ps ->
  Forall (fun pkt => Z.of_nat (length pkt) <= 1412)
    (rtp_packets pt ts ssrc seq ps).
Proof.
  induction ps as [|[p mk] ps IH]; intros seq Hs; [constructor|].
  apply Forall_cons in Hs as [Hp Hs]. constructor; [|by apply IH].
  rewrite build_length. unfold default_mtu, kHeaderSize in *. cbn [fst] in Hp. lia.
Qed.

(** ** The interleaved frames of an access unit *)

Section frames.
Context {M : Type} `{IMediaSource M}.
Implicit Types s : session M.

(** A frame whose length fits 16 bits carries it exactly, as [RTPSender] frames it. *)
Lemma tcp_frame_exact ch pkt :
  Z.of_nat (length pkt) < 65536 -> tcp_frame ch pkt = frame_header (u8 ch) pkt ++ pkt.
Proof.
  intros Hl. unfold tcp_frame, frame_header, size_of. rewrite u16_small by lia.
  rewrite land_255. unfold u8 at 3. rewrite Z.mod_mod by lia. done.
Qed.

(** Pushing frames below the high watermark. *)
Definition frames_size (pkts : list bytes) : Z :=
  foldr (fun p n => 4 + size_of p + n) 0 pkts.

Lemma frames_size_cons p pkts : frames_size (p :: pkts) = 4 + size_of p + frames_size pkts.
Proof. done. Qed.

Lemma frames_size_nonneg pkts : 0 <= frames_size pkts.
Proof.
  induction pkts as [|p pkts IH]; [done|]. rewrite frames_size_cons.
  pose proof (size_of_nonneg p). lia.
Qed.

Lemma pushTCPFrame_below ch pkt (e : egress) :
  outbox_bytes_ e <= kOutboxHWM -> 0 <= outbox_bytes_ e ->
  outbox_bytes_ e + 4 + size_of pkt < 2 ^ 64 ->
  outbox_ (pushTCPFrame ch pkt e) = outbox_ e ++ [tcp_frame ch pkt]
  /\ outbox_bytes_ (pushTCPFrame ch pkt e) = outbox_bytes_ e + 4 + size_of pkt
  /\ epollout_armed_ (pushTCPFrame ch pkt e) = true
  /\ close_after_write_ (pushTCPFrame ch pkt e) = close_after_write_ e.
Proof.
  intros Hh H0 Hl. unfold pushTCPFrame. rewrite (proj2 (Z.ltb_ge _ _)) by done.
  assert (size_of (tcp_frame ch pkt) = 4 + size_of pkt) as Hs
    by (unfold tcp_frame; rewrite size_of_app; reflexivity).
  pose proof (size_of_nonneg pkt). unfold push_buffer, enableWrite. rewrite Hs. simpl_update.
  change (2 ^ 64) with 18446744073709551616 in Hl. rewrite u64_small by lia.
  destruct (epollout_armed_ e) eqn:E; simpl_update; rewrite ?E; split_and!; try done; lia.
Qed.

(** [s] with the write side and the video sequence number reset: what sending leaves alone. *)
Definition no_egress s : session M :=
  s <| out := egress_init |> <| rtp_seq_ := 0 |> <| udp_io := [] |>.

Lemma send_video_tcp sent ts ps : forall s,
  use_tcp_ s = true -> 0 <= outbox_bytes_ (out s) ->
  let pkts := rtp_packets (u8 (payload_type_ s)) ts (ssrc_ s) (rtp_seq_ s) ps in
  outbox_bytes_ (out s) + frames_size pkts <= kOutboxHWM ->
  let s' := fold_left (fun s p => sendVideoRTP sent (fst p) ts (snd p) s) ps s in
  outbox_ (out s') = outbox_ (out s) ++ map (tcp_frame (rtp_channel_ s)) pkts
  /\ (ps <> [] -> epollout_armed_ (out s') = true)
  /\ close_after_write_ (out s') = close_after_write_ (out s)
  /\ no_egress s' = no_egress s /\ udp_io s' = udp_io s.
Proof.
  induction ps as [|[p mk] ps IH]; intros s Ht H0; cbv zeta; cbn [rtp_packets fold_left].
  { intros _. rewrite app_nil_r. by split_and!. }
  set (pkt := build p (u8 (payload_type_ s)) (rtp_seq_ s) ts (ssrc_ s) mk).
  rewrite frames_size_cons. set (pkts := rtp_packets _ _ _ _ ps). intros Hl.
  set (s1 := sendVideoRTP sent (fst (p, mk)) ts (snd (p, mk)) s).
  assert (s1 = s <| rtp_seq_ := u16 (rtp_seq_ s + 1) |>
                 <| out := pushTCPFrame (rtp_channel_ s) pkt (out s) |>) as E1.
  { unfold s1, sendVideoRTP. simpl_update. by rewrite Ht. }
  pose proof (frames_size_nonneg pkts). pose proof (size_of_nonneg pkt).
  assert (kOutboxHWM < 2 ^ 64) as Hk by done.
  destruct (pushTCPFrame_below (rtp_channel_ s) pkt (out s)) as (P1 & P2 & P3 & P4);
    [lia|lia|lia|].
  specialize (IH s1). rewrite E1 in IH |- *. simpl_update_in IH. rewrite P2 in IH.
  destruct IH as (I1 & I2 & I3 & I4 & I5); [done|lia|fold pkts; lia|]. fold pkts in I1.
  rewrite I1, P1, I3, P4, <- app_assoc, I4, I5. split_and!; try done.
  intros _. destruct ps as [|q ps]; [exact P3|by apply I2].
Qed.
Lemma send_video_udp sent ts ps r : forall s,
  use_tcp_ s = false -> rtp_sender_ s = Some r -> ready_ r = true -> mode_ r = UDP ->
  (forall pkt, 0 <= sent pkt) ->
  let pkts := rtp_packets (u8 (payload_type_ s)) ts (ssrc_ s) (rtp_seq_ s) ps in
  let s' := fold_left (fun s p => sendVideoRTP sent (fst p) ts (snd p) s) ps s in
  udp_io s' = udp_io s ++ map (Datagram (udp_fd_ r)) pkts
  /\ out s' = out s /\ no_egress s' = no_egress s.
Proof.
  induction ps as [|[p mk] ps IH]; intros s Ht Hr Hrd Hm Hs; cbv zeta;
    cbn [rtp_packets fold_left map].
  { by rewrite app_nil_r. }
  set (s1 := sendVideoRTP sent (fst (p, mk)) ts (snd (p, mk)) s).
  set (pkt := build p (u8 (payload_type_ s)) (rtp_seq_ s) ts (ssrc_ s) mk).
  assert (s1 = s <| rtp_seq_ := u16 (rtp_seq_ s + 1) |>
                 <| udp_io := udp_io s ++ [Datagram (udp_fd_ r) pkt] |>) as E1.
  { unfold s1, sendVideoRTP, send_udp. simpl_update. rewrite Ht, Hr.
    unfold RTPSender.send. rewrite Hrd, decide_True by done. cbn [negb].
    unfold sendUDP. rewrite (proj2 (Z.ltb_ge _ _)) by apply Hs. done. }
  specialize (IH s1). rewrite E1 in IH |- *. simpl_update_in IH.
  destruct IH as (I1 & I2 & I3); [done..|]. rewrite I1, <- app_assoc. by split_and!.
Qed.

Lemma send_video_seq sent ts ps : forall s,
  rtp_seq_ (fold_left (fun s p => sendVideoRTP sent (fst p) ts (snd p) s) ps s)
    = match ps with [] => rtp_seq_ s | _ => u16 (rtp_seq_ s + Z.of_nat (length ps)) end.
Proof.
  induction ps as [|p ps IH]; intros s; [done|]. cbn [fold_left]. rewrite IH.
  assert (rtp_seq_ (sendVideoRTP sent (fst p) ts (snd p) s) = u16 (rtp_seq_ s + 1)) as ->.
  { unfold sendVideoRTP, send_udp. simpl_update. destruct (use_tcp_ s); [done|].
    by destruct (rtp_sender_ s). }
  destruct ps; [by simpl|]. rewrite u16_succ. done.
Qed.
End frames.

(** C3: A due access unit reaches the receiver.  The packets that step 8 sends for a frame are
    decoded as consecutively numbered packets of the session's source with the frame's timestamp,
    the marker on the last one only, and their payloads reassemble to exactly the NAL units of
    the frame (the stream's parameter sets in front of a key frame).  Over TCP each packet is
    pushed as its interleaved frame, its 16-bit length exact, with the watermark not reached;
    over UDP each is one datagram of the video socket. *)
Theorem access_unit_delivered {M} `{IMediaSource M} sent m vp (s : session M) :
  let nals := nal_list (streamInfo m) vp in
  let ps := frame_payloads nals in
  let pkts := rtp_packets 96 (rtp_timestamp vp) (ssrc_ s) (rtp_seq_ s) ps in
  let s' := send_frame sent m vp s in
  Forall nal_unit nals -> payload_type_ s = 96 ->
  0 <= rtp_timestamp vp < 4294967296 -> 0 <= ssrc_ s < 4294967296 ->
  0 <= rtp_seq_ s < 65536 ->
  map decode pkts
    = map Some (imap (received_packet 96 (rtp_timestamp vp) (ssrc_ s) (rtp_seq_ s)) ps)
  /\ receive None (map fst ps) = Some nals
  /\ (nals <> [] -> exists n, map snd ps = replicate n false ++ [true])
  /\ rtp_seq_ s' = u16 (rtp_seq_ s + Z.of_nat (length pkts))
  /\ (use_tcp_ s = true -> 0 <= outbox_bytes_ (out s) ->
      outbox_bytes_ (out s) + frames_size pkts <= kOutboxHWM ->
      outbox_ (out s')
        = outbox_ (out s) ++ map (fun pkt => frame_header (u8 (rtp_channel_ s)) pkt ++ pkt) pkts
      /\ close_after_write_ (out s') = close_after_write_ (out s))
  /\ (forall r, use_tcp_ s = false -> rtp_sender_ s = Some r -> ready_ r = true ->
      mode_ r = UDP -> (forall pkt, 0 <= sent pkt) ->
      udp_io s' = udp_io s ++ map (Datagram (udp_fd_ r)) pkts /\ out s' = out s).
Proof.
  intros nals ps pkts s' Hn Hpt Hts Hss Hseq.
  destruct (frame_payloads_spec nals Hn) as (F1 & F2 & F3).
  assert (pkts = rtp_packets (u8 (payload_type_ s)) (rtp_timestamp vp) (ssrc_ s) (rtp_seq_ s) ps)
    as Ep by by rewrite Hpt.
  split; [by apply rtp_packets_decode|]. split; [done|]. split; [done|]. split; [|split].
  - unfold s', send_frame. rewrite send_video_seq. unfold pkts. rewrite rtp_packets_length.
    fold nals ps. destruct ps; [|done]. cbn. by rewrite Z.add_0_r, u16_small.
  - intros Ht H0 Hl. rewrite Ep in Hl |- *.
    destruct (send_video_tcp sent (rtp_timestamp vp) ps s Ht H0 Hl) as (T1 & _ & T3 & _).
    split; [|exact T3]. unfold s', send_frame. fold nals ps. rewrite T1. f_equal.
    apply map_ext_Forall. eapply Forall_impl; [by apply rtp_packets_small|].
    intros pkt Hp. simpl in Hp. apply tcp_frame_exact. lia.
  - intros r Ht Hr Hrd Hm Hs. rewrite Ep.
    destruct (send_video_udp sent (rtp_timestamp vp) ps r s Ht Hr Hrd Hm Hs) as (U1 & U2 & _).
    by split.
Qed.

Import (hints) ListSource.

(** A key frame in memory: its own SPS is replaced by the one of the stream. *)
Definition example_source : ListSource.source := {|
  ListSource.video := [];
  ListSource.audio := [];
  ListSource.info := H264StreamInfo_default <| sps := [103; 66; 0; 31] |> <| pps := [104; 7] |>;
  ListSource.ainfo := AudioStreamInfo_default
|}.

Definition example_frame : VideoPacket := {|
  nals := [[103; 1]; 101 :: replicate 3000 7; [6; 5]];
  rtp_timestamp := 3000; is_key_frame := true; vp_duration := 0
|}.

Definition example_playing : session ListSource.source :=
  (session_init "10.0.0.7" "/srv" "4711" 9 2)
    <| use_tcp_ := true |> <| state_ := PLAYING |> <| rtp_seq_ := 65535 |>.

Lemma access_unit_delivered_witness :
  let nals := nal_list (streamInfo example_source) example_frame in
  let ps := frame_payloads nals in
  let pkts := rtp_packets 96 3000 9 65535 ps in
  let s' := send_frame (fun _ => 0) example_source example_frame example_playing in
  nals = [[103; 66; 0; 31]; [104; 7]; 101 :: replicate 3000 7; [6; 5]]
  /\ length pkts = 6%nat
  /\ receive None (map fst ps) = Some nals
  /\ rtp_seq_ s' = 5
  /\ outbox_ (out s') = map (fun pkt => frame_header 0 pkt ++ pkt) pkts.
Proof.
  destruct (access_unit_delivered (fun _ => 0) example_source example_frame example_playing)
    as (_ & Hr & _ & Hseq & Ht & _).
  - repeat (constructor; [split; [lia | intros E; vm_compute in E; discriminate E]|]).
    constructor.
  - reflexivity.
  - cbn. lia.
  - cbn. lia.
  - cbn. lia.
  - split; [reflexivity|]. split; [vm_compute; reflexivity|]. split; [exact Hr|].
    split; [rewrite Hseq; vm_compute; reflexivity|].
    apply Ht; [reflexivity | cbn; lia | vm_compute; discriminate].
Defined.

(** ** Pacing *)

Section pacing.
Context {M : Type} `{IMediaSource M}.
Implicit Types s : session M.

(** Nothing left the session. *)
Definition quiet s s' : Prop := out s' = out s /\ udp_io s' = udp_io s.

(** Steps 3 to 5 send nothing; the frame they leave pending is the held one, or a new one that
    is a key frame if the session waits for one. *)
Lemma read_frame_spec m s :
  let '(go, s') := read_frame m s in
  quiet s s' /\ (go = true -> first_frame_ s' = first_frame_ s
    /\ forall vp, pending_vp_ s' = Some vp -> pending_vp_ s = Some vp
         \/ pending_vp_ s = None
            /\ (first_frame_ s || resume_waiting_for_idr_ s = true -> is_key_frame vp = true)).
Proof.
  unfold read_frame. destruct (pending_vp_ s) as [vp|] eqn:Ep.
  { split; [done|]. intros _. split; [done|]. intros vp' E. left. congruence. }
  destruct (readPacket m) as [[vp|] m']; [|done]. cbv zeta. simpl_update.
  case_bool_decide; [done|].
  destruct (first_frame_ s || resume_waiting_for_idr_ s) eqn:Ef, (is_key_frame vp) eqn:Ek;
    cbn [andb negb]; try done;
    (destruct (_ && _); [done|]); (split; [done|]); intros _; (split; [done|]);
    simpl_update; intros vp' [= <-]; right; split; congruence.
Qed.
(** A session that waits for a key frame: after PLAY, a seek or a loop. *)
Definition waits_for_key s : bool := first_frame_ s || resume_waiting_for_idr_ s.

Lemma before_read_spec now s :
  let s1 := discard_stale (absorb_pause now s) in
  quiet s s1 /\ first_frame_ s1 = first_frame_ s
  /\ resume_waiting_for_idr_ s1 = resume_waiting_for_idr_ s
  /\ (first_frame_ s = true -> pending_vp_ s1 = None).
Proof.
  cbv zeta. unfold discard_stale, absorb_pause.
  destruct (pause_start_ s =? 0), (first_frame_ s) eqn:E; cbn [negb]; simpl_update;
    rewrite ?E; simpl_update; by split_and!.
Qed.

Lemma idr_gate_spec s :
  let '(go, s') := idr_gate s in
  quiet s s' /\ first_frame_ s' = first_frame_ s
  /\ (go = true -> pending_vp_ s' = pending_vp_ s
      /\ (resume_waiting_for_idr_ s' = resume_waiting_for_idr_ s
          \/ exists vp, pending_vp_ s = Some vp /\ is_key_frame vp = true)
      /\ (resume_waiting_for_idr_ s = true ->
          forall vp, pending_vp_ s = Some vp -> is_key_frame vp = true)).
Proof.
  unfold idr_gate. destruct (resume_waiting_for_idr_ s) eqn:Er.
  2: { split_and!; try done. intros _. split_and!; [done|by left|done]. }
  destruct (pending_vp_ s) as [vp|] eqn:Ep.
  - destruct (is_key_frame vp) eqn:Ek; [|by split_and!].
    split_and!; try done. intros _. split_and!; [done|right; by exists vp|].
    intros _ vp' [= <-]. done.
  - split_and!; try done. intros _. split_and!; [done|by left|done].
Qed.

Lemma clear_gate_same s :
  quiet s (clear_gate s) /\ first_frame_ (clear_gate s) = first_frame_ s
  /\ pending_vp_ (clear_gate s) = pending_vp_ s
  /\ media_source_ (clear_gate s) = media_source_ s.
Proof.
  unfold clear_gate. destruct (pending_vp_ s) eqn:E; [|by split_and!].
  by destruct (_ && _); split_and!.
Qed.

Lemma quiet_trans s1 s2 s3 : quiet s1 s2 -> quiet s2 s3 -> quiet s1 s3.
Proof. intros [A B] [C D]. split; congruence. Qed.

(** *** The frame a tick is about, and its time *)

(** What sending looks at, and what it has sent so far. *)
Definition sender s :=
  (out s, udp_io s, use_tcp_ s,
   (rtp_seq_ s, ssrc_ s, payload_type_ s, rtp_channel_ s, rtp_sender_ s),
   (audio_rtp_seq_ s, audio_ssrc_ s, audio_payload_type_ s, audio_rtp_channel_ s,
    audio_rtp_sender_ s, audio_transport_ready_ s)).

(** A frame held from an earlier tick; a new start drops it. *)
Definition held s : option VideoPacket := if first_frame_ s then None else pending_vp_ s.

(** The requested range is over. *)
Definition range_over s vp : Prop :=
  dltb dzero (npt_end_ s) = true
  /\ dleb (npt_end_ s) (ddiv (d_of_Z (rtp_timestamp vp)) d_90000) = true.

(** The frame that a tick may send, and the source once it has it: the one held back, or the next
    one of the source.  Whenever the session waits for a key frame it must be one. *)
Inductive candidate s : M -> VideoPacket -> Prop :=
| cand_held m vp :
    media_source_ s = Some m -> held s = Some vp ->
    (waits_for_key s = true -> is_key_frame vp = true) -> candidate s m vp
| cand_read m vp m' :
    media_source_ s = Some m -> held s = None -> readPacket m = (Some vp, m') -> nals vp <> [] ->
    (waits_for_key s = true -> is_key_frame vp = true) -> ~ range_over s vp ->
    candidate s m' vp.

(** The anchor of the schedule: the time and the timestamp of the first frame after a start,
    moved by the length of a pause. *)
Definition anchor_of (now : Z) s vp : Z * Z :=
  if first_frame_ s then (now, rtp_timestamp vp)
  else (wall_start_ s + (if pause_start_ s =? 0 then 0 else now - pause_start_ s),
        loop_video_offset_ s).

(** The time of a frame: its distance from the anchor at 90 kHz, in nanoseconds. *)
Definition send_time (now : Z) s vp : Z :=
  let (time, origin) := anchor_of now s vp in
  time + to_nanoseconds (ddiv (d_of_Z (u32 (rtp_timestamp vp - origin))) d_90000).

(** *** The steps of a tick *)

(** Before the frame is read. *)
Record ready now s s2 : Prop := {
  rd_sender : sender s2 = sender s;
  rd_source : media_source_ s2 = media_source_ s;
  rd_first : first_frame_ s2 = first_frame_ s;
  rd_range : npt_end_ s2 = npt_end_ s;
  rd_held : pending_vp_ s2 = held s;
  rd_waits : held s = None -> waits_for_key s2 = waits_for_key s;
  rd_clock : first_frame_ s = false ->
    (wall_start_ s2, loop_video_offset_ s2)
      = (wall_start_ s + (if pause_start_ s =? 0 then 0 else now - pause_start_ s),
         loop_video_offset_ s)
}.

Lemma ready_before now s :
  let s1 := discard_stale (absorb_pause now s) in
  ready now s s1 /\ resume_waiting_for_idr_ s1 = resume_waiting_for_idr_ s.
Proof.
  cbv zeta. unfold discard_stale, absorb_pause.
  destruct (pause_start_ s =? 0) eqn:Ep, (first_frame_ s) eqn:Ef; cbn [negb]; simpl_update;
    rewrite ?Ef; (split; [|done]); constructor; unfold sender, held, waits_for_key; simpl_update;
    rewrite ?Ef, ?Ep, ?Z.add_0_r; done.
Qed.

Lemma ready_gate now s s1 :
  ready now s s1 -> resume_waiting_for_idr_ s1 = resume_waiting_for_idr_ s ->
  let '(go, s2) := idr_gate s1 in
  sender s2 = sender s
  /\ if go then ready now s s2
             /\ (forall vp, held s = Some vp -> waits_for_key s = true -> is_key_frame vp = true)
     else forall m vp, ~ candidate s m vp.
Proof.
  intros [R1 R2 R3 R4 R5 R6 R7] Hr. unfold idr_gate. rewrite Hr, R5.
  assert (forall vp, held s = Some vp -> waits_for_key s = resume_waiting_for_idr_ s) as Hw.
  { intros vp. unfold held, waits_for_key. by destruct (first_frame_ s). }
  destruct (resume_waiting_for_idr_ s) eqn:Er.
  2: { split; [done|]. split; [by constructor|]. intros vp Hh. by rewrite (Hw vp Hh). }
  destruct (held s) as [vp|] eqn:Eh; [|split; [done|]; split; [by constructor; rewrite ?Eh|done]].
  destruct (is_key_frame vp) eqn:Ek.
  - split; [done|]. split; [by constructor; rewrite ?Eh|]. congruence.
  - split; [done|]. intros m vp' N. destruct N as [m vp' _ E Hk|m vp' m' _ E]; [|congruence].
    rewrite Eh in E. injection E as <-. rewrite (Hw vp eq_refl) in Hk. by rewrite Hk in Ek.
Qed.

Lemma ready_read now s m s2 :
  ready now s s2 -> media_source_ s2 = Some m ->
  (forall vp, held s = Some vp -> waits_for_key s = true -> is_key_frame vp = true) ->
  let '(go, s3) := read_frame m s2 in
  sender s3 = sender s
  /\ if go then first_frame_ s3 = first_frame_ s
             /\ (wall_start_ s3, loop_video_offset_ s3) = (wall_start_ s2, loop_video_offset_ s2)
             /\ exists m' vp, media_source_ s3 = Some m' /\ pending_vp_ s3 = Some vp
                  /\ candidate s m' vp
     else forall m vp, ~ candidate s m vp.
Proof.
  intros [R1 R2 R3 R4 R5 R6 R7] Hm Hk. rewrite R2 in Hm. unfold read_frame. rewrite R5.
  destruct (held s) as [vp|] eqn:Eh.
  { split; [done|]. split; [done|]. split; [done|]. exists m, vp. rewrite R2, R5.
    split; [done|]. split; [done|]. apply cand_held; [done..|by apply Hk]. }
  specialize (R6 eq_refl).
  destruct (readPacket m) as [[vp|] m'] eqn:Er.
  2: { split; [done|]. intros m1 vp N. inversion N; congruence. }
  cbv zeta. simpl_update. fold (waits_for_key s2). rewrite R6, R4.
  assert (forall Q : Prop, (forall m1 vp1, candidate s m1 vp1 ->
    nals vp <> [] /\ (waits_for_key s = true -> is_key_frame vp = true) /\ ~ range_over s vp -> Q)
    -> (Q -> False) -> forall m1 vp1, ~ candidate s m1 vp1) as Hno.
  { intros Q HQ Hf m1 vp1 N. apply Hf, (HQ m1 vp1 N). inversion N as [|? ? ? E1 E2 E3]; [congruence|].
    assert (vp1 = vp) as -> by congruence. done. }
  case_bool_decide as En.
  { split; [done|]. apply (Hno False); [|done]. by intros m1 vp1 _ (? & _). }
  destruct (waits_for_key s && negb (is_key_frame vp)) eqn:Ew.
  { apply andb_true_iff in Ew as [Ew Ek]. split; [done|]. apply (Hno False); [|done].
    intros m1 vp1 _ (_ & Hx & _). by rewrite (Hx Ew) in Ek. }
  destruct (dltb _ _ && dleb _ _) eqn:Ee.
  { apply andb_true_iff in Ee. split; [done|]. apply (Hno False); [|done].
    intros m1 vp1 _ (_ & _ & Hx). by apply Hx. }
  split; [done|]. split; [done|]. split; [done|]. exists m', vp. split; [done|]. split; [done|].
  eapply cand_read; try done.
  - intros Hw. rewrite Hw in Ew. by destruct (is_key_frame vp).
  - intros [? ?]. apply andb_false_iff in Ee. destruct Ee; congruence.
Qed.

(** Step 6 and the time of step 7. *)
Lemma anchor_schedule now m vp s s4 :
  first_frame_ s4 = first_frame_ s ->
  (first_frame_ s = false -> (wall_start_ s4, loop_video_offset_ s4) = anchor_of now s vp) ->
  let s5 := anchor now m vp s4 in
  sender s5 = sender s4 /\ first_frame_ s5 = false
  /\ (wall_start_ s5, loop_video_offset_ s5) = anchor_of now s vp
  /\ video_send_time vp s5 = send_time now s vp.
Proof.
  intros Hf Hc s5.
  assert (sender s5 = sender s4 /\ first_frame_ s5 = false
    /\ (wall_start_ s5, loop_video_offset_ s5) = anchor_of now s vp) as (A & B & C).
  { unfold s5, anchor. rewrite Hf. destruct (first_frame_ s) eqn:E.
    - unfold anchor_of. rewrite E. cbv zeta. by destruct (0 <? _).
    - split; [done|]. split; [congruence|by apply Hc]. }
  split; [done|]. split; [done|]. split; [done|].
  unfold video_send_time, media_secs, send_time. rewrite <- C. done.
Qed.

Lemma media_tick_spec now sent s :
  let s' := media_tick now sent s in
  (sender s' = sender s
   /\ (playing s = true -> forall m vp, candidate s m vp -> now < send_time now s vp))
  \/ exists m vp s1, playing s = true /\ candidate s m vp /\ send_time now s vp <= now
       /\ sender s1 = sender s /\ first_frame_ s1 = false
       /\ (wall_start_ s1, loop_video_offset_ s1) = anchor_of now s vp
       /\ s' = send_audio now sent m (track m vp (send_frame sent m vp s1)).
Proof.
  cbv zeta. unfold media_tick. destruct (playing s); cbn [negb].
  2: { left. split; [|done]. unfold idle_tick. cbv zeta. by repeat case_if. }
  destruct (ready_before now s) as [R Hr]. set (s1 := discard_stale _) in *.
  pose proof (ready_gate now s s1 R Hr) as G. destruct (idr_gate s1) as [go1 s2].
  assert (forall s', sender s' = sender s -> (forall m vp, ~ candidate s m vp) ->
    sender s' = sender s
    /\ (true = true -> forall m vp, candidate s m vp -> now < send_time now s vp)) as Hno.
  { intros s' E Hn. split; [done|]. intros _ m vp N. by destruct (Hn m vp). }
  destruct G as [Q G]. destruct go1; cbn [negb]; [|by left; apply Hno]. destruct G as [R2 Hk].
  destruct (media_source_ s2) as [m|] eqn:Em.
  2: { left. apply Hno; [done|]. intros m vp N. rewrite (rd_source _ _ _ R2) in Em.
       inversion N; congruence. }
  pose proof (ready_read now s m s2 R2 Em Hk) as D. destruct (read_frame m s2) as [go2 s3].
  destruct D as [Q3 D]. destruct go2; cbn [negb]; [|by left; apply Hno].
  destruct D as (F3 & C3 & m' & vp & M3 & V3 & N). cbv zeta.
  assert (sender (clear_gate s3) = sender s3
    /\ (wall_start_ (clear_gate s3), loop_video_offset_ (clear_gate s3))
       = (wall_start_ s3, loop_video_offset_ s3)) as [Q4 C4].
  { unfold clear_gate. rewrite V3. by destruct (_ && _). }
  destruct (clear_gate_same s3) as (_ & F4 & P4 & M4). set (s4 := clear_gate s3) in *.
  rewrite M4, M3, P4, V3. unfold send_when_due.
  destruct (anchor_schedule now m' vp s s4) as (Q5 & F5 & C5 & T5); [congruence| |].
  { intros Hf. rewrite C4, C3, (rd_clock _ _ _ R2 Hf). unfold anchor_of. by rewrite Hf. }
  set (s5 := anchor now m' vp s4) in *.
  destruct (Z.ltb_spec now (video_send_time vp s5)) as [Hlt|Hge].
  - left. split; [congruence|]. intros _ m1 vp1 N1.
    assert (vp1 = vp) as ->; [|by rewrite <- T5]. destruct N, N1; congruence.
  - right. exists m', vp, s5. rewrite <- T5. split_and!; try done. congruence.
Qed.
End pacing.

(** C29: Pacing, in both directions.  What a tick is about is one frame: the one held back, or the
    next one of the source, which must be a key frame whenever the session waits for one (after
    PLAY, a seek or the end of the file), must not be empty and must lie before the end of the
    requested range.  Its time is its distance from the anchor, and the anchor is the tick's own
    clock for a first frame and moves by the length of a pause.  If the time has come, the tick
    sends exactly the packets of this frame, from the session's sequence number on, and then the
    audio that is due; if it has not, or if there is no such frame, or the session does not play,
    nothing reaches the outbox or a socket and no sequence number is used. *)
Theorem tick_sends_only_due {M} `{IMediaSource M} now sent (s : session M) :
  let s' := media_tick now sent s in
  (sender s' = sender s
   /\ (playing s = true -> forall m vp, candidate s m vp -> now < send_time now s vp))
  \/ exists m vp s1, playing s = true /\ candidate s m vp /\ send_time now s vp <= now
       /\ sender s1 = sender s /\ first_frame_ s1 = false
       /\ (wall_start_ s1, loop_video_offset_ s1) = anchor_of now s vp
       /\ s' = send_audio now sent m (track m vp (send_frame sent m vp s1)).
Proof. exact (media_tick_spec now sent s). Qed.
