(* ===== verification/Playback.v ===== *)
(** * [Playback]: what a client sees of the video over many ticks
    (src/server/RTSPSession.cpp: [pacerTick], [handlePlay], [handlePause])

    The frames that a run of ticks sends, against a file that the source plays.  Proved: the
    passes over a looped file send every frame in order and their timestamps never go back; a
    pause shifts the schedule by its length; and the sequence number and the RTP time that the
    answer to PLAY announces are those of the first packet that follows. *)

From S2P Require Import Prelude StdString Double RTSPRequest RTSPResponse SDPBuilder.
From S2P Require Import RTPPacket H264Packetizer RTPSender.
From S2P Require Import IMediaSource Egress Session SessionSpec Pacer PacerSpec.

Section playback.
Context {M : Type} `{IMediaSource M}.
Implicit Types s : session M.

(** ** The frame of a tick *)

(** Steps 3 to 5: the frame that is at hand for step 6, with the source it came from. *)
Definition frame_at_hand (now : Z) s : option (M * VideoPacket) * session M :=
  let '(go, s) := idr_gate (discard_stale (absorb_pause now s)) in
  if negb go then (None, s)
  else
    match media_source_ s with
    | None => (None, s)
    | Some m =>
        let '(go, s) := read_frame m s in
        if negb go then (None, s)
        else
          let s := clear_gate s in
          match media_source_ s, pending_vp_ s with
          | Some m, Some vp => (Some (m, vp), s)
          | _, _ => (None, s)
          end
    end.

(** The frame that the tick sends, if it sends one. *)
Definition tick_frame (now : Z) s : option VideoPacket :=
  if negb (playing s) then None
  else
    match frame_at_hand now s with
    | (Some (m, vp), s) => if now <? video_send_time vp (anchor now m vp s) then None else Some vp
    | (None, _) => None
    end.

Lemma media_tick_at_hand now sent s :
  playing s = true ->
  media_tick now sent s
    = match frame_at_hand now s with
      | (Some (m, vp), s) => send_when_due now sent m vp s
      | (None, s) => s
      end.
Proof.
  intros Hp. unfold media_tick, frame_at_hand. rewrite Hp. cbn [negb].
  destruct (idr_gate _) as [[] s1]; cbn [negb]; [|done].
  destruct (media_source_ s1) as [m|]; [|done].
  destruct (read_frame m s1) as [[] s2]; cbn [negb]; [|done]. cbv zeta.
  by destruct (media_source_ (clear_gate s2)), (pending_vp_ (clear_gate s2)).
Qed.

Lemma frame_at_hand_quiet now s : quiet s (snd (frame_at_hand now s)).
Proof.
  unfold frame_at_hand. destruct (before_read_spec now s) as (Q1 & _).
  set (s1 := discard_stale _) in *. pose proof (idr_gate_spec s1) as G.
  destruct (idr_gate s1) as [go s2]. destruct G as (Q2 & _).
  pose proof (quiet_trans _ _ _ Q1 Q2) as Q. destruct go; cbn [negb]; [|done].
  destruct (media_source_ s2) as [m|]; [|done]. pose proof (read_frame_spec m s2) as R.
  destruct (read_frame m s2) as [go s3]. destruct R as (Q3 & _).
  pose proof (quiet_trans _ _ _ Q Q3) as Q'. destruct go; cbn [negb]; [|done]. cbv zeta.
  destruct (clear_gate_same s3) as (Q4 & _). pose proof (quiet_trans _ _ _ Q' Q4).
  by destruct (media_source_ (clear_gate s3)), (pending_vp_ (clear_gate s3)).
Qed.

Lemma anchor_quiet now m vp s : quiet s (anchor now m vp s).
Proof. unfold anchor. destruct (first_frame_ s); [|done]. cbv zeta. by destruct (0 <? _). Qed.

(** [tick_frame] is what goes out: without one nothing does, with one its packets and then the
    audio that is due. *)
Lemma tick_frame_sent now sent s :
  match tick_frame now s with
  | None => quiet s (media_tick now sent s)
  | Some vp => exists m s1, quiet s s1
      /\ media_tick now sent s = send_audio now sent m (track m vp (send_frame sent m vp s1))
  end.
Proof.
  unfold tick_frame. destruct (playing s) eqn:Hp; cbn [negb].
  2: { unfold media_tick. rewrite Hp. cbn [negb]. unfold idle_tick. cbv zeta. by repeat case_if. }
  rewrite media_tick_at_hand by done. pose proof (frame_at_hand_quiet now s) as Q.
  destruct (frame_at_hand now s) as [[[m vp]|] s1]; cbn [snd] in Q; [|done].
  pose proof (quiet_trans _ _ _ Q (anchor_quiet now m vp s1)) as Q'. unfold send_when_due.
  destruct (now <? video_send_time vp (anchor now m vp s1)); [done|]. by do 2 eexists.
Qed.

(** ** Runs of ticks *)

(** Ticks without requests: their clock readings and the results of their sends.  The frames
    sent, each with the clock of its tick, and the session afterwards.  That a tick sends no
    other frame than [tick_frame], and this one once, is [tick_frame_sent]. *)
Fixpoint ticks (ts : list (Z * (bytes -> Z))) s : list (Z * VideoPacket) * session M :=
  match ts with
  | [] => ([], s)
  | (now, sent) :: ts =>
      let '(sent_later, s') := ticks ts (media_tick now sent s) in
      (match tick_frame now s with
       | Some vp => (now, vp) :: sent_later
       | None => sent_later
       end, s')
  end.

(** ** What sending leaves alone *)

(** The members that say where the playback is, apart from the frame at hand. *)
Definition position s : State * bool * double * bool * bool * Z * option Z :=
  (state_ s, transport_ready_ s, npt_end_ s, first_frame_ s, resume_waiting_for_idr_ s,
   last_video_rtp_ s, last_frame_dur_ s).

Lemma send_frame_same sent m vp s : no_egress (send_frame sent m vp s) = no_egress s.
Proof.
  unfold send_frame. generalize (frame_payloads (nal_list (streamInfo m) vp)) as ps.
  intros ps. revert s. induction ps as [|p ps IH]; intros s; [done|]. cbn [fold_left].
  rewrite IH. unfold sendVideoRTP, send_udp. simpl_update. destruct (use_tcp_ s); [done|].
  by destruct (rtp_sender_ s).
Qed.

Lemma sendOneAudio_same sent ap s :
  position (sendOneAudio sent ap s) = position s
  /\ pending_vp_ (sendOneAudio sent ap s) = pending_vp_ s
  /\ media_source_ (sendOneAudio sent ap s) = media_source_ s.
Proof.
  unfold sendOneAudio, sendAudioRTP, send_udp. case_bool_decide; [done|]. cbv zeta.
  simpl_update. destruct (use_tcp_ s); [done|]. by destruct (audio_rtp_sender_ s).
Qed.

Lemma audio_loop_same fuel now sent rate : forall m s,
  position (audio_loop fuel now sent rate m s) = position s
  /\ pending_vp_ (audio_loop fuel now sent rate m s) = pending_vp_ s.
Proof.
  induction fuel as [|fuel IH]; intros m s; [done|]. cbn [audio_loop].
  destruct (readAudioPacket m) as [[ap|] m']; [|done]. destruct (negb _); [done|].
  destruct (IH m' (sendOneAudio sent ap s)) as [-> ->].
  by destruct (sendOneAudio_same sent ap s) as (-> & -> & _).
Qed.

Lemma send_audio_same now sent m s :
  position (send_audio now sent m s) = position s
  /\ pending_vp_ (send_audio now sent m s) = pending_vp_ s.
Proof.
  unfold send_audio. cbv zeta. destruct (_ && _); [|done].
  set (s1 := match pending_ap_ s with Some _ => _ | None => _ end).
  assert (position s1 = position s /\ pending_vp_ s1 = pending_vp_ s) as [<- <-].
  { unfold s1. destruct (pending_ap_ s) as [ap|]; [|done]. destruct (audioIsDue _ _ _ _); [|done].
    by destruct (sendOneAudio_same sent ap s) as (<- & <- & _). }
  destruct (pending_ap_ s1); [done|]. apply audio_loop_same.
Qed.

(** The source is at most read for audio. *)
Lemma send_audio_source (P : M -> Prop) now sent m s :
  (forall m, P m -> P (snd (readAudioPacket m))) -> P m -> media_source_ s = Some m ->
  exists m', media_source_ (send_audio now sent m s) = Some m' /\ P m'.
Proof.
  intros Hr Hm Es. unfold send_audio. cbv zeta. destruct (_ && _); [|by eexists].
  set (s1 := match pending_ap_ s with Some _ => _ | None => _ end).
  assert (media_source_ s1 = Some m) as E1.
  { unfold s1. destruct (pending_ap_ s) as [ap|]; [|done]. destruct (audioIsDue _ _ _ _); [|done].
    simpl_update. by destruct (sendOneAudio_same sent ap s) as (_ & _ & ->). }
  destruct (pending_ap_ s1); [by eexists|]. clear Es E1.
  generalize s1. generalize (S (audio_backlog m)) as fuel, (sample_rate (audioInfo m)) as rate.
  clear s1 s. intros fuel rate. revert m Hm.
  induction fuel as [|fuel IH]; intros m Hm s; [by eexists|]. cbn [audio_loop].
  pose proof (Hr m Hm) as Hm'. destruct (readAudioPacket m) as [[ap|] m']; cbn in Hm'; [|by eexists].
  destruct (negb _); [by eexists|]. by apply IH.
Qed.

(** Where a tick that sends leaves the playback. *)
Definition tracked_duration ts s : option Z :=
  if negb (last_video_rtp_ s =? 0) && (last_video_rtp_ s <? ts)
  then Some (ts - last_video_rtp_ s) else last_frame_dur_ s.

Lemma sent_position (P : M -> Prop) now sent m vp s :
  (forall m, P m -> P (snd (readAudioPacket m))) -> P m -> media_source_ s = Some m ->
  let s' := send_audio now sent m (track m vp (send_frame sent m vp s)) in
  position s' = (state_ s, transport_ready_ s, npt_end_ s, first_frame_ s, resume_waiting_for_idr_ s,
                 rtp_timestamp vp, tracked_duration (rtp_timestamp vp) s)
  /\ pending_vp_ s' = None /\ exists m', media_source_ s' = Some m' /\ P m'.
Proof.
  intros Hr Hm Es. cbv zeta. set (s1 := send_frame sent m vp s).
  pose proof (send_frame_same sent m vp s) as E. fold s1 in E.
  assert (forall A (f : session M -> A), (forall s, f (no_egress s) = f s) -> f s1 = f s) as Hf.
  { intros A f Hf. by rewrite <- (Hf s1), E, Hf. }
  assert (position (track m vp s1) = (state_ s, transport_ready_ s, npt_end_ s, first_frame_ s,
            resume_waiting_for_idr_ s, rtp_timestamp vp, tracked_duration (rtp_timestamp vp) s)
          /\ pending_vp_ (track m vp s1) = None
          /\ media_source_ (track m vp s1) = Some m) as (P1 & P2 & P3).
  { rewrite <- Es, <- (Hf _ state_), <- (Hf _ transport_ready_), <- (Hf _ npt_end_),
      <- (Hf _ first_frame_), <- (Hf _ resume_waiting_for_idr_), <- (Hf _ media_source_),
      <- (Hf _ (tracked_duration (rtp_timestamp vp))) by done.
    unfold track, position, tracked_duration. cbv zeta.
    destruct (is_key_frame vp); simpl_update; destruct (_ && _); by split_and!. }
  destruct (send_audio_same now sent m (track m vp s1)) as [-> ->]. split; [done|].
  split; [done|]. by apply (send_audio_source P).
Qed.
End playback.

(** ** A source that plays a file *)

(** A video frame of a file: its time on the 90 kHz clock counted from the first frame. *)
Record file_frame := mkFrame { f_time : Z; f_key : bool; f_nals : list bytes }.

Definition stamped (off : Z) (fr : file_frame) (vp : VideoPacket) : Prop :=
  rtp_timestamp vp = u32 (off + f_time fr) /\ is_key_frame vp = f_key fr /\ nals vp = f_nals fr.

(** [at_frame i off m]: [m] delivers frame [i] of the file next and its clock has the offset
    [off].  Reading goes on to the next frame, looking ahead stays, and from the end of the file
    [seek] goes back to the first frame. *)
Class PlaysFile (M : Type) `{IMediaSource M} (file : list file_frame) := {
  at_frame : nat -> Z -> M -> Prop;
  at_frame_read i off m fr : at_frame i off m -> file !! i = Some fr ->
    exists vp m', readPacket m = (Some vp, m') /\ stamped off fr vp /\ at_frame (S i) off m';
  at_frame_end off m : at_frame (length file) off m ->
    exists m', readPacket m = (None, m')
      /\ forall off', 0 <= off' < 4294967296 -> at_frame 0 off' (seek off' m');
  at_frame_peek i off m fr : at_frame i off m -> file !! i = Some fr ->
    exists m', peekNextVideoRTPTimestamp m = (u32 (off + f_time fr), m') /\ at_frame i off m';
  at_frame_audio i off m : at_frame i off m -> at_frame i off (snd (readAudioPacket m))
}.

(** Looking ahead: the time peeked at is that of the packet that is read next. *)
Class LooksAhead (M : Type) `{IMediaSource M} := {
  looks_ahead : M -> Prop;
  peek_read m vp m' : looks_ahead m -> readPacket m = (Some vp, m') ->
    exists m1 m2, peekNextVideoRTPTimestamp m = (rtp_timestamp vp, m1)
      /\ readPacket m1 = (Some vp, m2)
}.

(** A file without reordering: the first frame is a key frame at time 0, no frame is empty, and
    the times do not decrease and leave no gap of 2^31 (6.6 hours) or more. *)
Record file_ok (file : list file_frame) : Prop := {
  fo_first : exists fr, file !! 0%nat = Some fr /\ f_time fr = 0 /\ f_key fr = true;
  fo_nals : Forall (fun fr => f_nals fr <> []) file;
  fo_times i fr fr' : file !! i = Some fr -> file !! S i = Some fr' ->
    0 <= f_time fr' - f_time fr < 2147483648
}.

(** [ts'] is not before [ts], as 32-bit serial numbers. *)
Definition not_before (ts ts' : Z) : Prop := u32 (ts' - ts) < 2147483648.

Lemma u32_diff a b : u32 (u32 a - u32 b) = u32 (a - b).
Proof. unfold u32. by rewrite <- Zminus_mod. Qed.

Section looping.
Context {M : Type} `{IMediaSource M} (file : list file_frame) `{!PlaysFile M file}.
Hypothesis Hfile : file_ok file.
Variable off0 : Z.
Implicit Types s : session M.

Let n := length file.

Lemma file_nonempty : (0 < n)%nat.
Proof. destruct Hfile as [(fr & E & _) _ _]. by apply lookup_lt_Some in E. Qed.

(** What was sent before frame [i] of a pass whose clock has the offset [off]; [last] is the
    timestamp sent last. *)
Definition sent_before (i : nat) (off : Z) (last : option Z) s : Prop :=
  match i with
  | O => last_video_rtp_ s = 0 /\ forall ts, last = Some ts -> not_before ts off
  | S j => exists fr, file !! j = Some fr /\ last = Some (u32 (off + f_time fr))
             /\ last_video_rtp_ s = u32 (off + f_time fr)
  end.

(** A file with a constant frame duration [d], long enough for the session to measure it before
    its end, on a clock that starts at [off0]. *)
Definition constant_rate (d : Z) : Prop :=
  (forall i fr, file !! i = Some fr -> f_time fr = Z.of_nat i * d)
  /\ 0 < d < 2147483648 /\ (3 <= n)%nat /\ 0 <= off0 /\ off0 + 2 * d < 4294967296.

(** [k] frames have been sent, [i] of them in this pass, whose clock has the offset [off]: with a
    constant rate the passes follow each other without a gap, and the duration is known once
    three frames have been sent. *)
Definition seamless (k i : nat) (off : Z) s : Prop :=
  (i <= k)%nat /\ forall d, constant_rate d ->
    off = u32 (off0 + Z.of_nat (k - i) * d)
    /\ (forall x, last_frame_dur_ s = Some x -> x = d)
    /\ ((3 <= k)%nat -> last_frame_dur_ s = Some d).

Record in_play s : Prop := {
  ip_playing : state_ s = PLAYING /\ transport_ready_ s = true;
  ip_end : dltb dzero (npt_end_ s) = false;
  ip_dur : forall d, last_frame_dur_ s = Some d -> 0 <= d < 2147483648
}.

(** [k] frames have been sent and frame [i] of the pass is next: it is still in the source, or
    it is held until it is due. *)
Inductive cursor s (k : nat) (last : option Z) : Prop :=
| cursor_source m i off :
    media_source_ s = Some m -> at_frame i off m -> 0 <= off < 4294967296 -> (i <= n)%nat ->
    (k mod n = i mod n)%nat -> sent_before i off last s -> pending_vp_ s = None ->
    first_frame_ s = bool_decide (i = 0%nat) ->
    (i <> 0%nat -> resume_waiting_for_idr_ s = false) -> seamless k i off s -> cursor s k last
| cursor_held m i off fr vp :
    media_source_ s = Some m -> at_frame (S i) off m -> 0 <= off < 4294967296 ->
    file !! i = Some fr -> stamped off fr vp -> (k mod n = i mod n)%nat ->
    sent_before i off last s -> pending_vp_ s = Some vp -> first_frame_ s = false ->
    resume_waiting_for_idr_ s = false -> seamless k i off s -> cursor s k last.

Lemma position_parts s s' :
  position s' = position s ->
  state_ s' = state_ s /\ transport_ready_ s' = transport_ready_ s /\ npt_end_ s' = npt_end_ s
  /\ first_frame_ s' = first_frame_ s /\ resume_waiting_for_idr_ s' = resume_waiting_for_idr_ s
  /\ last_video_rtp_ s' = last_video_rtp_ s /\ last_frame_dur_ s' = last_frame_dur_ s.
Proof. unfold position. intros [= -> -> -> -> -> -> ->]. by split_and!. Qed.

Lemma in_play_position s s' : position s' = position s -> in_play s -> in_play s'.
Proof.
  intros (E1 & E2 & E3 & _ & _ & _ & E7)%position_parts [Hp He Hd].
  constructor; [by rewrite E1, E2|by rewrite E3|by rewrite E7].
Qed.

Lemma sent_before_position i off last s s' :
  last_video_rtp_ s' = last_video_rtp_ s -> sent_before i off last s -> sent_before i off last s'.
Proof. intros E. destruct i; cbn; by rewrite E. Qed.

Lemma seamless_position k i off s s' :
  last_frame_dur_ s' = last_frame_dur_ s -> seamless k i off s -> seamless k i off s'.
Proof. intros E. unfold seamless. by rewrite E. Qed.

Lemma cursor_position s s' k last :
  position s' = position s -> media_source_ s' = media_source_ s ->
  pending_vp_ s' = pending_vp_ s -> cursor s k last -> cursor s' k last.
Proof.
  intros (_ & _ & _ & E4 & E5 & E6 & E7)%position_parts Em Ep Hc.
  destruct Hc as [m i off ? ? ? ? ? Hb ? ? ? Hc|m i off fr vp ? ? ? ? ? ? Hb ? ? ? Hc];
    apply (sent_before_position _ _ _ _ s') in Hb; try done;
    apply (seamless_position _ _ _ _ s') in Hc; try done.
  - eapply cursor_source; rewrite ?Em, ?Ep, ?E4, ?E5; try done.
  - eapply cursor_held; rewrite ?Em, ?Ep, ?E4, ?E5; try done.
Qed.

(** The frame that a pass sends next is not before the one sent last, and what is stored as its
    duration is a gap of the file. *)
Lemma frame_follows i off fr last s :
  in_play s -> 0 <= off < 4294967296 -> file !! i = Some fr -> sent_before i off last s ->
  (forall ts, last = Some ts -> not_before ts (u32 (off + f_time fr)))
  /\ (forall d, tracked_duration (u32 (off + f_time fr)) s = Some d -> 0 <= d < 2147483648).
Proof.
  intros Hp Hoff Hi Hb. unfold tracked_duration. destruct i as [|j]; cbn in Hb.
  - destruct Hb as [-> Hb]. destruct (fo_first file Hfile) as (fr0 & E & Ht & _).
    rewrite Hi in E. injection E as ->. rewrite Ht, Z.add_0_r, u32_small by done.
    split; [exact Hb|]. cbn. apply (ip_dur s Hp).
  - destruct Hb as (fr' & Hj & -> & ->). pose proof (fo_times file Hfile j fr' fr Hj Hi) as Hg.
    assert (u32 (u32 (off + f_time fr) - u32 (off + f_time fr')) = f_time fr - f_time fr') as Hd.
    { rewrite u32_diff. rewrite <- (u32_small (f_time fr - f_time fr')) by lia. f_equal. lia. }
    split; [intros ts [= <-]; unfold not_before; lia|]. intros d.
    destruct (_ && _) eqn:E; [|apply (ip_dur s Hp)]. intros [= <-].
    apply andb_true_iff in E as [_ E%Z.ltb_lt].
    pose proof (u32_range (off + f_time fr)). pose proof (u32_range (off + f_time fr')).
    rewrite u32_small in Hd by lia. lia.
Qed.

(** With a constant rate: its timestamp, and the duration that is known once it has been sent. *)
Lemma seamless_sent k i off fr last s s' :
  file !! i = Some fr -> (k mod n = i mod n)%nat -> sent_before i off last s ->
  seamless k i off s -> last_frame_dur_ s' = tracked_duration (u32 (off + f_time fr)) s ->
  seamless (S k) (S i) off s'
  /\ forall d, constant_rate d -> u32 (off + f_time fr) = u32 (off0 + Z.of_nat k * d).
Proof.
  intros Hi Hk Hb [Hle Hc] Ed.
  assert (forall d, constant_rate d -> u32 (off + f_time fr) = u32 (off0 + Z.of_nat k * d)) as Ht.
  { intros d Hd. destruct (Hc d Hd) as (-> & _). destruct Hd as (Htime & _).
    rewrite (Htime i fr Hi). unfold u32. rewrite Zplus_mod_idemp_l. f_equal.
    replace (Z.of_nat k) with (Z.of_nat (k - i) + Z.of_nat i) by lia. lia. }
  split; [|done]. split; [lia|]. intros d Hd. destruct (Hc d Hd) as (Ho & Hx & H3).
  replace (S k - S i)%nat with (k - i)%nat by lia. split; [done|].
  pose proof Hd as (Htime & Hd0 & Hn & Ho0 & Hlt). apply lookup_lt_Some in Hi as Hin. fold n in Hin.
  assert (forall x, tracked_duration (u32 (off + f_time fr)) s = Some x -> x = d) as Htr.
  { unfold tracked_duration. destruct (_ && _) eqn:E; [|done]. intros x [= <-].
    apply andb_true_iff in E as [E0%negb_true_iff%Z.eqb_neq E1%Z.ltb_lt].
    destruct i as [|j]; cbn in Hb; [by destruct Hb|]. destruct Hb as (fr' & Hj & _ & El).
    rewrite El in *. rewrite (Htime _ _ Hi), (Htime _ _ Hj) in *.
    assert (u32 (u32 (off + Z.of_nat (S j) * d) - u32 (off + Z.of_nat j * d)) = d) as Hu.
    { rewrite u32_diff. replace (_ - _) with d by lia. apply u32_small. lia. }
    pose proof (u32_range (off + Z.of_nat (S j) * d)). pose proof (u32_range (off + Z.of_nat j * d)).
    rewrite (u32_small (u32 _ - u32 _)) in Hu by lia. exact Hu. }
  rewrite Ed. split; [exact Htr|]. intros Hk3.
  assert (exists x, tracked_duration (u32 (off + f_time fr)) s = Some x) as (x & E)
    ; [|rewrite E; f_equal; by apply Htr].
  unfold tracked_duration. destruct (_ && _) eqn:E; [by eexists|].
  destruct (decide (3 <= k)%nat) as [Hk'|Hk']; [rewrite H3 by done; by eexists|]. exfalso.
  assert (k = 2%nat) as -> by lia. rewrite (Nat.mod_small i), Nat.mod_small in Hk by lia. subst i.
  cbn in Hb. destruct Hb as (fr' & Hj & _ & El). rewrite El, (Htime _ _ Hi), (Htime _ _ Hj), Ho in E.
  cbn in E. rewrite Z.add_0_r, (u32_small off0), !u32_small in E by lia.
  apply andb_false_iff in E as [E|E]; [apply negb_false_iff, Z.eqb_eq in E|apply Z.ltb_ge in E]; lia.
Qed.

(** ... and the offset of the next pass. *)
Lemma seamless_loop k off last s s' :
  (k mod n = n mod n)%nat -> sent_before n off last s -> seamless k n off s ->
  last_frame_dur_ s' = last_frame_dur_ s ->
  seamless k 0 (u32 (last_video_rtp_ s + default 0 (last_frame_dur_ s))) s'.
Proof.
  intros Hk Hb [Hle Hc] Ed. split; [lia|]. intros d Hd. destruct (Hc d Hd) as (Ho & Hx & H3).
  pose proof Hd as (Htime & Hd0 & Hn & Ho0 & Hlt). rewrite Ed. split; [|done].
  rewrite H3 by lia. destruct n as [|j] eqn:En; [lia|]. cbn in Hb. change (default 0 (Some d)) with d.
  destruct Hb as (fr & Hj & _ & ->). rewrite (Htime _ _ Hj), Ho. unfold u32.
  rewrite Zplus_mod_idemp_l, <- Z.add_assoc, Zplus_mod_idemp_l. f_equal.
  replace (Z.of_nat (k - 0)) with (Z.of_nat (k - S j) + Z.of_nat j + 1) by lia. lia.
Qed.

(** The end of the file: the next pass starts where the last frame ends. *)
Lemma loop_cursor m s k last off :
  in_play s -> (forall off', 0 <= off' < 4294967296 -> at_frame 0 off' (seek off' m)) ->
  (k mod n = n mod n)%nat -> sent_before n off last s -> pending_vp_ s = None ->
  seamless k n off s -> in_play (loop_source m s) /\ cursor (loop_source m s) k last.
Proof.
  intros Hp Ha Hk Hb Hv Hsm. pose proof file_nonempty as Hn. split.
  - destruct Hp as [Hs _ Hd]. by constructor.
  - set (off' := u32 (last_video_rtp_ s + default 0 (last_frame_dur_ s))).
    apply (cursor_source _ _ _ (seek off' m) 0 off'); try done; [..|by apply (seamless_loop _ off last)].
    + apply Ha, u32_range.
    + apply u32_range.
    + lia.
    + by rewrite Hk, Nat.Div0.mod_same, Nat.Div0.mod_0_l.
    + split; [done|]. intros ts ->. destruct n as [|j]; [lia|]. cbn in Hb.
      destruct Hb as (fr & _ & [= ->] & Hl). unfold not_before, off'. rewrite <- Hl.
      assert (0 <= default 0 (last_frame_dur_ s) < 2147483648) as Hd.
      { destruct (last_frame_dur_ s) eqn:E; cbn; [by apply (ip_dur s Hp)|lia]. }
      replace (u32 _) with (default 0 (last_frame_dur_ s)); [lia|].
      unfold u32. rewrite Zminus_mod_idemp_l. rewrite Z.mod_small; lia.
Qed.

(** A frame at hand: frame [i] of the pass. *)
Definition at_hand m vp s (k : nat) (last : option Z) : Prop :=
  exists i off fr, media_source_ s = Some m /\ at_frame (S i) off m /\ 0 <= off < 4294967296
    /\ file !! i = Some fr /\ stamped off fr vp /\ (k mod n = i mod n)%nat
    /\ sent_before i off last s /\ pending_vp_ s = Some vp
    /\ resume_waiting_for_idr_ s = false /\ seamless k i off s.

Lemma read_frame_cursor m s k last :
  in_play s -> cursor s k last -> media_source_ s = Some m ->
  let '(go, s') := read_frame m s in
  in_play s' /\
  if go then exists m' vp, at_hand m' vp s' k last else cursor s' k last.
Proof.
  intros Hp [m0 i off Em Ha Hoff Hi Hk Hb Hv Hf Hr Hc
            |m0 i off fr vp Em Ha Hoff Hi Hs Hk Hb Hv Hf Hr Hc] Es; rewrite Em in Es;
    injection Es as ->; unfold read_frame; rewrite Hv.
  2: { split; [done|]. by exists m, vp, i, off, fr. }
  destruct (decide (i = n)) as [->|Hne].
  - destruct (at_frame_end off m Ha) as (m' & -> & Ha'). by apply (loop_cursor m' s k last off).
  - destruct (lookup_lt_is_Some_2 file i) as [fr Hfr]; [unfold n in *; lia|].
    destruct (at_frame_read i off m fr Ha Hfr) as (vp & m' & -> & Hst & Ha'). cbv zeta.
    destruct Hst as (Ht & Hkey & Hnals). pose proof (fo_nals file Hfile) as Hn.
    rewrite Forall_forall in Hn. rewrite bool_decide_eq_false_2 by
      (rewrite Hnals; apply Hn; by eapply list_elem_of_lookup_2).
    simpl_update. replace ((first_frame_ s || resume_waiting_for_idr_ s) && negb (is_key_frame vp))
      with false.
    2: { destruct i as [|i].
         - destruct (fo_first file Hfile) as (fr0 & E & _ & Hk0). rewrite Hfr in E.
           injection E as ->. by rewrite Hkey, Hk0, andb_false_r.
         - rewrite Hf, Hr by done. done. }
    rewrite (ip_end s Hp). cbn [andb]. split; [destruct Hp; by constructor|].
    exists m', vp, i, off, fr. do 6 (split; [done|]). split; [by apply (sent_before_position _ _ _ s)|].
    do 2 (split; [done|]). by apply (seamless_position _ _ _ s).
Qed.

Lemma frame_at_hand_cursor now s k last :
  in_play s -> cursor s k last ->
  let '(o, s') := frame_at_hand now s in
  in_play s' /\
  match o with Some (m, vp) => at_hand m vp s' k last | None => cursor s' k last end.
Proof.
  intros Hp Hc. unfold frame_at_hand. set (s1 := discard_stale (absorb_pause now s)).
  assert (position s1 = position s /\ media_source_ s1 = media_source_ s
          /\ pending_vp_ s1 = pending_vp_ s) as (E1 & E2 & E3).
  { unfold s1, discard_stale, absorb_pause, position.
    destruct (pause_start_ s =? 0), (first_frame_ s) eqn:Ef; cbn [negb]; simpl_update; rewrite ?Ef;
      simpl_update; split_and!; try done;
      destruct Hc; congruence. }
  apply (in_play_position s s1 E1) in Hp. apply (cursor_position s s1 k last E1 E2 E3) in Hc.
  clearbody s1. clear s E1 E2 E3.
  assert (idr_gate s1 = (true, s1)) as ->.
  { unfold idr_gate. destruct Hc as [m i off _ _ _ _ _ _ Hv _ _ _|m i off fr vp _ _ _ _ _ _ _ _ _ Hr _].
    - rewrite Hv. by destruct (resume_waiting_for_idr_ s1).
    - by rewrite Hr. }
  cbn [negb]. destruct (media_source_ s1) as [m|] eqn:Em; [|by destruct Hc; congruence].
  pose proof (read_frame_cursor m s1 k last Hp Hc Em) as R.
  destruct (read_frame m s1) as [[] s2]; cbn [negb]; destruct R as [Hp2 R]; [|done].
  destruct R as (m' & vp & i & off & fr & H1 & H2 & H3 & H4 & H5 & H6 & H7 & H8 & H9 & H10). cbv zeta.
  assert (clear_gate s2 = s2) as -> by (unfold clear_gate; by rewrite H8, H9).
  rewrite H1, H8. split; [done|]. by exists i, off, fr.
Qed.

(** Step 6 keeps the frame at hand. *)
Lemma anchor_at_hand now m vp s k last :
  in_play s -> at_hand m vp s k last ->
  in_play (anchor now m vp s) /\ at_hand m vp (anchor now m vp s) k last
  /\ first_frame_ (anchor now m vp s) = false.
Proof.
  intros Hp (i & off & fr & H1 & H2 & H3 & H4 & H5 & H6 & H7 & H8 & H9 & H10).
  set (s2 := anchor now m vp s).
  assert (position s2 = (state_ s, transport_ready_ s, npt_end_ s, false,
            resume_waiting_for_idr_ s, last_video_rtp_ s, last_frame_dur_ s)
          /\ media_source_ s2 = media_source_ s /\ pending_vp_ s2 = pending_vp_ s) as (E & E2 & E3).
  { unfold s2, anchor, position. destruct (first_frame_ s) eqn:Ef; cbv zeta;
      [destruct (0 <? _)|]; simpl_update; by rewrite ?Ef. }
  clearbody s2. injection E as P1 P2 P3 P4 P5 P6 P7. split; [|split; [|done]].
  - destruct Hp as [Q1 Q2 Q3]. constructor; [by rewrite P1, P2|by rewrite P3|by rewrite P7].
  - exists i, off, fr. rewrite E2, E3, P5. do 6 (split; [done|]).
    split; [by apply (sent_before_position _ _ _ s)|]. do 2 (split; [done|]).
    by apply (seamless_position _ _ _ s).
Qed.

(** Steps 8 and 9 send it and go on to the next one. *)
Lemma send_at_hand now sent m vp s k last :
  in_play s -> at_hand m vp s k last -> first_frame_ s = false ->
  let s' := send_audio now sent m (track m vp (send_frame sent m vp s)) in
  in_play s' /\ cursor s' (S k) (Some (rtp_timestamp vp))
  /\ (exists fr, file !! (k mod n)%nat = Some fr /\ nals vp = f_nals fr /\ is_key_frame vp = f_key fr)
  /\ (forall ts, last = Some ts -> not_before ts (rtp_timestamp vp))
  /\ (forall d, constant_rate d -> rtp_timestamp vp = u32 (off0 + Z.of_nat k * d)).
Proof.
  intros Hp (i & off & fr & Em & Ha & Hoff & Hi & (Ht & Hkey & Hnals) & Hk & Hb & Hv & Hr & Hc) Hf.
  cbv zeta. destruct (frame_follows i off fr last s Hp Hoff Hi Hb) as [Hnb Hd].
  destruct (sent_position (at_frame (S i) off) now sent m vp s) as (Hpos & Hpend & m' & Em' & Ha');
    [intros; by apply at_frame_audio|done|done|].
  generalize dependent (send_audio now sent m (track m vp (send_frame sent m vp s))).
  intros s' Hpos Hpend Em'. injection Hpos as P1 P2 P3 P4 P5 P6 P7. rewrite Ht in P7.
  destruct (seamless_sent k i off fr last s s' Hi Hk Hb Hc P7) as [Hc' Hts].
  apply lookup_lt_Some in Hi as Hlt. fold n in Hlt. rewrite (Nat.mod_small i) in Hk by done.
  split; [|split; [|split; [|split]]].
  - destruct Hp as [Q1 Q2 Q3]. constructor; [by rewrite P1, P2|by rewrite P3|].
    intros d. rewrite P7. apply Hd.
  - apply (cursor_source _ _ _ m' (S i) off); try done.
    + rewrite <- Nat.add_1_r, <- (Nat.add_1_r i). by rewrite <- Nat.Div0.add_mod_idemp_l, Hk.
    + exists fr. by rewrite P6, Ht.
    + by rewrite P4.
    + intros _. by rewrite P5.
  - exists fr. by rewrite Hk.
  - rewrite Ht. exact Hnb.
  - intros d Hd'. rewrite Ht. by apply Hts.
Qed.

(** One tick: what it sends is the next frame of the pass, not before the one sent last. *)
Lemma tick_cursor now sent s k last :
  in_play s -> cursor s k last ->
  in_play (media_tick now sent s) /\
  match tick_frame now s with
  | None => cursor (media_tick now sent s) k last
  | Some vp =>
      cursor (media_tick now sent s) (S k) (Some (rtp_timestamp vp))
      /\ (exists fr, file !! (k mod n)%nat = Some fr
           /\ nals vp = f_nals fr /\ is_key_frame vp = f_key fr)
      /\ (forall ts, last = Some ts -> not_before ts (rtp_timestamp vp))
      /\ (forall d, constant_rate d -> rtp_timestamp vp = u32 (off0 + Z.of_nat k * d))
  end.
Proof.
  intros Hp Hc.
  assert (playing s = true) as Hpl.
  { destruct (ip_playing s Hp) as [E1 E2]. unfold playing, has_source.
    rewrite bool_decide_eq_true_2, E2 by done. by destruct Hc as [? ? ? ->|? ? ? ? ? ->]. }
  rewrite media_tick_at_hand by done. unfold tick_frame. rewrite Hpl. cbn [negb].
  pose proof (frame_at_hand_cursor now s k last Hp Hc) as A.
  destruct (frame_at_hand now s) as [[[m vp]|] s1]; destruct A as [Hp1 A]; [|done].
  destruct (anchor_at_hand now m vp s1 k last Hp1 A) as (Hp2 & A2 & Hf). unfold send_when_due.
  generalize dependent (anchor now m vp s1). intros s2 Hp2 A2 Hf. cbv zeta.
  destruct (now <? video_send_time vp s2).
  - split; [done|]. destruct A2 as (i & off & fr & H1 & H2 & H3 & H4 & H5 & H6 & H7 & H8 & H9 & H10).
    by apply (cursor_held _ _ _ m i off fr vp).
  - by apply send_at_hand.
Qed.

(** Every frame is not before the one in front of it. *)
Fixpoint never_back (last : option Z) (l : list VideoPacket) : Prop :=
  match l with
  | [] => True
  | vp :: l => (forall ts, last = Some ts -> not_before ts (rtp_timestamp vp))
               /\ never_back (Some (rtp_timestamp vp)) l
  end.

Lemma ticks_cursor ts : forall s k last,
  in_play s -> cursor s k last ->
  never_back last (fst (ticks ts s)).*2
  /\ forall i vp, (fst (ticks ts s)).*2 !! i = Some vp ->
       (exists fr, file !! ((k + i) mod n)%nat = Some fr
         /\ nals vp = f_nals fr /\ is_key_frame vp = f_key fr)
       /\ forall d, constant_rate d -> rtp_timestamp vp = u32 (off0 + Z.of_nat (k + i) * d).
Proof.
  induction ts as [|[now sent] ts IH]; intros s k last Hp Hc; [done|]. cbn [ticks].
  destruct (tick_cursor now sent s k last Hp Hc) as [Hp' P].
  destruct (tick_frame now s) as [vp|].
  - destruct P as (Hc' & (fr & Hf & Hn & Hk) & Hnb & Hts).
    destruct (IH _ _ _ Hp' Hc') as [I1 I2]. destruct (ticks ts _) as [l s'].
    cbn in *. split; [done|]. intros [|i] vp'; cbn.
    + intros [= <-]. rewrite Nat.add_0_r. split; [by exists fr|done].
    + intros Hi. replace (k + S i)%nat with (S k + i)%nat by lia. by apply I2.
  - destruct (IH _ _ _ Hp' P) as [I1 I2]. by destruct (ticks ts _) as [l s'].
Qed.
End looping.

(** ** Properties *)

(** The state in which PLAY leaves a session: the source before the first frame, nothing sent. *)
Record play_start {M} `{IMediaSource M} (file : list file_frame) `{!PlaysFile M file} (off : Z)
    (s : session M) : Prop := {
  ps_playing : state_ s = PLAYING /\ transport_ready_ s = true;
  ps_end : dltb dzero (npt_end_ s) = false;
  ps_source : exists m, media_source_ s = Some m /\ at_frame 0 off m;
  ps_offset : 0 <= off < 4294967296;
  ps_fresh : first_frame_ s = true /\ pending_vp_ s = None /\ last_video_rtp_ s = 0
             /\ last_frame_dur_ s = None
}.

Lemma play_start_cursor {M} `{IMediaSource M} file `{!PlaysFile M file} off (s : session M) :
  play_start file off s -> in_play s /\ cursor file off s 0 None.
Proof.
  intros [Hp He (m & Em & Ha) Ho (Hf & Hv & Hl & Hd)]. split.
  - constructor; [done..|]. by rewrite Hd.
  - apply (cursor_source _ _ _ _ _ m 0 off); try done; [lia|]. split; [done|]. intros d _.
    rewrite Hd. split; [|split; [done|lia]]. cbn. by rewrite Z.add_0_r, u32_small.
Qed.

(** Over any number of ticks: the frames of the file in order and from the first again after the
    last; no timestamp goes back; and with a constant rate they count on without a gap. *)
Lemma playback_loops {M} `{IMediaSource M} file `{!PlaysFile M file} off (s : session M) ts :
  file_ok file -> play_start file off s ->
  let frames := (fst (ticks ts s)).*2 in
  (forall i vp, frames !! i = Some vp ->
     (exists fr, file !! (i mod length file)%nat = Some fr
       /\ nals vp = f_nals fr /\ is_key_frame vp = f_key fr)
     /\ forall d, constant_rate file off d -> rtp_timestamp vp = u32 (off + Z.of_nat i * d))
  /\ (forall i vp vp', frames !! i = Some vp -> frames !! S i = Some vp' ->
        not_before (rtp_timestamp vp) (rtp_timestamp vp')).
Proof.
  intros Hfile Hs. cbv zeta. destruct (play_start_cursor file off s Hs) as [Hp Hc].
  destruct (ticks_cursor file Hfile off ts s 0 None Hp Hc) as [Hb Hi]. split; [exact Hi|].
  revert Hb. generalize (fst (ticks ts s)).*2 as l. intros l. generalize (@None Z) as last.
  induction l as [|vp0 l IH]; intros last Hb i vp vp' E E'; [done|]. destruct Hb as [_ Hb].
  destruct i as [|i]; cbn in *; [|by eapply IH].
  injection E as ->. destruct l as [|vp1 l]; [done|]. injection E' as ->. by apply Hb.
Qed.

Section handlers.
Context {M : Type} `{IMediaSource M}.
Implicit Types s : session M.

(** A paused session whose pause has a start does nothing in its ticks. *)
Lemma paused_ticks ts : forall s,
  state_ s = PAUSED -> pause_start_ s <> 0 -> ticks ts s = ([], s).
Proof.
  induction ts as [|[now sent] ts IH]; intros s Hs Hp; [done|]. cbn [ticks].
  assert (playing s = false) as Hpl by (unfold playing; by rewrite Hs).
  assert (media_tick now sent s = s) as ->.
  { unfold media_tick. rewrite Hpl. cbn [negb]. unfold idle_tick.
    rewrite (proj2 (Z.eqb_neq _ _)) by done. by rewrite andb_false_r, Hs. }
  unfold tick_frame. rewrite Hpl. cbn [negb]. by rewrite IH.
Qed.

Lemma handlePause_playing e req s :
  state_ s = PLAYING ->
  exists s', handlePause e req s = (s', Ok tt)
    /\ s' <| out := out s |> = s <| pause_start_ := env_now e |> <| state_ := PAUSED |>.
Proof.
  intros Hs. unfold handlePause, SE_bind, SE_get, SE_modify. rewrite Hs. cbn [negb].
  eexists. by split.
Qed.

Lemma handlePlay_resume e req s :
  state_ s = PAUSED ->
  let s1 := fst (fst (play_resume e s)) in
  exists resp, status resp = 200
    /\ handlePlay e req s
       = (s1 <| state_ := PLAYING |> <| out := Egress.sendResponse resp (out s1) |>, Ok tt).
Proof.
  intros Hs. unfold handlePlay. unfold SE_bind at 1, SE_get at 1. cbn beta iota. rewrite Hs.
  rewrite decide_False by done. destruct (parse_range _) as [[a b] c].
  rewrite bool_decide_eq_true_2 by done. destruct (play_resume e s) as [[s1 rg] ri].
  unfold SE_bind, SE_modify, sendResponse. eexists. split; [|reflexivity]. apply play_status.
Qed.

Lemma handlePlay_paused e req s :
  state_ s = PAUSED ->
  exists s', handlePlay e req s = (s', Ok tt)
    /\ s' <| out := out s |> = (fst (fst (play_resume e s))) <| state_ := PLAYING |>.
Proof.
  intros Hs. destruct (handlePlay_resume e req s Hs) as (resp & _ & E). eexists. split; [exact E|].
  unfold play_resume. cbv zeta. cbn [fst]. by destruct (pause_start_ s =? 0), (first_frame_ s).
Qed.
End handlers.

(** C11: A pause shifts the schedule by its length.  PAUSE, any number of ticks, and PLAY again,
    with whatever headers: both are answered, no frame leaves in between, the frame held before
    is held after, and every frame's send time is later by exactly the time between the two
    requests (the anchor is not yet set before the first frame, and stays so). *)
Theorem pause_shifts_schedule {M} `{IMediaSource M} e1 req1 ts e2 req2 (s : session M) :
  state_ s = PLAYING -> env_now e1 <> 0 ->
  exists s1 s3,
    handlePause e1 req1 s = (s1, Ok tt) /\ ticks ts s1 = ([], s1)
    /\ handlePlay e2 req2 s1 = (s3, Ok tt)
    /\ position s3 = position s /\ pending_vp_ s3 = pending_vp_ s
    /\ media_source_ s3 = media_source_ s /\ rtp_seq_ s3 = rtp_seq_ s
    /\ forall vp, video_send_time vp s3
         = video_send_time vp s + (if first_frame_ s then 0 else env_now e2 - env_now e1).
Proof.
  intros Hs Hn. destruct (handlePause_playing e1 req1 s Hs) as (s1 & E1 & F1).
  assert (state_ s1 = PAUSED /\ pause_start_ s1 = env_now e1) as [S1 T1]
    by (split; [exact (f_equal state_ F1)|exact (f_equal pause_start_ F1)]).
  destruct (handlePlay_paused e2 req2 s1 S1) as (s3 & E3 & F3).
  exists s1, s3. split; [done|]. split; [apply paused_ticks; [done|congruence]|]. split; [done|].
  set (d := if first_frame_ s then 0 else env_now e2 - env_now e1).
  assert (s3 <| out := out s |> = s <| wall_start_ := wall_start_ s + d |> <| pause_start_ := 0 |>
            <| state_ := PLAYING |>) as F.
  { transitivity (s1 <| out := out s |> <| wall_start_ := wall_start_ s1 + d |>
                     <| pause_start_ := 0 |> <| state_ := PLAYING |>).
    - transitivity (s3 <| out := out s1 |> <| out := out s |>); [done|]. rewrite F3.
      unfold play_resume, d. rewrite T1, (proj2 (Z.eqb_neq _ _)) by done. cbn [negb fst].
      rewrite (f_equal first_frame_ F1 : first_frame_ s1 = first_frame_ s).
      destruct (first_frame_ s); cbn [negb]; [rewrite Z.add_0_r|]; done.
    - rewrite F1. by rewrite (f_equal wall_start_ F1 : wall_start_ s1 = wall_start_ s). }
  split; [by rewrite (f_equal position F : position s3 = _), <- Hs|].
  split; [exact (f_equal pending_vp_ F)|]. split; [exact (f_equal media_source_ F)|].
  split; [exact (f_equal rtp_seq_ F)|]. intros vp.
  rewrite (f_equal (video_send_time vp) F : video_send_time vp s3 = _).
  unfold video_send_time, media_secs. simpl_update. lia.
Qed.

(** *** The end of a Range *)

Section range_end.
Context {M : Type} `{IMediaSource M}.
Implicit Types s : session M.

(** What the source reads next. *)
Inductive reads : M -> list VideoPacket -> M -> Prop :=
| reads_none m : reads m [] m
| reads_one m vp m1 vps m2 : readPacket m = (Some vp, m1) -> reads m1 vps m2 -> reads m (vp :: vps) m2.

(** A frame with data, at the end of the range or behind it. *)
Definition beyond (npt_end : double) (vp : VideoPacket) : Prop :=
  nals vp <> [] /\ dleb npt_end (ddiv (d_of_Z (rtp_timestamp vp)) d_90000) = true.

(** A session that has paused at the end of its range. *)
Record at_range_end (npt_end : double) (m : M) s : Prop := {
  re_state : state_ s = PAUSED;
  re_ready : transport_ready_ s = true;
  re_source : media_source_ s = Some m;
  re_pending : pending_vp_ s = None;
  re_first : first_frame_ s = false;
  re_gate : resume_waiting_for_idr_ s = false;
  re_end : npt_end_ s = npt_end
}.

(** PLAY, and the next tick. *)
Definition play_again (e : env) (req : RTSPRequest) (now : Z) (sent : bytes -> Z) s : session M :=
  media_tick now sent (fst (handlePlay e req s)).

Lemma play_again_pauses npt_end e req now sent m vp m' s :
  at_range_end npt_end m s -> dltb dzero npt_end = true -> readPacket m = (Some vp, m') ->
  beyond npt_end vp ->
  let s' := play_again e req now sent s in
  at_range_end npt_end m' s' /\ udp_io s' = udp_io s
  /\ exists resp, outbox_ (out s') = outbox_ (out s) ++ [to_bytes (toString resp)] /\ status resp = 200.
Proof.
  intros [Hs Ht Hm Hp Hf Hg He] Hpos Hr [Hn Hb]. cbv zeta. unfold play_again.
  destruct (handlePlay_resume e req s Hs) as (resp & Hst & ->). cbn [fst].
  set (s1 := fst (fst (play_resume e s))).
  assert (at_range_end npt_end m s1 /\ pause_start_ s1 = 0 /\ udp_io s1 = udp_io s /\ out s1 = out s)
    as ([_ Ht1 Hm1 Hp1 Hf1 Hg1 He1] & Hz & Hu & Ho).
  { unfold s1, play_resume. cbv zeta. cbn [fst]. rewrite Hf. cbn [negb].
    destruct (Z.eqb_spec (pause_start_ s) 0); cbn [negb]; by split; [constructor|]. }
  clearbody s1. set (s2 := s1 <| state_ := PLAYING |> <| out := Egress.sendResponse resp (out s1) |>).
  assert (media_tick now sent s2 = s2 <| media_source_ := Some m' |> <| state_ := PAUSED |>) as ->.
  { unfold media_tick. assert (playing s2 = true) as ->.
    { unfold playing, has_source, s2. simpl_update. by rewrite Hm1, Ht1. }
    cbn [negb]. assert (discard_stale (absorb_pause now s2) = s2) as ->.
    { unfold absorb_pause, discard_stale, s2. simpl_update. rewrite Hz. cbn [Z.eqb negb]. simpl_update.
      by rewrite Hf1. }
    unfold idr_gate. change (resume_waiting_for_idr_ s2) with (resume_waiting_for_idr_ s1).
    rewrite Hg1. cbn [negb]. change (media_source_ s2) with (media_source_ s1). rewrite Hm1.
    unfold read_frame. change (pending_vp_ s2) with (pending_vp_ s1). rewrite Hp1, Hr. cbv zeta.
    rewrite bool_decide_eq_false_2 by done. simpl_update.
    change (first_frame_ s2) with (first_frame_ s1). change (resume_waiting_for_idr_ s2) with (resume_waiting_for_idr_ s1).
    change (npt_end_ s2) with (npt_end_ s1). rewrite Hf1, Hg1, He1. cbn [orb andb].
    rewrite Hpos, Hb. cbn [andb negb]. unfold s2. clear -Hg1. by destruct s1; cbn in Hg1; subst. }
  split; [constructor; [done|exact Ht1|done|exact Hp1|exact Hf1|exact Hg1|exact He1]|].
  split; [exact Hu|]. exists resp. unfold s2. simpl_update.
  destruct (sendResponse_effect resp (out s1)) as [-> _]. rewrite Ho. by split.
Qed.
End range_end.

(** C23: The end of a Range cannot be left by PLAY.  A session that paused because a frame reached
    the end of its range keeps the end: each further PLAY is answered with 200, the next tick
    takes one frame from the source, drops it and pauses again.  So as many PLAYs as there are
    frames behind the end send nothing but their responses, and use the frames up. *)
Theorem range_end_repeats {M} `{IMediaSource M} npt_end plays vps (m m' : M) (s : session M) :
  at_range_end npt_end m s -> dltb dzero npt_end = true ->
  reads m vps m' -> Forall (beyond npt_end) vps -> length plays = length vps ->
  let s' := fold_left (fun s p => let '(e, req, now, sent) := p in play_again e req now sent s) plays s in
  at_range_end npt_end m' s' /\ udp_io s' = udp_io s
  /\ exists resps, length resps = length vps /\ Forall (fun r => status r = 200) resps
     /\ outbox_ (out s') = outbox_ (out s) ++ map (fun r => to_bytes (toString r)) resps.
Proof.
  intros Hs Hpos Hr. revert plays s Hs.
  induction Hr as [m|m vp m1 vps m2 Hread _ IH]; intros plays s Hs Hb Hl; cbv zeta.
  { destruct plays; [|done]. split; [done|]. split; [done|]. exists []. by rewrite app_nil_r. }
  destruct plays as [|[[[e req] now] sent] plays]; [done|]. cbn [fold_left].
  apply Forall_cons in Hb as [Hvp Hb].
  destruct (play_again_pauses npt_end e req now sent m vp m1 s Hs Hpos Hread Hvp) as (Hs1 & Hu & r & Ho & Hst).
  destruct (IH plays _ Hs1 Hb ltac:(by injection Hl)) as (Hs2 & Hu2 & rs & Hlen & Hst2 & Ho2).
  split; [done|]. split; [congruence|]. exists (r :: rs). cbn [length map]. rewrite Ho2, Ho, <- app_assoc.
  split_and!; [by rewrite Hlen|by constructor|done].
Qed.

(** Five frames, 40 ms apart, played with the range 0 to 50 ms: the third one pauses the session,
    and two more PLAYs use up the other two. *)
Import (hints) ListSource.

Module RangeEnd.
Definition frame (i : Z) : VideoPacket :=
  {| nals := [[101; i]]; rtp_timestamp := 3600 * i; is_key_frame := true; vp_duration := 3600 |}.

Definition film : ListSource.source := {|
  ListSource.video := map frame [0; 1; 2; 3; 4]; ListSource.audio := [];
  ListSource.info := H264StreamInfo_default; ListSource.ainfo := AudioStreamInfo_default |}.

Definition play_request (range : text) : RTSPRequest := {|
  method := "PLAY"; url := "rtsp://h/film.mp4"; version := "RTSP/1.0";
  headers := {[ ("range" : text) := range ]}; body := [] |}.

Definition ready : session ListSource.source :=
  (session_make "10.0.0.7" "/srv" 4711 1 2) <| state_ := READY |> <| transport_ready_ := true |>
    <| use_tcp_ := true |> <| media_source_ := Some film |>.

Definition paused : session ListSource.source :=
  snd (ticks (map (fun i => (30000000 * i + 1, fun _ => 0)) [1; 2; 3; 4])
         (fst (handlePlay example_env (play_request "npt=0-0.05") ready))).

Definition again : env * RTSPRequest * Z * (bytes -> Z) :=
  (example_env, play_request [], 500000000, fun _ => 0).

Definition film_end : ListSource.source := {|
  ListSource.video := []; ListSource.audio := [];
  ListSource.info := H264StreamInfo_default; ListSource.ainfo := AudioStreamInfo_default |}.
End RangeEnd.

Lemma range_end_repeats_witness :
  length (outbox_ (out RangeEnd.paused)) = 3%nat
  /\ at_range_end (npt_end_ RangeEnd.paused) RangeEnd.film_end
       (fold_left (fun s p => let '(e, req, now, sent) := p in play_again e req now sent s)
          [RangeEnd.again; RangeEnd.again] RangeEnd.paused).
Proof.
  split; [vm_compute; reflexivity|].
  assert (at_range_end (npt_end_ RangeEnd.paused) (default RangeEnd.film (media_source_ RangeEnd.paused))
    RangeEnd.paused) as Hs by (constructor; vm_compute; reflexivity).
  assert (reads (default RangeEnd.film (media_source_ RangeEnd.paused)) (map RangeEnd.frame [3; 4])
    RangeEnd.film_end) as Hr.
  { eapply reads_one; [vm_compute; reflexivity|]. eapply reads_one; [vm_compute; reflexivity|].
    apply reads_none. }
  assert (Forall (beyond (npt_end_ RangeEnd.paused)) (map RangeEnd.frame [3; 4])) as Hb.
  { repeat (constructor; [split; [discriminate|vm_compute; reflexivity]|]). constructor. }
  exact (proj1 (range_end_repeats _ [RangeEnd.again; RangeEnd.again] _ _ _ _ Hs eq_refl Hr Hb eq_refl)).
Defined.

(** *** What PLAY announces *)

Section announce.
Context {M : Type} `{LooksAhead M}.
Implicit Types s : session M.

Lemma play_headers date c sid range (info : text) :
  info <> [] -> map_find "RTP-Info" (rheaders (RTSPResponse.play date c sid range info)) = Some info.
Proof.
  intros Hn. unfold RTSPResponse.play. rewrite (bool_decide_eq_false_2 (info = [])) by done.
  apply map_find_set_eq.
Qed.

Lemma rtp_info_video url t s :
  exists more,
    rtp_info_text url t s
    = "url=" ++ track_url url "trackID=0" ++ ";seq=" ++ to_string (rtp_seq_ s)
      ++ ";rtptime=" ++ to_string t ++ more
    /\ (audio_transport_ready_ s = false -> more = []).
Proof.
  unfold rtp_info_text. destruct (media_source_ s) as [m|];
    [destruct (audio_transport_ready_ s); cbn [andb]; [destruct (present (audioInfo m))|]|];
    rewrite <- ?app_assoc; eexists; (split; [reflexivity || by rewrite app_nil_r|done]).
Qed.

(** Case C of [handlePlay], when the source then has the frame [vp]. *)
Lemma play_seek_at url a b (hr : bool) s m vp m1 :
  media_source_ s = Some m ->
  looks_ahead (snd (seekToSeconds (if hr then a else dzero) m)) ->
  readPacket (snd (seekToSeconds (if hr then a else dzero) m)) = (Some vp, m1) ->
  exists m' m2,
    readPacket m' = (Some vp, m2) /\
    let s' := (reset_pacing b (seekAndReset (if hr then a else dzero) false s))
                <| media_source_ := Some m' |> in
    play_seek url a b hr s
    = (s', if hr then nptRange a else "npt=0.000-", rtp_info_text url (rtp_timestamp vp) s').
Proof.
  intros Em Ha Hr. destruct (peek_read _ vp m1 Ha Hr) as (m' & m2 & E & Hr'). exists m', m2.
  split; [done|]. cbv zeta. unfold play_seek.
  set (s1 := seekAndReset _ false s).
  assert (media_source_ s1 = Some (snd (seekToSeconds (if hr then a else dzero) m))) as E1.
  { unfold s1, seekAndReset. rewrite Em. by destruct (seekToSeconds _ m). }
  clearbody s1. unfold peek_rtptime.
  replace (media_source_ (reset_pacing b s1)) with (media_source_ s1) by done.
  by rewrite E1, E.
Qed.

Lemma handlePlay_seek e req s a b (r : bool) s' re ri :
  state_ s <> INIT -> state_ s <> PAUSED -> header req "scale" = [] ->
  parse_range (header req "range") = (a, b, r) -> play_seek (url req) a b r s = (s', re, ri) ->
  handlePlay e req s
  = (s' <| state_ := PLAYING |>
        <| out := Egress.sendResponse
             (RTSPResponse.play (env_date e) (cseq req) (session_id_ s') re ri) (out s') |>, Ok tt).
Proof.
  intros H1 H2 H3 H4 H5. unfold handlePlay, SE_bind, SE_get, SE_modify. rewrite decide_False by done.
  rewrite H3, H4, (bool_decide_eq_false_2 (state_ s = PAUSED)), bool_decide_eq_true_2 by done.
  cbn [negb]. by rewrite H5.
Qed.

(** The first frame of a pass sets the anchor and is due. *)
Lemma anchored_now now m vp s :
  first_frame_ s = true ->
  let s' := anchor now m vp s in
  video_send_time vp s' = now /\ rtp_seq_ s' = rtp_seq_ s /\ ssrc_ s' = ssrc_ s.
Proof.
  intros Hf. cbv zeta.
  assert (wall_start_ (anchor now m vp s) = now
          /\ loop_video_offset_ (anchor now m vp s) = rtp_timestamp vp
          /\ rtp_seq_ (anchor now m vp s) = rtp_seq_ s /\ ssrc_ (anchor now m vp s) = ssrc_ s)
    as (E1 & E2 & E3 & E4).
  { unfold anchor. rewrite Hf. cbv zeta. by destruct (0 <? _). }
  split; [|done]. unfold video_send_time, media_secs. rewrite E1, E2, Z.sub_diag.
  change (to_nanoseconds _) with 0. apply Z.add_0_r.
Qed.

(** The first tick of a pass: the frame the source is at leaves at once. *)
Lemma first_tick now sent s m vp m' :
  state_ s = PLAYING -> transport_ready_ s = true -> media_source_ s = Some m ->
  readPacket m = (Some vp, m') -> is_key_frame vp = true -> nals vp <> [] ->
  first_frame_ s = true -> pause_start_ s = 0 ->
  dltb dzero (npt_end_ s)
    && dleb (npt_end_ s) (ddiv (d_of_Z (rtp_timestamp vp)) d_90000) = false ->
  exists s1,
    tick_frame now s = Some vp
    /\ rtp_seq_ s1 = rtp_seq_ s /\ ssrc_ s1 = ssrc_ s /\ quiet s s1
    /\ media_tick now sent s = send_audio now sent m' (track m' vp (send_frame sent m' vp s1)).
Proof.
  intros Hs Ht Em E Hk Hn Hf Hp He.
  assert (playing s = true) as Hpl.
  { unfold playing, has_source. by rewrite bool_decide_eq_true_2, Em, Ht. }
  set (s0 := s <| pending_vp_ := None |> <| media_source_ := Some m' |>
               <| resume_waiting_for_idr_ := false |> <| pending_vp_ := Some vp |>).
  assert (frame_at_hand now s = (Some (m', vp), s0)) as A.
  { unfold frame_at_hand, absorb_pause, discard_stale, idr_gate. rewrite Hp. cbn [negb Z.eqb].
    rewrite Hf. simpl_update.
    assert (read_frame m (s <| pending_vp_ := None |>) = (true, s0)) as R.
    { unfold read_frame. simpl_update. rewrite E. cbv zeta. simpl_update.
      rewrite bool_decide_eq_false_2 by done. rewrite Hk, andb_false_r. by rewrite He. }
    destruct (resume_waiting_for_idr_ s); cbn [negb]; simpl_update; rewrite Em, R; cbn [negb];
      done. }
  destruct (anchored_now now m' vp s0 Hf) as (Hw & Hq & Hssrc).
  exists (anchor now m' vp s0).
  split; [|split; [|split; [|split]]].
  - unfold tick_frame. rewrite Hpl, A, Hw, Z.ltb_irrefl. done.
  - by rewrite Hq.
  - by rewrite Hssrc.
  - apply (quiet_trans _ s0); [done|apply anchor_quiet].
  - rewrite media_tick_at_hand, A by done. unfold send_when_due. by rewrite Hw, Z.ltb_irrefl.
Qed.
(** What a seek leaves alone. *)
Lemma reset_pacing_same b s :
  let s' := reset_pacing b s in
  rtp_seq_ s' = rtp_seq_ s /\ audio_transport_ready_ s' = audio_transport_ready_ s
  /\ ssrc_ s' = ssrc_ s /\ out s' = out s /\ first_frame_ s' = first_frame_ s
  /\ pause_start_ s' = 0 /\ npt_end_ s' = b /\ transport_ready_ s' = transport_ready_ s
  /\ session_id_ s' = session_id_ s.
Proof. destruct s. by split_and!. Qed.

Lemma seekAndReset_same secs s m :
  media_source_ s = Some m ->
  let s' := seekAndReset secs false s in
  rtp_seq_ s' = rtp_seq_ s /\ audio_transport_ready_ s' = audio_transport_ready_ s
  /\ ssrc_ s' = ssrc_ s /\ out s' = out s /\ first_frame_ s' = true
  /\ transport_ready_ s' = transport_ready_ s /\ session_id_ s' = session_id_ s.
Proof.
  intros Em. cbv zeta. unfold seekAndReset. rewrite Em. destruct (seekToSeconds secs m).
  cbn [andb]. simpl_update. by split_and!.
Qed.

(** Case C of PLAY: the answer, and where it leaves the session. *)
Lemma play_at_frame s e req a b (r : bool) m vp m1 :
  state_ s <> INIT -> state_ s <> PAUSED -> header req "scale" = [] ->
  parse_range (header req "range") = (a, b, r) -> media_source_ s = Some m ->
  looks_ahead (snd (seekToSeconds (if r then a else dzero) m)) ->
  readPacket (snd (seekToSeconds (if r then a else dzero) m)) = (Some vp, m1) ->
  exists s' info m' m2,
    handlePlay e req s = (s', Ok tt)
    /\ out s' = Egress.sendResponse
         (RTSPResponse.play (env_date e) (cseq req) (session_id_ s)
            (if r then nptRange a else "npt=0.000-") info) (out s)
    /\ (exists more,
          info = "url=" ++ track_url (url req) "trackID=0" ++ ";seq=" ++ to_string (rtp_seq_ s)
                 ++ ";rtptime=" ++ to_string (rtp_timestamp vp) ++ more
          /\ (audio_transport_ready_ s = false -> more = []))
    /\ media_source_ s' = Some m' /\ readPacket m' = (Some vp, m2)
    /\ state_ s' = PLAYING /\ first_frame_ s' = true /\ pause_start_ s' = 0
    /\ rtp_seq_ s' = rtp_seq_ s /\ ssrc_ s' = ssrc_ s
    /\ transport_ready_ s' = transport_ready_ s /\ npt_end_ s' = b.
Proof.
  intros Hi1 Hi2 Hsc Hr Em Ha Hv.
  destruct (play_seek_at (url req) a b r s m vp m1 Em Ha Hv) as (m' & m2 & Hv' & E).
  cbv zeta in E. pose proof (handlePlay_seek e req s a b r _ _ _ Hi1 Hi2 Hsc Hr E) as P.
  clear E Hr Ha Hv.
  destruct (seekAndReset_same (if r then a else dzero) s m Em) as (A1 & A2 & A3 & A4 & A5 & A6 & A7).
  generalize dependent (seekAndReset (if r then a else dzero) false s). intros s1 P A1 A2 A3 A4 A5 A6 A7.
  destruct (reset_pacing_same b s1) as (B1 & B2 & B3 & B4 & B5 & B6 & B7 & B8 & B9).
  generalize dependent (reset_pacing b s1). intros s2 P B1 B2 B3 B4 B5 B6 B7 B8 B9.
  set (s0 := s2 <| media_source_ := Some m' |>) in *.
  assert (rtp_seq_ s0 = rtp_seq_ s /\ audio_transport_ready_ s0 = audio_transport_ready_ s
          /\ ssrc_ s0 = ssrc_ s /\ out s0 = out s /\ first_frame_ s0 = true /\ pause_start_ s0 = 0
          /\ npt_end_ s0 = b /\ transport_ready_ s0 = transport_ready_ s
          /\ media_source_ s0 = Some m' /\ session_id_ s0 = session_id_ s)
    as (F1 & F2 & F3 & F4 & F5 & F6 & F7 & F8 & F9 & F10).
  { unfold s0. simpl_update. rewrite B1, B2, B3, B4, B5, B6, B7, B8, B9. by split_and!. }
  clearbody s0. destruct (rtp_info_video (url req) (rtp_timestamp vp) s0) as (more & Hi' & Hm).
  do 2 eexists. exists m', m2. split; [exact P|]. split; [by rewrite <- F4, <- F10|].
  split; [exists more; by rewrite <- F1, <- F2|]. by split_and!.
Qed.
End announce.

(** C10: PLAY announces what follows.  A PLAY that starts or seeks (not a resume, no Scale header),
    when the source has the frame [vp] after the seek, is answered, and the answer's RTP-Info names
    the video track with a sequence number and an RTP time.  The next tick, whenever it comes, sends
    [vp] at once: its timestamp is the announced time, and the sequence number of the session when
    its first packet is built is the announced one. *)
Theorem play_announces {M} `{LooksAhead M} (s : session M) e req a b (r : bool) m vp m1 now sent :
  state_ s <> INIT -> state_ s <> PAUSED -> transport_ready_ s = true -> header req "scale" = [] ->
  parse_range (header req "range") = (a, b, r) -> media_source_ s = Some m ->
  looks_ahead (snd (seekToSeconds (if r then a else dzero) m)) ->
  readPacket (snd (seekToSeconds (if r then a else dzero) m)) = (Some vp, m1) ->
  is_key_frame vp = true -> nals vp <> [] ->
  dltb dzero b && dleb b (ddiv (d_of_Z (rtp_timestamp vp)) d_90000) = false ->
  exists s' resp more m' s1,
    handlePlay e req s = (s', Ok tt) /\ out s' = Egress.sendResponse resp (out s)
    /\ map_find "RTP-Info" (rheaders resp)
       = Some ("url=" ++ track_url (url req) "trackID=0" ++ ";seq=" ++ to_string (rtp_seq_ s)
               ++ ";rtptime=" ++ to_string (rtp_timestamp vp) ++ more)
    /\ (audio_transport_ready_ s = false -> more = [])
    /\ tick_frame now s' = Some vp
    /\ media_tick now sent s' = send_audio now sent m' (track m' vp (send_frame sent m' vp s1))
    /\ rtp_seq_ s1 = rtp_seq_ s /\ ssrc_ s1 = ssrc_ s /\ quiet s' s1.
Proof.
  intros Hi1 Hi2 Ht Hsc Hr Em Ha Hv Hk Hn He.
  destruct (play_at_frame s e req a b r m vp m1 Hi1 Hi2 Hsc Hr Em Ha Hv)
    as (s' & info & m' & m2 & P & Ho & (more & Hinfo & Hmore) & Em1 & Hv' & Hs' & Hf & Hp & Hq & Hssrc & Htr & He').
  rewrite <- He' in He.
  destruct (first_tick now sent s' m' vp m2 Hs' (eq_trans Htr Ht) Em1 Hv' Hk Hn Hf Hp He)
    as (s1 & T1 & T2 & T3 & T4 & T5).
  exists s'. eexists. exists more, m2, s1. split; [exact P|]. split; [exact Ho|].
  split; [rewrite play_headers; [f_equal; exact Hinfo|by rewrite Hinfo]|].
  do 3 (split; [done|]). split; [by rewrite T2|]. by split; [rewrite T3|].
Qed.
