(* ===== verification/LoopingSource.v ===== *)
(** * [LoopingSource]: the program's source plays a file (src/media/MediaSource.cpp)

    The FFmpeg source, with or without its bitstream filter, over a container with given
    packets: it plays the video packets of the container, as [Playback.PlaysFile] asks, so the
    theorems on looping hold of the source that the program uses. *)

From S2P Require Import Prelude StdString Double SDPBuilder AnnexBParser IMediaSource.
From S2P Require Import RTSPRequest RTSPResponse RTPPacket Egress Session SessionSpec Pacer PacerSpec.
From S2P Require Import MediaSource MediaSourceSpec Playback.

(** Documented behaviour of the demuxer: it delivers the packets of the container one after the
    other, and a seek to the start brings back the first. *)
Class ContainerLaws (Fmt Bsf : Type) `{FFmpeg Fmt Bsf} (all : list AVPacket) (idx : Z) := {
  delivers : list AVPacket -> Fmt -> Prop;
  delivers_read p l f : delivers (p :: l) f ->
    exists f', av_read_frame f = (Some p, f') /\ delivers l f';
  delivers_end f : delivers [] f -> exists f', av_read_frame f = (None, f') /\ delivers [] f';
  delivers_rewind l f : delivers l f ->
    exists ok f', av_seek_frame idx 0 f = (ok, f') /\ delivers all f'
}.

Section looping_source.
Context {Fmt Bsf : Type} `{FFmpegLaws Fmt Bsf, !FilterLaws Fmt Bsf}.
Context (all : list AVPacket) (idx : Z) `{!ContainerLaws Fmt Bsf all idx}.
Context (tb : AVRational) (with_filter : bool).
Implicit Types m : MediaSource Fmt Bsf.

(** ** The file that it plays *)

Definition is_video (p : AVPacket) : bool := stream_index p =? idx.

(** A packet as it leaves the bitstream filter, if there is one. *)
Definition handed (p : AVPacket) : AVPacket := if with_filter then convert p else p.

(** The time that the clock counts from: that of the first video packet. *)
Definition first_time : Z :=
  match List.filter is_video all with [] => 0 | p :: _ => packet_time (handed p) end.

Definition frame_of (p : AVPacket) : file_frame := {|
  f_time := av_rescale_q (i64 (packet_time (handed p) - first_time)) tb (mkQ 1 90000);
  f_key := flag_key (handed p);
  f_nals := map (view_data (pkt_data (handed p))) (splitView (pkt_data (handed p)))
|}.

Definition file_of : list file_frame := map frame_of (List.filter is_video all).

(** Every packet carries a time, and the memory for the copies is there. *)
Hypothesis timed : Forall (fun p => packet_time p <> AV_NOPTS_VALUE
  /\ packet_time (handed p) <> AV_NOPTS_VALUE /\ av_packet_clone (handed p) = Some (handed p)) all.

(** ** Where the source is *)

(** Frame [i] is the next one in the container. *)
Record at_place (i : nat) (off : Z) m : Prop := {
  pl_rest : exists f before rest, ready m f /\ delivers rest f /\ all = before ++ rest
              /\ length (List.filter is_video before) = i;
  pl_filter : (match bsf_ctx_ m with Some _ => true | None => false end) = with_filter;
  pl_open : pkt_ m = true /\ video_idx_ m = idx /\ time_base_ m = tb;
  pl_clock : rtp_offset_ m = off
             /\ first_pts_ m = if (i =? 0)%nat then AV_NOPTS_VALUE else first_time
}.

(** ... or it has been looked ahead at. *)
Definition source_at (i : nat) (off : Z) m : Prop :=
  (prefetch_vp_ m = None /\ at_place i off m)
  \/ exists fr vp, prefetch_vp_ m = Some vp /\ file_of !! i = Some fr /\ stamped off fr vp
       /\ at_place (S i) off m.

Lemma at_place_same i off m m' :
  fmt_ctx_ m' = fmt_ctx_ m -> bsf_ctx_ m' = bsf_ctx_ m -> bsf_at_eof_ m' = bsf_at_eof_ m ->
  pkt_ m' = pkt_ m -> video_idx_ m' = video_idx_ m -> time_base_ m' = time_base_ m ->
  rtp_offset_ m' = rtp_offset_ m -> first_pts_ m' = first_pts_ m ->
  at_place i off m -> at_place i off m'.
Proof.
  intros E1 E2 E3 E4 E5 E6 E7 E8 [(f & b & l & Hr & P) ? ? ?]. constructor.
  - exists f, b, l. unfold ready in *. by rewrite E1, E2, E3.
  - by rewrite E2.
  - by rewrite E4, E5, E6.
  - by rewrite E7, E8.
Qed.

(** ** The next video packet of the container *)

Lemma next_video (l : list AVPacket) :
  Forall (fun p => is_video p = false) l
  \/ exists others v l', l = others ++ v :: l' /\ Forall (fun p => is_video p = false) others
       /\ is_video v = true.
Proof.
  induction l as [|p l IH]; [by left|]. destruct (is_video p) eqn:E.
  - right. by exists [], p, l.
  - destruct IH as [IH|(o & v & l' & -> & Ho & Hv)]; [left; by constructor|].
    right. exists (p :: o), v, l'. split; [done|]. split; [by constructor|done].
Qed.

Lemma no_video l : Forall (fun p => is_video p = false) l -> List.filter is_video l = [].
Proof. induction 1 as [|p l E _ IH]; [done|]. cbn. by rewrite E. Qed.

Lemma delivers_app others : forall l f,
  delivers (others ++ l) f -> exists f', demuxed f others f' /\ delivers l f'.
Proof.
  induction others as [|p others IH]; intros l f Hd; [exists f; split; [constructor|done]|].
  destruct (delivers_read p _ f Hd) as (f1 & E & Hd1). destruct (IH l f1 Hd1) as (f' & D & Hd').
  exists f'. split; [by eapply demuxed_cons|done].
Qed.

Lemma skipped_others m others before rest :
  video_idx_ m = idx -> all = before ++ others ++ rest ->
  Forall (fun p => is_video p = false) others -> Forall (skipped m) others.
Proof.
  intros Ei Ea Ho. pose proof timed as Ht. rewrite Ea in Ht.
  apply Forall_app in Ht as [_ Ht]. apply Forall_app in Ht as [Ht _].
  apply Forall_forall. intros p Hp. rewrite Forall_forall in Ht, Ho. split.
  - rewrite Ei. apply Z.eqb_neq. by apply Ho.
  - by apply Ht.
Qed.

Lemma filtered_handed m p :
  (match bsf_ctx_ m with Some _ => true | None => false end) = with_filter ->
  filtered m p = handed p.
Proof. unfold filtered, handed. intros <-. by destruct (bsf_ctx_ m). Qed.

(** Frame [i] is that of the video packet with [i] video packets in front of it. *)
Lemma file_lookup before others v rest :
  all = before ++ others ++ v :: rest -> Forall (fun p => is_video p = false) others ->
  is_video v = true -> file_of !! length (List.filter is_video before) = Some (frame_of v).
Proof.
  intros Ea Ho Hv. unfold file_of. rewrite Ea, !List.filter_app, (no_video others Ho). cbn [List.filter app].
  rewrite Hv, map_app. rewrite lookup_app_r by (by rewrite length_map). by rewrite length_map, Nat.sub_diag.
Qed.

Lemma first_video before others v rest :
  all = before ++ others ++ v :: rest -> Forall (fun p => is_video p = false) others ->
  is_video v = true -> List.filter is_video before = [] -> first_time = packet_time (handed v).
Proof.
  intros Ea Ho Hv Hb. unfold first_time. rewrite Ea, !List.filter_app, Hb, (no_video others Ho).
  cbn [List.filter app]. by rewrite Hv.
Qed.

(** The access unit carries the stamp and the NAL units of the frame. *)
Lemma access_unit_stamped i off m v :
  at_place i off m -> (i = 0%nat -> first_time = packet_time (handed v)) ->
  first_time <> AV_NOPTS_VALUE -> stamped off (frame_of v) (access_unit m (handed v)).
Proof.
  intros [_ _ (_ & _ & Et) (Er & Ef)] Hf0 Hn. unfold stamped, access_unit, frame_of.
  cbn [rtp_timestamp is_key_frame nals f_time f_key f_nals]. split; [|done].
  rewrite Er, Et, Ef.
  assert ((if (if (i =? 0)%nat then AV_NOPTS_VALUE else first_time) =? AV_NOPTS_VALUE
           then packet_time (handed v)
           else if (i =? 0)%nat then AV_NOPTS_VALUE else first_time) = first_time) as ->.
  { destruct (Nat.eqb_spec i 0) as [E|E]; [rewrite Z.eqb_refl; by rewrite Hf0|].
    by rewrite (proj2 (Z.eqb_neq _ _)). }
  unfold u32. rewrite Zplus_mod_idemp_l. f_equal. lia.
Qed.

Lemma first_time_is_time : first_time <> AV_NOPTS_VALUE.
Proof.
  unfold first_time. destruct (List.filter is_video all) as [|p l] eqn:E; [done|].
  pose proof timed as Ht. rewrite List.Forall_forall in Ht. apply (Ht p).
  apply (proj1 (filter_In is_video p all)). rewrite E. by left.
Qed.

Lemma clone_handed before others v rest :
  all = before ++ others ++ v :: rest -> av_packet_clone (handed v) = Some (handed v).
Proof.
  intros Ea. pose proof timed as Ht. rewrite List.Forall_forall in Ht. apply (Ht v).
  rewrite Ea, !in_app_iff. right. right. by left.
Qed.

(** Reading frame [i]. *)
Lemma place_read i off m fr :
  prefetch_vp_ m = None -> at_place i off m -> file_of !! i = Some fr ->
  exists vp m', readPacket m = (Some vp, m') /\ stamped off fr vp /\ at_place (S i) off m'
    /\ prefetch_vp_ m' = None.
Proof.
  intros Hv Hp Hi. destruct Hp as [(f & before & rest & Hr & Hd & Ea & Hl) Hflt (Hpk & Hidx & Htb) Hc].
  destruct (next_video rest) as [Hno|(others & v & rest' & -> & Ho & Hvid)].
  { exfalso. apply lookup_lt_Some in Hi. unfold file_of in Hi.
    rewrite length_map, Ea, List.filter_app, (no_video rest Hno), app_nil_r, Hl in Hi. lia. }
  destruct (delivers_app others _ f Hd) as (f1 & D & Hd1).
  destruct (delivers_read v rest' f1 Hd1) as (f2 & Er & Hd2).
  destruct (read_video m f others v f1 f2 Hr Hpk Hv D) as (m' & E & Hr' & _ & Hsf & Ha);
    [by apply (skipped_others m others before (v :: rest'))|done|rewrite Hidx; by apply Z.eqb_eq
    |rewrite filtered_handed by done; by apply (clone_handed before others v rest')|].
  rewrite filtered_handed in E, Ha by done. exists (access_unit m (handed v)), m'. split; [done|].
  pose proof (file_lookup before others v rest' Ea Ho Hvid) as Hf.
  rewrite Hl, Hi in Hf. injection Hf as ->. split.
  { apply (access_unit_stamped i); [by constructor; [exists f, before, (others ++ v :: rest')|..]| |
      apply first_time_is_time].
    intros ->. apply (first_video before others v rest'); try done. by apply nil_length_inv. }
  assert (forall A (g : MediaSource Fmt Bsf -> A), (forall m, g (apart_from_place m) = g m) ->
            g m' = g (count_from (handed v) m)) as Hg by (intros A g G; by rewrite <- (G m'), Ha, G).
  split; [|by rewrite (Hg _ prefetch_vp_); [unfold count_from; destruct (_ =? _)|]].
  constructor.
  - exists f2, (before ++ others ++ [v]), rest'. split; [done|]. split; [done|].
    split; [by rewrite Ea, <- !app_assoc|].
    rewrite !List.filter_app, !length_app, (no_video others Ho), Hl. cbn. rewrite Hvid. cbn. lia.
  - revert Hsf Hflt. unfold same_filter. by destruct (bsf_ctx_ m), (bsf_ctx_ m').
  - rewrite (Hg _ pkt_), (Hg _ video_idx_), (Hg _ time_base_) by done. unfold count_from.
    by destruct (_ =? _).
  - destruct Hc as [Ho1 Hfp]. rewrite (Hg _ rtp_offset_), (Hg _ first_pts_) by done.
    unfold count_from. rewrite Hfp. destruct (Nat.eqb_spec i 0) as [->|Hne].
    + rewrite Z.eqb_refl. simpl_update. split; [done|]. symmetry.
      apply (first_video before others v rest'); try done. by apply nil_length_inv.
    + rewrite (proj2 (Z.eqb_neq _ _)) by apply first_time_is_time. by rewrite Hfp, (proj2 (Nat.eqb_neq _ _)).
Qed.

(** What [seek] sets. *)
Lemma seek_fields off m f ok f' :
  fmt_ctx_ m = Some f -> av_seek_frame (video_idx_ m) 0 f = (ok, f') ->
  let m' := seek off m in
  fmt_ctx_ m' = Some f' /\ bsf_ctx_ m' = av_bsf_flush <$> bsf_ctx_ m /\ bsf_at_eof_ m' = false
  /\ pkt_ m' = pkt_ m /\ video_idx_ m' = video_idx_ m /\ time_base_ m' = time_base_ m
  /\ rtp_offset_ m' = u32 off /\ first_pts_ m' = AV_NOPTS_VALUE
  /\ prefetch_vp_ m' = prefetch_vp_ m.
Proof.
  intros Ef Es. cbv zeta. unfold seek. rewrite Ef.
  replace (video_idx_ (flush_bsf m)) with (video_idx_ m) by done. rewrite Es.
  destruct m. by split_and!.
Qed.

(** The end of the file, and the seek back to its start. *)
Lemma place_end off m :
  prefetch_vp_ m = None -> at_place (length file_of) off m ->
  exists m', readPacket m = (None, m') /\ prefetch_vp_ m' = None
    /\ forall off', 0 <= off' < 4294967296 -> at_place 0 off' (seek off' m') /\ prefetch_vp_ (seek off' m') = None.
Proof.
  intros Hv Hp. destruct Hp as [(f & before & rest & Hr & Hd & Ea & Hl) Hflt (Hpk & Hidx & Htb) Hc].
  assert (Forall (fun p => is_video p = false) rest) as Hno.
  { destruct (next_video rest) as [Hno|(o & v & l & -> & Ho & Hvid)]; [done|]. exfalso.
    pose proof (file_lookup before o v l Ea Ho Hvid) as Hlk. apply lookup_lt_Some in Hlk.
    revert Hlk. rewrite Hl. apply Nat.lt_irrefl. }
  rewrite <- (app_nil_r rest) in Hd. destruct (delivers_app rest [] f Hd) as (f1 & D & Hd1).
  destruct (delivers_end f1 Hd1) as (f2 & Er & Hd2).
  destruct (read_end m f rest f1 f2 Hr Hpk Hv D) as (m' & E & _ & Ef & Hsf & Ha);
    [by apply (skipped_others m rest before []); [|rewrite app_nil_r|]|done|].
  exists m'. split; [done|].
  assert (forall A (g : MediaSource Fmt Bsf -> A), (forall m, g (apart_from_place m) = g m) ->
    (forall m, g (m <| bsf_at_eof_ := false |>) = g m) -> g m' = g m) as Hg
    by (intros A g G1 G2; by rewrite <- (G2 m'), <- G1, Ha, G1).
  split; [by rewrite (Hg _ prefetch_vp_)|]. intros off' Hoff.
  destruct (delivers_rewind [] f2 Hd2) as (ok & f3 & Es & Hd3).
  rewrite <- Hidx, <- (Hg _ video_idx_) in Es by done.
  destruct (seek_fields off' m' f2 ok f3 Ef Es) as (S1 & S2 & S3 & S4 & S5 & S6 & S7 & S8 & S9).
  rewrite S9. split; [|by rewrite <- Hv; apply (Hg _ prefetch_vp_)].
  constructor; rewrite ?S2, ?S4, ?S5, ?S6, ?S7, ?S8, ?u32_small by done.
  - exists f3, [], all. split; [|done]. unfold ready. rewrite S1, S2, S3. split; [done|].
    split; [done|]. destruct (bsf_ctx_ m') as [b|]; cbn; [apply flush_idles|done].
  - revert Hsf Hflt. unfold same_filter. by destruct (bsf_ctx_ m), (bsf_ctx_ m').
  - by rewrite <- Hpk, <- Hidx, <- Htb; split_and!; apply Hg.
  - done.
Qed.

(** ** The instance *)

#[export, program] Instance plays_file : PlaysFile (MediaSource Fmt Bsf) file_of := {|
  at_frame := source_at
|}.
Next Obligation.
  intros i off m fr [[Hv Hp]|(fr' & vp & Hv & Hi' & Hst & Hp)] Hi.
  - destruct (place_read i off m fr Hv Hp Hi) as (vp & m' & E & Hst & Hp' & Hv').
    exists vp, m'. split; [exact E|]. split; [done|]. by left.
  - rewrite Hi in Hi'. injection Hi' as <-. exists vp, (m <| prefetch_vp_ := None |>).
    split; [cbn; unfold readPacket; by rewrite Hv|]. split; [done|]. left. split; [done|].
    by apply (at_place_same _ _ m).
Qed.
Next Obligation.
  intros off m [[Hv Hp]|(fr' & vp & Hv & Hi' & _)].
  - destruct (place_end off m Hv Hp) as (m' & E & _ & Hs). exists m'. split; [exact E|].
    intros off' Ho. left. by destruct (Hs off' Ho).
  - apply lookup_lt_Some in Hi'. lia.
Qed.
Next Obligation.
  intros i off m fr Hs Hi. cbn. unfold peekNextVideoRTPTimestamp.
  assert (exists f, fmt_ctx_ m = Some f) as (f & ->).
  { by destruct Hs as [[_ [(f & ? & ? & (E & _) & _) _ _ _]]|(? & ? & _ & _ & _ & [(f & ? & ? & (E & _) & _) _ _ _])];
      exists f. }
  destruct Hs as [[Hv Hp]|(fr' & vp & Hv & Hi' & Hst & Hp)]; rewrite Hv.
  - destruct (place_read i off m fr Hv Hp Hi) as (vp & m' & -> & Hst & Hp' & Hv'). eexists.
    split; [by destruct Hst as [<- _]|]. right. exists fr, vp. split; [done|]. split; [done|].
    split; [done|]. by apply (at_place_same _ _ m').
  - rewrite Hi in Hi'. injection Hi' as <-. exists m. split; [by destruct Hst as [<- _]|]. right.
    by exists fr, vp.
Qed.
Next Obligation.
  intros i off m Hs. cbn. unfold readAudioPacket. destruct (_ <? 0); [done|].
  destruct (audio_queue_ m); [done|]. cbn [snd].
  destruct Hs as [[Hv Hp]|(fr' & vp & Hv & Hi' & Hst & Hp)]; [left|right; exists fr', vp];
    split_and!; try done; by apply (at_place_same _ _ m).
Qed.
End looping_source.

(** What is peeked at is read. *)
#[export, program] Instance looks_ahead_source {Fmt Bsf} `{FFmpeg Fmt Bsf}
    : LooksAhead (MediaSource Fmt Bsf) := {| looks_ahead m := MediaSource.isOpen m = true |}.
Next Obligation.
  intros Fmt Bsf ? m vp m' Hf E. cbn in *. unfold peekNextVideoRTPTimestamp, isOpen in *.
  destruct (fmt_ctx_ m) as [f|]; [|done]. destruct (prefetch_vp_ m) as [vp'|] eqn:Ev.
  - exists m, m'. unfold readPacket in *. rewrite Ev in *. by injection E as <- <-.
  - rewrite E. do 2 eexists. by split.
Qed.

(** ** The demonstration container *)

Module Looped.
Import Demo.

#[export, program] Instance container : ContainerLaws Demo.fmt Demo.bsf Demo.packets 0 := {|
  delivers l f := Demo.file f = Demo.packets /\ l = drop (Demo.place f) Demo.packets
|}.
Next Obligation.
  intros p l [file place] [Hf Hl]. cbn in *. subst file. exists (Demo.mkFmt Demo.packets (S place)).
  assert (Demo.packets !! place = Some p) as E.
  { rewrite <- (Nat.add_0_r place), <- lookup_drop. by rewrite <- Hl. }
  rewrite E. split; [done|]. split; [done|]. cbn.
  rewrite (drop_S _ _ _ E) in Hl. by injection Hl.
Qed.
Next Obligation.
  intros [file place] [Hf Hl]. cbn in *. subst file. exists (Demo.mkFmt Demo.packets place).
  assert (Demo.packets !! place = None) as ->; [|done].
  rewrite <- (Nat.add_0_r place), <- lookup_drop. by rewrite <- Hl.
Qed.
Next Obligation.
  intros l [file place] [Hf Hl]. cbn in *. subst file. exists true. eexists. split; [done|].
  split; [done|]. by vm_compute.
Qed.

Definition timed : Forall (fun p => packet_time p <> AV_NOPTS_VALUE
  /\ packet_time (handed false p) <> AV_NOPTS_VALUE
  /\ av_packet_clone (handed false p) = Some (handed false p)) Demo.packets.
Proof. repeat constructor; discriminate. Defined.

Definition movie : list file_frame := file_of Demo.packets 0 (mkQ 1 1000) false.

Lemma movie_frames : movie = [
  {| f_time := 0; f_key := true; f_nals := [[101; 1; 2]] |};
  {| f_time := 3600; f_key := false; f_nals := [[65; 3]] |};
  {| f_time := 7200; f_key := true; f_nals := [[101; 4]] |} ].
Proof. by vm_compute. Qed.

Lemma movie_in_order : file_ok movie.
Proof.
  rewrite movie_frames. split.
  - by eexists.
  - by repeat constructor.
  - intros [|[|[|i]]] fr fr'; try done; intros [= <-] [= <-]; cbn; lia.
Qed.

(** 40 ms for each frame. *)
Lemma movie_rate : constant_rate movie 90000 3600.
Proof.
  rewrite movie_frames. split; [|cbn; lia].
  intros [|[|[|i]]] fr; try done; intros [= <-]; done.
Qed.

(** A session over the demonstration source, set up, and its first PLAY. *)
Definition ready_session : session (MediaSource Demo.fmt Demo.bsf) :=
  (session_init "10.0.0.7" "/srv" "4711" 9 2)
    <| state_ := READY |> <| use_tcp_ := true |> <| transport_ready_ := true |>
    <| describe_done_ := true |> <| media_source_ := Some Demo.source |>.

Definition play_request (range : text) : RTSPRequest := {|
  method := "PLAY"; url := "rtsp://h/a.mp4"; version := "RTSP/1.0";
  headers := {[ "cseq" : text := "4" : text; "range" : text := range ]}; body := []
|}.

Definition after_play : session (MediaSource Demo.fmt Demo.bsf) :=
  fst (handlePlay example_env (play_request []) ready_session).

(** A tick every 20 ms. *)
Definition every_20_ms (k : nat) : list (Z * (bytes -> Z)) :=
  map (fun i => (Z.of_nat i * 20000000, fun _ : bytes => 0)) (seq 0 k).

Definition frames (k : nat) : list VideoPacket := (fst (ticks (every_20_ms k) after_play)).*2.

Lemma after_play_ready :
  playing after_play = true /\ dltb dzero (npt_end_ after_play) = false
  /\ media_source_ after_play = Some (default source (media_source_ after_play))
  /\ first_frame_ after_play = true /\ pending_vp_ after_play = None
  /\ last_video_rtp_ after_play = 0 /\ last_frame_dur_ after_play = None.
Proof. by vm_compute. Qed.

(** PLAY looks ahead at the first frame. *)
Lemma after_play_at :
  source_at packets 0 (mkQ 1 1000) false 0 90000 (default source (media_source_ after_play)).
Proof.
  right. do 2 eexists. split; [by vm_compute|]. split; [by vm_compute|]. split; [by vm_compute|].
  split; [|done|done|by vm_compute].
  exists (mkFmt packets 1), (take 1 packets), (drop 1 packets). by vm_compute.
Qed.
(** The same session with another file. *)
Definition stamps_of (file : list AVPacket) (k : nat) : list Z :=
  map rtp_timestamp
    (fst (ticks (every_20_ms k)
       (fst (handlePlay example_env (play_request [])
          (ready_session <| media_source_ := Some (source <| fmt_ctx_ := Some (mkFmt file 0) |>) |>)))
    )).*2.

(** A file of two frames that starts at time 0: no duration has been measured when it ends for the
    first time (the timestamp 0 of its first frame counts as none), so the second pass begins with
    the timestamp of the last frame. *)
Example two_frames_repeat :
  stamps_of [packet 0 0 true [0; 0; 0; 1; 101; 1]; packet 0 40 false [0; 0; 0; 1; 65; 3]] 10
  = [0; 3600; 3600; 7200; 10800].
Proof. by vm_compute. Qed.

(** A file with reordered frames (I P B B): the next pass is counted from the frame that was sent
    last, not from the one that is shown last, so its first frame has the timestamp of the P frame. *)
Example reordered_frames_overlap :
  stamps_of [packet 0 1000 true [0; 0; 0; 1; 101; 1]; packet 0 1120 false [0; 0; 0; 1; 65; 3];
             packet 0 1040 false [0; 0; 0; 1; 1; 4]; packet 0 1080 false [0; 0; 0; 1; 1; 5]] 24
  = [90000; 100800; 93600; 97200; 100800; 111600; 104400; 108000; 111600].
Proof. by vm_compute. Qed.
End Looped.


(** ** Properties *)

Import Demo.

(** C9: Seamless looping.  From PLAY on, over any number of ticks at any times, a session whose
    source has a file in presentation order open sends the video packets of the file one after the
    other and from the first again after the last, none left out and none twice; no timestamp is
    before the one in front of it, as 32-bit serial numbers, at the end of the file and at the
    wrap-around of the clock as well; and when the file has a constant frame duration the
    timestamps count on by it for ever, over every end of the file. *)
Theorem looped_playback {Fmt Bsf} `{FFmpegLaws Fmt Bsf, !FilterLaws Fmt Bsf} all idx
    `{!ContainerLaws Fmt Bsf all idx} tb with_filter (s : session (MediaSource Fmt Bsf)) m off ts :
  let file := file_of all idx tb with_filter in
  Forall (fun p => packet_time p <> AV_NOPTS_VALUE
    /\ packet_time (handed with_filter p) <> AV_NOPTS_VALUE
    /\ av_packet_clone (handed with_filter p) = Some (handed with_filter p)) all ->
  file_ok file ->
  playing s = true -> dltb dzero (npt_end_ s) = false ->
  media_source_ s = Some m -> source_at all idx tb with_filter 0 off m -> 0 <= off < 4294967296 ->
  first_frame_ s = true -> pending_vp_ s = None -> last_video_rtp_ s = 0 ->
  last_frame_dur_ s = None ->
  let frames := (fst (ticks ts s)).*2 in
  (forall i vp, frames !! i = Some vp ->
     (exists fr, file !! (i mod length file)%nat = Some fr
       /\ nals vp = f_nals fr /\ is_key_frame vp = f_key fr)
     /\ forall d, constant_rate file off d -> rtp_timestamp vp = u32 (off + Z.of_nat i * d))
  /\ (forall i vp vp', frames !! i = Some vp -> frames !! S i = Some vp' ->
        not_before (rtp_timestamp vp) (rtp_timestamp vp')).
Proof.
  intros file Ht Hfile Hp He Em Ha Ho H1 H2 H3 H4.
  apply (@playback_loops _ _ file (plays_file all idx tb with_filter Ht) off s ts Hfile).
  unfold playing in Hp. apply andb_true_iff in Hp as [Hp Htr].
  apply andb_true_iff in Hp as [Hp _]. apply bool_decide_eq_true in Hp.
  split; [done|done| |done|done]. by exists m.
Qed.

(** The demonstration file, twice over: the second pass counts on where the first one ended. *)
Lemma looped_playback_witness :
  (forall i vp, Looped.frames 16 !! i = Some vp ->
     rtp_timestamp vp = u32 (90000 + Z.of_nat i * 3600)
     /\ exists fr, Looped.movie !! (i mod length Looped.movie)%nat = Some fr /\ nals vp = f_nals fr)
  /\ length (Looped.frames 16) = 8%nat.
Proof.
  split; [|by vm_compute]. intros i vp E. unfold Looped.frames in E.
  destruct Looped.after_play_ready as (R1 & R2 & R3 & R4 & R5 & R6 & R7).
  pose proof (looped_playback Demo.packets 0 (mkQ 1 1000) false Looped.after_play _ 90000
    (Looped.every_20_ms 16) Looped.timed Looped.movie_in_order R1 R2 R3 Looped.after_play_at
    (conj (Z.lt_le_incl 0 90000 eq_refl) eq_refl) R4 R5 R6 R7) as [P _].
  destruct (P i vp E) as [(fr & Hf & Hn & _) Hts].
  split; [exact (Hts _ Looped.movie_rate)|]. exists fr. split; [exact Hf|exact Hn].
Defined.

(** The demonstration file, sought to 2 s: the answer names the key frame at 1.08 s. *)
Lemma play_announces_witness :
  exists s' resp m' s1 vp,
    handlePlay example_env (Looped.play_request "npt=2-") Looped.ready_session = (s', Ok tt)
    /\ out s' = Egress.sendResponse resp (out Looped.ready_session)
    /\ map_find "RTP-Info" (rheaders resp)
       = Some "url=rtsp://h/a.mp4/trackID=0;seq=0;rtptime=97200"
    /\ media_tick 5000 (fun _ => 0) s'
       = send_audio 5000 (fun _ => 0) m' (track m' vp (send_frame (fun _ => 0) m' vp s1))
    /\ rtp_seq_ s1 = 0 /\ rtp_timestamp vp = 97200 /\ nals vp = [[101; 4]].
Proof.
  destruct (play_announces Looped.ready_session example_env (Looped.play_request "npt=2-")
    (d_of_Z 2) minus_one true Demo.source
    {| nals := [[101; 4]]; rtp_timestamp := 97200; is_key_frame := true; vp_duration := 40 |}
    (snd (readPacket (snd (seekToSeconds (d_of_Z 2) Demo.source)))) 5000 (fun _ => 0))
    as (s' & resp & more & m' & s1 & P1 & P2 & P3 & P4 & _ & P5 & P6 & _);
    [done|done|done|by vm_compute..|].
  specialize (P4 eq_refl). subst more. exists s', resp, m', s1. eexists.
  split; [exact P1|]. split; [exact P2|]. split; [rewrite P3; vm_compute; reflexivity|].
  split; [exact P5|]. split; [exact P6|]. split; reflexivity.
Defined.

(** Paused for 5 s after the first frame: the second one is due 5 s later. *)
Lemma pause_shifts_schedule_witness :
  let s := snd (ticks (Looped.every_20_ms 2) Looped.after_play) in
  let e1 := mkEnv 30000000 (env_date example_env) (env_sockets example_env)
              (fs_weakly_canonical example_env) (fs_exists example_env) in
  let e2 := mkEnv 5030000000 (env_date example_env) (env_sockets example_env)
              (fs_weakly_canonical example_env) (fs_exists example_env) in
  exists s1 s3,
    handlePause e1 (Looped.play_request []) s = (s1, Ok tt)
    /\ handlePlay e2 (Looped.play_request "npt=2-") s1 = (s3, Ok tt)
    /\ ticks (Looped.every_20_ms 7) s1 = ([], s1)
    /\ forall vp, video_send_time vp s3 = video_send_time vp s + 5000000000.
Proof.
  intros s e1 e2.
  assert (state_ s = PLAYING /\ first_frame_ s = false) as [Hs Hf] by by vm_compute.
  destruct (pause_shifts_schedule e1 (Looped.play_request []) (Looped.every_20_ms 7) e2
    (Looped.play_request "npt=2-") s Hs ltac:(discriminate))
    as (s1 & s3 & P1 & P2 & P3 & _ & _ & _ & _ & P4). rewrite Hf in P4.
  exists s1, s3. split; [exact P1|]. split; [exact P3|]. split; [exact P2|exact P4].
Defined.
