(* ===== verification/Exchange.v ===== *)
(** * [Exchange]: from the octets a client sends to the octets it receives

    The read side, the request handlers and the write side put together, over one connection.
    A client sends any number of requests without waiting for the responses; TCP cuts them
    anywhere.  Proved: the server finds exactly these requests, and writes one response for each
    that it handles, in order, numbered as the client numbered them, along a run of the state
    machine. *)

From S2P Require Import Prelude StdString StringUtils RTSPRequest RTSPResponse.
From S2P Require Import IMediaSource Egress Ingress Session SessionSpec Pacer.

(** ** The requests of a client *)

(** A request without a body, as a client writes it; the CSeq line comes first. *)
Record client_request := mkClient {
  q_method : text;
  q_url : text;
  q_cseq : Z;
  q_headers : list (text * text)
}.

Definition all_headers (q : client_request) : list (text * text) :=
  (("CSeq" : text), to_string (q_cseq q)) :: q_headers q.

Definition client_text (q : client_request) : text :=
  render (q_method q) (q_url q) "RTSP/1.0" (all_headers q) [].

(** What the server makes of it. *)
Definition request_of (q : client_request) : RTSPRequest := {|
  method := q_method q; url := q_url q; version := "RTSP/1.0";
  headers := header_map (all_headers q) ∅; body := []
|}.

(** No second CSeq and no body announced; everything else is free. *)
Record client_ok (q : client_request) : Prop := {
  ok_method : no_space (q_method q);
  ok_not_frame : starts_with "$" (q_method q) = false;
  ok_url : no_space (q_url q);
  ok_headers : Forall good_header (q_headers q);
  ok_names : Forall (fun h => toLower (fst h) <> "cseq" /\ toLower (fst h) <> "content-length")
               (q_headers q);
  ok_cseq : int_min <= q_cseq q <= int_max
}.

Definition client_lines (q : client_request) : list text :=
  (q_method q ++ " " ++ q_url q ++ " RTSP/1.0") :: map header_line (all_headers q).

Lemma client_text_lines q : client_text q = lines_text (client_lines q) ++ crlf.
Proof.
  unfold client_lines. rewrite lines_text_cons, lines_of_headers. unfold client_text, render.
  by rewrite <- !app_assoc.
Qed.

Lemma all_headers_good q : client_ok q -> Forall good_header (all_headers q).
Proof.
  intros [_ _ _ Hh _ _]. constructor; [|done]. destruct (to_string_good (q_cseq q)).
  split_and!; first [done | by split | decide_closed].
Qed.

Lemma client_lines_good q : client_ok q -> Forall good_line (client_lines q).
Proof.
  intros Hq. constructor.
  - split; [by destruct (q_method q)|]. apply no_cr_no_crlf. destruct Hq as [Hm _ Hu _ _ _].
    rewrite !not_elem_of_app. split_and!; first [by apply no_space_notin | decide_closed].
  - apply Forall_map. apply (Forall_impl _ _ _ (all_headers_good q Hq)). apply good_header_line.
Qed.

(** The same request in the grammar of [Ingress.v]. *)
Definition client_unit (q : client_request) : message := {|
  m_start := q_method q ++ " " ++ q_url q ++ " RTSP/1.0";
  m_headers := map (fun h => (fst h, " " ++ snd h)) (all_headers q);
  m_body := []
|}.

Lemma client_unit_text q : message_text (client_unit q) = client_text q.
Proof.
  rewrite client_text_lines. unfold message_text, message_lines, client_lines, client_unit.
  cbn [m_start m_headers m_body]. by rewrite map_map, app_nil_r.
Qed.

Lemma client_message q :
  client_ok q -> Z.of_nat (length (client_text q)) < 2 ^ 64 -> message_ok (client_unit q).
Proof.
  intros Hq Hl. pose proof (client_lines_good q Hq) as Hls. apply Forall_cons in Hls as [[Hne Hs] Hls].
  constructor; cbn [client_unit m_start m_headers m_body]; [by split| | | |by rewrite client_unit_text].
  - pose proof (ok_not_frame q Hq). by destruct (q_method q).
  - apply Forall_map. rewrite Forall_map in Hls. apply Forall_forall. intros h Hin.
    pose proof (all_headers_good q Hq) as Hg. rewrite Forall_forall in Hls, Hg.
    split; [apply (Hg h Hin)|apply (Hls h Hin)].
  - assert (filter is_length (map (fun h => (fst h, " " ++ snd h)) (all_headers q)) = []) as ->;
      [|done].
    pose proof (ok_names q Hq) as Hn. unfold all_headers. cbn [map].
    rewrite filter_cons_False by done. induction Hn as [|h hs [_ Hh] _ IH]; [done|].
    cbn [map]. by rewrite filter_cons_False.
Qed.

Lemma client_parsed q : client_ok q -> parse (client_text q) = Some (request_of q).
Proof.
  intros Hq. destruct (parse_head (q_method q) (q_url q) "RTSP/1.0" (all_headers q) []) as [_ P];
    [by apply ok_method|by apply ok_url|repeat constructor|done|by apply all_headers_good|].
  unfold client_text. rewrite P. unfold request_of, parse_body.
  rewrite header_map_other; [done|]. constructor; [done|].
  apply (Forall_impl _ _ _ (ok_names q Hq)). by intros h [_ ?].
Qed.

(** The number is the one the client wrote. *)
Lemma client_cseq q : client_ok q -> cseq (request_of q) = q_cseq q.
Proof.
  intros Hq. destruct (cseq_spec (request_of q)) as (_ & Hc & _). apply Hc; [by apply ok_cseq|].
  unfold header. change (toLower "CSeq") with ("cseq" : text). cbn [headers request_of].
  unfold header_map, all_headers. cbn [fold_left fst snd].
  fold (header_map (q_headers q) (<[toLower "CSeq" := to_string (q_cseq q)]> ∅)).
  rewrite header_map_other.
  - change (toLower "CSeq") with ("cseq" : text). by rewrite lookup_insert_eq.
  - apply (Forall_impl _ _ _ (ok_names q Hq)). by intros h [? _].
Qed.

(** A pipelined batch arrives whole, in pieces of any size. *)
Lemma client_batch_found qs rs :
  Forall client_ok qs ->
  Forall (fun q => Z.of_nat (length (client_text q)) < 2 ^ 64) qs ->
  recv_loop rs [] = Some (true, concat (map client_text qs)) ->
  onReadable (S (length qs)) rs [] = Some (true, map request_of qs, []).
Proof.
  intros Hqs Hl Hr. unfold onReadable. rewrite Hr.
  pose proof (parse_stream (map (fun q => Request (client_unit q)) qs) []) as P.
  rewrite length_map, !map_map, app_nil_r in P. cbn [unit_text unit_requests] in P.
  rewrite (map_ext _ _ client_unit_text) in P.
  rewrite (map_ext _ _ (fun q => f_equal parsed (client_unit_text q))) in P.
  rewrite P; [|apply Forall_map, Forall_forall; intros q Hq; rewrite Forall_forall in Hqs, Hl;
               by apply client_message; [apply Hqs|apply Hl]|done].
  do 2 f_equal. clear P Hr Hl. induction Hqs as [|q qs Hq Hqs IH]; [done|].
  cbn [map concat]. unfold parsed at 1. rewrite client_parsed by done. injection IH as IH. cbn.
  by rewrite IH.
Qed.

(** ** The responses *)

(** A run of the state machine, one response for each request. *)
Inductive exchanged : State -> list (client_request * RTSPResponse) -> State -> Prop :=
| exchanged_none st : exchanged st [] st
| exchanged_one st st1 st2 q resp log :
    answers (q_cseq q) resp -> fsm (q_method q) (status resp) st st1 ->
    exchanged st1 log st2 -> exchanged st ((q, resp) :: log) st2.

Definition respond (e : egress) (x : client_request * RTSPResponse) : egress :=
  closing (q_method x.1) (Egress.sendResponse x.2 e).

Definition response_octets (log : list (client_request * RTSPResponse)) : bytes :=
  concat (map (fun x => to_bytes (toString x.2)) log).

(** How the tick ended: all handled; a TEARDOWN handled last; or a handler threw. *)
Definition drained (r : result bool) (log : list (client_request * RTSPResponse))
    (rest : list client_request) : Prop :=
  match r with
  | Ok false => rest = [] /\ Forall (fun x => q_method x.1 <> "TEARDOWN") log
  | Ok true => exists log' x, log = log' ++ [x] /\ q_method x.1 = "TEARDOWN"
                 /\ Forall (fun x => q_method x.1 <> "TEARDOWN") log'
  | Throw _ => rest <> [] /\ Forall (fun x => q_method x.1 <> "TEARDOWN") log
  end.

Lemma drained_cons r x log rest :
  q_method x.1 <> "TEARDOWN" -> drained r log rest -> drained r (x :: log) rest.
Proof.
  destruct r as [[]|]; cbn; intros Hx; [|intros [? ?]; by split; [|constructor]..].
  intros (log' & y & -> & Hy & Hl). exists (x :: log'), y. by split_and!; [| |constructor].
Qed.

Lemma drain_commands_exchanged {M} `{IMediaSource M} envs qs : forall i (s : session M),
  Forall client_ok qs ->
  let '(s', r) := drain_commands envs i (map request_of qs) s in
  exists log rest, map fst log ++ rest = qs /\ drained r log rest
    /\ exchanged (state_ s) log (state_ s') /\ out s' = foldl respond (out s) log.
Proof.
  induction qs as [|q qs IH]; intros i s Hok; cbn [map drain_commands].
  { exists [], []. by repeat constructor. }
  apply Forall_cons in Hok as [Hq Hok].
  unfold SE_bind at 1, SE_modify at 1. cbn beta iota. set (s0 := s <| cmd_queue_ := _ |>).
  unfold SE_bind at 1. pose proof (handleRequest_conforms (envs i) (request_of q) s0) as P.
  destruct (handleRequest (envs i) (request_of q) s0) as [s1 [[]|x]].
  - destruct P as [_ (resp & Ha & Hf & _ & Ho)]. rewrite client_cseq in Ha by done. cbn in Hf, Ho.
    change (method (request_of q)) with (q_method q) in *. case_decide as Ht.
    + exists [(q, resp)], qs. split; [done|]. split; [by exists [], (q, resp)|].
      split; [|exact Ho]. by apply exchanged_one with (state_ s1); [..|constructor].
    + specialize (IH (S i) s1 Hok). destruct (drain_commands envs (S i) (map request_of qs) s1) as [s2 r].
      destruct IH as (log & rest & Hsplit & Hd & He & Hout). exists ((q, resp) :: log), rest.
      split; [cbn; by rewrite Hsplit|]. split; [by apply drained_cons|].
      split; [by apply exchanged_one with (state_ s1)|]. rewrite Hout, Ho. done.
  - destruct P as [_ [Ho Hs]]. exists [], (q :: qs). split; [done|]. split; [done|].
    rewrite Hs, Ho. split; [constructor|done].
Qed.

Lemma respond_spec e x :
  egress_wf e -> outbox_bytes_ e + size_of (to_bytes (toString x.2)) < 2 ^ 64 ->
  egress_wf (respond e x) /\ pending (respond e x) = pending e ++ to_bytes (toString x.2)
  /\ outbox_bytes_ (respond e x) = outbox_bytes_ e + size_of (to_bytes (toString x.2))
  /\ close_after_write_ (respond e x)
     = close_after_write_ e || bool_decide (q_method x.1 = "TEARDOWN").
Proof.
  intros Hw Hl. destruct (push_buffer_spec _ e Hw (toString_nonempty x.2) Hl) as (Hw' & Hp & _ & Hc).
  fold (Egress.sendResponse x.2 e) in Hw', Hp, Hc.
  destruct (sendResponse_effect x.2 e) as (Ho & _ & _).
  destruct (closing_effect (q_method x.1) (Egress.sendResponse x.2 e)) as (_ & _ & Hcl).
  assert (outbox_bytes_ (Egress.sendResponse x.2 e)
          = outbox_bytes_ e + size_of (to_bytes (toString x.2))) as Hb.
  { rewrite (wf_bytes _ Hw'), (wf_bytes _ Hw), Ho, concat_app, size_of_app. cbn [concat].
    by rewrite app_nil_r. }
  unfold respond. rewrite Hcl, Hc. unfold closing.
  case_decide; split_and!; try done. by destruct Hw'.
Qed.

Lemma responses_pending log : forall e,
  egress_wf e -> outbox_bytes_ e + size_of (response_octets log) < 2 ^ 64 ->
  egress_wf (foldl respond e log)
  /\ pending (foldl respond e log) = pending e ++ response_octets log
  /\ close_after_write_ (foldl respond e log)
     = close_after_write_ e || existsb (fun x => bool_decide (q_method x.1 = "TEARDOWN")) log.
Proof.
  induction log as [|x log IH]; intros e Hw Hl; cbn [foldl existsb].
  { unfold response_octets. cbn. by rewrite app_nil_r, orb_false_r. }
  unfold response_octets in *. cbn [map concat] in *. rewrite size_of_app in Hl.
  pose proof (size_of_nonneg (concat (map (fun x => to_bytes (toString x.2)) log))).
  destruct (respond_spec e x Hw) as (Hw1 & Hp1 & Hb1 & Hc1); [lia|].
  destruct (IH (respond e x) Hw1) as (Hw2 & Hp2 & Hc2); [lia|].
  by rewrite Hp2, Hp1, Hc2, Hc1, orb_assoc, <- app_assoc.
Qed.

Lemma drained_torn_down r log rest :
  drained r log rest ->
  existsb (fun x => bool_decide (q_method x.1 = "TEARDOWN")) log
    = match r with Ok b => b | Throw _ => false end.
Proof.
  assert (forall l : list (client_request * RTSPResponse),
    Forall (fun x => q_method x.1 <> "TEARDOWN") l ->
    existsb (fun x => bool_decide (q_method x.1 = "TEARDOWN")) l = false) as Hno.
  { induction 1 as [|x l Hx _ IH]; [done|]. cbn. by rewrite bool_decide_eq_false_2, IH. }
  destruct r as [[]|]; cbn.
  - intros (log' & x & -> & Hx & Hl). rewrite existsb_app, Hno by done. cbn.
    by rewrite bool_decide_eq_true_2.
  - intros [_ Hl]. by apply Hno.
  - intros [_ Hl]. by apply Hno.
Qed.

Lemma recv_loop_bound rs : forall buf b,
  recv_loop rs buf = Some (true, b) -> (length buf <= kMaxRecvBuf)%nat ->
  (length b <= kMaxRecvBuf)%nat.
Proof.
  induction rs as [|[data| | | |] rs IH]; intros buf b Hr Hl; cbn [recv_loop] in Hr; try done.
  - destruct (Nat.ltb_spec kMaxRecvBuf (length (buf ++ data))); [done|]. by eapply IH.
  - congruence.
  - by eapply IH.
Qed.

Lemma received_lengths qs rs :
  recv_loop rs [] = Some (true, concat (map client_text qs)) ->
  Forall (fun q => Z.of_nat (length (client_text q)) < 2 ^ 64) qs.
Proof.
  intros Hb%recv_loop_bound; [|cbn [length]; lia]. unfold kMaxRecvBuf in Hb.
  assert (Z.of_nat (length (concat (map client_text qs))) <= 16384) as Hz by lia. clear Hb.
  induction qs as [|q qs IH]; [constructor|]. cbn [map concat] in Hz. rewrite length_app in Hz.
  constructor; [|apply IH; lia]. change (2 ^ 64) with 18446744073709551616. lia.
Qed.

Lemma pending_nothing e : egress_wf e -> pending e = [] -> outbox_bytes_ e = 0.
Proof. intros Hw [_ Hp]%app_nil. by rewrite (wf_bytes e Hw), Hp. Qed.

(** C4: Requests and responses end to end.  A client writes any number of requests on the
    connection, TCP delivers them in pieces of any size, and nothing else is waiting to be
    sent.  [onReadable] finds exactly these requests.  The tick that drains them takes the state
    machine along one transition for each request it handles, in order, with one response that
    carries the number the client wrote: all of them, or those up to a TEARDOWN, or those before
    one whose handler throws.  And when the socket takes what it is given, the Dispatcher writes
    the responses, in that order and nothing else, and keeps the connection unless a TEARDOWN
    was answered or the session was closing before. *)
Theorem pipelined_exchange {M} `{IMediaSource M} qs rs envs i (s s' : session M) r :
  Forall client_ok qs ->
  recv_loop rs [] = Some (true, concat (map client_text qs)) ->
  egress_wf (out s) -> pending (out s) = [] ->
  drain_commands envs i (map request_of qs) s = (s', r) ->
  onReadable (S (length qs)) rs [] = Some (true, map request_of qs, [])
  /\ exists log rest, map fst log ++ rest = qs /\ drained r log rest
     /\ exchanged (state_ s) log (state_ s')
     /\ forall sends,
          size_of (response_octets log) < 2 ^ 64 -> Forall progress sends ->
          (length (response_octets log) <= length (filter (fun r => taken r <> 0%nat) sends))%nat ->
          let '(res, octets, e) := onWritable sends (out s') in
          octets = response_octets log /\ pending e = []
          /\ res = Some (negb (close_after_write_ (out s)
                               || match r with Ok b => b | Throw _ => false end)).
Proof.
  intros Hok Hr Hw Hp Hd. split; [apply client_batch_found; [done|by eapply received_lengths|done]|].
  pose proof (drain_commands_exchanged envs qs i s Hok) as P. rewrite Hd in P.
  destruct P as (log & rest & Hsplit & Hdr & He & Ho). exists log, rest. split_and!; try done.
  intros sends Hb Hs Hl.
  destruct (responses_pending log (out s) Hw) as (Hw' & Hp' & Hc').
  { by rewrite (pending_nothing _ Hw Hp). }
  rewrite <- Ho in *. rewrite Hp, app_nil_l in Hp'.
  pose proof (onWritable_spec sends (out s') Hw') as H1.
  pose proof (onWritable_drains sends (out s') Hw' Hs) as H2. rewrite Hp' in *.
  destruct (onWritable sends (out s')) as [[res octets] e].
  destruct H1 as (_ & H1 & _), (H2 Hl) as (-> & H2p & _). rewrite H2p, app_nil_r in H1.
  by rewrite Hc', (drained_torn_down _ _ _ Hdr).
Qed.

(** Four requests, cut in the middle of a header line, the third in a state that refuses it. *)
Definition example_requests : list client_request := [
  mkClient "OPTIONS" "*" 1 [];
  mkClient "DESCRIBE" "rtsp://h/out.mp4" 2 [(("Accept" : text), ("application/sdp" : text))];
  mkClient "PLAY" "rtsp://h/out.mp4" 3 [];
  mkClient "TEARDOWN" "rtsp://h/out.mp4" 4 []].

Definition example_pieces : list recv_result :=
  let octets := concat (map client_text example_requests) in
  [Recv (take 25 octets); RecvIntr; Recv (drop 25 octets); RecvAgain].

Import ListSource.

Definition example_run : session ListSource.source * result bool :=
  drain_commands (fun _ => example_env) 0 (map request_of example_requests) example_session.

Lemma pipelined_exchange_witness :
  onReadable 5 example_pieces [] = Some (true, map request_of example_requests, [])
  /\ exists log rest, map fst log ++ rest = example_requests /\ drained (Ok true) log rest
     /\ exchanged INIT log (state_ example_run.1).
Proof.
  destruct (pipelined_exchange example_requests example_pieces (fun _ => example_env) 0
    example_session example_run.1 (Ok true)) as [Hr (log & rest & Hl & Hd & He & _)].
  - repeat constructor; try discriminate; decide_closed.
  - vm_compute. reflexivity.
  - constructor; [exact I | constructor | reflexivity | reflexivity].
  - reflexivity.
  - vm_compute. reflexivity.
  - split; [exact Hr|]. exists log, rest. split; [exact Hl|]. split; [exact Hd | exact He].
Defined.

(** What the socket receives: four responses, the last one before the close. *)
Definition example_sends : list send_result := replicate 1000 (Sent 1).

Example example_octets :
  let '(res, octets, e) := onWritable example_sends (out example_run.1) in
  res = Some false /\ length octets = 467%nat /\ pending e = []
  /\ take 15 octets = to_bytes "RTSP/1.0 200 OK".
Proof. vm_compute. split_and!; reflexivity. Qed.
