(* ===== verification/Client.v ===== *)
(** * [Client]: what a client makes of the octets on its connection

    Responses and interleaved frames share one TCP connection (RFC 2326, section 10.12).  A
    client has to find their borders: a frame begins with a dollar sign and has its length in
    its header; a response ends with a blank line, or with as many octets behind it as its
    Content-Length says.  [demux] is such a client, a reference definition.  Proved: over the
    whole life of a session it recovers every response and every RTP packet, in order, however
    the socket cuts the stream and whatever the requests contain. *)

From S2P Require Import Prelude StdString StringUtils RTSPRequest RTSPResponse RTPPacket.
From S2P Require Import SDPBuilder RTPSender IMediaSource Egress Session SessionSpec Pacer Exchange.

(** ** The client *)

Inductive item :=
| Response (line : text) (hs : gmap text text) (body : text)
| Frame (channel : Z) (pkt : bytes).

Definition of_bytes (s : bytes) : text := map char_of_byte s.

(** The frame at the front and its size; [None]: it is not there in whole. *)
Definition next_frame (s : bytes) : option (item * nat) :=
  match s with
  | _ :: ch :: hi :: lo :: rest =>
      let n := Z.to_nat (256 * hi + lo) in
      if (n <=? length rest)%nat then Some (Frame ch (take n rest), (4 + n)%nat) else None
  | _ => None
  end.

Definition body_size (hs : gmap text text) : Z :=
  match hs !! ("content-length" : text) with Some v => try_default (stoul v) 0 | None => 0 end.

(** The response at the front and its size. *)
Definition next_response (t : text) : option (item * nat) :=
  match find (crlf ++ crlf) t with
  | None => None
  | Some _ =>
      '(line, p) ← nextLine t 0;
      '(hs, q) ← parse_headers (S (length t)) t p ∅;
      if Z.of_nat q + body_size hs <=? Z.of_nat (length t)
      then Some (Response line hs (substr_z t q (body_size hs)), (q + Z.to_nat (body_size hs))%nat)
      else None
  end.

Definition next_item (s : bytes) : option (item * nat) :=
  match s with
  | [] => None
  | c :: _ => if c =? byte_of_char "$" then next_frame s else next_response (of_bytes s)
  end.

(** Everything that has arrived in whole, and the octets of what has not. *)
Fixpoint demux (fuel : nat) (s : bytes) : list item * bytes :=
  match fuel with
  | O => ([], s)
  | S f =>
      match next_item s with
      | None => ([], s)
      | Some (x, n) => let '(xs, rest) := demux f (drop n s) in (x :: xs, rest)
      end
  end.

(** ** What the server puts on the connection *)

Inductive sent_unit :=
| SentResponse (r : RTSPResponse)
| SentFrame (ch : Z) (pkt : bytes).

Definition unit_octets (u : sent_unit) : bytes :=
  match u with
  | SentResponse r => to_bytes (toString r)
  | SentFrame ch pkt => tcp_frame ch pkt
  end.

Definition unit_item (u : sent_unit) : item :=
  match u with
  | SentResponse r => Response (status_line r) (header_map (wire_headers r) ∅) (rbody r)
  | SentFrame ch pkt => Frame (u8 ch) pkt
  end.

Definition unit_wf (u : sent_unit) : Prop :=
  match u with SentResponse r => well_framed r | SentFrame _ _ => True end.

(** The length fields are wide enough: a packet is shorter than 64 KiB. *)
Definition unit_fits (u : sent_unit) : Prop :=
  match u with
  | SentResponse r => Z.of_nat (length (rbody r)) < 2 ^ 64
  | SentFrame _ pkt => Z.of_nat (length pkt) < 65536
  end.

Definition responses (us : list sent_unit) : list RTSPResponse :=
  omap (fun u => match u with SentResponse r => Some r | SentFrame _ _ => None end) us.

Definition octets_of (us : list sent_unit) : bytes := concat (map unit_octets us).

(** ** Reading one unit *)

(** Two ways to cut the same list. *)
Lemma app_longer {A} (a b s rest : list A) :
  a ++ b = s ++ rest -> (length a <= length s)%nat ->
  s = a ++ drop (length a) s /\ b = drop (length a) s ++ rest.
Proof.
  intros Hs Hl. assert (s = a ++ drop (length a) s) as E.
  { rewrite <- (take_drop (length a) s) at 1. f_equal.
    apply (f_equal (take (length a))) in Hs.
    by rewrite take_app_length, take_app_le in Hs by lia. }
  split; [done|]. rewrite E, <- app_assoc in Hs at 1. by apply app_inv_head in Hs.
Qed.

Lemma of_bytes_to_bytes t : of_bytes (to_bytes t) = t.
Proof.
  induction t as [|c t IH]; [done|]. unfold of_bytes, to_bytes in *. cbn [map].
  by rewrite IH, char_of_byte_of_char.
Qed.

Lemma unit_nonempty u : unit_octets u <> [].
Proof. by destruct u. Qed.

Lemma frame_length ch pkt :
  Z.of_nat (length pkt) < 65536 ->
  exists hi lo, tcp_frame ch pkt = byte_of_char "$" :: u8 ch :: hi :: lo :: pkt
    /\ Z.to_nat (256 * hi + lo) = length pkt.
Proof.
  intros Hl. unfold tcp_frame, size_of. rewrite u16_small by lia.
  do 2 eexists. split; [reflexivity|]. rewrite land_255. bits_lia.
Qed.

Lemma next_item_frame ch pkt rest :
  Z.of_nat (length pkt) < 65536 ->
  next_item (tcp_frame ch pkt ++ rest) = Some (Frame (u8 ch) pkt, length (tcp_frame ch pkt)).
Proof.
  intros Hl. destruct (frame_length ch pkt Hl) as (hi & lo & -> & Hn).
  cbn [app next_item]. rewrite Z.eqb_refl. unfold next_frame. rewrite Hn.
  rewrite (proj2 (Nat.leb_le _ _)) by len_lia. by rewrite take_app_length.
Qed.

(** A proper prefix of a frame is not read. *)
Lemma next_item_cut_frame ch pkt s rest :
  Z.of_nat (length pkt) < 65536 -> tcp_frame ch pkt = s ++ rest -> rest <> [] -> next_item s = None.
Proof.
  intros Hl Hs Hr. destruct (frame_length ch pkt Hl) as (hi & lo & E & Hn). rewrite E in Hs.
  destruct s as [|c [|c1 [|c2 [|c3 s]]]]; try done; injection Hs as <-; [done..|].
  subst. cbn [next_item]. rewrite Z.eqb_refl. unfold next_frame. rewrite Hn, length_app.
  rewrite (proj2 (Nat.leb_gt _ _)); [done|]. destruct rest; [done|len_lia].
Qed.

(** The blank line of a response is the first one. *)
Lemma head_blank_line r b :
  response_wf r -> exists n, find (crlf ++ crlf) (head_text r ++ b) = Some n
    /\ (n + 4)%nat = length (head_text r).
Proof.
  intros Hw. set (ls := status_line r :: map header_line (wire_headers r)).
  assert (head_text r ++ b = lines_text ls ++ crlf ++ b) as ->.
  { unfold head_text, ls. rewrite lines_text_cons, lines_of_headers. by rewrite <- !app_assoc. }
  assert (length (head_text r) = length (lines_text ls) + 2)%nat as ->.
  { unfold head_text, ls. rewrite lines_text_cons, lines_of_headers. len_lia. }
  destruct (find_blank_line ls b) as (n & Hn & Hl); [|done|exists n; split; [done|lia]].
  constructor.
  - split; [done|]. apply no_cr_no_crlf. destruct Hw as [Hr _]. unfold status_line.
    rewrite !not_elem_of_app. repeat split; first [by apply to_string_notin | done | decide_closed].
  - apply Forall_map. eapply Forall_impl; [by apply wire_headers_good|]. apply good_header_line.
Qed.

Lemma framed_size r :
  framed r -> Z.of_nat (length (rbody r)) < 2 ^ 64 ->
  body_size (header_map (wire_headers r) ∅) = Z.of_nat (length (rbody r)).
Proof.
  unfold framed, body_size. destruct (_ !! _) as [v|]; [intros ->|by intros ->].
  intros Hl. unfold to_string. rewrite (proj2 (Z.ltb_ge _ _)) by lia.
  rewrite <- (app_nil_r (decimal _)), stoul_decimal; [done|lia|done].
Qed.

(** What is there of a response is read exactly when the whole body is there. *)
Lemma next_response_head r b :
  well_framed r -> Z.of_nat (length (rbody r)) < 2 ^ 64 ->
  next_response (head_text r ++ b)
    = if (length (rbody r) <=? length b)%nat
      then Some (Response (status_line r) (header_map (wire_headers r) ∅)
                   (take (length (rbody r)) b), (length (head_text r) + length (rbody r))%nat)
      else None.
Proof.
  intros [Hw Hf] Hl. unfold next_response. destruct (head_blank_line r b Hw) as (n & -> & _).
  destruct (head_readback r b Hw) as (p & -> & Hp). cbn [mbind option_bind]. rewrite Hp.
  cbn [mbind option_bind]. rewrite framed_size, length_app by done.
  destruct (Nat.leb_spec (length (rbody r)) (length b)).
  - rewrite (proj2 (Z.leb_le _ _)) by lia. do 2 f_equal.
    + f_equal. unfold substr_z. rewrite drop_app_length, length_app. f_equal. lia.
    + lia.
  - by rewrite (proj2 (Z.leb_gt _ _)) by lia.
Qed.

Lemma next_item_text t :
  starts_with "$" t = false -> next_item (to_bytes t) = next_response t.
Proof.
  intros H. destruct t as [|c t]; [done|]. cbn [to_bytes map next_item].
  change (byte_of_char c :: map byte_of_char t) with (to_bytes (c :: t)).
  rewrite of_bytes_to_bytes. destruct (Z.eqb_spec (byte_of_char c) (byte_of_char "$")) as [E|]; [|done].
  apply byte_of_char_inj in E as ->. cbn in H. by destruct t.
Qed.

Lemma of_bytes_app a b : of_bytes (a ++ b) = of_bytes a ++ of_bytes b.
Proof. apply map_app. Qed.

Lemma next_item_response r rest :
  well_framed r -> Z.of_nat (length (rbody r)) < 2 ^ 64 ->
  next_item (to_bytes (toString r) ++ rest)
    = Some (unit_item (SentResponse r), length (to_bytes (toString r))).
Proof.
  intros Hw Hl. transitivity (next_response (toString r ++ of_bytes rest)).
  { change (next_item (byte_of_char "R" :: to_bytes (drop 1 (toString r)) ++ rest)
      = next_response (toString r ++ of_bytes rest)).
    cbn [next_item]. change (byte_of_char "R" =? byte_of_char "$") with false. cbv iota.
    change (byte_of_char "R" :: to_bytes (drop 1 (toString r)) ++ rest)
      with (to_bytes (toString r) ++ rest). by rewrite of_bytes_app, of_bytes_to_bytes. }
  rewrite toString_head, <- app_assoc, next_response_head by done.
  rewrite (proj2 (Nat.leb_le _ _)) by len_lia. rewrite take_app_length, to_bytes_length, length_app.
  done.
Qed.

Lemma next_item_cut_response r s rest :
  well_framed r -> Z.of_nat (length (rbody r)) < 2 ^ 64 ->
  to_bytes (toString r) = s ++ rest -> rest <> [] -> next_item s = None.
Proof.
  intros Hw Hl Hs Hr. pose proof (f_equal of_bytes Hs) as Ht.
  rewrite of_bytes_to_bytes, of_bytes_app in Ht.
  assert (s = to_bytes (of_bytes s)) as Es.
  { assert (s = to_bytes (take (length s) (toString r))) as E.
    { unfold to_bytes. by rewrite <- firstn_map, (Hs : map _ _ = _), take_app_length. }
    by rewrite E, of_bytes_to_bytes. }
  destruct s as [|c s]; [done|]. rewrite Es, next_item_text.
  2: { destruct (of_bytes (c :: s)) as [|d t]; [done|]. by injection Ht as <- _. }
  set (t := of_bytes (c :: s)) in *. set (u := of_bytes rest) in *.
  assert (u <> []) as Hu by (by destruct rest). clearbody t u. clear Es Hs Hr.
  destruct (decide (length t < length (head_text r))%nat) as [Hlt|Hge].
  - unfold next_response. destruct (find _ t) as [n|] eqn:E; [|done]. exfalso.
    destruct (head_blank_line r (rbody r) (proj1 Hw)) as (m & Hm & Hml).
    rewrite <- toString_head, Ht, (find_more _ _ u n E) in Hm. injection Hm as ->.
    apply find_Some_bound in E. change (length (crlf ++ crlf)) with 4%nat in E. lia.
  - rewrite toString_head in Ht. apply app_longer in Ht as [-> Hb]; [|lia].
    rewrite next_response_head by done. rewrite (proj2 (Nat.leb_gt _ _)); [done|].
    rewrite Hb, length_app. destruct u; [done|len_lia].
Qed.

(** ** Reading a stream *)

Definition unit_ok (u : sent_unit) : Prop := unit_wf u /\ unit_fits u.

Lemma next_item_whole u rest :
  unit_ok u -> next_item (unit_octets u ++ rest) = Some (unit_item u, length (unit_octets u)).
Proof. destruct u as [r|ch pkt]; intros [Hw Hf]; [by apply next_item_response|by apply next_item_frame]. Qed.

(** The end of a stream: nothing, or a proper prefix of a unit. *)
Definition cut_unit (p : bytes) (us : list sent_unit) : Prop :=
  p = [] \/ exists u us' rest, us = u :: us' /\ unit_octets u = p ++ rest /\ rest <> [].

Lemma next_item_cut p us : Forall unit_ok us -> cut_unit p us -> next_item p = None.
Proof.
  intros Hus [->|(u & us' & rest & -> & Hp & Hr)]; [done|].
  apply Forall_cons in Hus as [[Hw Hf] _]. destruct u as [r|ch pkt].
  - by apply (next_item_cut_response r p rest).
  - by apply (next_item_cut_frame ch pkt p rest).
Qed.

Lemma demux_stream us rest p fuel :
  Forall unit_ok us -> Forall unit_ok rest -> cut_unit p rest -> (length us <= fuel)%nat ->
  demux fuel (octets_of us ++ p) = (map unit_item us, p).
Proof.
  intros Hus Hrest Hp. revert fuel.
  induction Hus as [|u us Hu Hus IH]; intros fuel Hf.
  - change (octets_of [] ++ p) with p. destruct fuel as [|fuel]; [done|]. cbn [demux].
    by rewrite (next_item_cut p rest).
  - destruct fuel as [|fuel]; [cbn in Hf; lia|]. cbn [demux]. unfold octets_of. cbn [map concat].
    rewrite <- app_assoc, next_item_whole by done. rewrite drop_app_length.
    fold (octets_of us). by rewrite IH by (cbn in Hf; lia).
Qed.

(** Any prefix of a stream is whole units and the beginning of the next one. *)
Lemma stream_cut us : forall s rest,
  octets_of us = s ++ rest ->
  exists us1 us2 p, us = us1 ++ us2 /\ s = octets_of us1 ++ p /\ cut_unit p us2
    /\ (rest = [] -> us2 = [] /\ p = []).
Proof.
  induction us as [|u us IH]; intros s rest Hs.
  - cbn in Hs. symmetry in Hs. apply app_nil in Hs as [-> ->]. exists [], [], []. by repeat split; [left|..].
  - unfold octets_of in Hs. cbn [map concat] in Hs. fold (octets_of us) in Hs.
    destruct (decide (length (unit_octets u) <= length s)%nat) as [Hle|Hgt].
    + apply app_longer in Hs as [Es Hs]; [|done].
      destruct (IH _ _ Hs) as (us1 & us2 & p & -> & E & Hp & Hr).
      exists (u :: us1), us2, p. split; [done|]. split; [|done].
      unfold octets_of. cbn [map concat]. fold (octets_of us1). by rewrite <- app_assoc, <- E, <- Es.
    + exists [], (u :: us), s. split; [done|]. split; [done|].
      symmetry in Hs. apply app_longer in Hs as [Eu Hs]; [|lia].
      assert (drop (length s) (unit_octets u) <> []) as Hd.
      { intros E. apply (f_equal length) in E. rewrite length_drop in E. cbn in E. lia. }
      split; [right; by exists u, us, (drop (length s) (unit_octets u))|].
      intros ->. symmetry in Hs. by apply app_nil in Hs as [Hs _].
Qed.

Lemma units_length us : (length us <= length (octets_of us))%nat.
Proof.
  induction us as [|u us IH]; [done|]. unfold octets_of in *. cbn [map concat length].
  rewrite length_app. pose proof (unit_nonempty u). destruct (unit_octets u); [done|len_lia].
Qed.

(** A client that reads a prefix of the stream finds what is whole in it. *)
Lemma demux_prefix us s rest :
  Forall unit_ok us -> octets_of us = s ++ rest ->
  exists received later p, us = received ++ later
    /\ demux (length s) s = (map unit_item received, p)
    /\ (rest = [] -> later = [] /\ p = []).
Proof.
  intros Hus Hs. destruct (stream_cut us s rest Hs) as (us1 & us2 & p & -> & -> & Hp & Hr).
  apply Forall_app in Hus as [Hus1 Hus2]. exists us1, us2, p. split; [done|]. split; [|done].
  eapply demux_stream; try done. pose proof (units_length us1). len_lia.
Qed.

(** ** What the operations of a session push *)

(** The outbox is extended by whole units; what is being written is left alone. *)
Definition pushed (us : list sent_unit) (e e' : egress) : Prop :=
  outbox_ e' = outbox_ e ++ map unit_octets us /\ wbuf_ e' = wbuf_ e /\ woff_ e' = woff_ e.

Lemma pushed_nil e : pushed [] e e.
Proof. unfold pushed. by rewrite app_nil_r. Qed.

Lemma pushed_app us1 us2 e1 e2 e3 :
  pushed us1 e1 e2 -> pushed us2 e2 e3 -> pushed (us1 ++ us2) e1 e3.
Proof.
  intros (A & B & C) (D & E & F). unfold pushed. rewrite map_app, app_assoc. split_and!; congruence.
Qed.

Lemma pushed_pending us e e' : pushed us e e' -> pending e' = pending e ++ octets_of us.
Proof.
  intros (A & B & C). unfold pending, unwritten. rewrite A, B, C, concat_app. by rewrite app_assoc.
Qed.

Lemma push_buffer_pushed u e : pushed [u] e (push_buffer (unit_octets u) e).
Proof. unfold pushed, push_buffer, enableWrite. simpl_update. by destruct (epollout_armed_ e). Qed.

Lemma sendResponse_pushed r e : pushed [SentResponse r] e (Egress.sendResponse r e).
Proof. exact (push_buffer_pushed (SentResponse r) e). Qed.

Lemma pushTCPFrame_pushed ch pkt e :
  exists fs, pushed (map (uncurry SentFrame) fs) e (pushTCPFrame ch pkt e).
Proof.
  unfold pushTCPFrame. destruct (_ <? _).
  - exists []. unfold pushed. by rewrite app_nil_r.
  - exists [(ch, pkt)]. exact (push_buffer_pushed (SentFrame ch pkt) e).
Qed.

Lemma closing_pushed m us e e' : pushed us e e' -> pushed us e (closing m e').
Proof. unfold closing. by case_decide. Qed.

Section session.
Context {M : Type} `{IMediaSource M}.
Implicit Types s : session M.

(** *** Relations that a tick runs through

    The steps of a tick that send nothing change only the pacing; a relation that holds of them
    and of the two sends holds of the whole tick. *)

Definition wiring s : bool * bool * bool :=
  (use_tcp_ s, transport_ready_ s, audio_transport_ready_ s).

Definition labels s : Z * Z * Z * Z := (rtp_seq_ s, ssrc_ s, audio_rtp_seq_ s, audio_ssrc_ s).

(** All but the pacing and the media source. *)
Definition outward s : text * list RTSPRequest * egress * (bool * bool * bool) * (Z * Z * Z * Z) :=
  (session_id_ s, cmd_queue_ s, out s, wiring s, labels s).

Record tick_relation (R : session M -> session M -> Prop) : Prop := {
  tr_quiet s s' : outward s' = outward s -> R s s';
  tr_trans s1 s2 s3 : R s1 s2 -> R s2 s3 -> R s1 s3;
  tr_video sent p ts mk s : transport_ready_ s = true -> R s (sendVideoRTP sent p ts mk s);
  tr_audio sent ap s : audio_transport_ready_ s = true -> R s (sendOneAudio sent ap s)
}.

Section tick.
Context (R : session M -> session M -> Prop) (HR : tick_relation R).

Definition goes s s' : Prop := wiring s' = wiring s /\ R s s'.

Lemma goes_quiet s s' : outward s' = outward s -> goes s s'.
Proof. intros Ho. split; [exact (f_equal (fun o => snd (fst o)) Ho)|by apply (tr_quiet R HR)]. Qed.

Lemma goes_refl s : goes s s.
Proof. by apply goes_quiet. Qed.

Lemma goes_trans s1 s2 s3 : goes s1 s2 -> goes s2 s3 -> goes s1 s3.
Proof. intros [W1 R1] [W2 R2]. split; [congruence|by apply (tr_trans R HR _ s2)]. Qed.

Lemma send_frame_goes sent m vp s : transport_ready_ s = true -> goes s (send_frame sent m vp s).
Proof.
  unfold send_frame. generalize (frame_payloads (nal_list (streamInfo m) vp)) as ps.
  intros ps. revert s. induction ps as [|p ps IH]; intros s Ht; cbn [fold_left]; [apply goes_refl|].
  set (s1 := sendVideoRTP _ _ _ _ s).
  assert (goes s s1) as H1.
  { split; [|by apply (tr_video R HR)]. unfold s1, sendVideoRTP, send_udp. simpl_update.
    destruct (use_tcp_ s); [done|]. by destruct (rtp_sender_ s). }
  apply (goes_trans _ _ _ H1), IH. destruct H1 as [[= _ -> _] _]. done.
Qed.

Lemma sendOneAudio_goes sent ap s : audio_transport_ready_ s = true -> goes s (sendOneAudio sent ap s).
Proof.
  intros Ht. split; [|by apply (tr_audio R HR)]. unfold sendOneAudio, sendAudioRTP, send_udp.
  case_bool_decide; [done|]. simpl_update. destruct (use_tcp_ s); [done|].
  by destruct (audio_rtp_sender_ s).
Qed.

Lemma audio_loop_goes fuel now sent rate : forall m s,
  audio_transport_ready_ s = true -> goes s (audio_loop fuel now sent rate m s).
Proof.
  induction fuel as [|fuel IH]; intros m s Ht; cbn [audio_loop]; [by apply goes_quiet|].
  destruct (readAudioPacket m) as [[ap|] m']; [|by apply goes_quiet].
  destruct (negb _); [by apply goes_quiet|].
  pose proof (sendOneAudio_goes sent ap s Ht) as H1. apply (goes_trans _ _ _ H1), IH.
  destruct H1 as [[= _ _ ->] _]. done.
Qed.

Lemma send_audio_goes now sent m s : goes s (send_audio now sent m s).
Proof.
  unfold send_audio. cbv zeta. destruct (audio_transport_ready_ s) eqn:Ht; cbn [andb]; [|apply goes_refl].
  destruct (0 <? _); [|apply goes_refl].
  set (s1 := match pending_ap_ s with Some _ => _ | None => _ end).
  assert (goes s s1) as H1.
  { unfold s1. destruct (pending_ap_ s) as [ap|]; [|apply goes_refl].
    destruct (audioIsDue _ _ _ _); [|apply goes_refl].
    eapply goes_trans; [by apply sendOneAudio_goes|by apply goes_quiet]. }
  destruct (pending_ap_ s1); [done|]. apply (goes_trans _ _ _ H1), audio_loop_goes.
  destruct H1 as [[= _ _ ->] _]. done.
Qed.

Lemma track_goes m vp s : goes s (track m vp s).
Proof. unfold track. cbv zeta. by apply goes_quiet; destruct (is_key_frame vp), (_ && _). Qed.

Lemma anchor_goes now m vp s : goes s (anchor now m vp s).
Proof. unfold anchor. destruct (first_frame_ s); [|apply goes_refl]. cbv zeta. by apply goes_quiet; destruct (0 <? _). Qed.

Lemma send_when_due_goes now sent m vp s :
  transport_ready_ s = true -> goes s (send_when_due now sent m vp s).
Proof.
  intros Ht. unfold send_when_due. cbv zeta. pose proof (anchor_goes now m vp s) as H1.
  apply (goes_trans _ _ _ H1). destruct (_ <? _); [apply goes_refl|].
  eapply goes_trans; [|eapply goes_trans; [apply track_goes|apply send_audio_goes]].
  apply send_frame_goes. destruct H1 as [[= _ -> _] _]. done.
Qed.

Lemma read_frame_goes m s : goes s (snd (read_frame m s)).
Proof.
  unfold read_frame. destruct (pending_vp_ s); [apply goes_refl|].
  destruct (readPacket m) as [[vp|] m']; [|by apply goes_quiet]. cbv zeta.
  case_bool_decide; [by apply goes_quiet|]. case_if; [by apply goes_quiet|].
  case_if; by apply goes_quiet.
Qed.

Lemma idr_gate_goes s : goes s (snd (idr_gate s)).
Proof. unfold idr_gate. by apply goes_quiet; repeat case_match. Qed.

Lemma clear_gate_goes s : goes s (clear_gate s).
Proof. unfold clear_gate. by apply goes_quiet; repeat case_match. Qed.

Lemma resumed_goes now s : goes s (discard_stale (absorb_pause now s)).
Proof.
  unfold discard_stale, absorb_pause. cbv zeta.
  by apply goes_quiet; destruct (negb _), (first_frame_ s) eqn:E; cbn; rewrite ?E.
Qed.

Lemma media_tick_goes now sent s : R s (media_tick now sent s).
Proof.
  unfold media_tick. destruct (playing s) eqn:Hpl; cbn [negb].
  2: { unfold idle_tick. cbv zeta. by apply goes_quiet; repeat case_if. }
  assert (transport_ready_ s = true) as Ht by (by apply andb_true_iff in Hpl as [_ ?]).
  cbv zeta. pose proof (resumed_goes now s) as H1. set (s1 := discard_stale _) in *.
  pose proof (goes_trans _ _ _ H1 (idr_gate_goes s1)) as H2.
  destruct (idr_gate s1) as [go1 s2]. cbn [snd] in H2.
  destruct (negb go1); [apply H2|]. destruct (media_source_ s2) as [m|]; [|apply H2].
  pose proof (goes_trans _ _ _ H2 (read_frame_goes m s2)) as H3.
  destruct (read_frame m s2) as [go2 s3]. cbn [snd] in H3. destruct (negb go2); [apply H3|].
  pose proof (goes_trans _ _ _ H3 (clear_gate_goes s3)) as H4. set (s4 := clear_gate s3) in *.
  destruct (media_source_ s4) as [m'|]; [|apply H4].
  destruct (pending_vp_ s4) as [vp|]; [|apply H4].
  apply (goes_trans _ _ _ H4), send_when_due_goes. destruct H4 as [[= _ -> _] _]. done.
Qed.
End tick.

(** *** Frames only *)

(** Only frames are pushed, and the commands and the name of the session stay. *)
Definition streams s s' : Prop :=
  keeps s s' /\ exists fs, pushed (map (uncurry SentFrame) fs) (out s) (out s').

Lemma streams_quiet s s' : keeps s s' -> out s' = out s -> streams s s'.
Proof. intros Hk Ho. split; [done|]. exists []. rewrite Ho. apply pushed_nil. Qed.

Lemma streams_trans s1 s2 s3 : streams s1 s2 -> streams s2 s3 -> streams s1 s3.
Proof.
  intros [K1 [f1 P1]] [K2 [f2 P2]]. split; [by eapply keeps_trans|]. exists (f1 ++ f2).
  rewrite map_app. by eapply pushed_app.
Qed.

Lemma send_udp_streams sent r pkt s : streams s (send_udp sent r pkt s).
Proof. apply streams_quiet; by destruct r. Qed.

Lemma streams_tick : tick_relation streams.
Proof.
  split.
  - intros s s' Ho. pose proof (f_equal (fun o => fst (fst o)) Ho) as [= E1 E2 E3].
    by apply streams_quiet.
  - apply streams_trans.
  - intros sent p ts mk s _. unfold sendVideoRTP. set (s0 := s <| rtp_seq_ := _ |>).
    apply (streams_trans s s0); [by apply streams_quiet|]. destruct (use_tcp_ s0).
    + split; [done|]. apply pushTCPFrame_pushed.
    + apply send_udp_streams.
  - intros sent ap s _. unfold sendOneAudio, sendAudioRTP.
    case_bool_decide; [by apply streams_quiet|]. cbv zeta. set (s0 := s <| audio_rtp_seq_ := _ |>).
    apply (streams_trans s s0); [by apply streams_quiet|]. destruct (use_tcp_ s0).
    + split; [done|]. apply pushTCPFrame_pushed.
    + apply send_udp_streams.
Qed.

(** ** The requests and their responses *)

(** What became of a request: its response, or nothing when its handler threw. *)
Definition log_entry : Type := RTSPRequest * option RTSPResponse.

Definition entry_ok (x : log_entry) : Prop :=
  match snd x with Some r => answers (cseq (fst x)) r /\ well_framed r | None => True end.

Definition log_responses (log : list log_entry) : list RTSPResponse := omap snd log.

Definition named s : Prop := exists n, session_id_ s = to_string n.

Lemma drain_log envs cmds : forall i s,
  cmd_queue_ s = cmds -> Forall (fun req => one_line (url req)) cmds -> named s ->
  let '(s', _) := drain_commands envs i cmds s in
  named s' /\ exists log, map fst log ++ cmd_queue_ s' = cmds /\ Forall entry_ok log
    /\ pushed (map SentResponse (log_responses log)) (out s) (out s').
Proof.
  induction cmds as [|req cmds IH]; intros i s Hq Hl Hn; cbn [drain_commands].
  { split; [done|]. exists []. split; [done|]. split; [done|]. apply pushed_nil. }
  apply Forall_cons in Hl as [Hreq Hl]. unfold SE_bind at 1, SE_modify at 1. cbn beta iota.
  set (s0 := s <| cmd_queue_ := cmds |>). unfold SE_bind at 1.
  pose proof (handleRequest_conforms (envs i) req s0) as P.
  destruct (handleRequest (envs i) req s0) as [s1 [[]|x]]; destruct P as [[Hs1 Hq1] P];
    cbn [fst] in Hs1, Hq1; simpl_update_in Hq1.
  - destruct P as (resp & Ha & _ & Hw & Ho). simpl_update_in Ho.
    assert (entry_ok (req, Some resp)) as He by (split; [done|by apply Hw]).
    assert (pushed [SentResponse resp] (out s) (out s1)) as Hp.
    { rewrite Ho. apply closing_pushed, sendResponse_pushed. }
    assert (named s1) as Hn1 by (unfold named; by rewrite Hs1).
    case_decide.
    + split; [done|]. exists [(req, Some resp)]. cbn. rewrite Hq1. split_and!; [done|by constructor|done].
    + specialize (IH (S i) s1 Hq1 Hl Hn1). destruct (drain_commands envs (S i) cmds s1) as [s2 r].
      destruct IH as (Hn2 & log & Hlog & Hok & Hp2). split; [done|]. exists ((req, Some resp) :: log).
      split; [cbn; by rewrite Hlog|]. split; [by constructor|]. by apply (pushed_app [_] _ _ (out s1)).
  - destruct P as [Ho _]. split; [unfold named; by rewrite Hs1|]. exists [(req, None)].
    cbn. rewrite Hq1. split; [done|]. split; [by constructor|]. rewrite Ho. apply pushed_nil.
Qed.

Lemma pacerTick_log envs now sent s :
  Forall (fun req => one_line (url req)) (cmd_queue_ s) -> named s ->
  let s' := fst (pacerTick envs now sent s) in
  named s' /\ exists log us, map fst log ++ cmd_queue_ s' = cmd_queue_ s /\ Forall entry_ok log
    /\ responses us = log_responses log /\ Forall unit_wf us /\ pushed us (out s) (out s').
Proof.
  intros Hl Hn. cbv zeta. unfold pacerTick, SE_bind, SE_get. cbn beta iota.
  pose proof (drain_log envs (cmd_queue_ s) 0 s eq_refl Hl Hn) as P.
  destruct (drain_commands envs 0 (cmd_queue_ s) s) as [s1 r]. destruct P as (Hn1 & log & Hlog & Hok & Hp).
  assert (responses (map SentResponse (log_responses log)) = log_responses log) as Hr.
  { unfold responses. generalize (log_responses log) as l. induction l as [|x l IH]; [done|].
    cbn. by rewrite IH. }
  assert (Forall unit_wf (map SentResponse (log_responses log))) as Hw.
  { clear -Hok. unfold log_responses.
    induction Hok as [|[req [r|]] log Hx Hok IH]; cbn; [done| |done]. by constructor; [apply Hx|]. }
  assert (forall s2, streams s1 s2 -> named s2 /\ exists log us, map fst log ++ cmd_queue_ s2 = cmd_queue_ s
    /\ Forall entry_ok log /\ responses us = log_responses log /\ Forall unit_wf us
    /\ pushed us (out s) (out s2)) as Hdone.
  { intros s2 [[Hs Hq] [fs Hf]]. split; [unfold named; by rewrite Hs|].
    exists log, (map SentResponse (log_responses log) ++ map (uncurry SentFrame) fs). rewrite Hq.
    split_and!; try done.
    - unfold responses in *. rewrite omap_app, Hr. clear. induction fs as [|[] fs IH]; cbn;
        [by rewrite app_nil_r|done].
    - apply Forall_app. split; [done|]. clear. induction fs as [|[] fs IH]; by constructor.
    - by apply (pushed_app _ _ _ (out s1)). }
  destruct r as [[]|x]; cbn [fst]; [by apply Hdone, streams_quiet|apply Hdone, (media_tick_goes streams streams_tick)|].
  by apply Hdone, streams_quiet.
Qed.

(** ** The life of a connection *)

(** The requests that were queued, the octets that were written, and the session.  Requests are
    what [parse] makes of anything the client sent. *)
Inductive connection : list RTSPRequest -> bytes -> session M -> Prop :=
| conn_made ip root rng_id rng_ssrc rng_audio :
    connection [] [] (session_make ip root rng_id rng_ssrc rng_audio)
| conn_pushCommand reqs octets s raw req :
    connection reqs octets s -> parse raw = Some req ->
    connection (reqs ++ [req]) octets (s <| cmd_queue_ := cmd_queue_ s ++ [req] |>)
| conn_tick reqs octets s envs now sent :
    connection reqs octets s -> connection reqs octets (fst (pacerTick envs now sent s))
| conn_onWritable reqs octets s results res written e :
    connection reqs octets s -> onWritable results (out s) = (res, written, e) ->
    connection reqs (octets ++ written) (s <| out := e |>).

Lemma connection_log reqs octets s :
  connection reqs octets s ->
  named s /\ Forall (fun req => one_line (url req)) (cmd_queue_ s)
  /\ exists log us, map fst log ++ cmd_queue_ s = reqs /\ Forall entry_ok log
     /\ responses us = log_responses log /\ Forall unit_wf us
     /\ octets_of us = octets ++ pending (out s).
Proof.
  induction 1 as [ip root n rng_ssrc rng_audio|reqs octets s raw req _ IH Hreq|reqs octets s envs now sent _ IH
    |reqs octets s results res written e _ IH Ho];
    [|destruct IH as (Hn & Hl & log & us & Hq & Hok & Hr & Hw & Hp)..].
  - split; [by exists (u64 n)|]. split; [done|]. by exists [], [].
  - split; [done|]. split; [apply Forall_app; split; [done|]; constructor; [|done]|].
    { by apply parse_one_line in Hreq as [_ ?]. }
    exists log, us. simpl_update. rewrite <- Hq. by rewrite app_assoc.
  - destruct (pacerTick_log envs now sent s Hl Hn) as (Hn' & log' & us' & Hq' & Hok' & Hr' & Hw' & Hp').
    set (s' := fst (pacerTick envs now sent s)) in *. split; [done|]. split.
    { rewrite <- Hq' in Hl. by apply Forall_app in Hl as [_ ?]. }
    exists (log ++ log'), (us ++ us'). split_and!.
    + by rewrite map_app, <- app_assoc, Hq', Hq.
    + by apply Forall_app.
    + unfold responses, log_responses in *. by rewrite !omap_app, Hr, Hr'.
    + by apply Forall_app.
    + rewrite (pushed_pending us' _ _ Hp'). unfold octets_of in *. rewrite map_app, concat_app, Hp.
      by rewrite app_assoc.
  - split; [done|]. split; [done|]. exists log, us. split_and!; try done. simpl_update.
    pose proof (onWritable_order results (out s)) as Hw'. rewrite Ho in Hw'.
    by rewrite <- app_assoc, Hw'.
Qed.
End session.

(** C5: The connection as its client sees it.  Over the life of a session, whatever its client
    sends (each request is what [parse] makes of some octets), whatever the ticks do and whether or
    not handlers throw, and however the socket cuts the stream: the requests were taken up in
    order, and each has one response with its number or a handler that threw.  What was written,
    followed by what is pending, is the octets of these responses, in order, with whole
    interleaved frames among them.  When the packets fit the 16-bit length of a frame, a client
    that has read what was written so far has recovered exactly the first of these units, each
    response with its status line, headers and body and each frame with its channel and packet,
    and it waits for the rest of the next one; when nothing is pending it has recovered all of
    them and waits for nothing.  So no request can make the server write a line or a length that
    a client would misread. *)
Theorem client_recovers_stream {M} `{IMediaSource M} reqs octets (s : session M) :
  connection reqs octets s ->
  exists log us,
    map fst log ++ cmd_queue_ s = reqs
    /\ Forall entry_ok log
    /\ responses us = log_responses log
    /\ octets_of us = octets ++ pending (out s)
    /\ (Forall unit_fits us ->
        exists received later rest, us = received ++ later
          /\ demux (length octets) octets = (map unit_item received, rest)
          /\ (pending (out s) = [] -> later = [] /\ rest = [])).
Proof.
  intros Hc. destruct (connection_log reqs octets s Hc) as (_ & _ & log & us & Hq & Hok & Hr & Hw & Hp).
  exists log, us. split_and!; try done. intros Hf.
  apply (demux_prefix us octets (pending (out s))); [|done].
  rewrite Forall_forall in Hw, Hf. apply Forall_forall. intros u Hu. split; auto.
Qed.

(** A stream of less than 64 KiB has only units that fit. *)
Lemma small_stream_fits us : Z.of_nat (length (octets_of us)) < 65536 -> Forall unit_fits us.
Proof.
  induction us as [|u us IH]; [done|]. unfold octets_of in *. cbn [map concat]. rewrite length_app.
  intros Hl. constructor; [|apply IH; lia]. destruct u as [r|ch pkt]; cbn [unit_fits unit_octets] in *.
  - rewrite to_bytes_length, toString_head, length_app in Hl.
    change (2 ^ 64) with 18446744073709551616. lia.
  - assert (length (tcp_frame ch pkt) = 4 + length pkt)%nat by done. lia.
Qed.

Import ListSource.

(** A file with one key frame. *)
Definition clip : ListSource.source := {|
  ListSource.video := [{| nals := [101 :: replicate 40 7]; rtp_timestamp := 3000; is_key_frame := true;
                          vp_duration := 0 |}];
  ListSource.audio := []; ListSource.info := H264StreamInfo_default; ListSource.ainfo := AudioStreamInfo_default
|}.

Definition clip_source : IMediaSource ListSource.source := {|
  make := clip; open _ m := (true, m); isOpen := isOpen; close := close; streamInfo := streamInfo;
  audioInfo := audioInfo; duration := duration; readPacket := readPacket;
  readAudioPacket := readAudioPacket; audio_backlog := audio_backlog; seek := seek;
  seekToSeconds := seekToSeconds; rtpOffset := rtpOffset; audioRTPOffset := audioRTPOffset;
  adjustRTPOffset := adjustRTPOffset; peekNextVideoRTPTimestamp := peekNextVideoRTPTimestamp
|}.
#[local] Existing Instance clip_source | 0.

(** Three requests; the URL of the last one has a carriage return and a line feed, not together. *)
Definition raw_requests : list text := [
  "DESCRIBE rtsp://h/clip.mp4 RTSP/1.0" ++ crlf ++ "CSeq: 2" ++ crlf ++ crlf;
  "SETUP rtsp://h/clip.mp4/trackID=0 RTSP/1.0" ++ crlf ++ "CSeq: 3" ++ crlf
  ++ "Transport: RTP/AVP/TCP;unicast;interleaved=2-3" ++ crlf ++ crlf;
  "PLAY rtsp://h" ++ [lf; "x"%char; cr] ++ "/clip.mp4 RTSP/1.0" ++ crlf ++ "CSeq: 4" ++ crlf ++ crlf
].

Definition parsed_requests : list RTSPRequest := omap parse raw_requests.

Definition queue_requests (s : session ListSource.source) : session ListSource.source :=
  foldl (fun s req => s <| cmd_queue_ := cmd_queue_ s ++ [req] |>) s parsed_requests.

Definition ticked : session ListSource.source :=
  fst (pacerTick (fun _ => example_env) 1000 (fun _ => 0)
         (queue_requests (session_make "10.0.0.7" "/srv" 4711 1 2))).

(** The socket takes all but the last ten octets. *)
Definition taken_sizes : list send_result := [Sent 100; SendIntr; Sent 5000; Sent 200; Sent 400; Sent 47; SendAgain].

Definition written : session ListSource.source * bytes :=
  let '(_, octets, e) := onWritable taken_sizes (out ticked) in (ticked <| out := e |>, octets).

Lemma queued_connection s :
  connection [] [] s -> connection parsed_requests [] (queue_requests s).
Proof.
  intros Hc. unfold queue_requests. change parsed_requests with ([] ++ parsed_requests) at 1.
  assert (forall reqs raws s, connection reqs [] s ->
    connection (reqs ++ omap parse raws) []
      (foldl (fun s req => s <| cmd_queue_ := cmd_queue_ s ++ [req] |>) s (omap parse raws))) as H.
  { intros reqs raws. revert reqs. induction raws as [|raw raws IH]; intros reqs s' Hs; cbn.
    - by rewrite app_nil_r.
    - destruct (parse raw) as [req|] eqn:E; [|by apply IH]. cbn [foldl].
      rewrite (app_cons_assoc reqs req). apply IH. by apply (conn_pushCommand reqs [] s' raw). }
  by apply H.
Qed.

Lemma written_connection : connection parsed_requests (snd written) (fst written).
Proof.
  unfold written. destruct (onWritable taken_sizes (out ticked)) as [[res octets] e] eqn:E. cbn [fst snd].
  apply (conn_onWritable parsed_requests [] ticked taken_sizes res octets e); [|done].
  apply conn_tick, queued_connection, conn_made.
Qed.

Example written_demux :
  let '(xs, rest) := demux (length (snd written)) (snd written) in
  map (fun x => match x with Response l _ b => (l, length b) | Frame _ p => ([], length p) end) xs
    = [("RTSP/1.0 200 OK" : text, 316%nat); ("RTSP/1.0 200 OK" : text, 0%nat);
       ("RTSP/1.0 200 OK" : text, 0%nat)]
  /\ length rest = 47%nat /\ length (pending (out (fst written))) = 10%nat.
Proof. vm_compute. split_and!; reflexivity. Qed.

Lemma client_recovers_stream_witness :
  exists log us, map fst log ++ cmd_queue_ (fst written) = parsed_requests
    /\ Forall entry_ok log /\ responses us = log_responses log
    /\ octets_of us = snd written ++ pending (out (fst written))
    /\ exists received later rest, us = received ++ later
       /\ demux (length (snd written)) (snd written) = (map unit_item received, rest).
Proof.
  destruct (client_recovers_stream parsed_requests (snd written) (fst written) written_connection)
    as (log & us & Hq & Hok & Hr & Hp & Hd).
  exists log, us. split; [exact Hq|]. split; [exact Hok|]. split; [exact Hr|]. split; [exact Hp|].
  destruct Hd as (received & later & rest & Hus & Hdm & _).
  - apply small_stream_fits. rewrite Hp. vm_compute. reflexivity.
  - exists received, later, rest. split; [exact Hus|exact Hdm].
Defined.
