(* ===== verification/Numbering.v ===== *)
(** * [Numbering]: the sequence numbers of the packets on a connection

    A receiver finds lost packets by the gaps in the sequence numbers of a source (RFC 3550,
    section 5.1).  Proved: over the whole life of a session, through pauses, seeks, loops and
    responses in between, the numbers of each track go up by one modulo 2^16 and none comes
    twice; a number is missing only when the outbox refused the packet, which marks the session
    for closing, or when the packet went over UDP.  Stated for what the client of [Client.v]
    recovers. *)

From S2P Require Import Prelude StdString Double RTSPRequest RTSPResponse RTPPacket RTPSender.
From S2P Require Import IMediaSource.
From S2P Require Import Egress Session SessionSpec Pacer PacerSpec Exchange Client.

(** ** Reading the numbers *)

(** The sequence number of a packet of the source [src]. *)
Definition number_from (src : Z) (pkt : bytes) : option Z :=
  match decode pkt with
  | Some p => if rtp_source p =? src then Some (rtp_sequence p) else None
  | None => None
  end.

Definition unit_number (src : Z) (u : sent_unit) : option Z :=
  match u with SentFrame _ pkt => number_from src pkt | SentResponse _ => None end.

Definition item_number (src : Z) (x : item) : option Z :=
  match x with Frame _ pkt => number_from src pkt | Response _ _ _ => None end.

Definition numbers (src : Z) (us : list sent_unit) : list Z := omap (unit_number src) us.
Definition item_numbers (src : Z) (xs : list item) : list Z := omap (item_number src) xs.

(** The numbers of the packets at the given places of a track. *)
Definition places (ks : list nat) : list Z := map (fun k => u16 (Z.of_nat k)) ks.

Lemma numbers_app src us us' : numbers src (us ++ us') = numbers src us ++ numbers src us'.
Proof. apply omap_app. Qed.

Lemma item_numbers_units src us : item_numbers src (map unit_item us) = numbers src us.
Proof.
  unfold item_numbers, numbers. induction us as [|[r|ch pkt] us IH]; [done| |]; cbn.
  - done.
  - by rewrite IH.
Qed.

Lemma number_from_build src payload pt num ts ssrc mk :
  0 <= num < 65536 -> 0 <= ssrc < 4294967296 ->
  number_from src (build payload pt num ts ssrc mk) = if ssrc =? src then Some num else None.
Proof.
  intros Hn Hs. unfold number_from, build. cbn [app decode rtp_source rtp_sequence].
  by rewrite be16_octets, be32_octets.
Qed.

(** ** The tally of a track *)

(** [num] is the number of the next packet; the packets in [us] have numbers handed out before, in
    order and none twice, and all of them when [whole]. *)
Definition tallied (src num : Z) (whole : Prop) (us : list sent_unit) : Prop :=
  exists n ks, num = u16 (Z.of_nat n) /\ numbers src us = places ks
    /\ sublist ks (seq 0 n) /\ (whole -> ks = seq 0 n).

Lemma tallied_other src num (whole whole' : Prop) us us' :
  tallied src num whole us -> (whole' -> whole) -> numbers src us' = [] ->
  tallied src num whole' (us ++ us').
Proof.
  intros (n & ks & Hn & Hu & Hk & Hw) Hi He. exists n, ks. rewrite numbers_app, He, app_nil_r.
  split_and!; auto.
Qed.

Lemma tallied_next src num (whole whole' : Prop) us us' :
  tallied src num whole us -> (whole' -> whole) ->
  numbers src us' = [num] \/ numbers src us' = [] /\ (whole' -> False) ->
  tallied src (u16 (num + 1)) whole' (us ++ us').
Proof.
  intros (n & ks & Hn & Hu & Hk & Hw) Hi He. subst num.
  assert (u16 (u16 (Z.of_nat n) + 1) = u16 (Z.of_nat (S n))) as ->.
  { unfold u16. rewrite Zplus_mod_idemp_l. f_equal. lia. }
  destruct He as [He|[He Hno]].
  - exists (S n), (ks ++ [n]). rewrite numbers_app, He, Hu, seq_S. split_and!; [done| | |].
    + unfold places. by rewrite map_app.
    + by apply sublist_app.
    + intros H'. by rewrite (Hw (Hi H')).
  - exists (S n), ks. rewrite numbers_app, He, Hu, app_nil_r, seq_S. split_and!; [done|done| |done].
    by apply sublist_inserts_r.
Qed.

(** ** What the operations of a session do to the two tallies *)

Section session.
Context {M : Type} `{IMediaSource M}.
Implicit Types s : session M.

(** [tcp]: the client asks for no transport but the connection. *)
Context (tcp : Prop).

(** No packet has been lost. *)
Definition whole s : Prop := tcp /\ close_after_write_ (out s) = false.

(** A track that is ready goes over the connection. *)
Definition wired s : Prop :=
  tcp -> transport_ready_ s = true \/ audio_transport_ready_ s = true -> use_tcp_ s = true.

Record account (us : list sent_unit) s : Prop := {
  ac_ssrc : 0 <= ssrc_ s < 4294967296;
  ac_audio_ssrc : 0 <= audio_ssrc_ s < 4294967296;
  ac_apart : ssrc_ s <> audio_ssrc_ s;
  ac_wired : wired s;
  ac_video : tallied (ssrc_ s) (rtp_seq_ s) (whole s) us;
  ac_audio : tallied (audio_ssrc_ s) (audio_rtp_seq_ s) (whole s) us
}.

Definition sources s : Z * Z := (ssrc_ s, audio_ssrc_ s).

(** Units are pushed that keep the tallies right. *)
Definition tallies s s' : Prop :=
  sources s' = sources s /\ forall us, account us s -> exists us',
    pushed us' (out s) (out s') /\ Forall unit_wf us' /\ account (us ++ us') s'.

Definition sends s s' : Prop := wiring s' = wiring s /\ tallies s s'.

Lemma tallies_trans s1 s2 s3 : tallies s1 s2 -> tallies s2 s3 -> tallies s1 s3.
Proof.
  intros [E1 A] [E2 B]. split; [congruence|]. intros us H1.
  destruct (A us H1) as (us1 & P1 & F1 & H2). destruct (B _ H2) as (us2 & P2 & F2 & H3).
  exists (us1 ++ us2). split; [by eapply pushed_app|]. split; [by apply Forall_app|].
  by rewrite app_assoc.
Qed.

Lemma account_labels us us' s s' :
  account us s -> labels s' = labels s -> wired s' -> (whole s' -> whole s) ->
  (forall src, numbers src us' = []) -> account (us ++ us') s'.
Proof.
  intros [A1 A2 A3 A4 A5 A6] [= E1 E2 E3 E4] Hr Hw Hn.
  constructor; rewrite ?E1, ?E2, ?E3, ?E4; try done; by eapply tallied_other.
Qed.

Lemma wired_same s s' : wiring s' = wiring s -> wired s -> wired s'.
Proof. intros [= E1 E2 E3]. unfold wired. by rewrite E1, E2, E3. Qed.

Lemma whole_same s s' : out s' = out s -> whole s' -> whole s.
Proof. intros Ho. unfold whole. by rewrite Ho. Qed.

Lemma sends_quiet s s' : outward s' = outward s -> sends s s'.
Proof.
  intros Hs. pose proof (f_equal snd Hs) as Hl. pose proof (f_equal (fun o => snd (fst o)) Hs) as Hw.
  pose proof (f_equal (fun o => snd (fst (fst o))) Hs) as Ho. cbn in Hl, Hw, Ho.
  split; [done|]. split; [by injection Hl; unfold sources; intros -> _ -> _|].
  intros us Ha. exists []. split; [rewrite Ho; apply pushed_nil|]. split; [done|].
  apply (account_labels us [] s s'); try done; [by eapply wired_same, ac_wired|by apply whole_same].
Qed.

Lemma sends_trans s1 s2 s3 : sends s1 s2 -> sends s2 s3 -> sends s1 s3.
Proof. intros [W1 T1] [W2 T2]. split; [congruence|by eapply tallies_trans]. Qed.

(** One packet handed to the transport: on the connection as one frame, or lost. *)
Definition offered ch pkt s s' : Prop :=
  (whole s' -> whole s) /\ exists us', pushed us' (out s) (out s') /\ Forall unit_wf us'
    /\ (us' = [SentFrame ch pkt] \/ us' = [] /\ (whole s' -> False)).

Lemma pushTCPFrame_offered ch pkt s s' :
  out s' = pushTCPFrame ch pkt (out s) -> offered ch pkt s s'.
Proof.
  unfold offered, whole. intros ->. unfold pushTCPFrame. destruct (_ <? _).
  - split; [by intros []|]. exists []. split; [|split; [done|right; split; [done|by intros []]]].
    unfold pushed. cbn. by rewrite app_nil_r.
  - split.
    + intros [Ht Hc]. split; [done|]. unfold push_buffer, enableWrite in Hc. simpl_update_in Hc.
      by destruct (epollout_armed_ (out s)).
    + exists [SentFrame ch pkt]. split; [apply (push_buffer_pushed (SentFrame ch pkt))|].
      split; [by repeat constructor|by left].
Qed.

Lemma udp_offered ch pkt s s' :
  out s' = out s -> (tcp -> False) -> offered ch pkt s s'.
Proof.
  intros Ho Ht. split; [by apply whole_same|]. exists []. split; [rewrite Ho; apply pushed_nil|].
  split; [done|]. right. split; [done|]. by intros [].
Qed.

Lemma tallied_range src num w us : tallied src num w us -> 0 <= num < 65536.
Proof. intros (n & _ & -> & _). apply u16_range. Qed.

(** The packet is the next one of the track [src], and another source's for every other. *)
Lemma frame_numbers ch payload pt num ts ssrc mk src :
  0 <= num < 65536 -> 0 <= ssrc < 4294967296 ->
  numbers src [SentFrame ch (build payload pt num ts ssrc mk)] = if ssrc =? src then [num] else [].
Proof.
  intros Hn Hs. unfold numbers. cbn [omap list_omap unit_number]. rewrite number_from_build by done. by destruct (ssrc =? src).
Qed.

Lemma sendVideoRTP_sends sent p ts mk s :
  transport_ready_ s = true -> sends s (sendVideoRTP sent p ts mk s).
Proof.
  intros Hr. set (s' := sendVideoRTP sent p ts mk s).
  assert (wiring s' = wiring s /\ labels s' = (u16 (rtp_seq_ s + 1), ssrc_ s, audio_rtp_seq_ s, audio_ssrc_ s))
    as [Hw [= E1 E2 E3 E4]].
  { unfold s', sendVideoRTP, send_udp. simpl_update. destruct (use_tcp_ s); [done|].
    by destruct (rtp_sender_ s). }
  split; [done|]. split; [unfold sources; congruence|]. intros us [A1 A2 A3 A4 A5 A6].
  assert (offered (rtp_channel_ s) (build p (u8 (payload_type_ s)) (rtp_seq_ s) ts (ssrc_ s) mk) s s')
    as (Hi & us' & Hp & Hf & Hu).
  { destruct (use_tcp_ s) eqn:Ht.
    - apply pushTCPFrame_offered. unfold s', sendVideoRTP. simpl_update. by rewrite Ht.
    - apply udp_offered.
      + unfold s', sendVideoRTP, send_udp. simpl_update. rewrite Ht. by destruct (rtp_sender_ s).
      + intros Hx. rewrite (A4 Hx (or_introl Hr)) in Ht. done. }
  exists us'. split; [done|]. split; [done|].
  pose proof (tallied_range _ _ _ _ A5) as Hn.
  constructor; rewrite ?E1, ?E2, ?E3, ?E4; try done; [by eapply wired_same| |].
  - eapply tallied_next; [done..|]. destruct Hu as [-> | [-> Hno]]; [left|by right].
    by rewrite frame_numbers, Z.eqb_refl.
  - eapply tallied_other; [done..|]. destruct Hu as [-> | [-> Hno]]; [|done].
    by rewrite frame_numbers, (proj2 (Z.eqb_neq _ _)).
Qed.

Lemma sendOneAudio_sends sent ap s :
  audio_transport_ready_ s = true -> sends s (sendOneAudio sent ap s).
Proof.
  intros Hr. destruct (bool_decide (data ap = [])) eqn:Ed.
  { unfold sendOneAudio. rewrite Ed. by apply sends_quiet. }
  set (s' := sendOneAudio sent ap s).
  assert (wiring s' = wiring s /\ labels s' = (rtp_seq_ s, ssrc_ s, u16 (audio_rtp_seq_ s + 1), audio_ssrc_ s))
    as [Hw [= E1 E2 E3 E4]].
  { unfold s', sendOneAudio, sendAudioRTP, send_udp. rewrite Ed. simpl_update.
    destruct (use_tcp_ s); [done|]. by destruct (audio_rtp_sender_ s). }
  split; [done|]. split; [unfold sources; congruence|]. intros us [A1 A2 A3 A4 A5 A6].
  assert (offered (audio_rtp_channel_ s) (build (au_packet (data ap)) (u8 (audio_payload_type_ s))
    (audio_rtp_seq_ s) (ap_rtp_timestamp ap) (audio_ssrc_ s) true) s s') as (Hi & us' & Hp & Hf & Hu).
  { destruct (use_tcp_ s) eqn:Ht.
    - apply pushTCPFrame_offered. unfold s', sendOneAudio, sendAudioRTP. rewrite Ed. simpl_update.
      by rewrite Ht.
    - apply udp_offered.
      + unfold s', sendOneAudio, sendAudioRTP, send_udp. rewrite Ed. simpl_update. rewrite Ht.
        by destruct (audio_rtp_sender_ s).
      + intros Hx. rewrite (A4 Hx (or_intror Hr)) in Ht. done. }
  exists us'. split; [done|]. split; [done|].
  pose proof (tallied_range _ _ _ _ A6) as Hn.
  constructor; rewrite ?E1, ?E2, ?E3, ?E4; try done; [by eapply wired_same| |].
  - eapply tallied_other; [done..|]. destruct Hu as [-> | [-> Hno]]; [|done].
    by rewrite frame_numbers, (proj2 (Z.eqb_neq _ _)).
  - eapply tallied_next; [done..|]. destruct Hu as [-> | [-> Hno]]; [left|by right].
    by rewrite frame_numbers, Z.eqb_refl.
Qed.

Lemma sends_tick : tick_relation sends.
Proof.
  split; [apply sends_quiet|apply sends_trans|apply sendVideoRTP_sends|apply sendOneAudio_sends].
Qed.

(** ** The requests *)

(** A SETUP that asks for the connection as its transport. *)
Definition over_connection (req : RTSPRequest) : Prop :=
  method req = "SETUP" ->
  contains "RTP/AVP/TCP" (header req "transport") || contains "interleaved" (header req "transport")
    = true.

(** What a handler does to the numbers: nothing; and a track that it makes ready is wired. *)
Definition renumbers_not req s s' : Prop :=
  labels s' = labels s /\ ((tcp -> over_connection req) -> wired s -> wired s').

Lemma same_wiring req s s' : labels s' = labels s -> wiring s' = wiring s -> renumbers_not req s s'.
Proof. intros Hl Hw. split; [done|]. intros _. by apply wired_same. Qed.

Lemma parse_interleaved_use hdr (f g : Z -> session M -> session M) s :
  (forall a s, use_tcp_ (f a s) = use_tcp_ s) -> (forall a s, use_tcp_ (g a s) = use_tcp_ s) ->
  use_tcp_ (fst (parse_interleaved hdr f g s)) = use_tcp_ s.
Proof.
  intros Hf Hg. unfold parse_interleaved, SE_bind, SE_lift, SE_modify, SE_ret.
  destruct (find "interleaved=" hdr); [|done]. destruct (find_from "-" hdr _); [|done].
  destruct (stoi _); [|done]. cbn beta iota. destruct (stoi (substr_from _ _)); cbn; by rewrite ?Hg, ?Hf.
Qed.

Lemma setup_tcp_use b hdr s : use_tcp_ (fst (setup_tcp b hdr s)) = true.
Proof.
  unfold setup_tcp, SE_bind at 1, SE_modify at 1. cbn beta iota.
  destruct b; unfold SE_bind at 1;
    match goal with |- context [parse_interleaved hdr ?f ?g ?s0] =>
      pose proof (parse_interleaved_use hdr f g s0 ltac:(done) ltac:(done)) as P;
      destruct (parse_interleaved hdr f g s0) as [s1 [[]|x]] end; exact P.
Qed.

Lemma setup_labels s s' : setup_core s' = setup_core s -> labels s' = labels s.
Proof. intros E. exact (f_equal labels E). Qed.

Lemma handleSetup_numbers e req s :
  method req = "SETUP" -> renumbers_not req s (fst (handleSetup e req s)).
Proof.
  intros Em. unfold handleSetup. unfold SE_bind at 1, SE_get at 1. cbn beta iota.
  destruct (_ || _); [by apply same_wiring|]. case_bool_decide; [by apply same_wiring|].
  set (audio := contains "trackID=1" (url req)). set (hdr := header req "transport").
  unfold SE_bind at 1. destruct (_ || _) eqn:Ec.
  - unfold SE_bind at 1. pose proof (setup_tcp_spec audio hdr s) as P.
    pose proof (setup_tcp_use audio hdr s) as U.
    destruct (setup_tcp audio hdr s) as [s1 [t|x]]; destruct P as (Hc & _); cbn [fst] in U.
    + split; [rewrite <- (setup_labels _ _ Hc); by destruct audio|].
      intros _ _ _ _. by destruct audio.
    + split; [by apply setup_labels|]. by intros _ _ _ _.
  - pose proof (setup_udp_spec e (cseq req) audio hdr s) as P.
    destruct (setup_udp e (cseq req) audio hdr s) as [s1 r]; destruct P as (Hc & _).
    assert (forall s2, labels s2 = labels s1 -> renumbers_not req s s2) as Hdone.
    { intros s2 Hl. split; [rewrite Hl; by apply setup_labels|]. intros Hx _ Ht.
      specialize (Hx Ht Em). fold hdr in Hx. by rewrite Ec in Hx. }
    destruct r as [[t|]|x]; apply Hdone; [by destruct audio|done|done].
Qed.

Lemma seekAndReset_marks d b s :
  labels (seekAndReset d b s) = labels s /\ wiring (seekAndReset d b s) = wiring s.
Proof. unfold seekAndReset. destruct (media_source_ s); [|done]. by destruct (seekToSeconds _ _). Qed.

Lemma peek_rtptime_marks s :
  labels (snd (peek_rtptime s)) = labels s /\ wiring (snd (peek_rtptime s)) = wiring s.
Proof. unfold peek_rtptime. destruct (media_source_ s); [|done]. by destruct (peekNextVideoRTPTimestamp _). Qed.

Lemma handlePlay_numbers e req s : renumbers_not req s (fst (handlePlay e req s)).
Proof.
  unfold handlePlay, SE_get. unfold SE_bind at 1. cbn beta iota.
  case_decide; [by apply same_wiring|]. destruct (parse_range (header req "range")) as [[ns ne] hr].
  set (c := if bool_decide (state_ s = PAUSED) then _ else _).
  assert (labels (fst (fst c)) = labels s /\ wiring (fst (fst c)) = wiring s) as [Hl Hw].
  { unfold c. case_bool_decide.
    - unfold play_resume. cbn [fst]. by destruct (pause_start_ s =? 0), (first_frame_ s).
    - destruct (negb _); [apply seekAndReset_marks|]. unfold play_seek. set (d := if hr then ns else dzero).
      destruct (seekAndReset_marks d false s) as [A B].
      pose proof (peek_rtptime_marks (reset_pacing ne (seekAndReset d false s))) as [C D].
      destruct (peek_rtptime _) as [t s1]. cbn [fst snd] in *. by rewrite C, D. }
  destruct c as [[s1 rg] ri]. by apply same_wiring.
Qed.

Lemma openMedia_marks e u c s :
  labels (fst (openMedia e u c s)) = labels s /\ wiring (fst (openMedia e u c s)) = wiring s.
Proof.
  pose proof (openMedia_spec e u c s) as P. destruct (openMedia e u c s) as [s' [[]|x]]; cbn [fst].
  1,2: destruct P as [Hc _]; split; [exact (f_equal labels Hc)|exact (f_equal wiring Hc)].
  by subst.
Qed.

Lemma handleRequest_numbers e req s : renumbers_not req s (fst (handleRequest e req s)).
Proof.
  unfold handleRequest. repeat case_decide; [by apply same_wiring| | | | |by apply same_wiring..].
  - unfold handleDescribe, SE_bind, SE_modify. cbn beta iota. set (s0 := s <| media_source_ := None |>).
    pose proof (openMedia_marks e (url req) (cseq req) s0) as [A B].
    destruct (openMedia e (url req) (cseq req) s0) as [s1 [[]|x]]; cbn [fst] in A, B;
      [|by apply same_wiring..]. unfold SE_get. destruct (media_source_ s1); by apply same_wiring.
  - by apply handleSetup_numbers.
  - apply handlePlay_numbers.
  - unfold handlePause, SE_get. unfold SE_bind at 1. cbn beta iota.
    case_bool_decide; cbn [negb]; by apply same_wiring.
Qed.

(** ** The tick *)

Lemma response_numbers src rs : numbers src (map SentResponse rs) = [].
Proof. by induction rs. Qed.

(** What holds of the commands in the queue. *)
Definition well_asked (req : RTSPRequest) : Prop :=
  one_line (url req) /\ (tcp -> over_connection req).

(** For a session with a proper name whose requests are well asked. *)
Definition answers_and_sends s s' : Prop :=
  named s' /\ Forall well_asked (cmd_queue_ s') /\ tallies s s'.

Lemma answers_then_sends s1 s2 s3 :
  answers_and_sends s1 s2 -> sends s2 s3 -> keeps s2 s3 -> answers_and_sends s1 s3.
Proof.
  intros (Hn & Hq & A) [_ B] [Ks Kq]. split; [unfold named; by rewrite Ks|]. split; [by rewrite Kq|].
  by eapply tallies_trans.
Qed.

Lemma closing_open m (e : egress) :
  close_after_write_ (closing m e) = false -> close_after_write_ e = false.
Proof. unfold closing. by case_decide. Qed.

Lemma request_sends e req cmds s :
  cmd_queue_ s = req :: cmds -> Forall well_asked (req :: cmds) -> named s ->
  let s1 := fst (handleRequest e req (s <| cmd_queue_ := cmds |>)) in
  cmd_queue_ s1 = cmds /\ answers_and_sends s s1.
Proof.
  intros Hq Hw Hn s1. apply Forall_cons in Hw as [[Hl Ho] Hw]. set (s0 := s <| cmd_queue_ := cmds |>) in s1.
  pose proof (handleRequest_conforms e req s0) as P.
  pose proof (handleRequest_numbers e req s0) as [Hb Hr]. fold s1 in Hb, Hr.
  assert (keeps s0 s1 /\ exists rs, Forall well_framed rs /\ pushed (map SentResponse rs) (out s) (out s1)
    /\ (close_after_write_ (out s1) = false -> close_after_write_ (out s) = false))
    as ([Ks Kq] & rs & Hf & Hp & Hc).
  { unfold s1. destruct (handleRequest e req s0) as [s2 [[]|x]]; destruct P as [K P]; (split; [done|]).
    - destruct P as (resp & _ & _ & Hwf & E). exists [resp]. cbn [fst]. rewrite E.
      split; [by repeat constructor; apply Hwf|]. split; [apply closing_pushed, sendResponse_pushed|].
      intros Hc. apply closing_open in Hc.
      by rewrite (proj2 (proj2 (sendResponse_effect resp (out s0)))) in Hc.
    - destruct P as [E _]. exists []. cbn [fst]. rewrite E. split; [done|]. split; [apply pushed_nil|done]. }
  split; [exact Kq|]. split; [unfold named; by rewrite Ks|]. split; [by rewrite Kq|].
  split; [by injection Hb; unfold sources; intros -> _ -> _|]. intros us Ha. exists (map SentResponse rs). split; [done|]. split; [by apply Forall_map|].
  apply (account_labels us _ s s1 Ha Hb); [|intros [? ?]; split; auto|intros; apply response_numbers].
  by apply Hr, (ac_wired us s).
Qed.

Lemma drain_sends envs cmds : forall i s,
  cmd_queue_ s = cmds -> Forall well_asked cmds -> named s ->
  answers_and_sends s (fst (drain_commands envs i cmds s)).
Proof.
  induction cmds as [|req cmds IH]; intros i s Hq Hw Hn; cbn [drain_commands].
  { split; [done|]. cbn [fst SE_ret]. rewrite Hq. split; [done|]. by apply sends_quiet. }
  unfold SE_bind at 1, SE_modify at 1. cbn beta iota. unfold SE_bind at 1.
  destruct (request_sends (envs i) req cmds s Hq Hw Hn) as [Hq1 (Hn1 & Hw1 & Ha)].
  destruct (handleRequest (envs i) req _) as [s1 [[]|x]]; cbn [fst] in *; [|done].
  case_decide; [done|]. rewrite Hq1 in Hw1. destruct (IH (S i) s1 Hq1 Hw1 Hn1) as (Hn2 & Hw2 & Hb).
  split; [done|]. split; [done|]. by eapply tallies_trans.
Qed.

Lemma pacerTick_sends envs now sent s :
  Forall well_asked (cmd_queue_ s) -> named s -> answers_and_sends s (fst (pacerTick envs now sent s)).
Proof.
  intros Hw Hn. unfold pacerTick, SE_bind, SE_get. cbn beta iota.
  pose proof (drain_sends envs (cmd_queue_ s) 0 s eq_refl Hw Hn) as Hd.
  destruct (drain_commands envs 0 (cmd_queue_ s) s) as [s1 [[]|x]]; cbn [fst] in *; try done.
  eapply answers_then_sends; [exact Hd|apply (media_tick_goes sends sends_tick)|].
  apply (media_tick_goes streams streams_tick).
Qed.

(** ** The life of a connection *)

Lemma onWritable_closing results : forall e,
  close_after_write_ (snd (onWritable results e)) = close_after_write_ e.
Proof.
  assert (forall e e', refill e = Some e' -> close_after_write_ e' = close_after_write_ e) as Hr.
  { intros e e'. unfold refill. destruct (wbuf_ e); [by intros [= <-]|].
    destruct (Queues.NonBlockingQueue.try_pop _) as [[buf|] q]; [by intros [= <-]|done]. }
  induction results as [|r results IH]; intros e; cbn [onWritable];
    (destruct (refill e) as [e1|] eqn:Er; [apply Hr in Er as <-|done]); destruct (wbuf_ e1) as [b|]; try done.
  destruct r as [n| | | |]; try done.
  specialize (IH (advance n b e1)). destruct (onWritable results (advance n b e1)) as [[res o] e2].
  cbn [snd] in *. rewrite IH. unfold advance. cbv zeta. by case_if.
Qed.

(** What the Dispatcher writes was tallied when it was pushed. *)
Lemma account_written us s results :
  account us s -> account us (s <| out := snd (onWritable results (out s)) |>).
Proof.
  intros Ha. rewrite <- (app_nil_r us).
  apply (account_labels us [] s); [done|done|exact (ac_wired us s Ha)| |done].
  intros [Ht Hc]. split; [done|]. simpl_update_in Hc. by rewrite onWritable_closing in Hc.
Qed.

Lemma connection_account reqs octets s :
  connection reqs octets s -> (tcp -> Forall over_connection reqs) ->
  named s /\ Forall well_asked (cmd_queue_ s)
  /\ (ssrc_ s <> audio_ssrc_ s -> exists us,
        Forall unit_wf us /\ octets_of us = octets ++ pending (out s) /\ account us s).
Proof.
  induction 1 as [ip root n rng_ssrc rng_audio|reqs octets s raw req _ IH Hreq|reqs octets s envs now sent _ IH
    |reqs octets s results res written e _ IH Ho]; intros Ht.
  - split; [by exists (u64 n)|]. split; [done|]. intros Hne. exists []. split; [done|]. split; [done|].
    constructor; cbn; try apply u32_range; [done|by intros _ [|]|..];
      exists 0%nat, []; by split_and!; [..|constructor|].
  - destruct IH as (Hn & Hq & IH); [intros Hx; by apply Ht, Forall_app in Hx as [? _]|].
    split; [done|]. split.
    + apply Forall_app. split; [done|]. constructor; [|done]. split; [by apply parse_one_line in Hreq as [_ ?]|].
      intros Hx. apply Ht, Forall_app in Hx as [_ Hx]. by apply Forall_cons in Hx as [? _].
    + intros Hne. destruct (IH Hne) as (us & Hw & Hp & []). exists us. split; [done|]. split; [done|].
      by constructor.
  - destruct (IH Ht) as (Hn & Hq & IH').
    destruct (pacerTick_sends envs now sent s Hq Hn) as (Hn' & Hq' & [= E1 E2] & Hs).
    split; [done|]. split; [done|]. rewrite E1, E2. intros Hne. destruct (IH' Hne) as (us & Hw & Hp & Ha).
    destruct (Hs us Ha) as (us' & Hp' & Hw' & Ha'). exists (us ++ us'). split; [by apply Forall_app|].
    split; [|done]. rewrite (pushed_pending us' _ _ Hp'). unfold octets_of in *.
    by rewrite map_app, concat_app, Hp, app_assoc.
  - destruct (IH Ht) as (Hn & Hq & IH'). split; [done|]. split; [done|]. intros Hne.
    destruct (IH' Hne) as (us & Hw & Hp & Ha). exists us. split; [done|]. split.
    + pose proof (onWritable_order results (out s)) as Hw'. rewrite Ho in Hw'. simpl_update.
      by rewrite <- app_assoc, Hw'.
    + pose proof (account_written us s results Ha) as Ha'. by rewrite Ho in Ha'.
Qed.
End session.

(** The two tracks of a session, each with the number of its next packet. *)
Definition track_numbers {M} (s : session M) (src num : Z) : Prop :=
  (src, num) = (ssrc_ s, rtp_seq_ s) \/ (src, num) = (audio_ssrc_ s, audio_rtp_seq_ s).

Lemma account_track {M} tcp us (s : session M) src num :
  account tcp us s -> track_numbers s src num -> tallied src num (whole tcp s) us.
Proof. by intros Ha [[= -> ->]|[= -> ->]]; destruct Ha. Qed.

Lemma places_cut ks l l' :
  places ks = l ++ l' -> exists seen later, ks = seen ++ later /\ l = places seen /\ length later = length l'.
Proof.
  intros E. exists (take (length l) ks), (drop (length l) ks). rewrite take_drop. split; [done|].
  unfold places in *. rewrite <- firstn_map, E, take_app_length. split; [done|].
  apply (f_equal length) in E. rewrite length_map, length_app in E. rewrite length_drop. lia.
Qed.

(** C6: The sequence numbers of a track on the connection, over the life of a session.  Whatever
    the client asks and the ticks do, and however the socket cuts the stream: what was written and
    what is pending are whole units, and the packets of either source among them carry numbers
    that the session handed out from 0 on, modulo 2^16, in order and each at most once; the
    session's counter is the number of the next packet.  No number is missing while the outbox has
    never refused a packet and the session was not torn down, when every SETUP of the client asked
    for the connection: pauses, seeks, loops over the file and responses leave no gap.  A client
    that reads the stream so far sees the first of these numbers, and all of them when nothing
    is pending. *)
Theorem numbering_unbroken {M} `{IMediaSource M} reqs octets (s : session M) :
  connection reqs octets s -> ssrc_ s <> audio_ssrc_ s ->
  exists us, octets_of us = octets ++ pending (out s)
    /\ forall src num, track_numbers s src num -> exists n ks,
         num = u16 (Z.of_nat n) /\ numbers src us = places ks /\ sublist ks (seq 0 n)
         /\ (Forall over_connection reqs -> close_after_write_ (out s) = false -> ks = seq 0 n)
         /\ (Forall unit_fits us -> exists seen later, ks = seen ++ later
             /\ item_numbers src (fst (demux (length octets) octets)) = places seen
             /\ (pending (out s) = [] -> later = [])).
Proof.
  intros Hc Hne.
  destruct (connection_account (Forall over_connection reqs) reqs octets s Hc (fun x => x))
    as (_ & _ & Ha). destruct (Ha Hne) as (us & Hw & Hp & Hacc). clear Ha.
  exists us. split; [done|]. intros src num Ht.
  destruct (account_track _ us s src num Hacc Ht) as (n & ks & Hn & Hu & Hk & Hall).
  exists n, ks. split; [done|]. split; [done|]. split; [done|]. split; [intros; by apply Hall|].
  intros Hf. assert (Forall unit_ok us) as Hok.
  { rewrite Forall_forall in Hw, Hf. apply Forall_forall. intros u Hu'. split; auto. }
  destruct (demux_prefix us octets (pending (out s)) Hok Hp) as (us1 & us2 & p & -> & -> & Hend).
  rewrite numbers_app in Hu. symmetry in Hu.
  destruct (places_cut ks _ _ Hu) as (seen & later & -> & Hs & Hl).
  exists seen, later. split; [done|]. cbn [fst]. rewrite item_numbers_units. split; [done|].
  intros Hz. apply Hend in Hz as [-> _]. by destruct later.
Qed.

Import ListSource.
#[local] Existing Instance clip_source | 0.

(** The run of [Client.v], three requests and a tick with one frame, until all is written. *)
Definition finished : session ListSource.source * bytes :=
  let '(_, octets, e) := onWritable [Sent 4; SendIntr; Sent 6] (out (fst written)) in
  ((fst written) <| out := e |>, snd written ++ octets).

Lemma finished_connection : connection parsed_requests (snd finished) (fst finished).
Proof.
  unfold finished. destruct (onWritable _ (out (fst written))) as [[res octets] e] eqn:E. cbn [fst snd].
  exact (conn_onWritable parsed_requests _ _ _ res octets e written_connection E).
Qed.

Example finished_numbers :
  let xs := fst (demux (length (snd finished)) (snd finished)) in
  pending (out (fst finished)) = [] /\ length xs = 4%nat
  /\ item_numbers 1 xs = [0] /\ item_numbers 2 xs = [] /\ rtp_seq_ (fst finished) = 1.
Proof. vm_compute. split_and!; reflexivity. Qed.

Lemma numbering_unbroken_witness :
  exists us n, octets_of us = snd finished ++ pending (out (fst finished))
    /\ rtp_seq_ (fst finished) = u16 (Z.of_nat n) /\ numbers 1 us = places (seq 0 n)
    /\ item_numbers 1 (fst (demux (length (snd finished)) (snd finished))) = places (seq 0 n).
Proof.
  destruct (numbering_unbroken parsed_requests (snd finished) (fst finished) finished_connection)
    as (us & Hp & Ht); [vm_compute; discriminate|].
  destruct (Ht 1 (rtp_seq_ (fst finished))) as (n & ks & Hn & Hu & _ & Hall & Hd);
    [left; vm_compute; reflexivity|].
  assert (ks = seq 0 n) as -> by
    (apply Hall; [vm_compute; repeat constructor; discriminate|vm_compute; reflexivity]).
  destruct Hd as (seen & later & Hk & Hi & Hz).
  { apply small_stream_fits. rewrite Hp. vm_compute. reflexivity. }
  exists us, n. split; [exact Hp|]. split; [exact Hn|]. split; [exact Hu|].
  rewrite Hi, Hk, Hz, app_nil_r by (vm_compute; reflexivity). reflexivity.
Defined.
