(* ===== verification/FrameRate.v ===== *)
(** * [FrameRate]: how many video frames leave a session
    (src/server/RTSPSession.cpp: [pacerTick]; src/server/Reactor.cpp: the 30 ms timer)

    What leaves is counted where a receiver counts it: the packets of the video source that have
    the marker bit, which ends an access unit (RFC 6184), on the connection and in the datagrams
    together.  Proved: a tick, with all the requests it answers, ends at most one frame; so the
    time between the ticks bounds the frame rate. *)

From S2P Require Import Prelude StdString Double RTSPRequest RTSPResponse SDPBuilder RTPPacket.
From S2P Require Import H264Packetizer RTPSender IMediaSource Egress Session SessionSpec Pacer.
From S2P Require Import PacerSpec Client Numbering.

(** ** Counting the ends of frames *)

(** The packet in a buffer of the outbox, if it is an interleaved frame. *)
Definition framed_packet (buf : bytes) : option bytes :=
  match buf with
  | c :: _ :: _ :: _ :: pkt => if c =? byte_of_char "$" then Some pkt else None
  | _ => None
  end.

Definition datagram (a : io) : option bytes :=
  match a with Datagram _ pkt => Some pkt | _ => None end.

(** The last packet of an access unit of the source [src]. *)
Definition ends_frame (src : Z) (pkt : bytes) : bool :=
  match decode pkt with
  | Some p => rtp_marker p && (rtp_source p =? src)
  | None => false
  end.

Definition frame_ends (src : Z) (pkts : list bytes) : nat :=
  length (filter (fun pkt => ends_frame src pkt = true) pkts).

Lemma frame_ends_app src a b : frame_ends src (a ++ b) = (frame_ends src a + frame_ends src b)%nat.
Proof. unfold frame_ends. by rewrite filter_app, length_app. Qed.

Lemma build_ends_frame src payload pt num ts ssrc mk :
  0 <= ssrc < 4294967296 ->
  ends_frame src (build payload pt num ts ssrc mk) = mk && (ssrc =? src).
Proof.
  intros Hs. unfold ends_frame, build. cbn [app decode rtp_marker rtp_source].
  rewrite be32_octets by done. f_equal.
  assert (Z.land pt 127 = pt mod 128) as -> by apply (Z.land_ones pt 7 ltac:(lia)).
  assert (0 <= pt mod 128 < 128) as Hp by (apply Z.mod_pos_bound; lia).
  destruct (marker_octet mk (pt mod 128) Hp) as [Hm _].
  replace (Z.land (pt mod 128) 127) with (pt mod 128) in Hm; [exact Hm|].
  symmetry. rewrite (Z.land_ones _ 7) by lia. by apply Z.mod_small.
Qed.

(** ** What an operation puts out *)

Section session.
Context {M : Type} `{IMediaSource M}.
Implicit Types s : session M.

(** The two sources of a session, told apart. *)
Record apart s : Prop := {
  ap_video : 0 <= ssrc_ s < 4294967296;
  ap_audio : 0 <= audio_ssrc_ s < 4294967296;
  ap_differ : ssrc_ s <> audio_ssrc_ s
}.

Lemma apart_same s s' : sources s' = sources s -> apart s -> apart s'.
Proof. intros [= E1 E2] [A B C]. by constructor; rewrite ?E1, ?E2. Qed.

(** The packets pushed and sent between two states of one session. *)
Definition new_packets s s' : list bytes :=
  omap framed_packet (drop (length (outbox_ (out s))) (outbox_ (out s')))
  ++ omap datagram (drop (length (udp_io s)) (udp_io s')).

(** At most [k] frames of the video source are ended. *)
Definition puts (k : nat) s s' : Prop :=
  sources s' = sources s /\ exists bufs acts,
    outbox_ (out s') = outbox_ (out s) ++ bufs /\ udp_io s' = udp_io s ++ acts
    /\ (frame_ends (ssrc_ s) (omap framed_packet bufs)
        + frame_ends (ssrc_ s) (omap datagram acts) <= k)%nat.

Lemma puts_new_packets k s s' : puts k s s' -> (frame_ends (ssrc_ s) (new_packets s s') <= k)%nat.
Proof.
  intros (_ & bufs & acts & Hb & Ha & Hk). unfold new_packets.
  by rewrite Hb, Ha, !drop_app_length, frame_ends_app.
Qed.

Lemma puts_nothing s s' :
  sources s' = sources s -> outbox_ (out s') = outbox_ (out s) -> udp_io s' = udp_io s ->
  puts 0 s s'.
Proof.
  intros Hs Ho Hu. split; [done|]. exists [], []. rewrite !app_nil_r. by split_and!.
Qed.

Lemma puts_trans j k s1 s2 s3 : puts j s1 s2 -> puts k s2 s3 -> puts (j + k) s1 s3.
Proof.
  intros (S1 & b1 & a1 & B1 & A1 & H1) (S2 & b2 & a2 & B2 & A2 & H2).
  split; [congruence|]. exists (b1 ++ b2), (a1 ++ a2).
  rewrite B2, A2, B1, A1, !app_assoc, !omap_app, !frame_ends_app.
  injection S1 as E _. rewrite E in H2. split_and!; [done|done|lia].
Qed.

Lemma puts_le j k s s' : puts j s s' -> (j <= k)%nat -> puts k s s'.
Proof. intros (S1 & b & a & B & A & H1) Hl. split; [done|]. exists b, a. split_and!; [done|done|lia]. Qed.

(** One packet, whichever way it goes. *)
Lemma send_datagram k pkt r :
  snd (RTPSender.send k [] pkt r) = [] \/ exists fd, snd (RTPSender.send k [] pkt r) = [Datagram fd pkt].
Proof.
  unfold RTPSender.send, sendUDP, sendTCPInterleaved.
  destruct (negb (ready_ r)); [by left|]. case_decide.
  - destruct (k <? 0); [by left|right]. by eexists.
  - left. destruct (65535 <? _); [done|]. cbn [sendmsg_loop]. by destruct (0 <? _).
Qed.

Lemma pushTCPFrame_outbox ch pkt (e : egress) :
  outbox_ (pushTCPFrame ch pkt e) = outbox_ e
  \/ outbox_ (pushTCPFrame ch pkt e) = outbox_ e ++ [tcp_frame ch pkt].
Proof.
  unfold pushTCPFrame. destruct (_ <? _); [by left|right].
  unfold push_buffer, enableWrite. simpl_update. by destruct (epollout_armed_ e).
Qed.

Lemma packet_puts ch pkt sent sender s s' k :
  sources s' = sources s ->
  out s' = (if use_tcp_ s then pushTCPFrame ch pkt (out s) else out s) ->
  udp_io s' = udp_io s ++ (if use_tcp_ s then [] else
    match sender with None => [] | Some r => snd (RTPSender.send (sent pkt) [] pkt r) end) ->
  (Nat.b2n (ends_frame (ssrc_ s) pkt) <= k)%nat -> puts k s s'.
Proof.
  intros Hs Ho Hu Hk. split; [done|].
  assert (frame_ends (ssrc_ s) [pkt] = Nat.b2n (ends_frame (ssrc_ s) pkt)) as E1.
  { unfold frame_ends. rewrite filter_cons. by destruct (ends_frame _ pkt). }
  rewrite Ho, Hu. destruct (use_tcp_ s).
  - destruct (pushTCPFrame_outbox ch pkt (out s)) as [->| ->].
    + exists [], []. rewrite !app_nil_r. split_and!; [done|done|cbn; lia].
    + exists [tcp_frame ch pkt], []. split; [done|]. split; [done|].
      change (omap framed_packet [tcp_frame ch pkt]) with [pkt]. rewrite E1. cbn. lia.
  - exists []. destruct sender as [r|]; [destruct (send_datagram (sent pkt) pkt r) as [->|[fd ->]]|];
      eexists; (split; [by rewrite app_nil_r|]); (split; [reflexivity|]); [cbn; lia| |cbn; lia].
    change (omap datagram [Datagram fd pkt]) with [pkt]. rewrite E1. cbn. lia.
Qed.

Lemma sendVideoRTP_puts sent p ts mk s :
  apart s -> puts (Nat.b2n mk) s (sendVideoRTP sent p ts mk s).
Proof.
  intros Ha. set (pkt := build p (u8 (payload_type_ s)) (rtp_seq_ s) ts (ssrc_ s) mk).
  apply (packet_puts (rtp_channel_ s) pkt sent (rtp_sender_ s));
    unfold sendVideoRTP, send_udp, sources; simpl_update; fold pkt.
  - destruct (use_tcp_ s); [done|]. by destruct (rtp_sender_ s).
  - destruct (use_tcp_ s); [done|]. by destruct (rtp_sender_ s).
  - destruct (use_tcp_ s); [simpl_update; by rewrite app_nil_r|].
    destruct (rtp_sender_ s); simpl_update; [done|by rewrite app_nil_r].
  - unfold pkt. rewrite build_ends_frame, Z.eqb_refl, andb_true_r by apply Ha. done.
Qed.

Lemma sendOneAudio_puts sent ap s : apart s -> puts 0 s (sendOneAudio sent ap s).
Proof.
  intros Ha. unfold sendOneAudio. case_bool_decide; [by apply puts_nothing|]. cbv zeta.
  set (pkt := build _ _ _ _ _ _).
  apply (packet_puts (audio_rtp_channel_ s) pkt sent (audio_rtp_sender_ s));
    unfold sendAudioRTP, send_udp, sources; simpl_update.
  - destruct (use_tcp_ s); [done|]. by destruct (audio_rtp_sender_ s).
  - destruct (use_tcp_ s); [done|]. by destruct (audio_rtp_sender_ s).
  - destruct (use_tcp_ s); [simpl_update; by rewrite app_nil_r|].
    destruct (audio_rtp_sender_ s); simpl_update; [done|by rewrite app_nil_r].
  - unfold pkt. rewrite build_ends_frame by apply Ha. destruct Ha as [_ _ Hne].
    rewrite (proj2 (Z.eqb_neq _ _)) by congruence. done.
Qed.

(** ** The video frame of a tick *)

Definition marked (ps : list (bytes * bool)) : nat := length (filter (fun p => snd p = true) ps).

Lemma marked_app a b : marked (a ++ b) = (marked a + marked b)%nat.
Proof. unfold marked. by rewrite filter_app, length_app. Qed.

Lemma marked_cons p mk ps : marked ((p, mk) :: ps) = (Nat.b2n mk + marked ps)%nat.
Proof. unfold marked. rewrite filter_cons. by destruct mk. Qed.

Lemma mark_last_marked b ps : (marked (mark_last b ps) <= Nat.b2n b)%nat.
Proof.
  induction ps as [|p ps IH]; [cbn; lia|]. destruct ps as [|q ps]; [by destruct b|].
  change (mark_last b (p :: q :: ps)) with ((payload p, false) :: mark_last b (q :: ps)).
  rewrite marked_cons. exact IH.
Qed.

(** The marker is on one packet of an access unit at most. *)
Lemma frame_payloads_marked nals : (marked (frame_payloads nals) <= 1)%nat.
Proof.
  induction nals as [|nal nals IH]; [cbn; lia|]. cbn [frame_payloads].
  pose proof (mark_last_marked false (default [] (packetize nal default_mtu))).
  destruct nals as [|nal' nals]; [apply (mark_last_marked true)|].
  rewrite marked_app. unfold nal_payloads. cbn in *. lia.
Qed.

Lemma send_frame_puts sent m vp s : apart s -> puts 1 s (send_frame sent m vp s).
Proof.
  intros Ha. eapply puts_le; [|apply (frame_payloads_marked (nal_list (streamInfo m) vp))].
  unfold send_frame. generalize (frame_payloads (nal_list (streamInfo m) vp)) as ps.
  intros ps. revert s Ha. induction ps as [|[p mk] ps IH]; intros s Ha.
  - by apply puts_nothing.
  - rewrite marked_cons. cbn [fold_left fst snd].
    pose proof (sendVideoRTP_puts sent p (rtp_timestamp vp) mk s Ha) as P.
    eapply puts_trans; [exact P|]. apply IH. eapply apart_same; [apply P|done].
Qed.

Lemma audio_loop_puts fuel now sent rate : forall m s,
  apart s -> puts 0 s (audio_loop fuel now sent rate m s).
Proof.
  induction fuel as [|fuel IH]; intros m s Ha; [by apply puts_nothing|]. cbn [audio_loop].
  destruct (readAudioPacket m) as [[ap|] m']; [|by apply puts_nothing].
  destruct (negb _); [by apply puts_nothing|].
  pose proof (sendOneAudio_puts sent ap s Ha) as P.
  apply (puts_trans 0 0 _ _ _ P), IH. eapply apart_same; [apply P|done].
Qed.

Lemma send_audio_puts now sent m s : apart s -> puts 0 s (send_audio now sent m s).
Proof.
  intros Ha. unfold send_audio. cbv zeta. destruct (_ && _); [|by apply puts_nothing].
  set (s1 := match pending_ap_ s with Some _ => _ | None => _ end).
  assert (puts 0 s s1) as P.
  { unfold s1. destruct (pending_ap_ s) as [ap|]; [|by apply puts_nothing].
    destruct (audioIsDue _ _ _ _); [|by apply puts_nothing].
    apply (puts_trans 0 0 _ _ _ (sendOneAudio_puts sent ap s Ha)). by apply puts_nothing. }
  destruct (pending_ap_ s1); [done|]. apply (puts_trans 0 0 _ _ _ P), audio_loop_puts.
  eapply apart_same; [apply P|done].
Qed.

Lemma sender_puts s s' : sender s' = sender s -> puts 0 s s'.
Proof.
  intros E. injection E as Eo Eu _ _ Es _ _ _ _ Ea _ _ _ _.
  apply puts_nothing; unfold sources; congruence.
Qed.

Lemma media_tick_puts now sent s : apart s -> puts 1 s (media_tick now sent s).
Proof.
  intros Ha. destruct (media_tick_spec now sent s) as [[Q _]|(m & vp & s1 & _ & _ & _ & E & _ & _ & ->)].
  { eapply puts_le; [by apply sender_puts|lia]. }
  pose proof (sender_puts s s1 E) as P1. assert (apart s1) as A1 by (eapply apart_same; [apply P1|done]).
  pose proof (send_frame_puts sent m vp s1 A1) as P2. set (s2 := send_frame sent m vp s1) in *.
  assert (puts 0 s2 (track m vp s2)) as P3.
  { unfold track. cbv zeta. destruct (is_key_frame vp); simpl_update; destruct (_ && _);
      by apply puts_nothing. }
  apply (puts_trans 0 1 _ _ _ P1). apply (puts_trans 1 0 _ _ _ P2).
  apply (puts_trans 0 0 _ _ _ P3), send_audio_puts.
  eapply apart_same; [apply P3|]. by eapply apart_same; [apply P2|].
Qed.
End session.

(** ** The requests of a tick *)

Section requests.
Context {M : Type} `{IMediaSource M}.
Implicit Types s : session M.

(** No packet among what the senders do. *)
Definition no_packets s s' : Prop :=
  exists acts, udp_io s' = udp_io s ++ acts /\ omap datagram acts = [].

Lemma no_packets_same s s' : udp_io s' = udp_io s -> no_packets s s'.
Proof. intros E. exists []. by rewrite app_nil_r. Qed.

Lemma parse_interleaved_io hdr (f g : Z -> session M -> session M) s :
  (forall a s, udp_io (f a s) = udp_io s) -> (forall a s, udp_io (g a s) = udp_io s) ->
  udp_io (fst (parse_interleaved hdr f g s)) = udp_io s.
Proof.
  intros Hf Hg. unfold parse_interleaved, SE_bind, SE_lift, SE_modify, SE_ret.
  destruct (find "interleaved=" hdr); [|done]. destruct (find_from "-" hdr _); [|done].
  destruct (stoi _); [|done]. cbn beta iota. destruct (stoi (substr_from _ _)); cbn; by rewrite ?Hg, ?Hf.
Qed.

Lemma setup_tcp_io b hdr s : udp_io (fst (setup_tcp b hdr s)) = udp_io s.
Proof.
  unfold setup_tcp, SE_bind at 1, SE_modify at 1. cbn beta iota.
  destruct b; unfold SE_bind at 1;
    match goal with |- context [parse_interleaved hdr ?f ?g ?s0] =>
      pose proof (parse_interleaved_io hdr f g s0 ltac:(done) ltac:(done)) as P;
      destruct (parse_interleaved hdr f g s0) as [s1 [[]|x]] end; exact P.
Qed.

Lemma fresh_sender_io e port old : omap datagram (snd (fst (fresh_sender e port old))) = [].
Proof.
  unfold fresh_sender, setupUDP.
  assert (omap datagram (destroy old) = []) as Hd.
  { unfold destroy, RTPSender.close. destruct old as [r|]; [|done]. by repeat case_if. }
  destruct (_ <? 0); [|destruct (negb _); [|destruct (_ <? 0)]]; cbn [fst snd];
    by rewrite omap_app, Hd.
Qed.

Lemma setup_udp_io e c b hdr s : no_packets s (fst (setup_udp e c b hdr s)).
Proof.
  unfold setup_udp, SE_bind, SE_modify, SE_lift, SE_get, SE_ret. cbn beta iota.
  destruct (find "client_port=" hdr) as [pos|]; [|by apply no_packets_same].
  destruct (stoi _) as [port|]; [|by apply no_packets_same]. cbn beta iota. simpl_update.
  destruct b;
    match goal with |- context [fresh_sender e ?p ?o] => pose proof (fresh_sender_io e p o) as F;
      destruct (fresh_sender e p o) as [[ok acts] sender] end; cbn [fst snd] in F;
    destruct ok; cbn [negb fst]; exists acts; by split.
Qed.

Lemma handleSetup_io e req s : no_packets s (fst (handleSetup e req s)).
Proof.
  unfold handleSetup. unfold SE_bind at 1, SE_get at 1. cbn beta iota.
  destruct (_ || _); [by apply no_packets_same|]. case_bool_decide; [by apply no_packets_same|].
  set (audio := contains "trackID=1" (url req)). set (hdr := header req "transport").
  unfold SE_bind at 1. destruct (_ || _).
  - unfold SE_bind at 1. pose proof (setup_tcp_io audio hdr s) as P.
    destruct (setup_tcp audio hdr s) as [s1 [t|x]]; cbn [fst] in P; apply no_packets_same;
      rewrite <- P; [|done]. by destruct audio.
  - pose proof (setup_udp_io e (cseq req) audio hdr s) as (acts & P & Q).
    destruct (setup_udp e (cseq req) audio hdr s) as [s1 [[t|]|x]]; cbn [fst] in P;
      exists acts; split; rewrite <- ?P; try done. by destruct audio.
Qed.

Lemma seekAndReset_io d b s : udp_io (seekAndReset d b s) = udp_io s.
Proof. unfold seekAndReset. destruct (media_source_ s); [|done]. by destruct (seekToSeconds _ _). Qed.

Lemma peek_rtptime_io s : udp_io (snd (peek_rtptime s)) = udp_io s.
Proof. unfold peek_rtptime. destruct (media_source_ s); [|done]. by destruct (peekNextVideoRTPTimestamp _). Qed.

Lemma handlePlay_io e req s : udp_io (fst (handlePlay e req s)) = udp_io s.
Proof.
  unfold handlePlay, SE_get. unfold SE_bind at 1. cbn beta iota.
  case_decide; [done|]. destruct (parse_range (header req "range")) as [[ns ne] hr].
  set (c := if bool_decide (state_ s = PAUSED) then _ else _).
  assert (udp_io (fst (fst c)) = udp_io s) as Hc.
  { unfold c. case_bool_decide.
    - unfold play_resume. cbn [fst]. by destruct (pause_start_ s =? 0), (first_frame_ s).
    - destruct (negb _); [apply seekAndReset_io|]. unfold play_seek. set (d := if hr then ns else dzero).
      pose proof (peek_rtptime_io (reset_pacing ne (seekAndReset d false s))) as P.
      destruct (peek_rtptime _) as [t s1]. cbn [fst snd] in *. by rewrite P, <- (seekAndReset_io d false s). }
  destruct c as [[s1 rg] ri]. exact Hc.
Qed.

Lemma openMedia_io e u c s : udp_io (fst (openMedia e u c s)) = udp_io s.
Proof.
  pose proof (openMedia_spec e u c s) as P. destruct (openMedia e u c s) as [s' [[]|x]]; cbn [fst].
  1,2: destruct P as [Hc _]; exact (f_equal udp_io Hc).
  by subst.
Qed.

Lemma handleRequest_io e req s : no_packets s (fst (handleRequest e req s)).
Proof.
  unfold handleRequest. repeat case_decide; [by apply no_packets_same| |apply handleSetup_io| | |
    by apply no_packets_same..].
  - apply no_packets_same. unfold handleDescribe, SE_bind, SE_modify. cbn beta iota.
    set (s0 := s <| media_source_ := None |>).
    pose proof (openMedia_io e (url req) (cseq req) s0) as P.
    destruct (openMedia e (url req) (cseq req) s0) as [s1 [[]|x]]; cbn [fst] in P; [|done..].
    unfold SE_get. by destruct (media_source_ s1).
  - apply no_packets_same, handlePlay_io.
  - apply no_packets_same. unfold handlePause, SE_get. unfold SE_bind at 1. cbn beta iota.
    by case_bool_decide.
Qed.

(** A response is no interleaved frame. *)
Lemma response_no_packet r : framed_packet (to_bytes (toString r)) = None.
Proof. reflexivity. Qed.

Lemma handleRequest_puts e req s : puts 0 s (fst (handleRequest e req s)).
Proof.
  pose proof (handleRequest_numbers True e req s) as [Hl _].
  pose proof (handleRequest_io e req s) as (acts & Hu & Hd).
  pose proof (handleRequest_conforms e req s) as P.
  split; [by injection Hl; unfold sources; intros -> _ -> _|].
  destruct (handleRequest e req s) as [s1 [[]|x]]; destruct P as [_ P]; cbn [fst] in *.
  - destruct P as (resp & _ & _ & _ & E). exists [to_bytes (toString resp)], acts.
    rewrite E, (proj1 (closing_effect _ _)), (proj1 (sendResponse_effect resp (out s))), Hd.
    split; [done|]. split; [done|]. cbn [omap list_omap]. rewrite response_no_packet. cbn. lia.
  - destruct P as [E _]. exists [], acts. rewrite E, app_nil_r, Hd. by split_and!.
Qed.

Lemma drain_puts envs cmds : forall i s,
  puts 0 s (fst (drain_commands envs i cmds s)).
Proof.
  induction cmds as [|req cmds IH]; intros i s; cbn [drain_commands]; [by apply puts_nothing|].
  unfold SE_bind at 1, SE_modify at 1. cbn beta iota. unfold SE_bind at 1.
  pose proof (handleRequest_puts (envs i) req (s <| cmd_queue_ := cmds |>)) as P.
  apply (puts_trans 0 0 s) in P; [|by apply puts_nothing].
  destruct (handleRequest (envs i) req _) as [s1 [[]|x]]; cbn [fst] in *; [|exact P].
  case_decide; [exact P|]. exact (puts_trans 0 0 _ _ _ P (IH (S i) s1)).
Qed.

Lemma pacerTick_puts envs now sent s : apart s -> puts 1 s (fst (pacerTick envs now sent s)).
Proof.
  intros Ha. unfold pacerTick, SE_bind, SE_get. cbn beta iota.
  pose proof (drain_puts envs (cmd_queue_ s) 0 s) as P.
  destruct (drain_commands envs 0 (cmd_queue_ s) s) as [s1 [[]|x]]; cbn [fst] in *;
    [by eapply puts_le; [exact P|lia]| |by eapply puts_le; [exact P|lia]].
  apply (puts_trans 0 1 _ _ _ P), media_tick_puts. eapply apart_same; [apply P|done].
Qed.
End requests.

(** ** The life of a session *)

(** Clock readings that are at least [period] apart. *)
Fixpoint spaced (period : Z) (l : list Z) : Prop :=
  match l with
  | [] => True
  | t :: l => Forall (fun u => t + period <= u) l /\ spaced period l
  end.

Lemma sublist_Forall {A} (P : A -> Prop) l k : sublist l k -> Forall P k -> Forall P l.
Proof.
  induction 1; intros Hf; [done| |]; apply Forall_cons in Hf as [? ?]; [|by auto].
  constructor; auto.
Qed.

Lemma spaced_sublist period l k : sublist l k -> spaced period k -> spaced period l.
Proof.
  induction 1 as [|t l k Hs IH|t l k Hs IH]; [done| |]; intros [Hf Hk]; [|by auto].
  split; [by eapply sublist_Forall|by auto].
Qed.

Lemma spaced_nth period l : forall i t0 t,
  0 <= period -> spaced period l -> l !! 0%nat = Some t0 -> l !! i = Some t ->
  t0 + Z.of_nat i * period <= t.
Proof.
  induction l as [|u l IH]; intros i t0 t Hp Hs H0 Hi; [done|]. destruct Hs as [Hf Hs].
  injection H0 as ->. destruct i as [|i]; [injection Hi as ->; lia|]. cbn in Hi.
  destruct l as [|v l]; [done|]. pose proof (IH i v t Hp Hs eq_refl Hi).
  apply Forall_cons in Hf as [Hv _]. lia.
Qed.

(** What happens to a session: a request arrives, the Pacer ticks, the Dispatcher writes. *)
Inductive event :=
| Arrives (req : RTSPRequest)
| Ticks (envs : nat -> env) (now : Z) (sent : bytes -> Z)
| Writes (results : list send_result).

Section life.
Context {M : Type} `{IMediaSource M}.
Implicit Types s : session M.

Definition after_event (ev : event) s : session M :=
  match ev with
  | Arrives req => s <| cmd_queue_ := cmd_queue_ s ++ [req] |>
  | Ticks envs now sent => fst (pacerTick envs now sent s)
  | Writes results => s <| out := snd (onWritable results (out s)) |>
  end.

(** The clocks of the ticks, ... *)
Fixpoint tick_times (evs : list event) : list Z :=
  match evs with
  | [] => []
  | Ticks _ now _ :: evs => now :: tick_times evs
  | _ :: evs => tick_times evs
  end.

(** ... and of the frames: one entry for every end of a frame among the new packets. *)
Fixpoint frame_times (evs : list event) s : list Z :=
  match evs with
  | [] => []
  | ev :: evs =>
      let s' := after_event ev s in
      match ev with
      | Ticks _ now _ => replicate (frame_ends (ssrc_ s) (new_packets s s')) now
      | _ => []
      end ++ frame_times evs s'
  end.

Lemma frame_times_sublist evs : forall s, apart s -> sublist (frame_times evs s) (tick_times evs).
Proof.
  induction evs as [|[req|envs now sent|results] evs IH]; intros s Ha; [constructor| | |];
    cbn [frame_times tick_times after_event].
  - by apply IH, (apart_same s).
  - pose proof (pacerTick_puts envs now sent s Ha) as P.
    pose proof (puts_new_packets _ _ _ P) as Hk.
    set (s' := fst (pacerTick envs now sent s)) in *.
    assert (sublist (frame_times evs s') (tick_times evs)) as Hs
      by (apply IH; eapply apart_same; [apply P|done]).
    destruct (frame_ends _ _) as [|[|k]]; cbn; [by constructor|by constructor|lia].
  - by apply IH, (apart_same s).
Qed.
End life.

(** C12: The timer bounds the frame rate on the wire.  Whatever arrives, is answered and is written
    in between, a tick ends at most one video frame: the packets it pushes to the outbox and sends
    as datagrams hold at most one marked packet of the video source.  So the frames of a run are at
    most as many as its ticks, and with ticks that are at least [period] apart (30 ms, unless a
    request wakes the Pacer) frame number [i] leaves no earlier than [i] periods after the first,
    however close together the frames of the file are. *)
Theorem frame_rate_bounded {M} `{IMediaSource M} (s : session M) evs period :
  apart s -> 0 <= period -> spaced period (tick_times evs) ->
  (length (frame_times evs s) <= length (tick_times evs))%nat
  /\ forall i t0 t, frame_times evs s !! 0%nat = Some t0 -> frame_times evs s !! i = Some t ->
       t0 + Z.of_nat i * period <= t.
Proof.
  intros Ha Hp Hs. pose proof (frame_times_sublist evs s Ha) as Hsub.
  split; [by apply sublist_length|]. intros i t0 t E0 E.
  apply (spaced_nth period (frame_times evs s) i t0 t Hp); [|done..]. by eapply spaced_sublist.
Qed.

Import ListSource.

(** Three frames 1 ms apart. *)
Definition rapid : ListSource.source := {|
  ListSource.video := map (fun i => {| nals := [101 :: replicate 2000 7]; rtp_timestamp := 3000 + 90 * i;
                                       is_key_frame := true; vp_duration := 90 |}) [0; 1; 2];
  ListSource.audio := []; ListSource.info := H264StreamInfo_default;
  ListSource.ainfo := AudioStreamInfo_default
|}.

Definition rapid_source : IMediaSource ListSource.source := {|
  make := rapid; open _ m := (true, m); isOpen := isOpen; close := close; streamInfo := streamInfo;
  audioInfo := audioInfo; duration := duration; readPacket := readPacket;
  readAudioPacket := readAudioPacket; audio_backlog := audio_backlog; seek := seek;
  seekToSeconds := seekToSeconds; rtpOffset := rtpOffset; audioRTPOffset := audioRTPOffset;
  adjustRTPOffset := adjustRTPOffset; peekNextVideoRTPTimestamp := peekNextVideoRTPTimestamp
|}.
#[local] Existing Instance rapid_source | 0.

Definition tick_at (now : Z) : event := Ticks (fun _ => example_env) now (fun _ => 0).

(** Three requests, and ticks 30 ms apart with writes between them. *)
Definition rapid_run : list event :=
  map Arrives parsed_requests
  ++ [tick_at 1000; Writes [Sent 400; Sent 100]; tick_at 30001000; tick_at 60001000;
      Writes [SendAgain]; tick_at 90001000].

(** The frames are 1 ms apart in the file and 30 ms apart on the wire. *)
Lemma frame_rate_bounded_witness :
  let s := session_make "10.0.0.7" "/srv" 4711 1 2 in
  frame_times rapid_run s = [1000; 30001000; 60001000]
  /\ (length (frame_times rapid_run s) <= 4)%nat
  /\ forall i t0 t, frame_times rapid_run s !! 0%nat = Some t0 ->
       frame_times rapid_run s !! i = Some t -> t0 + Z.of_nat i * 30000000 <= t.
Proof.
  intros s. split; [vm_compute; reflexivity|].
  apply (frame_rate_bounded s rapid_run 30000000).
  - constructor; vm_compute; repeat split; discriminate.
  - lia.
  - vm_compute. repeat split; repeat constructor; discriminate.
Defined.
