(* ===== verification/SessionInv.v ===== *)
(** * [SessionInv]: the invariant of a session over its whole life

    A session is driven by requests arriving, pacer ticks (with whatever the operating system,
    the clock and the sockets answer, and whether or not a handler throws) and writes of the
    Dispatcher.  The invariant is proved against the laws of the media source interface. *)

From S2P Require Import Prelude StdString Double RTSPRequest SDPBuilder RTPSender IMediaSource.
From S2P Require Import Egress Session Pacer SessionSpec.

Section inv.
Context {M : Type} `{MediaSourceLaws M}.
Implicit Types s : session M.

Definition in_u16 (z : Z) : Prop := 0 <= z < 65536.
Definition in_u32 (z : Z) : Prop := 0 <= z < 4294967296.

(** The socket of a track, if it has one. *)
Definition track_socket (r : option RTPSender) : list Z :=
  match r with Some r => held r | None => [] end.

Record session_inv s : Prop := {
  si_ready : state_ s <> INIT -> transport_ready_ s = true /\ describe_done_ s = true;
  si_pt : payload_type_ s = 96 /\ audio_payload_type_ s = 97;
  si_ssrc : in_u32 (ssrc_ s) /\ in_u32 (audio_ssrc_ s);
  si_seq : in_u16 (rtp_seq_ s) /\ in_u16 (audio_rtp_seq_ s);
  si_clock : in_u32 (loop_video_offset_ s) /\ in_u32 (audio_loop_offset_ s)
             /\ in_u32 (last_video_rtp_ s);
  si_dur : forall d, last_frame_dur_ s = Some d -> in_u32 d;
  si_vp : forall vp, pending_vp_ s = Some vp -> in_u32 (rtp_timestamp vp);
  si_ap : forall ap, pending_ap_ s = Some ap -> in_u32 (ap_rtp_timestamp ap);
  si_source : forall m, media_source_ s = Some m -> source_wf m;
  si_sender : forall r, rtp_sender_ s = Some r \/ audio_rtp_sender_ s = Some r -> sender_ok r;
  si_sockets : Permutation (opened (udp_io s))
    (closed (udp_io s) ++ track_socket (rtp_sender_ s) ++ track_socket (audio_rtp_sender_ s))
}.

Lemma session_init_inv ip root sid ssrc assrc :
  in_u32 ssrc -> in_u32 assrc -> session_inv (session_init ip root sid ssrc assrc).
Proof. intros H1 H2. constructor; cbn; unfold in_u32, in_u16; try done; try lia. by intros r [|]. Qed.

(** The invariant does not speak about the write side and the command queue. *)
Lemma inv_out s o : session_inv s -> session_inv (s <| out := o |>).
Proof. intros []. by constructor. Qed.

Lemma inv_cmd s q : session_inv s -> session_inv (s <| cmd_queue_ := q |>).
Proof. intros []. by constructor. Qed.

Lemma inv_source s om :
  session_inv s -> (forall m, om = Some m -> source_wf m) ->
  session_inv (s <| media_source_ := om |>).
Proof. intros [] Hm. by constructor. Qed.

Lemma inv_core s s' :
  core s' = core s -> (forall m, media_source_ s' = Some m -> source_wf m) ->
  session_inv s -> session_inv s'.
Proof.
  intros Ec Hm Hi.
  assert (session_inv (core s')) as Hi'.
  { rewrite Ec. unfold core. apply inv_source; [by apply inv_out|done]. }
  destruct Hi'. by constructor.
Qed.

(** ** The handlers *)

Lemma openMedia_inv e u c s : session_inv s -> session_inv (fst (openMedia e u c s)).
Proof.
  intros Hi. pose proof (openMedia_spec e u c s) as P.
  destruct (openMedia e u c s) as [s' [[]|x]]; cbn [fst].
  - destruct P as (Hc & _ & m & _ & Ho & Hm). apply (inv_core s); [done| |done].
    intros m'. rewrite Hm. intros [= <-].
    pose proof (open_wf (media_path u s) make make_wf) as Hw. by rewrite Ho in Hw.
  - destruct P as (Hc & Hm & _). apply (inv_core s); [done| |done].
    intros m E. destruct Hm as [Hm|Hm]; rewrite Hm in E; [done|]. by apply (si_source s Hi).
  - by subst.
Qed.

Lemma handleDescribe_inv e req s : session_inv s -> session_inv (fst (handleDescribe e req s)).
Proof.
  intros Hi. unfold handleDescribe, SE_bind, SE_modify. cbn beta iota.
  set (s0 := s <| media_source_ := None |>).
  assert (session_inv s0) as Hi0 by (by apply inv_source).
  pose proof (openMedia_inv e (url req) (cseq req) s0 Hi0) as Hi1.
  destruct (openMedia e (url req) (cseq req) s0) as [s1 [[]|x]]; cbn [fst] in Hi1; try done.
  unfold SE_get. destruct (media_source_ s1) as [m|]; [|done]. cbn.
  apply inv_out. destruct Hi1. constructor; simpl_update; try done. intros Hs. by split; [apply si_ready0|].
Qed.

(** Storing the numbers of a Transport header. *)
Lemma parse_interleaved_inv hdr (f g : Z -> session M -> session M) s :
  (forall a s, session_inv s -> session_inv (f a s)) ->
  (forall a s, session_inv s -> session_inv (g a s)) ->
  session_inv s -> session_inv (fst (parse_interleaved hdr f g s)).
Proof.
  intros Hf Hg Hi. unfold parse_interleaved, SE_bind, SE_lift, SE_modify, SE_ret.
  destruct (find "interleaved=" hdr); [|done]. destruct (find_from "-" hdr _); [|done].
  destruct (stoi _); [|done]. cbn beta iota. destruct (stoi (substr_from _ _)); cbn; auto.
Qed.

Lemma setup_tcp_inv b hdr s : session_inv s -> session_inv (fst (setup_tcp b hdr s)).
Proof.
  intros Hi. unfold setup_tcp, SE_bind at 1, SE_modify at 1. cbn beta iota.
  assert (session_inv (s <| use_tcp_ := true |>)) as Hi0 by (destruct Hi; by constructor).
  destruct b; unfold SE_bind at 1;
    match goal with |- context [parse_interleaved hdr ?f ?g ?s0] =>
      pose proof (parse_interleaved_inv hdr f g s0 ltac:(by intros ?? []; constructor)
        ltac:(by intros ?? []; constructor) Hi0) as Hi1;
      destruct (parse_interleaved hdr f g s0) as [s1 [[]|x]] end; cbn in *; try done;
    destruct Hi1; constructor; simpl_update; try done; intros Hs; by destruct (si_ready0 Hs).
Qed.

Lemma opened_app a b : opened (a ++ b) = opened a ++ opened b.
Proof. apply omap_app. Qed.
Lemma closed_app a b : closed (a ++ b) = closed a ++ closed b.
Proof. apply omap_app. Qed.

Lemma destroy_sockets old :
  (forall r, old = Some r -> sender_ok r) ->
  opened (destroy old) = [] /\ closed (destroy old) = track_socket old.
Proof. destruct old as [r|]; [|done]. intros Hr. destruct (Hr r eq_refl) as (_ & Hc & Ho). by split. Qed.

Lemma fresh_sender_spec e port old :
  (forall r, old = Some r -> sender_ok r) ->
  let '(ok, acts, sender) := fresh_sender e port old in
  sender_ok sender
  /\ Permutation (opened acts ++ track_socket old) (closed acts ++ held sender).
Proof.
  intros Hold. unfold fresh_sender. destruct (destroy_sockets old Hold) as [Ho Hc].
  pose proof (setupUDP_sockets (env_sockets e) port) as P.
  pose proof (setupUDP_sender_ok (env_sockets e) port) as Q.
  destruct (setupUDP _ _ _ _) as [[ok acts] sender]. destruct P as (P & _). cbn [snd] in Q.
  split; [done|]. rewrite opened_app, closed_app, Ho, Hc, P. simpl.
  rewrite <- (app_assoc (track_socket old)). apply Permutation_app_comm.
Qed.
(** One of two held sockets is replaced: what was opened is still closed or held. *)
Lemma replace_socket (O C A B oa ca new : list Z) :
  Permutation O (C ++ A ++ B) -> Permutation (oa ++ B) (ca ++ new) ->
  Permutation (O ++ oa) ((C ++ ca) ++ A ++ new).
Proof.
  intros -> Hp. rewrite <- !app_assoc. apply Permutation_app_head.
  rewrite (Permutation_app_comm B oa), Hp, !app_assoc. apply Permutation_app_tail, Permutation_app_comm.
Qed.

Lemma setup_udp_inv e c b hdr s : session_inv s -> session_inv (fst (setup_udp e c b hdr s)).
Proof.
  intros Hi. unfold setup_udp, SE_bind, SE_modify, SE_lift, SE_get, SE_ret. cbn beta iota.
  assert (session_inv (s <| use_tcp_ := false |>)) as Hi0 by (destruct Hi; by constructor).
  destruct (find "client_port=" hdr) as [pos|]; [|by apply inv_out].
  destruct (stoi _) as [port|]; [|done]. cbn beta iota.
  set (s0 := s <| use_tcp_ := false |>) in *.
  destruct b.
  - pose proof (fresh_sender_spec e (u16 port) (audio_rtp_sender_ s0)
      (fun r Hr => si_sender s0 Hi0 r (or_intror Hr))) as F.
    destruct (fresh_sender _ _ _) as [[ok acts] sender]. destruct F as (Fs & Fp).
    assert (session_inv (s0 <| audio_rtp_sender_ := Some sender |> <| udp_io := udp_io s0 ++ acts |>))
      as Hi1.
    { destruct Hi0. constructor; simpl_update; try done.
      - intros r [Hr|[= <-]]; [apply si_sender0; by left|done].
      - rewrite opened_app, closed_app. by apply (replace_socket _ _ _ _ _ _ _ si_sockets0 Fp). }
    destruct ok; cbn [negb]; [|by apply inv_out].
    destruct Hi1. constructor; simpl_update; done.
  - pose proof (fresh_sender_spec e (u16 port) (rtp_sender_ s0)
      (fun r Hr => si_sender s0 Hi0 r (or_introl Hr))) as F.
    destruct (fresh_sender _ _ _) as [[ok acts] sender]. destruct F as (Fs & Fp).
    assert (session_inv (s0 <| rtp_sender_ := Some sender |> <| udp_io := udp_io s0 ++ acts |>))
      as Hi1.
    { destruct Hi0. constructor; simpl_update; try done.
      - intros r [[= <-]|Hr]; [done|apply si_sender0; by right].
      - rewrite opened_app, closed_app, (Permutation_app_comm (track_socket (Some sender))).
        rewrite (Permutation_app_comm (track_socket (rtp_sender_ s0))) in si_sockets0.
        by apply (replace_socket _ _ _ _ _ _ _ si_sockets0 Fp). }
    destruct ok; cbn [negb]; [|by apply inv_out].
    destruct Hi1. constructor; simpl_update; try done. intros Hs. by destruct (si_ready0 Hs).
Qed.

Lemma handleSetup_inv e req s : session_inv s -> session_inv (fst (handleSetup e req s)).
Proof.
  intros Hi. unfold handleSetup, SE_get. unfold SE_bind at 1. cbn beta iota.
  destruct (describe_done_ s) eqn:Ed; cbn [negb orb]; [|by apply inv_out].
  destruct (negb (has_source s)); [by apply inv_out|].
  case_bool_decide; [by apply inv_out|].
  set (audio := contains "trackID=1" (url req)). set (hdr := header req "transport").
  assert (forall s1 t, setup_core s1 = setup_core s -> track_ready audio s1 = true ->
    session_inv s1 ->
    session_inv (fst ((do* SE_modify (fun s => if audio then s else s <| state_ := READY |>);
        let* s := SE_get in
        sendResponse (RTSPResponse.setup (env_date e) (cseq req) (session_id_ s) t)) s1)))
    as Hdone.
  { intros s1 t Hc Ht Hi1. cbn. apply inv_out. destruct audio; [done|].
    pose proof (f_equal describe_done_ Hc) as Hd. cbn in Hd, Ht.
    destruct Hi1. constructor; simpl_update; try done. intros _. by rewrite Hd. }
  unfold SE_bind at 1. destruct (_ || _).
  - unfold SE_bind at 1. pose proof (setup_tcp_spec audio hdr s) as P.
    pose proof (setup_tcp_inv audio hdr s Hi) as Q.
    destruct (setup_tcp audio hdr s) as [s1 [t|x]]; destruct P as (Hc & _ & _ & Ht & _); [|done].
    apply Hdone; [done|by apply Ht|done].
  - pose proof (setup_udp_spec e (cseq req) audio hdr s) as P.
    pose proof (setup_udp_inv e (cseq req) audio hdr s Hi) as Q.
    destruct (setup_udp e (cseq req) audio hdr s) as [s1 [[t|]|x]]; destruct P as (Hc & _ & P);
      [|done|done].
    destruct P as (_ & Ht & _). by apply Hdone.
Qed.
Lemma u32_in z : in_u32 (u32 z).
Proof. apply u32_range. Qed.
Lemma u16_in z : in_u16 (u16 z).
Proof. apply u16_range. Qed.
Lemma zero_in : in_u32 0.
Proof. unfold in_u32. lia. Qed.
Local Hint Resolve u32_in u16_in zero_in : core.

Lemma seekAndReset_inv d b s : session_inv s -> session_inv (seekAndReset d b s).
Proof.
  intros Hi. unfold seekAndReset. destruct (media_source_ s) as [m|] eqn:Em; [|done].
  pose proof (seekToSeconds_wf d m (si_source s Hi m Em)) as Hw.
  destruct (seekToSeconds d m) as [pos m1]. cbn [snd] in Hw.
  destruct Hi. constructor; simpl_update; try done.
  intros m2 [= <-]. case_match; [by apply adjustRTPOffset_wf|done].
Qed.

Lemma reset_pacing_inv npt s : session_inv s -> session_inv (reset_pacing npt s).
Proof. intros []. by constructor. Qed.

Lemma peek_rtptime_inv s : session_inv s -> session_inv (snd (peek_rtptime s)).
Proof.
  intros Hi. unfold peek_rtptime. destruct (media_source_ s) as [m|] eqn:Em; [|done].
  pose proof (peek_wf m (si_source s Hi m Em)) as Hw.
  destruct (peekNextVideoRTPTimestamp m) as [t m1]. cbn [snd] in *.
  apply inv_source; [done|]. by intros m2 [= <-].
Qed.

Lemma play_resume_inv e s : session_inv s -> session_inv (fst (fst (play_resume e s))).
Proof.
  intros Hi. unfold play_resume. cbn [fst].
  destruct (pause_start_ s =? 0), (first_frame_ s); cbn [negb]; destruct Hi; by constructor.
Qed.

(** The cases that may set the state agree that a transport is there. *)
Lemma inv_set_state st s :
  session_inv s -> (st <> INIT -> transport_ready_ s = true /\ describe_done_ s = true) ->
  session_inv (s <| state_ := st |>).
Proof. intros [] Hs. by constructor. Qed.

Lemma seekAndReset_flags d b s :
  transport_ready_ (seekAndReset d b s) = transport_ready_ s
  /\ describe_done_ (seekAndReset d b s) = describe_done_ s.
Proof. unfold seekAndReset. destruct (media_source_ s); [|done]. by destruct (seekToSeconds _ _). Qed.

Lemma peek_rtptime_flags s :
  transport_ready_ (snd (peek_rtptime s)) = transport_ready_ s
  /\ describe_done_ (snd (peek_rtptime s)) = describe_done_ s.
Proof.
  unfold peek_rtptime. destruct (media_source_ s); [|done].
  by destruct (peekNextVideoRTPTimestamp _).
Qed.

Lemma handlePlay_inv e req s : session_inv s -> session_inv (fst (handlePlay e req s)).
Proof.
  intros Hi. unfold handlePlay, SE_get. unfold SE_bind at 1. cbn beta iota.
  case_decide as Hs; [by apply inv_out|].
  destruct (parse_range (header req "range")) as [[ns ne] hr].
  set (hr' := if negb _ then false else hr).
  set (c := if bool_decide (state_ s = PAUSED) then _ else _).
  assert (session_inv (fst (fst c)) /\ transport_ready_ (fst (fst c)) = transport_ready_ s
    /\ describe_done_ (fst (fst c)) = describe_done_ s) as (Hc & Ht & Hd).
  { unfold c. case_bool_decide.
    - split; [by apply play_resume_inv|]. unfold play_resume. cbn [fst].
      by destruct (pause_start_ s =? 0), (first_frame_ s).
    - destruct (negb _).
      + unfold play_scale. cbn [fst]. split; [by apply seekAndReset_inv|].
        apply seekAndReset_flags.
      + unfold play_seek. set (s0 := seekAndReset _ _ s).
        pose proof (peek_rtptime_inv (reset_pacing ne s0)
          (reset_pacing_inv ne s0 (seekAndReset_inv _ _ s Hi))) as Hp.
        pose proof (peek_rtptime_flags (reset_pacing ne s0)) as [Hf1 Hf2].
        destruct (seekAndReset_flags (if hr' then ns else dzero) false s) as [Hg1 Hg2].
        destruct (peek_rtptime (reset_pacing ne s0)) as [t s1]. cbn [fst snd] in *.
        split; [done|]. rewrite Hf1, Hf2. by split. }
  destruct c as [[s1 rg] ri]. cbn [fst] in *. cbn. apply inv_out, inv_set_state; [done|].
  intros _. rewrite Ht, Hd. by apply (si_ready s Hi).
Qed.

Lemma handlePause_inv e req s : session_inv s -> session_inv (fst (handlePause e req s)).
Proof.
  intros Hi. unfold handlePause, SE_get. unfold SE_bind at 1. cbn beta iota.
  case_bool_decide as Hs; cbn [negb]; [|by apply inv_out]. cbn. apply inv_out.
  destruct Hi. constructor; simpl_update; try done. intros _. apply si_ready0. congruence.
Qed.

Lemma handleRequest_inv e req s : session_inv s -> session_inv (fst (handleRequest e req s)).
Proof.
  intros Hi. unfold handleRequest. repeat case_decide.
  - by apply inv_out.
  - by apply handleDescribe_inv.
  - by apply handleSetup_inv.
  - by apply handlePlay_inv.
  - by apply handlePause_inv.
  - cbn. by apply inv_out, inv_out, inv_set_state.
  - by apply inv_out.
Qed.
(** ** The pacer tick *)

Lemma drain_commands_inv envs cmds : forall i s,
  session_inv s -> session_inv (fst (drain_commands envs i cmds s)).
Proof.
  induction cmds as [|req cmds IH]; intros i s Hi; [done|]. cbn [drain_commands].
  unfold SE_bind, SE_modify. cbn beta iota.
  pose proof (handleRequest_inv (envs i) req _ (inv_cmd s cmds Hi)) as Hi1.
  destruct (handleRequest (envs i) req _) as [s1 [[]|x]]; cbn [fst] in Hi1; [|done].
  case_decide; [done|]. by apply IH.
Qed.

(** Datagrams open and close no socket. *)
Lemma inv_datagrams sent pkt r s :
  session_inv s -> session_inv (s <| udp_io := udp_io s ++ snd (RTPSender.send sent [] pkt r) |>).
Proof.
  intros []. destruct (send_no_sockets sent [] pkt r) as [Ho Hc].
  constructor; simpl_update; try done. rewrite opened_app, closed_app, Ho, Hc.
  by rewrite !app_nil_r.
Qed.

Lemma send_udp_inv sent r pkt s : session_inv s -> session_inv (send_udp sent r pkt s).
Proof. intros Hi. destruct r as [r|]; [|done]. by apply inv_datagrams. Qed.

Lemma sendVideoRTP_inv sent p ts mk s : session_inv s -> session_inv (sendVideoRTP sent p ts mk s).
Proof.
  intros Hi. unfold sendVideoRTP. cbv zeta.
  assert (session_inv (s <| rtp_seq_ := u16 (rtp_seq_ s + 1) |>)) as Hi1.
  { destruct Hi as [? ? ? [? ?]]. by constructor; simpl_update; auto. }
  simpl_update. destruct (use_tcp_ s); [by apply inv_out|by apply send_udp_inv].
Qed.

Lemma sendAudioRTP_inv sent pkt s : session_inv s -> session_inv (sendAudioRTP sent pkt s).
Proof.
  intros Hi. unfold sendAudioRTP. destruct (use_tcp_ s); [by apply inv_out|by apply send_udp_inv].
Qed.

Lemma sendOneAudio_inv sent ap s : session_inv s -> session_inv (sendOneAudio sent ap s).
Proof.
  intros Hi. unfold sendOneAudio. case_bool_decide; [done|]. cbv zeta.
  apply sendAudioRTP_inv. destruct Hi as [? ? ? [? ?]]. by constructor; simpl_update; auto.
Qed.

Lemma send_frame_inv sent m vp s : session_inv s -> session_inv (send_frame sent m vp s).
Proof.
  unfold send_frame. generalize (frame_payloads (nal_list (streamInfo m) vp)) as ps.
  intros ps. revert s. induction ps as [|p ps IH]; intros s Hi; [done|]. cbn [fold_left].
  by apply IH, sendVideoRTP_inv.
Qed.

Lemma inv_pending_ap s oap :
  session_inv s -> (forall ap, oap = Some ap -> in_u32 (ap_rtp_timestamp ap)) ->
  session_inv (s <| pending_ap_ := oap |>).
Proof. intros [] Hap. by constructor. Qed.

Lemma inv_pending_vp s ovp :
  session_inv s -> (forall vp, ovp = Some vp -> in_u32 (rtp_timestamp vp)) ->
  session_inv (s <| pending_vp_ := ovp |>).
Proof. intros [] Hvp. by constructor. Qed.

Lemma audio_loop_inv fuel now sent rate : forall m s,
  session_inv s -> source_wf m -> session_inv (audio_loop fuel now sent rate m s).
Proof.
  assert (forall m s, session_inv s -> source_wf m ->
    session_inv (s <| media_source_ := Some m |>)) as Hput.
  { intros m s Hi Hm. apply inv_source; [done|]. by intros m' [= <-]. }
  induction fuel as [|fuel IH]; intros m s Hi Hm; [by apply Hput|]. cbn [audio_loop].
  pose proof (readAudioPacket_wf m Hm) as Hw.
  destruct (readAudioPacket m) as [[ap|] m1] eqn:Er; cbn [snd] in Hw; [|by apply Hput].
  destruct (negb _); [|by apply IH; [apply sendOneAudio_inv|]].
  apply inv_pending_ap; [by apply Hput|]. intros ap' [= <-].
  by apply (readAudioPacket_timestamp m ap m1 Hm).
Qed.

Lemma send_audio_inv now sent m s :
  session_inv s -> source_wf m -> session_inv (send_audio now sent m s).
Proof.
  intros Hi Hm. unfold send_audio. cbv zeta. destruct (_ && _); [|done].
  set (s1 := match pending_ap_ s with Some _ => _ | None => _ end).
  assert (session_inv s1) as Hi1.
  { unfold s1. destruct (pending_ap_ s) as [ap|]; [|done]. destruct (audioIsDue _ _ _ _); [|done].
    apply inv_pending_ap; [by apply sendOneAudio_inv|done]. }
  destruct (pending_ap_ s1); [done|]. by apply audio_loop_inv.
Qed.

Lemma track_inv m vp s :
  session_inv s -> in_u32 (rtp_timestamp vp) -> session_inv (track m vp s).
Proof.
  intros Hi Hvp. unfold track. cbv zeta.
  set (s1 := if is_key_frame vp then _ else s).
  assert (session_inv s1 /\ last_video_rtp_ s1 = last_video_rtp_ s) as (Hi1 & _)
    by (unfold s1; destruct (is_key_frame vp), Hi; split; by constructor).
  simpl_update. destruct (_ && _) eqn:Ec;
    destruct Hi1 as [? ? ? ? (? & ? & Hl)]; constructor; simpl_update; try done.
  intros d [= <-]. apply andb_prop in Ec as [_ Ec]. apply Z.ltb_lt in Ec.
  unfold in_u32 in *. lia.
Qed.

Lemma anchor_inv now m vp s :
  session_inv s -> in_u32 (rtp_timestamp vp) -> session_inv (anchor now m vp s).
Proof.
  intros Hi Hvp. unfold anchor. destruct (first_frame_ s); [|done]. cbv zeta.
  pose proof (fun d => cast_u32_range d) as Hc.
  destruct (0 <? sample_rate (audioInfo m)); destruct Hi as [? ? ? ? (? & ? & ?)];
    constructor; simpl_update; try done.
  split; [done|]. split; [apply Hc|done].
Qed.

Lemma send_when_due_inv now sent m vp s :
  session_inv s -> source_wf m -> in_u32 (rtp_timestamp vp) ->
  session_inv (send_when_due now sent m vp s).
Proof.
  intros Hi Hm Hvp. unfold send_when_due. cbv zeta.
  assert (session_inv (anchor now m vp s)) as Hi1 by by apply anchor_inv.
  destruct (_ <? _); [done|]. apply send_audio_inv; [|done].
  apply track_inv; [|done]. by apply send_frame_inv.
Qed.

Lemma loop_source_inv m s : session_inv s -> source_wf m -> session_inv (loop_source m s).
Proof.
  intros Hi Hm. unfold loop_source. set (m1 := seek _ m).
  assert (session_inv (s <| media_source_ := Some m1 |>)) as Hi1
    by (apply inv_source; [done|]; intros m' [= <-]; by apply seek_wf).
  destruct Hi1. by constructor.
Qed.

Lemma inv_gate b s : session_inv s -> session_inv (s <| resume_waiting_for_idr_ := b |>).
Proof. intros []. by constructor. Qed.

Lemma read_frame_inv m s :
  session_inv s -> media_source_ s = Some m -> state_ s <> INIT ->
  session_inv (snd (read_frame m s)).
Proof.
  intros Hi Hm Hst. pose proof (si_source s Hi m Hm) as Hw. unfold read_frame.
  destruct (pending_vp_ s); [done|]. pose proof (readPacket_wf m Hw) as Hw1.
  destruct (readPacket m) as [[vp|] m1] eqn:Er; cbn [snd] in Hw1; [|by apply loop_source_inv].
  assert (session_inv (s <| media_source_ := Some m1 |>)) as Hi1
    by (apply inv_source; [done|by intros m' [= <-]]).
  pose proof (inv_gate false _ Hi1) as Hi2.
  cbv zeta. case_bool_decide; [done|]. destruct (_ && negb _); [done|].
  destruct (_ && _); cbn [snd].
  - apply inv_set_state; [done|]. intros _. by apply (si_ready s Hi).
  - apply inv_pending_vp; [done|]. intros vp' [= <-].
    by apply (readPacket_timestamp m vp m1 Hw).
Qed.

Lemma before_read_inv now s :
  session_inv s -> session_inv (discard_stale (absorb_pause now s))
    /\ state_ (discard_stale (absorb_pause now s)) = state_ s.
Proof.
  intros Hi. unfold discard_stale, absorb_pause.
  destruct (pause_start_ s =? 0), (first_frame_ s) eqn:E; cbn [negb]; simpl_update; rewrite ?E;
    (split; [|done]); destruct Hi; by constructor.
Qed.

Lemma idr_gate_inv s :
  session_inv s -> session_inv (snd (idr_gate s)) /\ state_ (snd (idr_gate s)) = state_ s.
Proof.
  intros Hi. unfold idr_gate. destruct (resume_waiting_for_idr_ s); [|done].
  destruct (pending_vp_ s) as [vp|]; [|done]. destruct (is_key_frame vp); cbn [snd];
    (split; [|done]); [by apply inv_gate|by apply inv_pending_vp].
Qed.

Lemma clear_gate_inv s : session_inv s -> session_inv (clear_gate s).
Proof.
  intros Hi. unfold clear_gate. destruct (pending_vp_ s); [|done].
  destruct (_ && _); [by apply inv_gate|done].
Qed.

Lemma media_tick_inv now sent s : session_inv s -> session_inv (media_tick now sent s).
Proof.
  intros Hi. unfold media_tick. destruct (playing s) eqn:Ep; cbn [negb].
  2: { unfold idle_tick. cbv zeta. destruct (_ && _); case_bool_decide; destruct Hi; by constructor. }
  assert (state_ s = PLAYING) as Hst.
  { unfold playing in Ep. apply andb_prop in Ep as [Ep _]. apply andb_prop in Ep as [Ep _].
    by apply bool_decide_eq_true in Ep. }
  destruct (before_read_inv now s Hi) as (Hi1 & E1).
  destruct (idr_gate_inv _ Hi1) as (Hi2 & E2).
  destruct (idr_gate (discard_stale (absorb_pause now s))) as [go1 s2]. cbn [snd] in *.
  destruct go1; cbn [negb]; [|done]. destruct (media_source_ s2) as [m|] eqn:Em; [|done].
  assert (session_inv (snd (read_frame m s2))) as Hi3
    by (apply read_frame_inv; [done|done|congruence]).
  destruct (read_frame m s2) as [go2 s3]. cbn [snd] in *.
  destruct go2; cbn [negb]; [|done]. cbv zeta.
  pose proof (clear_gate_inv s3 Hi3) as Hi4. set (s4 := clear_gate s3) in *.
  destruct (media_source_ s4) as [m'|] eqn:Em'; [|done].
  destruct (pending_vp_ s4) as [vp|] eqn:Ev; [|done].
  apply send_when_due_inv; [done|by apply (si_source s4 Hi4)|by apply (si_vp s4 Hi4)].
Qed.

Lemma pacerTick_inv envs now sent s :
  session_inv s -> session_inv (fst (pacerTick envs now sent s)).
Proof.
  intros Hi. unfold pacerTick, SE_bind, SE_get. cbn beta iota.
  pose proof (drain_commands_inv envs (cmd_queue_ s) 0 s Hi) as Hi1.
  destruct (drain_commands envs 0 (cmd_queue_ s) s) as [s1 [[]|x]]; cbn [fst] in Hi1; try done.
  cbn. by apply media_tick_inv.
Qed.

(** ** The life of a session *)

(** What happens to a session: it is made for a client, the Logic thread queues requests, a
    worker runs a tick (to its end, or to an exception), the Dispatcher writes. *)
Inductive session_reachable : session M -> Prop :=
| reach_made ip root sid ssrc assrc :
    in_u32 ssrc -> in_u32 assrc -> session_reachable (session_init ip root sid ssrc assrc)
| reach_pushCommand s req :
    session_reachable s -> session_reachable (s <| cmd_queue_ := cmd_queue_ s ++ [req] |>)
| reach_tick s envs now sent :
    session_reachable s -> session_reachable (fst (pacerTick envs now sent s))
| reach_onWritable s results :
    session_reachable s ->
    session_reachable (s <| out := snd (onWritable results (out s)) |>).

Lemma session_reachable_inv s : session_reachable s -> session_inv s.
Proof.
  induction 1.
  - by apply session_init_inv.
  - by apply inv_cmd.
  - by apply pacerTick_inv.
  - by apply inv_out.
Qed.
End inv.

(** C2: The invariant of a session.  In every state a session can reach, whatever the requests,
    the clock, the file system, the sockets and the source do and whether or not handlers throw:
    a session past INIT has been described and has a video transport; the numbers that go into
    RTP headers fit their fields; and every socket that was opened is closed or held by exactly
    one of its two senders, so that none leaks. *)
Theorem session_invariant {M} `{MediaSourceLaws M} (s : session M) :
  session_reachable s ->
  (state_ s <> INIT -> transport_ready_ s = true /\ describe_done_ s = true)
  /\ payload_type_ s = 96 /\ audio_payload_type_ s = 97
  /\ in_u32 (ssrc_ s) /\ in_u32 (audio_ssrc_ s)
  /\ in_u16 (rtp_seq_ s) /\ in_u16 (audio_rtp_seq_ s)
  /\ (forall vp, pending_vp_ s = Some vp -> in_u32 (rtp_timestamp vp))
  /\ Permutation (opened (udp_io s))
       (closed (udp_io s) ++ track_socket (rtp_sender_ s) ++ track_socket (audio_rtp_sender_ s)).
Proof.
  intros Hr. destruct (session_reachable_inv s Hr) as [? [] [] [] ? ? ? ? ? ? ?].
  by split_and!.
Qed.

Import (hints) ListSource.

Definition example_request (m : text) (hs : list (text * text)) : RTSPRequest := {|
  method := m; url := "rtsp://h/link.mp4/trackID=0"; version := "RTSP/1.0";
  headers := list_to_map hs; body := []
|}.

(** DESCRIBE, SETUP over UDP and PLAY, handled by one tick. *)
Definition example_commands : session ListSource.source :=
  foldl (fun s req => s <| cmd_queue_ := cmd_queue_ s ++ [req] |>) example_session
    [ example_request "DESCRIBE" [("cseq" : text, "2" : text)];
      example_request "SETUP" [("cseq" : text, "3" : text);
                               ("transport" : text, "RTP/AVP;unicast;client_port=5000-5001" : text)];
      example_request "PLAY" [("cseq" : text, "4" : text); ("range" : text, "npt=0.000-" : text)] ].

Definition example_tick : session ListSource.source :=
  fst (pacerTick (fun _ => example_env) 1000 (fun _ => 0) example_commands).

Lemma session_invariant_witness :
  session_reachable example_tick
  /\ state_ example_tick = PLAYING
  /\ transport_ready_ example_tick = true
  /\ udp_io example_tick = [OpenSocket 9]
  /\ length (outbox_ (out example_tick)) = 3%nat.
Proof.
  assert (session_reachable example_tick) as Hr.
  { apply reach_tick. unfold example_commands. cbn [foldl].
    do 3 apply reach_pushCommand. apply reach_made; split; reflexivity || discriminate. }
  split; [exact Hr|]. split; [vm_compute; reflexivity|].
  split; [|split; vm_compute; reflexivity].
  apply (session_invariant example_tick Hr). vm_compute. discriminate.
Defined.
