(* ===== verification/Reactor.v ===== *)
(** * [Reactor]: the threads of the server (src/server/Reactor.cpp,
    include/rtspserver/server/Reactor.hpp)

    The Dispatcher, the Logic thread, the Pacer orchestrator, the workers of the pacer pool
    and the thread that called [run], as a transition system over the state they share.  A
    session object lives in [heap] while some thread, task or the session map holds a
    [shared_ptr] to it; [~RTSPSession] closes its descriptor, which is when the kernel may
    hand the number out again. *)

From S2P Require Import Prelude StdString RTSPRequest RTSPResponse RTPSender IMediaSource Egress.
From S2P Require Import Session SessionSpec Pacer SessionInv.
From S2P Require Queues ThreadPool Ingress.

(** ** State

    A [nat] is the identity of a session object; several [shared_ptr]s may hold the same. *)

(** A session object: its descriptor, the members of [Session], the receive buffer and the
    atomic flag of the pacer slot. *)
Record client (M : Type) := mkClient {
  fd_ : Z;
  sess : session M;
  recv_buf_ : text;
  pacer_in_flight_ : bool
}.
Arguments mkClient {M}. Arguments fd_ {M}. Arguments sess {M}. Arguments recv_buf_ {M}.
Arguments pacer_in_flight_ {M}.

#[global] Instance client_updatable M : Updatable (client M) := fun c =>
  {| fd_ := fd_ c; sess := sess c; recv_buf_ := recv_buf_ c;
     pacer_in_flight_ := pacer_in_flight_ c |}.

(** Where the Dispatcher is in [dispatcherLoop]: in [epoll_wait] or between two events; in
    [acceptClient], with the session in the map and EPOLL_CTL_ADD to come; with requests to
    route; with a request pushed and the write to [logic_efd_] to come; past the loop. *)
Inductive dispatcher :=
| DWait
| DAccepted (fd : Z) (p : nat)
| DRoute (fd : Z) (p : nat) (parsed : list RTSPRequest)
| DNotify (fd : Z) (p : nat) (parsed : list RTSPRequest)
| DDone.

(** Where the Logic thread is in [logicLoop]: at the blocking read; at [try_pop]; with a
    command, the look-up to come; with its session, [pushCommand] to come; with the write to
    [pacer_efd_] to come; past the loop. *)
Inductive logic :=
| LRead
| LDrain
| LPopped (client_fd : Z) (req : RTSPRequest)
| LFound (p : nat) (req : RTSPRequest)
| LWake (p : nat)
| LDone.

(** Where the Pacer is in [pacerLoop]: in [epoll_wait]; in the loop over the snapshot
    [active] with [todo] still to visit; with the slot of a session claimed, [submit] to
    come; past the loop. *)
Inductive pacer :=
| PWait
| PActive (now : Z) (active todo : list nat)
| PClaimed (now : Z) (active : list nat) (p : nat) (todo : list nat)
| PDone.

(** Where the thread in [run] is, once the threads are started: joining the Dispatcher; with
    the stop requested, the write to [logic_efd_] to come; joining Logic and Pacer; in
    [pacer_pool_.shutdown()]; with [sessions_.clear()] to come; returned. *)
Inductive main_thread := MDispatching | MStop | MJoin | MShutdown | MClear | MReturned.

#[global] Instance main_thread_eq_dec : EqDecision main_thread.
Proof. solve_decision. Defined.

Record reactor (M : Type) := mkReactor {
  media_root_ : text;
  running_ : bool;
  sessions_ : gmap Z nat;
  cmd_queue_ : list (Z * RTSPRequest);
  logic_efd_ : Z;
  pacer_efd_ : Z;
  pacer_pool_ : ThreadPool.pool (nat * Z);
  disp : dispatcher;
  logic_thread_ : logic;
  pacer_thread_ : pacer;
  main : main_thread;
  (* the live session objects, and the next unused identity *)
  heap : gmap nat (client M);
  next : nat;
  (* history: the commands pushed to [cmd_queue_], and those popped with the session found *)
  queued : list (Z * RTSPRequest);
  routed : list (Z * RTSPRequest * option nat)
}.
Arguments mkReactor {M}. Arguments media_root_ {M}. Arguments running_ {M}.
Arguments sessions_ {M}. Arguments cmd_queue_ {M}. Arguments logic_efd_ {M}.
Arguments pacer_efd_ {M}. Arguments pacer_pool_ {M}. Arguments disp {M}.
Arguments logic_thread_ {M}. Arguments pacer_thread_ {M}. Arguments main {M}.
Arguments heap {M}. Arguments next {M}. Arguments queued {M}. Arguments routed {M}.

#[global] Instance reactor_updatable M : Updatable (reactor M) := fun r =>
  mkReactor (media_root_ r) (running_ r) (sessions_ r) (cmd_queue_ r) (logic_efd_ r)
    (pacer_efd_ r) (pacer_pool_ r) (disp r) (logic_thread_ r) (pacer_thread_ r) (main r)
    (heap r) (next r) (queued r) (routed r).

(** [Reactor(host, port, media_root)] after [run] has started its three threads. *)
Definition reactor_init {M} (PacerWorkers : nat) (media_root : text) : reactor M := {|
  media_root_ := media_root; running_ := true; sessions_ := ∅; cmd_queue_ := [];
  logic_efd_ := 0; pacer_efd_ := 0; pacer_pool_ := ThreadPool.pool_init PacerWorkers;
  disp := DWait; logic_thread_ := LRead; pacer_thread_ := PWait; main := MDispatching;
  heap := ∅; next := 0%nat; queued := []; routed := []
|}.

(** [stoken.stop_requested()] of the Logic and the Pacer thread. *)
Definition stop_requested {M} (r : reactor M) : bool :=
  match main r with MDispatching => false | _ => true end.

(** ** Who holds a session *)

Definition disp_refs (d : dispatcher) : list nat :=
  match d with DAccepted _ p | DRoute _ p _ | DNotify _ p _ => [p] | _ => [] end.
Definition logic_refs (l : logic) : list nat :=
  match l with LFound p _ | LWake p => [p] | _ => [] end.
Definition pacer_refs (q : pacer) : list nat :=
  match q with
  | PActive _ active todo => active ++ todo
  | PClaimed _ active p todo => active ++ p :: todo
  | _ => []
  end.

(** The tasks queued and those on a worker. *)
Definition tasks (q : ThreadPool.pool (nat * Z)) : list (nat * Z) :=
  Queues.BlockingQueue.queue_ (ThreadPool.tasks_ q)
  ++ ThreadPool.running (ThreadPool.workers_ q).

Definition referenced {M} (r : reactor M) (p : nat) : Prop :=
  (exists fd, sessions_ r !! fd = Some p)
  \/ (p ∈ disp_refs (disp r)) \/ (p ∈ logic_refs (logic_thread_ r))
  \/ (p ∈ pacer_refs (pacer_thread_ r)) \/ (p ∈ (tasks (pacer_pool_ r)).*1).

(** ** The operations *)

Section reactor.
Context {M : Type} `{IMediaSource M}.
Implicit Types (c : client M) (r : reactor M).

(** [sessions_.find(fd)] *)
Definition find_session (fd : Z) r : option nat := sessions_ r !! fd.

(** [sessions_.emplace(fd, session)] leaves an existing entry alone. *)
Definition emplace (fd : Z) (p : nat) (m : gmap Z nat) : gmap Z nat :=
  match m !! fd with Some _ => m | None => <[fd := p]> m end.

(** [closeSession(fd)] *)
Definition closeSession (fd : Z) r : reactor M := r <| sessions_ := delete fd (sessions_ r) |>.

(** [acceptClient] up to the insertion: a new session for the descriptor [raw_fd]. *)
Definition acceptClient (raw_fd : Z) (ip session_id : text) (ssrc audio_ssrc : Z) r : reactor M :=
  let c := {| fd_ := raw_fd; sess := session_init ip (media_root_ r) session_id ssrc audio_ssrc;
              recv_buf_ := []; pacer_in_flight_ := false |} in
  r <| heap := <[next r := c]> (heap r) |> <| next := S (next r) |>
    <| sessions_ := emplace raw_fd (next r) (sessions_ r) |>
    <| disp := DAccepted raw_fd (next r) |>.

(** ... and the result of EPOLL_CTL_ADD. *)
Definition register (added : bool) (raw_fd : Z) r : reactor M :=
  let r := if added then r else r <| sessions_ := delete raw_fd (sessions_ r) |> in
  r <| disp := DWait |>.

(** [session->onWritable()] and [session->onReadable(parsed)] on an object; [None]: the call
    has not returned.  [ev_out] and [ev_in] are the system calls' results when the event has
    the flag. *)
Definition client_writable (ev_out : option (list send_result)) c : option (bool * client M) :=
  match ev_out with
  | None => Some (true, c)
  | Some results =>
      let '(res, _, o) := onWritable results (out (sess c)) in
      match res with
      | None => None
      | Some alive => Some (alive, c <| sess := (sess c) <| out := o |> |>)
      end
  end.

Definition client_readable (ev_in : option (nat * list Ingress.recv_result)) c
    : option (bool * list RTSPRequest * client M) :=
  match ev_in with
  | None => Some (true, [], c)
  | Some (fuel, results) =>
      match Ingress.onReadable fuel results (recv_buf_ c) with
      | None => None
      | Some (alive, reqs, buf) => Some (alive, reqs, c <| recv_buf_ := buf |>)
      end
  end.

(** One event of a client descriptor. *)
Definition client_event (fd : Z) (hangup : bool) (ev_out : option (list send_result))
    (ev_in : option (nat * list Ingress.recv_result)) r : option (reactor M) :=
  if hangup then Some (closeSession fd r)
  else
    match find_session fd r with
    | None => Some r
    | Some p =>
        match heap r !! p with
        | None => None
        | Some c =>
            match client_writable ev_out c with
            | None => None
            | Some (false, c) => Some (closeSession fd (r <| heap := <[p := c]> (heap r) |>))
            | Some (true, c) =>
                match client_readable ev_in c with
                | None => None
                | Some (false, _, c) => Some (closeSession fd (r <| heap := <[p := c]> (heap r) |>))
                | Some (true, parsed, c) =>
                    Some (r <| heap := <[p := c]> (heap r) |> <| disp := DRoute fd p parsed |>)
                end
            end
        end
    end.

(** [stop()] *)
Definition stop r : reactor M := r <| running_ := false |>.

(** [cmd_queue_.push] and the write to [logic_efd_] for one parsed request. *)
Definition route (fd : Z) (p : nat) (req : RTSPRequest) (rest : list RTSPRequest) r : reactor M :=
  r <| cmd_queue_ := Queues.NonBlockingQueue.push (fd, req) (cmd_queue_ r) |>
    <| queued := queued r ++ [(fd, req)] |> <| disp := DNotify fd p rest |>.
Definition notify (fd : Z) (p : nat) (rest : list RTSPRequest) r : reactor M :=
  r <| logic_efd_ := logic_efd_ r + 1 |> <| disp := DRoute fd p rest |>.

(** The head of [logicLoop]'s loop. *)
Definition logic_head r : reactor M :=
  r <| logic_thread_ := if stop_requested r then LDone else LRead |>.

(** The read of [logic_efd_] has returned; [v] is what is left in the counter. *)
Definition logic_woken (v : Z) r : reactor M :=
  r <| logic_efd_ := v |> <| logic_thread_ := if stop_requested r then LDone else LDrain |>.

(** [try_pop] *)
Definition logic_pop r : reactor M :=
  let '(opt, q) := Queues.NonBlockingQueue.try_pop (cmd_queue_ r) in
  match opt with
  | None => logic_head r
  | Some (client_fd, req) => r <| cmd_queue_ := q |> <| logic_thread_ := LPopped client_fd req |>
  end.

(** The look-up of the session by descriptor. *)
Definition logic_lookup (client_fd : Z) (req : RTSPRequest) r : reactor M :=
  let session := find_session client_fd r in
  r <| routed := routed r ++ [(client_fd, req, session)] |>
    <| logic_thread_ := match session with None => LDrain | Some p => LFound p req end |>.

(** [session->pushCommand(req)] *)
Definition pushCommand (req : RTSPRequest) c : client M :=
  c <| sess := (sess c) <| Session.cmd_queue_ := Session.cmd_queue_ (sess c) ++ [req] |> |>.

Definition logic_push (p : nat) (req : RTSPRequest) r : reactor M :=
  r <| heap := alter (pushCommand req) p (heap r) |> <| logic_thread_ := LWake p |>.

Definition logic_wake r : reactor M :=
  r <| pacer_efd_ := pacer_efd_ r + 1 |> <| logic_thread_ := LDrain |>.

(** The Pacer wakes: the counter is drained when it was the reason, and a snapshot of the
    sessions is taken. *)
Definition pacer_woken (efd : Z) (now : Z) (active : list nat) r : reactor M :=
  r <| pacer_efd_ := efd |>
    <| pacer_thread_ := if stop_requested r then PDone else PActive now active active |>.

(** [tryClaimPacerTick()] *)
Definition tryClaimPacerTick c : bool * client M :=
  if pacer_in_flight_ c then (false, c) else (true, c <| pacer_in_flight_ := true |>).

(** One turn of the loop over the snapshot. *)
Definition pacer_visit (now : Z) (active : list nat) (p : nat) (todo : list nat) r : reactor M :=
  match heap r !! p with
  | None => r
  | Some c =>
      let '(claimed, c) := tryClaimPacerTick c in
      r <| heap := <[p := c]> (heap r) |>
        <| pacer_thread_ := if claimed then PClaimed now active p todo
                            else PActive now active todo |>
  end.

(** [pacer_pool_.submit(...)]; an exception would end the process. *)
Definition pacer_submit (now : Z) (active : list nat) (p : nat) (todo : list nat) r
    : result unit * reactor M :=
  let '(res, pool) := ThreadPool.submit (p, now) (pacer_pool_ r) in
  (res, r <| pacer_pool_ := pool |> <| pacer_thread_ := PActive now active todo |>).

Definition pacer_head r : reactor M :=
  r <| pacer_thread_ := if stop_requested r then PDone else PWait |>.

(** The task: [pacerTick(now)], then [releasePacerTick()], which an exception skips; the
    exception ends in the task's [std::future]. *)
Definition run_task (envs : nat -> env) (now : Z) (sent : bytes -> Z) c : client M :=
  let '(s, res) := pacerTick envs now sent (sess c) in
  match res with
  | Ok _ => c <| sess := s |> <| pacer_in_flight_ := false |>
  | Throw _ => c <| sess := s |>
  end.

(** A worker ends its task. *)
Definition worker_done (envs : nat -> env) (sent : bytes -> Z) (i : nat) r : option (reactor M) :=
  match ThreadPool.workers_ (pacer_pool_ r) !! i, ThreadPool.worker_finish i (pacer_pool_ r) with
  | Some (ThreadPool.Running (p, now)), Some pool =>
      Some (r <| heap := alter (run_task envs now sent) p (heap r) |> <| pacer_pool_ := pool |>)
  | _, _ => None
  end.

(** The end of [run]: it waits for the Dispatcher, stops the other two, ... *)
Definition run_stop r : reactor M := r <| main := MStop |>.
Definition run_unblock r : reactor M := r <| logic_efd_ := logic_efd_ r + 1 |> <| main := MJoin |>.

(** ... shuts the pool down, and drops the sessions. *)
Definition run_shutdown r : reactor M :=
  match ThreadPool.shutdown_begin (pacer_pool_ r) with
  | Some pool => r <| pacer_pool_ := ThreadPool.shutdown_close pool |> <| main := MShutdown |>
  | None => r <| main := MClear |>
  end.
Definition run_clear r : reactor M := r <| sessions_ := ∅ |> <| main := MReturned |>.
End reactor.

(** ** Steps *)

Section steps.
Context {M : Type} `{IMediaSource M}.
Implicit Types (c : client M) (r : reactor M).

(** A descriptor the kernel can return: not that of a live session. *)
Definition fd_unused (fd : Z) r : Prop := forall p c, heap r !! p = Some c -> fd_ c <> fd.

Inductive dispatcher_step : reactor M -> reactor M -> Prop :=
| d_accept r raw_fd ip sid ssrc audio_ssrc :
    disp r = DWait -> running_ r = true -> 0 <= raw_fd -> fd_unused raw_fd r ->
    in_u32 ssrc -> in_u32 audio_ssrc ->
    dispatcher_step r (acceptClient raw_fd ip sid ssrc audio_ssrc r)
| d_register r added fd p : disp r = DAccepted fd p -> dispatcher_step r (register added fd r)
| d_event r fd hangup ev_out ev_in r' :
    disp r = DWait -> client_event fd hangup ev_out ev_in r = Some r' -> dispatcher_step r r'
| d_route r fd p req rest :
    disp r = DRoute fd p (req :: rest) -> dispatcher_step r (route fd p req rest r)
| d_notify r fd p rest : disp r = DNotify fd p rest -> dispatcher_step r (notify fd p rest r)
| d_routed r fd p : disp r = DRoute fd p [] -> dispatcher_step r (r <| disp := DWait |>)
| d_control r : disp r = DWait -> dispatcher_step r (stop r <| disp := DDone |>)
| d_stopped r : disp r = DWait -> running_ r = false -> dispatcher_step r (r <| disp := DDone |>)
| d_error r : disp r = DWait -> dispatcher_step r (r <| disp := DDone |>).

Inductive logic_step : reactor M -> reactor M -> Prop :=
| l_read r : logic_thread_ r = LRead -> 0 < logic_efd_ r -> logic_step r (logic_woken 0 r)
| l_pop r : logic_thread_ r = LDrain -> logic_step r (logic_pop r)
| l_lookup r fd req : logic_thread_ r = LPopped fd req -> logic_step r (logic_lookup fd req r)
| l_push r p req : logic_thread_ r = LFound p req -> logic_step r (logic_push p req r)
| l_wake r p : logic_thread_ r = LWake p -> logic_step r (logic_wake r).

Inductive pacer_step : reactor M -> reactor M -> Prop :=
| p_wake r efd now active :
    pacer_thread_ r = PWait -> efd = 0 \/ efd = pacer_efd_ r ->
    Permutation active (map_to_list (sessions_ r)).*2 ->
    pacer_step r (pacer_woken efd now active r)
| p_visit r now active p todo c :
    pacer_thread_ r = PActive now active (p :: todo) -> heap r !! p = Some c ->
    pacer_step r (pacer_visit now active p todo r)
| p_submit r now active p todo r' :
    pacer_thread_ r = PClaimed now active p todo ->
    pacer_submit now active p todo r = (Ok tt, r') -> pacer_step r r'
| p_end r now active : pacer_thread_ r = PActive now active [] -> pacer_step r (pacer_head r)
| p_interrupted r : pacer_thread_ r = PWait -> pacer_step r (pacer_head r)
| p_error r : pacer_thread_ r = PWait -> pacer_step r (r <| pacer_thread_ := PDone |>).

Inductive worker_step : reactor M -> reactor M -> Prop :=
| w_pop r i pool : ThreadPool.worker_pop i (pacer_pool_ r) = Some pool ->
    worker_step r (r <| pacer_pool_ := pool |>)
| w_done r i envs sent r' : worker_done envs sent i r = Some r' -> worker_step r r'.

Inductive run_step : reactor M -> reactor M -> Prop :=
| m_stop r : main r = MDispatching -> disp r = DDone -> run_step r (run_stop r)
| m_unblock r : main r = MStop -> run_step r (run_unblock r)
| m_shutdown r : main r = MJoin -> logic_thread_ r = LDone -> pacer_thread_ r = PDone ->
    run_step r (run_shutdown r)
| m_joined r : main r = MShutdown -> ThreadPool.joined (pacer_pool_ r) = true ->
    run_step r (r <| main := MClear |>)
| m_clear r : main r = MClear -> run_step r (run_clear r).

(** The steps of the threads, a call of [stop()] from outside, the read of the Logic thread
    interrupted by a signal, and the destructor of a session
    that nobody holds any more. *)
Inductive reactor_step : reactor M -> reactor M -> Prop :=
| step_dispatcher r r' : dispatcher_step r r' -> reactor_step r r'
| step_logic r r' : logic_step r r' -> reactor_step r r'
| step_pacer r r' : pacer_step r r' -> reactor_step r r'
| step_worker r r' : worker_step r r' -> reactor_step r r'
| step_run r r' : run_step r r' -> reactor_step r r'
| step_stop r : reactor_step r (stop r)
| step_interrupted r : logic_thread_ r = LRead -> reactor_step r (logic_head r)
| step_destroy r p : ~ referenced r p -> reactor_step r (r <| heap := delete p (heap r) |>).

Definition reactor_reachable (N : nat) (root : text) : reactor M -> Prop :=
  rtc reactor_step (reactor_init N root).
End steps.
