(* ===== verification/ReactorInv.v ===== *)
(** * [ReactorInv]: the invariants of the server's threads

    Who holds a session and which descriptor it has; the pacer slots; the sessions behind the
    shared pointers; the command queue; the order in which [run] ends; and what a tick that
    throws leaves behind.  Each is kept by every step of [Reactor]. *)

From S2P Require Import Prelude StdString RTSPRequest RTSPResponse RTPSender IMediaSource Egress.
From S2P Require Import Session SessionSpec Pacer SessionInv.
From S2P Require Queues ThreadPool Ingress.
From S2P Require Import Reactor.

(** ** Ownership *)

Section ownership.
Context {M : Type} `{IMediaSource M}.
Implicit Types (c : client M) (r : reactor M).

(** The descriptors of the live sessions. *)
Definition fds r : gmap nat Z := fd_ <$> heap r.

(** A session object is live while it is held; the map files it under its descriptor; and no
    two live sessions share a descriptor. *)
Record owned r : Prop := {
  ow_live : forall p, referenced r p -> is_Some (fds r !! p);
  ow_map : forall fd p, sessions_ r !! fd = Some p -> fds r !! p = Some fd;
  ow_fd : forall p q fd, fds r !! p = Some fd -> fds r !! q = Some fd -> p = q;
  ow_next : forall p fd, fds r !! p = Some fd -> (p < next r)%nat
}.

(** A step that makes and destroys no session and takes no new reference. *)
Record frame r r' : Prop := {
  fr_fds : fds r' = fds r;
  fr_next : next r' = next r;
  fr_map : sessions_ r' ⊆ sessions_ r;
  fr_refs : forall p, referenced r' p -> referenced r p
}.

Lemma frame_owned r r' : frame r r' -> owned r -> owned r'.
Proof.
  intros [Hf Hn Hm Hr] [Ol Om Of On]. constructor; intros *; rewrite ?Hf, ?Hn; eauto.
  intros E. apply Om. by eapply lookup_weaken.
Qed.

Lemma fds_insert r p c c' :
  heap r !! p = Some c -> fd_ c' = fd_ c -> fd_ <$> <[p := c']> (heap r) = fds r.
Proof.
  intros E Ef. rewrite fmap_insert, Ef. apply insert_id. unfold fds. by rewrite lookup_fmap, E.
Qed.

Lemma fds_alter r p (f : client M -> client M) :
  (forall c, fd_ (f c) = fd_ c) -> fd_ <$> alter f p (heap r) = fds r.
Proof.
  intros Hf. apply map_eq. intros q. unfold fds. rewrite !lookup_fmap.
  destruct (decide (p = q)) as [->|Hne];
    [rewrite lookup_alter_eq|by rewrite lookup_alter_ne].
  by destruct (heap r !! q); cbn; rewrite ?Hf.
Qed.

Lemma client_writable_spec ev c b c' :
  client_writable ev c = Some (b, c') ->
  fd_ c' = fd_ c /\ pacer_in_flight_ c' = pacer_in_flight_ c /\ recv_buf_ c' = recv_buf_ c
  /\ (session_reachable (sess c) -> session_reachable (sess c')).
Proof.
  unfold client_writable. destruct ev as [results|]; [|by intros [= <- <-]].
  destruct (onWritable results (out (sess c))) as [[[a|] w] o] eqn:E; [|done]. intros [= <- <-].
  split_and!; try done. simpl_update. intros Hr.
  pose proof (reach_onWritable (sess c) results Hr) as Hr'. by rewrite E in Hr'.
Qed.

Lemma client_readable_spec ev c b reqs c' :
  client_readable ev c = Some (b, reqs, c') ->
  fd_ c' = fd_ c /\ pacer_in_flight_ c' = pacer_in_flight_ c /\ sess c' = sess c.
Proof.
  unfold client_readable. destruct ev as [[fuel results]|]; [|by intros [= <- <- <-]].
  by destruct (Ingress.onReadable _ _ _) as [[[? ?] ?]|]; [intros [= <- <- <-]|].
Qed.

(** What an event of a client does: the map loses the session, or a session changes and its
    requests wait to be routed; the session keeps its descriptor and its slot. *)
Inductive event_effect (fd : Z) r : reactor M -> Prop :=
| eff_none : event_effect fd r r
| eff_close : event_effect fd r (closeSession fd r)
| eff_client p c c' (closed : bool) parsed :
    sessions_ r !! fd = Some p -> heap r !! p = Some c -> fd_ c' = fd_ c ->
    pacer_in_flight_ c' = pacer_in_flight_ c ->
    (session_reachable (sess c) -> session_reachable (sess c')) ->
    event_effect fd r
      (if closed then closeSession fd (r <| heap := <[p := c']> (heap r) |>)
       else r <| heap := <[p := c']> (heap r) |> <| disp := DRoute fd p parsed |>).

Lemma client_event_effect fd hangup ev_out ev_in r r' :
  client_event fd hangup ev_out ev_in r = Some r' -> event_effect fd r r'.
Proof.
  unfold client_event. destruct hangup; [intros [= <-]; by apply eff_close|].
  destruct (find_session fd r) as [p|] eqn:Ep; [|intros [= <-]; by apply eff_none].
  destruct (heap r !! p) as [c|] eqn:Ec; [|done].
  destruct (client_writable ev_out c) as [[b c1]|] eqn:Ew; [|done].
  apply client_writable_spec in Ew as (F1 & P1 & _ & S1). destruct b.
  2: { intros [= <-]. by apply (eff_client fd r p c c1 true []). }
  destruct (client_readable ev_in c1) as [[[b reqs] c2]|] eqn:Er; [|done].
  apply client_readable_spec in Er as (F2 & P2 & S2).
  destruct b; intros [= <-];
    [apply (eff_client fd r p c c2 false reqs)|apply (eff_client fd r p c c2 true [])];
    rewrite ?F2, ?P2, ?S2; auto.
Qed.

(** The tasks of the pool under its operations. *)
Lemma submit_tasks (t : nat * Z) q q' :
  ThreadPool.submit t q = (Ok tt, q') -> Permutation (tasks q') (t :: tasks q).
Proof.
  unfold ThreadPool.submit, Queues.BlockingQueue.push. cbn [Queues.BlockingQueue.is_full].
  destruct (Queues.BlockingQueue.closed_ _); [done|]. cbn. intros [= <-]. unfold tasks.
  simpl_update. cbn. rewrite <- app_assoc. symmetry. apply Permutation_middle.
Qed.

Lemma worker_pop_tasks i q q' :
  ThreadPool.worker_pop i q = Some q' -> Permutation (tasks q') (tasks q).
Proof.
  unfold ThreadPool.worker_pop, Queues.BlockingQueue.pop, Queues.BlockingQueue.dequeue,
    Queues.BlockingQueue.empty, tasks.
  destruct (ThreadPool.workers_ q !! i) as [[]|] eqn:Ei; try done.
  destruct (Queues.BlockingQueue.queue_ (ThreadPool.tasks_ q)) as [|t l] eqn:Eq; cbn.
  - destruct (Queues.BlockingQueue.closed_ _); [|done]. intros [= <-]. simpl_update. rewrite Eq.
    symmetry. by pose proof (ThreadPool.running_insert _ i _ ThreadPool.Exited Ei).
  - intros [= <-]. simpl_update. cbn. rewrite Permutation_middle. apply Permutation_app_head.
    by pose proof (ThreadPool.running_insert _ i _ (ThreadPool.Running t) Ei).
Qed.

Lemma worker_finish_tasks i t q q' :
  ThreadPool.workers_ q !! i = Some (ThreadPool.Running t) ->
  ThreadPool.worker_finish i q = Some q' -> Permutation (tasks q) (t :: tasks q').
Proof.
  unfold ThreadPool.worker_finish, tasks. intros Ei. rewrite Ei. intros [= <-]. simpl_update.
  rewrite Permutation_middle. apply Permutation_app_head.
  by pose proof (ThreadPool.running_insert _ i _ ThreadPool.Waiting Ei).
Qed.

Lemma worker_done_spec envs sent i r r' :
  worker_done envs sent i r = Some r' ->
  exists p now pool, Permutation (tasks (pacer_pool_ r)) ((p, now) :: tasks pool)
    /\ r' = r <| heap := alter (run_task envs now sent) p (heap r) |> <| pacer_pool_ := pool |>.
Proof.
  unfold worker_done.
  destruct (ThreadPool.workers_ (pacer_pool_ r) !! i) as [[|[p now]|]|] eqn:Ei; try done.
  destruct (ThreadPool.worker_finish _ _) as [pool|] eqn:Ef; [|done]. intros [= <-].
  exists p, now, pool. split; [by apply (worker_finish_tasks i)|done].
Qed.

Lemma run_task_fd envs now sent c : fd_ (run_task envs now sent c) = fd_ c.
Proof. unfold run_task. by destruct (pacerTick _ _ _ _) as [s []]. Qed.

(** Ends the goal that a reference in the state after a step was one before it. *)
Ltac solve_refs :=
  intros ?; unfold referenced; simpl_update;
  repeat match goal with E : disp _ = _ |- _ => rewrite !E; clear E
    | E : logic_thread_ _ = _ |- _ => rewrite !E; clear E
    | E : pacer_thread_ _ = _ |- _ => rewrite !E; clear E end;
  cbn [disp_refs logic_refs pacer_refs]; rewrite ?elem_of_app, ?elem_of_cons, ?elem_of_nil;
  try (intros ?; tauto).

Lemma refs_delete_session fd r p :
  (exists fd', delete fd (sessions_ r) !! fd' = Some p) -> exists fd', sessions_ r !! fd' = Some p.
Proof. intros [fd' [_ E]%lookup_delete_Some]. by exists fd'. Qed.

Lemma dispatcher_frame r r' :
  dispatcher_step r r' ->
  frame r r' \/ exists fd ip sid ssrc audio_ssrc,
    disp r = DWait /\ fd_unused fd r /\ in_u32 ssrc /\ in_u32 audio_ssrc
    /\ r' = acceptClient fd ip sid ssrc audio_ssrc r.
Proof.
  destruct 1 as [r fd ip sid x y Hd Hr Hp Hu Hx Hy|r added fd p Hd|r fd h eo ei r' Hd He
    |r fd p req rest Hd|r fd p rest Hd|r fd p Hd|r Hd|r Hd Hr|r Hd].
  { right. by exists fd, ip, sid, x, y. }
  all: left.
  - unfold register. destruct added; split; try done; simpl_update; try solve_refs.
    + apply delete_subseteq.
    + intros [Hq|Hq]; [|by tauto]. left. by apply refs_delete_session in Hq.
  - apply client_event_effect in He as [| |p c c' [] parsed Hm Hh Hf _ _].
    + by split.
    + unfold closeSession. split; try done; simpl_update; [apply delete_subseteq|]. solve_refs.
      intros [Hq|Hq]; [|by tauto]. left. by apply refs_delete_session in Hq.
    + unfold closeSession. split; try done; simpl_update.
      * by apply (fds_insert r p c c').
      * apply delete_subseteq.
      * solve_refs. intros [Hq|Hq]; [|by tauto]. left. by apply refs_delete_session in Hq.
    + split; try done; simpl_update; [by apply (fds_insert r p c c')|]. solve_refs.
      intros [Hq|[[->|[]]|Hq]]; [by left|left; by exists fd|tauto].
  - unfold route. split; try done. solve_refs.
  - unfold notify. split; try done. solve_refs.
  - split; try done. solve_refs.
  - unfold stop. split; try done. solve_refs.
  - split; try done. solve_refs.
  - split; try done. solve_refs.
Qed.

Lemma logic_frame r r' : logic_step r r' -> frame r r'.
Proof.
  destruct 1 as [r Hl He|r Hl|r fd req Hl|r p req Hl|r p Hl].
  - unfold logic_woken. split; try done. solve_refs. destruct (stop_requested r); set_solver.
  - unfold logic_pop, Queues.NonBlockingQueue.try_pop, logic_head.
    destruct (cmd_queue_ r) as [|[fd req] q]; split; try done; solve_refs.
    destruct (stop_requested r); cbn [logic_refs]; rewrite elem_of_nil; tauto.
  - unfold logic_lookup. split; try done. solve_refs. unfold find_session.
    destruct (sessions_ r !! fd) as [q|] eqn:E; cbn [logic_refs]; [|set_solver].
    intros [Hq|[Hq|[Hq|Hq]]]; try tauto. apply list_elem_of_singleton in Hq as ->. left. by exists fd.
  - unfold logic_push. split; try done; [by apply fds_alter|]. solve_refs.
  - unfold logic_wake. split; try done. solve_refs.
Qed.

Lemma pacer_frame r r' : pacer_step r r' -> frame r r'.
Proof.
  destruct 1 as [r efd now active Hp He Hm|r now active p todo c Hp Hc|r now active p todo r' Hp Hs
    |r now active Hp|r Hp|r Hp].
  - unfold pacer_woken. split; try done. solve_refs.
    destruct (stop_requested r); cbn [pacer_refs]; [set_solver|]. rewrite elem_of_app, Hm.
    intros [Hq|[Hq|[Hq|[Hq|Hq]]]]; try tauto; left;
      destruct Hq as [Hq|Hq] || idtac; apply list_elem_of_fmap in Hq as ([fd q] & -> & Hq);
      exists fd; by apply elem_of_map_to_list.
  - unfold pacer_visit, tryClaimPacerTick. rewrite Hc.
    destruct (pacer_in_flight_ c); (split; try done; [by eapply fds_insert|]); solve_refs;
      cbn [pacer_refs]; rewrite ?elem_of_app, ?elem_of_cons; tauto.
  - unfold pacer_submit in Hs. destruct (ThreadPool.submit _ _) as [res pool] eqn:Es.
    injection Hs as -> <-. split; try done. solve_refs.
    rewrite (submit_tasks _ _ _ Es), fmap_cons, elem_of_cons. tauto.
  - unfold pacer_head. split; try done. solve_refs. destruct (stop_requested r); set_solver.
  - unfold pacer_head. split; try done. solve_refs. destruct (stop_requested r); set_solver.
  - split; try done. solve_refs.
Qed.

Lemma worker_frame r r' : worker_step r r' -> frame r r'.
Proof.
  destruct 1 as [r i pool Hp|r i envs sent r' Hd].
  - split; try done. solve_refs. rewrite (worker_pop_tasks _ _ _ Hp). tauto.
  - apply worker_done_spec in Hd as (p & now & pool & Ht & ->).
    split; try done; [apply fds_alter, run_task_fd|]. solve_refs. rewrite Ht.
    rewrite fmap_cons, elem_of_cons. tauto.
Qed.

Lemma run_frame r r' : run_step r r' -> frame r r'.
Proof.
  destruct 1 as [r Hm Hd|r Hm|r Hm Hl Hp|r Hm Hj|r Hm].
  - unfold run_stop. split; try done; solve_refs.
  - unfold run_unblock. split; try done; solve_refs.
  - unfold run_shutdown, ThreadPool.shutdown_begin.
    destruct (ThreadPool.shutdown_done_ _); split; try done; solve_refs.
  - split; try done; solve_refs.
  - unfold run_clear. split; try done; simpl_update; [apply map_empty_subseteq|].
    solve_refs. intros [[fd Hq]|Hq]; [|tauto]. by rewrite lookup_empty in Hq.
Qed.

Lemma owned_accept r fd ip sid ssrc audio_ssrc :
  owned r -> disp r = DWait -> fd_unused fd r ->
  owned (acceptClient fd ip sid ssrc audio_ssrc r).
Proof.
  intros [Ol Om Of On] Hd Hu.
  assert (forall p, fds r !! p <> Some fd) as Hfd.
  { intros p. unfold fds. rewrite lookup_fmap. destruct (heap r !! p) as [c|] eqn:E; [|done].
    intros [= Ec]. by apply (Hu p c E). }
  assert (fds (acceptClient fd ip sid ssrc audio_ssrc r) = <[next r := fd]> (fds r)) as Ef
    by (unfold fds, acceptClient; simpl_update; by rewrite fmap_insert).
  assert (fds r !! next r = None) as Hn.
  { destruct (fds r !! next r) as [x|] eqn:E; [|done]. apply On in E. lia. }
  assert (sessions_ (acceptClient fd ip sid ssrc audio_ssrc r) = <[fd := next r]> (sessions_ r)) as Es.
  { unfold acceptClient. simpl_update. unfold emplace.
    destruct (sessions_ r !! fd) as [q|] eqn:E; [|done]. by apply Om, Hfd in E. }
  constructor; rewrite ?Ef, ?Es.
  - intros p Hr. destruct (decide (p = next r)) as [->|Hne]; [by rewrite lookup_insert_eq|].
    rewrite lookup_insert_ne by done. apply Ol. revert Hr. unfold referenced. rewrite Es, Hd.
    unfold acceptClient. simpl_update. cbn [disp_refs]. rewrite list_elem_of_singleton, elem_of_nil.
    intros [[fd' [[-> <-]|[? ?]]%lookup_insert_Some]|[?|?]]; try tauto. left. by exists fd'.
  - intros fd' p [[-> <-]|[Hne E]]%lookup_insert_Some; [by rewrite lookup_insert_eq|].
    apply Om in E. rewrite lookup_insert_ne; [done|]. intros <-. by rewrite Hn in E.
  - intros p q fd' [[<- <-]|[Hp E]]%lookup_insert_Some [[<- F]|[Hq F]]%lookup_insert_Some;
      try done; [by apply Hfd in F|by subst; apply Hfd in E|by eapply Of].
  - intros p fd' [[<- <-]|[Hp E]]%lookup_insert_Some; unfold acceptClient; simpl_update; [lia|].
    apply On in E. lia.
Qed.

Lemma reactor_step_owned r r' : owned r -> reactor_step r r' -> owned r'.
Proof.
  intros Ho. destruct 1 as [r r' Hs|r r' Hs|r r' Hs|r r' Hs|r r' Hs|r|r Hl|r p Hp].
  - apply dispatcher_frame in Hs as [Hf|(fd & ip & sid & x & y & Hd & Hu & _ & _ & ->)];
      [by eapply frame_owned|by apply owned_accept].
  - eapply frame_owned; [by apply logic_frame|done].
  - eapply frame_owned; [by apply pacer_frame|done].
  - eapply frame_owned; [by apply worker_frame|done].
  - eapply frame_owned; [by apply run_frame|done].
  - eapply frame_owned; [|done]. unfold stop. split; try done; solve_refs.
  - eapply frame_owned; [|done]. unfold logic_head. split; try done; solve_refs.
    destruct (stop_requested r); set_solver.
  - destruct Ho as [Ol Om Of On].
    assert (fds (r <| heap := delete p (heap r) |>) = delete p (fds r)) as Ef
      by (unfold fds; simpl_update; by rewrite fmap_delete).
    constructor; rewrite ?Ef; simpl_update.
    + intros q Hq. change (referenced r q) in Hq. rewrite lookup_delete_ne; [by apply Ol|congruence].
    + intros fd q E. rewrite lookup_delete_ne; [by apply Om|]. intros <-. apply Hp. left. by exists fd.
    + intros q q' fd [_ E]%lookup_delete_Some [_ F]%lookup_delete_Some. by eapply Of.
    + intros q fd [_ E]%lookup_delete_Some. by apply On in E.
Qed.

Lemma tasks_init N root : tasks (pacer_pool_ (reactor_init (M := M) N root)) = [].
Proof. apply ThreadPool.running_replicate. Qed.

Lemma owned_init N root : owned (reactor_init (M := M) N root).
Proof.
  constructor; intros *; cbn; rewrite ?lookup_empty; try done.
  unfold referenced. rewrite tasks_init.
  intros [[fd E]|[Hq|[Hq|[Hq|Hq]]]]; [by destruct (lookup_empty_Some (M := gmap Z) fd p E)| | | |]; by apply elem_of_nil in Hq.
Qed.

Lemma reachable_owned N root r : reactor_reachable N root r -> owned r.
Proof.
  revert r. apply rtc_ind_r; [apply owned_init|]. intros r r' _ Hs Ho.
  by apply (reactor_step_owned r).
Qed.
End ownership.

(** ** The pacer slots *)

Section slots.
Context {M : Type} `{IMediaSource M}.
Implicit Types (c : client M) (r : reactor M).

(** The ticks that are claimed, queued or running, by session. *)
Definition claimed (q : pacer) : list nat :=
  match q with PClaimed _ _ p _ => [p] | _ => [] end.
Definition slots r : list nat := claimed (pacer_thread_ r) ++ (tasks (pacer_pool_ r)).*1.

(** The flag of a live session. *)
Definition in_flight r (p : nat) : option bool := pacer_in_flight_ <$> heap r !! p.

Record slotted r : Prop := {
  sl_once : NoDup (slots r);
  sl_flag : forall p, p ∈ slots r -> in_flight r p = Some true
}.

Lemma slotted_weaken r r' :
  Permutation (slots r') (slots r) -> (forall p, in_flight r' p = in_flight r p) ->
  slotted r -> slotted r'.
Proof.
  intros Hs Hf [Ho Hg]. constructor; [by rewrite Hs|]. intros p. rewrite Hs, Hf. apply Hg.
Qed.

Lemma in_flight_insert r p c c' q :
  heap r !! p = Some c -> pacer_in_flight_ c' = pacer_in_flight_ c ->
  pacer_in_flight_ <$> <[p := c']> (heap r) !! q = in_flight r q.
Proof.
  intros E Ef. unfold in_flight. destruct (decide (p = q)) as [<-|Hne];
    [rewrite lookup_insert_eq, E; cbn; by rewrite Ef|by rewrite lookup_insert_ne].
Qed.

Lemma in_flight_alter r p (f : client M -> client M) q :
  (forall c, pacer_in_flight_ (f c) = pacer_in_flight_ c) ->
  pacer_in_flight_ <$> alter f p (heap r) !! q = in_flight r q.
Proof.
  intros Hf. unfold in_flight. destruct (decide (p = q)) as [<-|Hne];
    [rewrite lookup_alter_eq|by rewrite lookup_alter_ne].
  destruct (heap r !! p); cbn; by rewrite ?Hf.
Qed.

Lemma slots_referenced r p : p ∈ slots r -> referenced r p.
Proof.
  unfold slots, referenced. rewrite elem_of_app. intros [Hp|Hp]; [|by do 4 right].
  do 3 right. left. destruct (pacer_thread_ r); cbn [claimed] in Hp; try by apply elem_of_nil in Hp.
  apply list_elem_of_singleton in Hp as ->. cbn [pacer_refs]. rewrite elem_of_app, elem_of_cons. auto.
Qed.

Lemma dispatcher_slotted r r' : owned r -> slotted r -> dispatcher_step r r' -> slotted r'.
Proof.
  intros Ho Hs Hd. destruct Hd as [r fd ip sid x y Hd Hr Hp Hu Hx Hy|r added fd p Hd
    |r fd h eo ei r' Hd He|r fd p req rest Hd|r fd p rest Hd|r fd p Hd|r Hd|r Hd Hr|r Hd].
  - destruct Hs as [Hs Hf]. constructor; [exact Hs|].
    intros p Hp'. change (p ∈ slots r) in Hp'. unfold in_flight, acceptClient. simpl_update.
    destruct (ow_live r Ho p (slots_referenced r p Hp')) as [fd' E].
    apply (ow_next r Ho) in E. rewrite lookup_insert_ne by lia. by apply Hf.
  - by apply (slotted_weaken r); [unfold register; destruct added|unfold register; destruct added|].
  - apply client_event_effect in He as [| |p c c' [] parsed Hm Hh _ Hf _]; [done| | |].
    + by apply (slotted_weaken r).
    + apply (slotted_weaken r); [done| |done]. intros q. by apply (in_flight_insert r p c c').
    + apply (slotted_weaken r); [done| |done]. intros q. by apply (in_flight_insert r p c c').
  - by apply (slotted_weaken r).
  - by apply (slotted_weaken r).
  - by apply (slotted_weaken r).
  - by apply (slotted_weaken r).
  - by apply (slotted_weaken r).
  - by apply (slotted_weaken r).
Qed.

Lemma logic_slotted r r' : slotted r -> logic_step r r' -> slotted r'.
Proof.
  intros Hs Hl. destruct Hl as [r Hl He|r Hl|r fd req Hl|r p req Hl|r p Hl].
  - by apply (slotted_weaken r).
  - unfold logic_pop. destruct (Queues.NonBlockingQueue.try_pop _) as [[[fd req]|] q];
      by apply (slotted_weaken r).
  - by apply (slotted_weaken r).
  - apply (slotted_weaken r); [done| |done]. intros q. by apply in_flight_alter.
  - by apply (slotted_weaken r).
Qed.

Lemma pacer_slotted r r' : slotted r -> pacer_step r r' -> slotted r'.
Proof.
  intros Hs Hp. destruct Hp as [r efd now active Hp He Hm|r now active p todo c Hp Hc
    |r now active p todo r' Hp Hq|r now active Hp|r Hp|r Hp].
  - apply (slotted_weaken r); [|done|done]. unfold slots, pacer_woken. simpl_update. rewrite Hp.
    by destruct (stop_requested r).
  - unfold pacer_visit, tryClaimPacerTick. rewrite Hc. destruct (pacer_in_flight_ c) eqn:Ef.
    { apply (slotted_weaken r); [|intros q; by apply (in_flight_insert r p c c)|done].
      unfold slots. simpl_update. by rewrite Hp. }
    assert (p ∉ slots r) as Hn.
    { intros Hin. apply (sl_flag r Hs) in Hin. unfold in_flight in Hin. rewrite Hc in Hin.
      injection Hin. congruence. }
    destruct Hs as [Ho Hf]. unfold slots in Ho, Hf, Hn. rewrite Hp in Ho, Hf, Hn.
    constructor; unfold slots, in_flight; simpl_update; cbn [claimed app] in *; [by constructor|].
    intros q [->|Hq]%elem_of_cons; [by rewrite lookup_insert_eq|].
    rewrite lookup_insert_ne by congruence. by apply Hf.
  - unfold pacer_submit in Hq. destruct (ThreadPool.submit _ _) as [res pool] eqn:Es.
    injection Hq as -> <-. apply (slotted_weaken r); [|done|done].
    unfold slots. simpl_update. by rewrite Hp, (submit_tasks _ _ _ Es).
  - apply (slotted_weaken r); [|done|done]. unfold slots, pacer_head. simpl_update. rewrite Hp.
    by destruct (stop_requested r).
  - apply (slotted_weaken r); [|done|done]. unfold slots, pacer_head. simpl_update. rewrite Hp.
    by destruct (stop_requested r).
  - apply (slotted_weaken r); [|done|done]. unfold slots. simpl_update. by rewrite Hp.
Qed.

Lemma worker_slotted r r' : slotted r -> worker_step r r' -> slotted r'.
Proof.
  intros Hs Hw. destruct Hw as [r i pool Hp|r i envs sent r' Hd].
  - apply (slotted_weaken r); [|done|done]. unfold slots. simpl_update.
    by rewrite (worker_pop_tasks _ _ _ Hp).
  - apply worker_done_spec in Hd as (p & now & pool & Ht & ->). destruct Hs as [Ho Hf].
    unfold slots in Ho, Hf. rewrite Ht, fmap_cons, <- Permutation_middle in Ho. cbn [fst] in Ho.
    apply NoDup_cons in Ho as [Hn Ho].
    constructor; unfold slots, in_flight; simpl_update; [done|]. intros q Hq.
    rewrite lookup_alter_ne by congruence. apply Hf. rewrite Ht, fmap_cons.
    rewrite elem_of_app in Hq |- *. rewrite elem_of_cons. tauto.
Qed.

Lemma run_slotted r r' : slotted r -> run_step r r' -> slotted r'.
Proof.
  intros Hs Hm. destruct Hm as [r Hm Hd|r Hm|r Hm Hl Hp|r Hm Hj|r Hm];
    try by apply (slotted_weaken r).
  unfold run_shutdown, ThreadPool.shutdown_begin.
  destruct (ThreadPool.shutdown_done_ _); by apply (slotted_weaken r).
Qed.

Lemma reactor_step_slotted r r' : owned r -> slotted r -> reactor_step r r' -> slotted r'.
Proof.
  intros Ho Hs. destruct 1 as [r r' Hd|r r' Hl|r r' Hp|r r' Hw|r r' Hm|r|r Hl|r p Hp].
  - by apply (dispatcher_slotted r).
  - by apply (logic_slotted r).
  - by apply (pacer_slotted r).
  - by apply (worker_slotted r).
  - by apply (run_slotted r).
  - by apply (slotted_weaken r).
  - by apply (slotted_weaken r).
  - destruct Hs as [Hs Hf]. constructor; [exact Hs|]. intros q Hq. change (q ∈ slots r) in Hq.
    unfold in_flight. simpl_update. rewrite lookup_delete_ne; [by apply Hf|].
    intros ->. by apply Hp, slots_referenced.
Qed.

Lemma reachable_slotted N root r : reactor_reachable N root r -> slotted r.
Proof.
  intros Hr. assert (owned r /\ slotted r) as [_ Hs]; [|done]. revert r Hr. apply rtc_ind_r.
  - split; [apply owned_init|]. constructor; unfold slots; rewrite tasks_init; cbn.
    + constructor.
    + intros p Hp. by apply elem_of_nil in Hp.
  - intros r r' _ Hs [Ho Hl]. split; [by apply (reactor_step_owned r)|by apply (reactor_step_slotted r)].
Qed.
End slots.

(** ** The sessions *)

Section sessions.
Context {M : Type} `{IMediaSource M}.
Implicit Types (c : client M) (r : reactor M).

(** Every live session is in a state that its handlers, ticks and writes lead to. *)
Definition sessions_ok r : Prop :=
  forall p c, heap r !! p = Some c -> session_reachable (sess c).

Lemma sessions_ok_insert r p c :
  sessions_ok r -> session_reachable (sess c) ->
  forall q d, <[p := c]> (heap r) !! q = Some d -> session_reachable (sess d).
Proof. intros Hr Hc q d [[<- <-]|[_ E]]%lookup_insert_Some; [done|by apply (Hr q)]. Qed.

Lemma sessions_ok_alter r p (f : client M -> client M) :
  sessions_ok r -> (forall c, session_reachable (sess c) -> session_reachable (sess (f c))) ->
  forall q d, alter f p (heap r) !! q = Some d -> session_reachable (sess d).
Proof.
  intros Hr Hf q d. destruct (decide (p = q)) as [<-|Hne].
  - rewrite lookup_alter_eq. intros (c & E & ->)%fmap_Some. by apply Hf, (Hr p).
  - rewrite lookup_alter_ne by done. apply Hr.
Qed.

Lemma run_task_reachable envs now sent c :
  session_reachable (sess c) -> session_reachable (sess (run_task envs now sent c)).
Proof.
  intros Hr. apply (reach_tick (sess c) envs now sent) in Hr. unfold run_task.
  by destruct (pacerTick envs now sent (sess c)) as [s [[]|e]].
Qed.

Lemma dispatcher_sessions r r' : sessions_ok r -> dispatcher_step r r' -> sessions_ok r'.
Proof.
  intros Hs Hd. destruct Hd as [r fd ip sid x y Hd Hr Hp Hu Hx Hy|r added fd p Hd
    |r fd h eo ei r' Hd He|r fd p req rest Hd|r fd p rest Hd|r fd p Hd|r Hd|r Hd Hr|r Hd];
    try done.
  - intros p c. apply sessions_ok_insert; [done|]. by apply reach_made.
  - unfold register. by destruct added.
  - apply client_event_effect in He as [| |p c c' [] parsed Hm Hh _ _ Hr]; try done;
      intros q d; (apply sessions_ok_insert; [done|]); apply Hr; by apply (Hs p).
Qed.

Lemma reactor_step_sessions r r' : sessions_ok r -> reactor_step r r' -> sessions_ok r'.
Proof.
  intros Hs. destruct 1 as [r r' Hd|r r' Hl|r r' Hp|r r' Hw|r r' Hm|r|r Hl|r p Hp]; try done.
  - by apply (dispatcher_sessions r).
  - destruct Hl as [r Hl He|r Hl|r fd req Hl|r p req Hl|r p Hl]; try done.
    + unfold logic_pop. by destruct (Queues.NonBlockingQueue.try_pop _) as [[[fd req]|] q].
    + intros q d. apply sessions_ok_alter; [done|]. intros c. apply reach_pushCommand.
  - destruct Hp as [r efd now active Hp He Hm|r now active p todo c Hp Hc
      |r now active p todo r' Hp Hq|r now active Hp|r Hp|r Hp]; try done.
    + unfold pacer_visit, tryClaimPacerTick. rewrite Hc.
      destruct (pacer_in_flight_ c); intros q d; (apply sessions_ok_insert; [done|]); exact (Hs p c Hc).
    + unfold pacer_submit in Hq. destruct (ThreadPool.submit _ _). by injection Hq as -> <-.
  - destruct Hw as [r i pool Hp|r i envs sent r' Hd]; [done|].
    apply worker_done_spec in Hd as (p & now & pool & _ & ->).
    intros q d. apply sessions_ok_alter; [done|]. intros c. apply run_task_reachable.
  - destruct Hm; try done. unfold run_shutdown. by destruct (ThreadPool.shutdown_begin _).
  - intros q d E. simpl_update_in E. apply lookup_delete_Some in E as [_ E]. by apply (Hs q).
Qed.

Lemma reachable_sessions N root r : reactor_reachable N root r -> sessions_ok r.
Proof.
  revert r. apply rtc_ind_r; [|intros r r' _ Hs Ho; by apply (reactor_step_sessions r)].
  intros p c E. by destruct (lookup_empty_Some (M := gmap nat) p c E).
Qed.
End sessions.

(** ** The command queue *)

Section routing.
Context {M : Type} `{IMediaSource M}.
Implicit Types (c : client M) (r : reactor M).

(** The command the Logic thread has popped and not looked up. *)
Definition in_hand (l : logic) : list (Z * RTSPRequest) :=
  match l with LPopped fd req => [(fd, req)] | _ => [] end.

Definition notifying (d : dispatcher) : bool :=
  match d with DNotify _ _ _ => true | _ => false end.

(** Nothing is lost or reordered between the Dispatcher and the look-up; and the Logic thread
    is not asleep on a queue that has commands. *)
Record routing r : Prop := {
  ro_log : (routed r).*1 ++ in_hand (logic_thread_ r) ++ cmd_queue_ r = queued r;
  ro_efd : 0 <= logic_efd_ r;
  ro_wake : logic_thread_ r = LRead -> cmd_queue_ r <> [] ->
            0 < logic_efd_ r \/ notifying (disp r) = true
}.

(** A step that leaves the pipeline alone. *)
Definition pipeline r :=
  (routed r, logic_thread_ r, cmd_queue_ r, queued r, logic_efd_ r, notifying (disp r)).

Lemma routing_same r r' : pipeline r' = pipeline r -> routing r -> routing r'.
Proof.
  intros [= E1 E2 E3 E4 E5 E6] [Rl Re Rw].
  constructor; rewrite ?E1, ?E2, ?E3, ?E4, ?E5, ?E6; done.
Qed.

Lemma pipeline_dispatcher r r' :
  disp r = DWait -> dispatcher_step r r' -> pipeline r' = pipeline r.
Proof.
  intros E Hd. unfold pipeline. rewrite E. destruct Hd as [r fd ip sid x y Hd Hr Hp Hu Hx Hy|r added fd p Hd
    |r fd h eo ei r' Hd He|r fd p req rest Hd|r fd p rest Hd|r fd p Hd|r Hd|r Hd Hr|r Hd];
    try done; try congruence.
  apply client_event_effect in He as [| |p c c' [] parsed Hm Hh _ _ _];
    unfold closeSession; simpl_update; by rewrite ?E.
Qed.

Lemma dispatcher_routing r r' : routing r -> dispatcher_step r r' -> routing r'.
Proof.
  intros Hr Hd. destruct (disp r) eqn:Ed.
  1: { by eapply routing_same, Hr; apply pipeline_dispatcher. }
  all: destruct Hd as [r fd0 ip sid x y Hd Hrn Hp Hu Hx Hy|r added fd0 p0 Hd
    |r fd0 h eo ei r' Hd He|r fd0 p0 req rest Hd|r fd0 p0 rest Hd|r fd0 p0 Hd|r Hd|r Hd Hrn|r Hd];
    rewrite Ed in Hd; try discriminate Hd.
  - eapply routing_same, Hr. unfold register, pipeline. by destruct added; rewrite Ed.
  - destruct Hr as [Rl Re Rw]. constructor; unfold route; simpl_update; [|done|by right].
    unfold Queues.NonBlockingQueue.push. by rewrite <- Rl, <- !app_assoc.
  - eapply routing_same, Hr. unfold pipeline. by rewrite Ed.
  - destruct Hr as [Rl Re Rw]. constructor; unfold notify; simpl_update; [done|lia|].
    left. lia.
Qed.

Lemma logic_routing r r' : routing r -> logic_step r r' -> routing r'.
Proof.
  intros [Rl Re Rw] Hs. destruct Hs as [r Hl He|r Hl|r fd req Hl|r p req Hl|r p Hl];
    rewrite Hl in Rl; cbn [in_hand] in Rl.
  - constructor; unfold logic_woken; simpl_update; try done; by destruct (stop_requested r).
  - unfold logic_pop, Queues.NonBlockingQueue.try_pop, logic_head.
    destruct (cmd_queue_ r) as [|[fd req] q] eqn:Eq.
    + constructor; simpl_update; try done; rewrite ?Eq; by destruct (stop_requested r).
    + by constructor; simpl_update.
  - constructor; unfold logic_lookup; simpl_update; try done.
    + rewrite <- Rl, fmap_app, <- app_assoc. cbn. by destruct (find_session fd r).
    + by destruct (find_session fd r).
  - by constructor.
  - by constructor.
Qed.

Lemma reactor_step_routing r r' : routing r -> reactor_step r r' -> routing r'.
Proof.
  intros Hr. destruct 1 as [r r' Hd|r r' Hl|r r' Hp|r r' Hw|r r' Hm|r|r Hl|r p Hp].
  - by apply (dispatcher_routing r).
  - by apply (logic_routing r).
  - apply (routing_same r); [|done].
    destruct Hp as [| |r now active p todo r' Hp Hq| | |]; try done.
    + unfold pacer_visit. destruct (heap r !! p) as [d|]; [|done]. by destruct (tryClaimPacerTick d).
    + unfold pacer_submit in Hq. destruct (ThreadPool.submit _ _). by injection Hq as -> <-.
  - apply (routing_same r); [|done]. destruct Hw as [r i pool Hp|r i envs sent r' Hd]; [done|].
    by apply worker_done_spec in Hd as (p & now & pool & _ & ->).
  - destruct Hr as [Rl Re Rw]. destruct Hm; try by constructor.
    + constructor; unfold run_unblock; simpl_update; [done|lia|]. left. lia.
    + unfold run_shutdown. destruct (ThreadPool.shutdown_begin _); by constructor.
  - by apply (routing_same r).
  - destruct Hr as [Rl Re Rw]. rewrite Hl in Rl. constructor; unfold logic_head; simpl_update; [|done|].
    + by destruct (stop_requested r).
    + intros _ Hq. by apply Rw.
  - by apply (routing_same r).
Qed.

Lemma reachable_routing N root r : reactor_reachable N root r -> routing r.
Proof.
  revert r. apply rtc_ind_r; [by constructor|]. intros r r' _ Hs Hr. by apply (reactor_step_routing r).
Qed.
End routing.

(** ** The end of [run] *)

Section phases.
Context {M : Type} `{IMediaSource M}.
Implicit Types (c : client M) (r : reactor M).

(** The main thread is past the joins of the Logic and the Pacer thread; past those of the
    workers. *)
Definition threads_joined (m : main_thread) : bool :=
  match m with MShutdown | MClear | MReturned => true | _ => false end.
Definition workers_joined (m : main_thread) : bool :=
  match m with MClear | MReturned => true | _ => false end.

Lemma reachable_pool N root r :
  reactor_reachable N root r -> ThreadPool.reachable N (pacer_pool_ r).
Proof.
  revert r. apply rtc_ind_r; [apply ThreadPool.reach_init|]. intros r r' _ Hs Hr.
  assert (pacer_pool_ r' = pacer_pool_ r \/ ThreadPool.reachable N (pacer_pool_ r')) as [->|]; [|done..].
  destruct Hs as [r r' Hd|r r' Hl|r r' Hp|r r' Hw|r r' Hm|r|r Hl|r p Hq]; try by left.
  - left. destruct Hd as [| |r fd h eo ei r' Hd He| | | | | |]; try done.
    + unfold register. by destruct added.
    + by apply client_event_effect in He as [| |p c c' [] parsed Hm Hh _ _ _].
  - left. destruct Hl; try done.
    unfold logic_pop. by destruct (Queues.NonBlockingQueue.try_pop _) as [[[fd req]|] q].
  - destruct Hp as [|r now active p todo c Hq Hc|r now active p todo r' Hq Hs| | |]; try by left.
    + left. unfold pacer_visit. rewrite Hc. by destruct (tryClaimPacerTick c).
    + right. unfold pacer_submit in Hs. destruct (ThreadPool.submit _ _) as [res pool] eqn:Es.
      injection Hs as -> <-. eapply ThreadPool.reach_step; [done|]. by eapply ThreadPool.pstep_submit.
  - right. eapply ThreadPool.reach_step; [done|]. apply ThreadPool.pstep_worker.
    destruct Hw as [r i pool Hp|r i envs sent r' Hd]; [by eapply ThreadPool.wstep_pop|].
    unfold worker_done in Hd.
    destruct (ThreadPool.workers_ (pacer_pool_ r) !! i) as [[|[p now]|]|]; try done.
    destruct (ThreadPool.worker_finish i (pacer_pool_ r)) as [pool|] eqn:Ef; [|done].
    injection Hd as <-. by eapply ThreadPool.wstep_finish.
  - destruct Hm; try by left. unfold run_shutdown, ThreadPool.shutdown_begin.
    destruct (ThreadPool.shutdown_done_ (pacer_pool_ r)) eqn:Ed; [by left|]. right.
    eapply ThreadPool.reach_step; [eapply ThreadPool.reach_step; [done|]|].
    + apply ThreadPool.pstep_shutdown. unfold ThreadPool.shutdown_begin. by rewrite Ed.
    + by apply ThreadPool.pstep_close.
Qed.

Definition pool_closed r : bool := Queues.BlockingQueue.closed_ (ThreadPool.tasks_ (pacer_pool_ r)).

Record phased r : Prop := {
  ph_disp : stop_requested r = true -> disp r = DDone;
  ph_threads : threads_joined (main r) = true -> logic_thread_ r = LDone /\ pacer_thread_ r = PDone;
  ph_closed : pool_closed r = threads_joined (main r);
  ph_once : ThreadPool.shutdown_done_ (pacer_pool_ r) = threads_joined (main r);
  ph_workers : workers_joined (main r) = true -> ThreadPool.joined (pacer_pool_ r) = true;
  ph_cleared : main r = MReturned -> sessions_ r = ∅;
  ph_unblock : main r = MJoin -> logic_thread_ r = LRead -> 0 < logic_efd_ r
}.

(** A step that leaves the threads that have ended and the pool's flags alone. *)
Lemma phased_same r r' :
  main r' = main r -> (disp r = DDone -> disp r' = DDone) ->
  (logic_thread_ r = LDone -> logic_thread_ r' = LDone) ->
  (pacer_thread_ r = PDone -> pacer_thread_ r' = PDone) ->
  pool_closed r' = pool_closed r ->
  ThreadPool.shutdown_done_ (pacer_pool_ r') = ThreadPool.shutdown_done_ (pacer_pool_ r) ->
  (ThreadPool.joined (pacer_pool_ r) = true -> ThreadPool.joined (pacer_pool_ r') = true) ->
  (sessions_ r = ∅ -> disp r = DDone -> sessions_ r' = ∅) ->
  (stop_requested r = true -> logic_thread_ r' = LRead ->
     logic_thread_ r = LRead /\ logic_efd_ r' = logic_efd_ r) ->
  phased r -> phased r'.
Proof.
  intros Em Ed El Ep Ec Es Ej Ee Eu [Pd Pt Pc Po Pw Pe Pu].
  assert (stop_requested r' = stop_requested r) as Est by (unfold stop_requested; by rewrite Em).
  constructor; rewrite ?Em, ?Ec, ?Es, ?Est; auto.
  - intros Ht. by destruct (Pt Ht) as [?%El ?%Ep].
  - intros Hm. apply Ee; [auto|]. apply Pd. unfold stop_requested. by rewrite Hm.
  - intros Hm Hl. assert (stop_requested r = true) as Hr by (unfold stop_requested; by rewrite Hm).
    destruct (Eu Hr Hl) as [Hl' ->]. auto.
Qed.

Lemma dispatcher_alive r r' : dispatcher_step r r' -> disp r <> DDone.
Proof. intros Hd. destruct Hd; congruence. Qed.

Lemma dispatcher_others r r' :
  dispatcher_step r r' ->
  main r' = main r /\ logic_thread_ r' = logic_thread_ r /\ pacer_thread_ r' = pacer_thread_ r
  /\ pacer_pool_ r' = pacer_pool_ r.
Proof.
  intros Hd. destruct Hd as [r fd ip sid x y Hd Hr Hp Hu Hx Hy|r added fd p Hd
    |r fd h eo ei r' Hd He|r fd p req rest Hd|r fd p rest Hd|r fd p Hd|r Hd|r Hd Hr|r Hd];
    try done.
  - unfold register. by destruct added.
  - by apply client_event_effect in He as [| |p c c' [] parsed Hm Hh _ _ _].
Qed.

Lemma dispatcher_phased r r' : phased r -> dispatcher_step r r' -> phased r'.
Proof.
  intros Hp Hd. pose proof (dispatcher_alive r r' Hd) as Ha.
  apply dispatcher_others in Hd as (Em & El & Ep & Eq).
  assert (stop_requested r = false) as Hs.
  { destruct (stop_requested r) eqn:Es; [|done]. by destruct Ha; apply (ph_disp r Hp). }
  apply (phased_same r); unfold pool_closed; rewrite ?El, ?Ep, ?Eq, ?Hs; try done.
Qed.

Lemma logic_phased r r' : phased r -> logic_step r r' -> phased r'.
Proof.
  intros Hp Hs. destruct Hs as [r Hl He|r Hl|r fd req Hl|r p req Hl|r p Hl];
    try by (apply (phased_same r); rewrite ?Hl).
  - apply (phased_same r); unfold logic_woken; simpl_update; rewrite ?Hl; try done.
    intros ->. done.
  - unfold logic_pop, Queues.NonBlockingQueue.try_pop, logic_head.
    destruct (cmd_queue_ r) as [|[fd req] q];
      apply (phased_same r); simpl_update; rewrite ?Hl; try done. by intros ->.
  - apply (phased_same r); unfold logic_lookup; simpl_update; rewrite ?Hl; try done.
    by destruct (find_session fd r).
Qed.

Lemma pacer_phased r r' : phased r -> pacer_step r r' -> phased r'.
Proof.
  intros Hp Hs. destruct Hs as [r efd now active Hq He Hm|r now active p todo c Hq Hc
      |r now active p todo r' Hq Hs|r now active Hq|r Hq|r Hq].
  - by apply (phased_same r); unfold pacer_woken; simpl_update; rewrite ?Hq.
  - unfold pacer_visit. rewrite Hc. destruct (tryClaimPacerTick c).
    by apply (phased_same r); simpl_update; rewrite ?Hq.
  - unfold pacer_submit, ThreadPool.submit, Queues.BlockingQueue.push in Hs.
    destruct (Queues.BlockingQueue.closed_ _) eqn:Ec; [by injection Hs|].
    cbn in Hs. injection Hs as <-.
    by apply (phased_same r); unfold pool_closed; simpl_update; rewrite ?Hq.
  - by apply (phased_same r); unfold pacer_head; simpl_update; rewrite ?Hq.
  - by apply (phased_same r); unfold pacer_head; simpl_update; rewrite ?Hq.
  - by apply (phased_same r); simpl_update; rewrite ?Hq.
Qed.

(** No step is left on a worker that has ended. *)
Lemma joined_no_step (q q' : ThreadPool.pool (nat * Z)) :
  ThreadPool.joined q = true -> ~ ThreadPool.worker_step q q'.
Proof.
  intros Hj Hs.
  assert (forall i w, ThreadPool.workers_ q !! i = Some w -> w = ThreadPool.Exited) as He.
  { intros i w Hi. apply list_elem_of_lookup_2, list_elem_of_In in Hi.
    unfold ThreadPool.joined in Hj. rewrite forallb_forall in Hj. apply Hj in Hi. by destruct w. }
  destruct Hs as [i q q' Hw|i q q' Hw].
  - unfold ThreadPool.worker_pop in Hw. destruct (ThreadPool.workers_ q !! i) as [w|] eqn:Ei; [|done].
    by rewrite (He i w Ei) in Hw.
  - unfold ThreadPool.worker_finish in Hw. destruct (ThreadPool.workers_ q !! i) as [w|] eqn:Ei; [|done].
    by rewrite (He i w Ei) in Hw.
Qed.

Lemma worker_step_flags (q q' : ThreadPool.pool (nat * Z)) :
  ThreadPool.worker_step q q' ->
  Queues.BlockingQueue.closed_ (ThreadPool.tasks_ q')
    = Queues.BlockingQueue.closed_ (ThreadPool.tasks_ q)
  /\ ThreadPool.shutdown_done_ q' = ThreadPool.shutdown_done_ q.
Proof.
  destruct 1 as [i q q' Hw|i q q' Hw].
  - unfold ThreadPool.worker_pop, Queues.BlockingQueue.pop, Queues.BlockingQueue.dequeue in Hw.
    destruct (ThreadPool.workers_ q !! i) as [[]|]; try done. destruct (_ || _); [|done].
    by destruct (Queues.BlockingQueue.queue_ _); injection Hw as <-.
  - unfold ThreadPool.worker_finish in Hw.
    destruct (ThreadPool.workers_ q !! i) as [[]|]; try done. by injection Hw as <-.
Qed.

(** A worker's step is one of the pool. *)
Lemma worker_pool_step r r' :
  worker_step r r' ->
  ThreadPool.worker_step (pacer_pool_ r) (pacer_pool_ r')
  /\ main r' = main r /\ disp r' = disp r /\ logic_thread_ r' = logic_thread_ r
  /\ pacer_thread_ r' = pacer_thread_ r /\ sessions_ r' = sessions_ r
  /\ cmd_queue_ r' = cmd_queue_ r /\ logic_efd_ r' = logic_efd_ r.
Proof.
  destruct 1 as [r i pool Hp|r i envs sent r' Hd].
  - split_and!; try done. by apply (ThreadPool.wstep_pop i).
  - unfold worker_done in Hd.
    destruct (ThreadPool.workers_ (pacer_pool_ r) !! i) as [[|[p now]|]|]; try done.
    destruct (ThreadPool.worker_finish i (pacer_pool_ r)) as [pool|] eqn:Ef; [|done].
    injection Hd as <-. split_and!; try done. by apply (ThreadPool.wstep_finish i).
Qed.

Lemma worker_phased r r' : phased r -> worker_step r r' -> phased r'.
Proof.
  intros Hp (Hs & Em & Ed & El & Eq & Ee & _ & Ef)%worker_pool_step.
  pose proof (worker_step_flags _ _ Hs) as [Hc Hd].
  apply (phased_same r); unfold pool_closed; rewrite ?Em, ?Ed, ?El, ?Eq, ?Ee, ?Ef, ?Hc, ?Hd; try done.
  intros Hj. by apply (joined_no_step _ _ Hj) in Hs.
Qed.

Lemma run_phased r r' : routing r -> phased r -> run_step r r' -> phased r'.
Proof.
  intros [_ Re _] [Pd Pt Pc Po Pw Pe Pu] Hs.
  destruct Hs as [r Hm Hd|r Hm|r Hm Hl Hp|r Hm Hj|r Hm]; rewrite Hm in Pc, Po; cbn in Pc, Po.
  - by constructor.
  - assert (disp r = DDone) as Hd by (apply Pd; unfold stop_requested; by rewrite Hm).
    constructor; unfold run_unblock, pool_closed; simpl_update; cbn; try done. lia.
  - assert (disp r = DDone) as Hd by (apply Pd; unfold stop_requested; by rewrite Hm).
    unfold run_shutdown, ThreadPool.shutdown_begin. rewrite Po.
    by constructor.
  - assert (disp r = DDone) as Hd by (apply Pd; unfold stop_requested; by rewrite Hm).
    rewrite Hm in Pt. constructor; unfold pool_closed; simpl_update; cbn; try done.
  - assert (disp r = DDone) as Hd by (apply Pd; unfold stop_requested; by rewrite Hm).
    rewrite Hm in Pt, Pw.
    constructor; unfold pool_closed, run_clear; simpl_update; cbn; try done; auto.
Qed.

Lemma reactor_step_phased r r' : routing r -> phased r -> reactor_step r r' -> phased r'.
Proof.
  intros Hro Hp. destruct 1 as [r r' Hd|r r' Hl|r r' Hs|r r' Hw|r r' Hm|r|r Hl|r p Hq].
  - by apply (dispatcher_phased r).
  - by apply (logic_phased r).
  - by apply (pacer_phased r).
  - by apply (worker_phased r).
  - by apply (run_phased r).
  - by apply (phased_same r).
  - apply (phased_same r); unfold logic_head; simpl_update; rewrite ?Hl; try done.
  - by apply (phased_same r).
Qed.

Lemma reachable_phased N root r : reactor_reachable N root r -> phased r.
Proof.
  revert r. apply rtc_ind_r; [by constructor|]. intros r r' Hr Hs Hp.
  apply (reactor_step_phased r); [by eapply reachable_routing|done|done].
Qed.

(** What the threads still have to do once the stop is requested. *)
Definition main_work (m : main_thread) : nat :=
  match m with
  | MDispatching => 5 | MStop => 4 | MJoin => 3 | MShutdown => 2 | MClear => 1 | MReturned => 0
  end.
Definition logic_work (l : logic) : nat :=
  match l with
  | LDone => 0 | LRead => 1 | LDrain => 2 | LWake _ => 3 | LFound _ _ => 4 | LPopped _ _ => 5
  end.
Definition pacer_work (q : pacer) : nat :=
  match q with
  | PDone => 0 | PWait => 1
  | PActive _ _ todo => 2 + 6 * length todo
  | PClaimed _ _ _ todo => 7 + 6 * length todo
  end.
Definition shutdown_work r : nat :=
  (main_work (main r) + logic_work (logic_thread_ r) + 5 * length (cmd_queue_ r)
   + pacer_work (pacer_thread_ r) + ThreadPool.work (pacer_pool_ r))%nat.

(** A step of the threads that [run] waits for, or of [run]. *)
Definition shutdown_step r r' : Prop :=
  logic_step r r' \/ pacer_step r r' \/ worker_step r r' \/ run_step r r'.

Lemma shutdown_step_decreases r r' :
  stop_requested r = true -> shutdown_step r r' -> (shutdown_work r' < shutdown_work r)%nat.
Proof.
  intros Hst Hs. unfold shutdown_work. destruct Hs as [Hs|[Hs|[Hs|Hs]]].
  - destruct Hs as [r Hl He|r Hl|r fd req Hl|r p req Hl|r p Hl]; rewrite Hl.
    + unfold logic_woken. simpl_update. rewrite Hst. cbn. lia.
    + unfold logic_pop, Queues.NonBlockingQueue.try_pop, logic_head.
      destruct (cmd_queue_ r) as [|[fd req] q] eqn:Eq; simpl_update; rewrite ?Hst, ?Eq; cbn; lia.
    + unfold logic_lookup. simpl_update. destruct (find_session fd r); cbn; lia.
    + unfold logic_push. simpl_update. cbn. lia.
    + unfold logic_wake. simpl_update. cbn. lia.
  - destruct Hs as [r efd now active Hq He Hm|r now active p todo c Hq Hc
      |r now active p todo r' Hq Hs|r now active Hq|r Hq|r Hq]; rewrite Hq.
    + unfold pacer_woken. simpl_update. rewrite Hst. cbn. lia.
    + unfold pacer_visit, tryClaimPacerTick. rewrite Hc.
      destruct (pacer_in_flight_ c); simpl_update; cbn [pacer_work length]; lia.
    + unfold pacer_submit, ThreadPool.submit, Queues.BlockingQueue.push in Hs.
      destruct (Queues.BlockingQueue.closed_ _) eqn:Ec; [by injection Hs|].
      cbn in Hs. injection Hs as <-. simpl_update. unfold ThreadPool.work. simpl_update.
      unfold Queues.BlockingQueue.enqueue. cbn [Queues.BlockingQueue.queue_ pacer_work].
      rewrite length_app. cbn [length]. lia.
    + unfold pacer_head. simpl_update. rewrite Hst. cbn. lia.
    + unfold pacer_head. simpl_update. rewrite Hst. cbn. lia.
    + simpl_update. cbn. lia.
  - apply worker_pool_step in Hs as (Hs & -> & _ & -> & -> & _ & -> & _).
    apply ThreadPool.worker_step_work in Hs. lia.
  - destruct Hs as [r Hm Hd|r Hm|r Hm Hl Hp|r Hm Hj|r Hm]; rewrite Hm.
    + unfold run_stop. simpl_update. cbn. lia.
    + unfold run_unblock. simpl_update. cbn. lia.
    + unfold run_shutdown, ThreadPool.shutdown_begin.
      destruct (ThreadPool.shutdown_done_ _); simpl_update; [cbn; lia|].
      unfold ThreadPool.work, ThreadPool.shutdown_close. simpl_update. cbn. lia.
    + simpl_update. cbn. lia.
    + unfold run_clear. simpl_update. cbn. lia.
Qed.

Lemma pool_worker_step r pool :
  ThreadPool.worker_step (pacer_pool_ r) pool -> exists r', worker_step r r'.
Proof.
  intros Hs. inversion Hs as [i q q' Hw|i q q' Hw]; [by eexists; eapply w_pop|].
  pose proof Hw as Hw'. unfold ThreadPool.worker_finish in Hw'.
  destruct (ThreadPool.workers_ (pacer_pool_ r) !! i) as [[|[p now]|]|] eqn:Ei; try done.
  eexists. apply (w_done r i (fun _ => example_env) (fun _ => 0)).
  unfold worker_done. by rewrite Ei, Hw.
Qed.

(** As long as [run] has not returned some thread can go on. *)
Lemma shutdown_progress r :
  owned r -> phased r -> stop_requested r = true -> main r <> MReturned ->
  exists r', shutdown_step r r'.
Proof.
  intros Ho Hp Hst Hm. unfold shutdown_step.
  destruct (main r) eqn:Em; [by unfold stop_requested in Hst; rewrite Em in Hst| | | | |done].
  - eexists. do 3 right. by apply m_unblock.
  - destruct (logic_thread_ r) as [| |fd req|p req|p|] eqn:El.
    + eexists. left. apply l_read; [done|by apply (ph_unblock r Hp)].
    + eexists. left. by apply l_pop.
    + eexists. left. by apply l_lookup.
    + eexists. left. by apply l_push.
    + eexists. left. by eapply l_wake.
    + destruct (pacer_thread_ r) as [|now active [|p todo]|now active p todo|] eqn:Eq.
      * eexists. right. left. by apply (p_wake r 0 0 _ Eq (or_introl eq_refl) (reflexivity _)).
      * eexists. right. left. by eapply p_end.
      * assert (referenced r p) as Hr.
        { do 3 right. left. rewrite Eq. cbn. rewrite elem_of_app, elem_of_cons. auto. }
        apply (ow_live r Ho) in Hr as [fd Ef]. unfold fds in Ef. rewrite lookup_fmap in Ef.
        destruct (heap r !! p) as [c|] eqn:Ec; [|done].
        eexists. right. left. by eapply p_visit.
      * pose proof (ph_closed r Hp) as Hc. rewrite Em in Hc. unfold pool_closed in Hc.
        eexists. right. left. eapply p_submit; [exact Eq|].
        unfold pacer_submit, ThreadPool.submit, Queues.BlockingQueue.push. rewrite Hc.
        cbn. reflexivity.
      * eexists. do 3 right. by apply m_shutdown.
  - destruct (ThreadPool.joined (pacer_pool_ r)) eqn:Ej.
    + eexists. do 3 right. by apply m_joined.
    + pose proof (ph_closed r Hp) as Hc. rewrite Em in Hc.
      destruct (ThreadPool.worker_progress (pacer_pool_ r) Hc Ej) as [pool Hw].
      apply pool_worker_step in Hw as [r' Hw]. exists r'. auto.
  - eexists. do 3 right. by apply m_clear.
Qed.

Lemma shutdown_step_is_step r r' : shutdown_step r r' -> reactor_step r r'.
Proof.
  intros [Hs|[Hs|[Hs|Hs]]];
    [by apply step_logic|by apply step_pacer|by apply step_worker|by apply step_run].
Qed.

Lemma shutdown_step_stop r r' :
  phased r -> stop_requested r = true -> shutdown_step r r' -> stop_requested r' = true.
Proof.
  intros Hp Hst Hs. destruct Hs as [Hs|[Hs|[Hs|Hs]]].
  - destruct Hs as [r Hl He|r Hl|r fd req Hl|r p req Hl|r p Hl]; try done.
    unfold logic_pop. by destruct (Queues.NonBlockingQueue.try_pop _) as [[[fd req]|] q].
  - destruct Hs as [| |r now active p todo r' Hq Hs| | |]; try done.
    + unfold pacer_visit. destruct (heap r !! p) as [d|]; [|done]. by destruct (tryClaimPacerTick d).
    + unfold pacer_submit in Hs. destruct (ThreadPool.submit _ _). by injection Hs as -> <-.
  - apply worker_pool_step in Hs as (_ & E & _). unfold stop_requested. by rewrite E.
  - destruct Hs; try done. unfold run_shutdown. by destruct (ThreadPool.shutdown_begin _).
Qed.

Lemma shutdown_returns r :
  owned r -> routing r -> phased r -> stop_requested r = true ->
  exists r', rtc shutdown_step r r' /\ main r' = MReturned.
Proof.
  remember (shutdown_work r) as n eqn:Hn. revert r Hn. induction (lt_wf n) as [n _ IH].
  intros r -> Ho Hro Hp Hst. destruct (decide (main r = MReturned)) as [E|E]; [by exists r|].
  destruct (shutdown_progress r Ho Hp Hst E) as [r1 Hs].
  pose proof (shutdown_step_is_step r r1 Hs) as Hs'.
  destruct (IH _ (shutdown_step_decreases r r1 Hst Hs) r1 eq_refl) as (r' & Hr & Hm).
  - by apply (reactor_step_owned r).
  - by apply (reactor_step_routing r).
  - by apply (reactor_step_phased r).
  - by apply (shutdown_step_stop r).
  - exists r'. split; [by eapply rtc_l|done].
Qed.
End phases.

(** ** A tick that throws *)

Section wedge.
Context {M : Type} `{IMediaSource M}.
Implicit Types (c : client M) (r : reactor M).

(** A session without its command queue and its write side: what only ticks change. *)
Definition tick_state (s : session M) : session M :=
  s <| Session.cmd_queue_ := [] |> <| out := egress_init |>.

(** The slot of session [p] is taken and no tick holds it. *)
Record wedged (p : nat) (s : session M) r : Prop := {
  we_slot : p ∉ slots r;
  we_next : (p < next r)%nat;
  we_client : forall c, heap r !! p = Some c ->
    pacer_in_flight_ c = true /\ tick_state (sess c) = s
}.

Lemma wedged_same p s r r' :
  Permutation (slots r') (slots r) -> next r' = next r -> heap r' !! p = heap r !! p ->
  wedged p s r -> wedged p s r'.
Proof. intros Es En Eh [Ws Wn Wc]. constructor; rewrite ?Es, ?En, ?Eh; done. Qed.

Lemma wedged_client p q s r c c' :
  heap r !! q = Some c -> pacer_in_flight_ c' = pacer_in_flight_ c ->
  tick_state (sess c') = tick_state (sess c) -> wedged p s r ->
  forall d, <[q := c']> (heap r) !! p = Some d ->
    pacer_in_flight_ d = true /\ tick_state (sess d) = s.
Proof.
  intros Hq Ef Et [Ws Wn Wc] d [[-> <-]|[_ E]]%lookup_insert_Some; [|by apply Wc].
  rewrite Ef, Et. by apply Wc.
Qed.

Lemma client_event_wedged fd hangup ev_out ev_in r r' p s :
  client_event fd hangup ev_out ev_in r = Some r' -> wedged p s r -> wedged p s r'.
Proof.
  intros He Hw. unfold client_event in He.
  assert (wedged p s (closeSession fd r)) as Hcl by by apply (wedged_same p s r).
  destruct hangup; [by injection He as <-|]. destruct (find_session fd r) as [q|]; [|by injection He as <-].
  destruct (heap r !! q) as [c|] eqn:Ec; [|done].
  destruct (client_writable ev_out c) as [[b c1]|] eqn:Eo; [|done].
  pose proof (client_writable_spec _ _ _ _ Eo) as (_ & F1 & _ & _).
  assert (tick_state (sess c1) = tick_state (sess c)) as T1.
  { unfold client_writable in Eo. destruct ev_out as [results|]; [|by injection Eo as <- <-].
    destruct (onWritable results _) as [[[a|] w] o]; [|done]. by injection Eo as <- <-. }
  destruct b.
  2: { injection He as <-. constructor; [apply (we_slot p s r Hw)|apply (we_next p s r Hw)|].
       unfold closeSession. simpl_update. by apply (wedged_client p q s r c c1). }
  destruct (client_readable ev_in c1) as [[[b reqs] c2]|] eqn:Er; [|done].
  apply client_readable_spec in Er as (_ & F2 & S2).
  assert (pacer_in_flight_ c2 = pacer_in_flight_ c) as F by congruence.
  assert (tick_state (sess c2) = tick_state (sess c)) as T by congruence.
  destruct b; injection He as <-;
    (constructor; [apply (we_slot p s r Hw)|apply (we_next p s r Hw)|]);
    unfold closeSession; simpl_update; by apply (wedged_client p q s r c c2).
Qed.

Lemma wedged_dispatcher p s r r' : wedged p s r -> dispatcher_step r r' -> wedged p s r'.
Proof.
  intros Hw Hd.
  destruct Hd as [r fd ip sid x y Hd Hr Hp Hu Hx Hy|r added fd q Hd
  |r fd h eo ei r' Hd He|r fd q req rest Hd|r fd q rest Hd|r fd q Hd|r Hd|r Hd Hr|r Hd];
    try by apply (wedged_same p s r).
  + destruct Hw as [Ws Wn Wc]. constructor; unfold acceptClient; simpl_update; [done|lia|].
    rewrite lookup_insert_ne by lia. done.
  + unfold register. by destruct added; apply (wedged_same p s r).
  + by eapply client_event_wedged.
Qed.

Lemma wedged_logic p s r r' : wedged p s r -> logic_step r r' -> wedged p s r'.
Proof.
  intros Hw Hl.
  destruct Hl as [r Hl He|r Hl|r fd req Hl|r q req Hl|r q Hl]; try by apply (wedged_same p s r).
  + unfold logic_pop. by destruct (Queues.NonBlockingQueue.try_pop _) as [[[fd req]|] l];
      apply (wedged_same p s r).
  + destruct Hw as [Ws Wn Wc]. constructor; [done|done|]. unfold logic_push. simpl_update.
    intros d. destruct (decide (q = p)) as [->|Hne]; [|rewrite lookup_alter_ne by done; apply Wc].
    rewrite lookup_alter_eq. intros (c & E & ->)%fmap_Some. by destruct (Wc c E).
Qed.

Lemma wedged_pacer p s r r' : wedged p s r -> pacer_step r r' -> wedged p s r'.
Proof.
  intros Hw Hp.
  destruct Hp as [r efd now active Hq He Hm|r now active q todo c Hq Hc
    |r now active q todo r' Hq Hs|r now active Hq|r Hq|r Hq].
  + apply (wedged_same p s r); try done. unfold slots, pacer_woken. simpl_update. rewrite Hq.
    by destruct (stop_requested r).
  + unfold pacer_visit, tryClaimPacerTick. rewrite Hc. destruct (pacer_in_flight_ c) eqn:Ef.
    * apply (wedged_same p s r); try done; [unfold slots; simpl_update; by rewrite Hq|].
      simpl_update. destruct (decide (q = p)) as [<-|Hne];
        [by rewrite lookup_insert_eq, Hc|by rewrite lookup_insert_ne].
    * assert (q <> p) as Hne.
      { intros ->. destruct (we_client p s r Hw c Hc). congruence. }
      destruct Hw as [Ws Wn Wc]. constructor; simpl_update; [|done|by rewrite lookup_insert_ne].
      unfold slots in Ws |- *. simpl_update. rewrite Hq in Ws. cbn [claimed app] in Ws |- *.
      apply not_elem_of_cons. split; [congruence|done].
  + unfold pacer_submit in Hs. destruct (ThreadPool.submit _ _) as [res pool] eqn:Es.
    injection Hs as -> <-. apply (wedged_same p s r); try done.
    unfold slots. simpl_update. by rewrite Hq, (submit_tasks _ _ _ Es).
  + apply (wedged_same p s r); try done. unfold slots, pacer_head. simpl_update. rewrite Hq.
    by destruct (stop_requested r).
  + apply (wedged_same p s r); try done. unfold slots, pacer_head. simpl_update. rewrite Hq.
    by destruct (stop_requested r).
  + apply (wedged_same p s r); try done. unfold slots. simpl_update. by rewrite Hq.
Qed.

Lemma wedged_step p s r r' : wedged p s r -> reactor_step r r' -> wedged p s r'.
Proof.
  intros Hw Hs. destruct Hs as [r r' Hd|r r' Hl|r r' Hp|r r' Hk|r r' Hm|r|r Hl|r q Hq].
  - by apply (wedged_dispatcher p s r).
  - by apply (wedged_logic p s r).
  - by apply (wedged_pacer p s r).
  - destruct Hk as [r i pool Hp|r i envs sent r' Hd].
    + apply (wedged_same p s r); try done. unfold slots. simpl_update.
      by rewrite (worker_pop_tasks _ _ _ Hp).
    + apply worker_done_spec in Hd as (q & now & pool & Ht & ->). destruct Hw as [Ws Wn Wc].
      unfold slots in Ws. rewrite Ht, fmap_cons in Ws. rewrite elem_of_app, elem_of_cons in Ws.
      constructor; unfold slots; simpl_update; [rewrite elem_of_app; tauto|done|].
      intros d. rewrite lookup_alter_ne by (intros ->; tauto). apply Wc.
  - destruct Hm; try by apply (wedged_same p s r).
    unfold run_shutdown, ThreadPool.shutdown_begin.
    destruct (ThreadPool.shutdown_done_ _); by apply (wedged_same p s r).
  - by apply (wedged_same p s r).
  - by apply (wedged_same p s r).
  - destruct Hw as [Ws Wn Wc]. constructor; [done|done|]. simpl_update.
    intros d [_ E]%lookup_delete_Some. by apply Wc.
Qed.

Lemma wedged_forever p s r r' : rtc reactor_step r r' -> wedged p s r -> wedged p s r'.
Proof. induction 1 as [|r r1 r' Hs _ IH]; [done|]. intros Hw. by apply IH, (wedged_step p s r). Qed.

(** A task that throws leaves its session so. *)
Lemma throw_wedges r r' i envs sent p now c e :
  owned r -> slotted r ->
  ThreadPool.workers_ (pacer_pool_ r) !! i = Some (ThreadPool.Running (p, now)) ->
  heap r !! p = Some c -> snd (pacerTick envs now sent (sess c)) = Throw e ->
  worker_done envs sent i r = Some r' ->
  wedged p (tick_state (fst (pacerTick envs now sent (sess c)))) r'.
Proof.
  intros Ho [Hs Hf] Hi Hc He Hd. unfold worker_done in Hd. rewrite Hi in Hd.
  destruct (ThreadPool.worker_finish i (pacer_pool_ r)) as [pool|] eqn:Ef; [|done].
  injection Hd as <-. apply (worker_finish_tasks i (p, now)) in Ef; [|done].
  assert (p ∈ slots r) as Hp.
  { unfold slots. rewrite Ef, fmap_cons, elem_of_app, elem_of_cons. auto. }
  assert (pacer_in_flight_ c = true) as Hfl.
  { apply Hf in Hp. unfold in_flight in Hp. rewrite Hc in Hp. by injection Hp. }
  constructor.
  - unfold slots in Hs |- *. simpl_update. rewrite Ef, fmap_cons, <- Permutation_middle in Hs.
    by apply NoDup_cons in Hs as [Hn _].
  - simpl_update. apply slots_referenced, (ow_live r Ho) in Hp as [fd E]. by eapply ow_next.
  - intros d. simpl_update. rewrite lookup_alter_eq, Hc. intros [= <-]. unfold run_task.
    destruct (pacerTick envs now sent (sess c)) as [s [[]|x]]; [done|]. by simpl_update.
Qed.
End wedge.

(** Nobody holds a session when [run] has returned. *)
Lemma returned_unreferenced {M} `{IMediaSource M} N root (r : reactor M) p :
  (1 <= N)%nat -> reactor_reachable N root r -> main r = MReturned -> ~ referenced r p.
Proof.
  intros HN Hr Hm. pose proof (reachable_phased N root r Hr) as [Pd Pt _ _ Pw Pe _].
  rewrite Hm in Pt, Pw. destruct (Pt eq_refl) as [El Ep]. specialize (Pe Hm).
  assert (disp r = DDone) as Ed by (apply Pd; unfold stop_requested; by rewrite Hm).
  destruct (ThreadPool.reachable_inv N _ (reachable_pool N root r Hr)) as [Hl _ _ He].
  destruct (ThreadPool.joined_exited _ (Pw eq_refl)) as [Hrun Hex].
  destruct (He 0%nat) as [_ Hq]; [apply Hex; intros E; rewrite E in Hl; cbn in Hl; lia|].
  unfold referenced, tasks. rewrite El, Ep, Ed, Pe, Hrun, Hq. cbn. rewrite !elem_of_nil.
  intros [[fd E]|E]; [|tauto]. by apply lookup_empty_Some in E.
Qed.
