(* ===== verification/ReactorSpec.v ===== *)
(** * [ReactorSpec]: what the server promises

    The theorems about the transition system of [Reactor], with two runs on concrete inputs:
    a request that makes a handler throw, and a descriptor that is used again. *)

From S2P Require Import Prelude StdString RTSPRequest RTSPResponse RTPSender IMediaSource Egress.
From S2P Require Import Session SessionSpec Pacer SessionInv.
From S2P Require Queues ThreadPool Ingress.
From S2P Require Import Reactor ReactorInv.

(** ** A schedule

    Each thread's next step as a function, to run the server on concrete inputs. *)

Section schedule.
Context {M : Type} `{IMediaSource M}.
Implicit Types r : reactor M.

Definition d_go r : reactor M :=
  match disp r with
  | DAccepted fd _ => register true fd r
  | DRoute fd p (req :: rest) => route fd p req rest r
  | DNotify fd p rest => notify fd p rest r
  | DRoute fd p [] => r <| disp := DWait |>
  | DWait | DDone => r
  end.

Definition l_go r : reactor M :=
  match logic_thread_ r with
  | LRead => if 0 <? logic_efd_ r then logic_woken 0 r else r
  | LDrain => logic_pop r
  | LPopped fd req => logic_lookup fd req r
  | LFound p req => logic_push p req r
  | LWake _ => logic_wake r
  | LDone => r
  end.

Definition p_go (now : Z) r : reactor M :=
  match pacer_thread_ r with
  | PWait => pacer_woken 0 now (map_to_list (sessions_ r)).*2 r
  | PActive now active (p :: todo) =>
      match heap r !! p with Some _ => pacer_visit now active p todo r | None => r end
  | PActive _ _ [] => pacer_head r
  | PClaimed now active p todo =>
      match pacer_submit now active p todo r with (Ok _, r') => r' | (Throw _, _) => r end
  | PDone => r
  end.

Definition w_go (e : env) r : reactor M :=
  match ThreadPool.worker_pop 0 (pacer_pool_ r) with
  | Some pool => r <| pacer_pool_ := pool |>
  | None => default r (worker_done (fun _ => e) (fun _ => 0) 0 r)
  end.

Lemma d_go_run r : rtc reactor_step r (d_go r).
Proof.
  unfold d_go. destruct (disp r) as [|fd p|fd p [|req rest]|fd p rest|] eqn:E; try reflexivity;
    apply rtc_once, step_dispatcher; by econstructor.
Qed.

Lemma l_go_run r : rtc reactor_step r (l_go r).
Proof.
  unfold l_go. destruct (logic_thread_ r) eqn:E; try reflexivity;
    [destruct (Z.ltb_spec 0 (logic_efd_ r)); [|reflexivity]|..];
    apply rtc_once, step_logic; by econstructor.
Qed.

Lemma p_go_run now r : rtc reactor_step r (p_go now r).
Proof.
  unfold p_go. destruct (pacer_thread_ r) as [|t active [|p todo]|t active p todo|] eqn:E;
    try reflexivity.
  - apply rtc_once, step_pacer, p_wake; [done|by left|done].
  - apply rtc_once, step_pacer. by econstructor.
  - destruct (heap r !! p) eqn:Eh; [|reflexivity]. apply rtc_once, step_pacer. by econstructor.
  - destruct (pacer_submit t active p todo r) as [[[]|] r'] eqn:Es; [|reflexivity].
    apply rtc_once, step_pacer. by econstructor.
Qed.

Lemma w_go_run e r : rtc reactor_step r (w_go e r).
Proof.
  unfold w_go. destruct (ThreadPool.worker_pop 0 (pacer_pool_ r)) as [pool|] eqn:Ep.
  - by apply rtc_once, step_worker, (w_pop r 0).
  - destruct (worker_done _ _ 0 r) as [r'|] eqn:Ed; [|reflexivity].
    by eapply rtc_once, step_worker, w_done.
Qed.

Lemma iter_run (f : reactor M -> reactor M) k r :
  (forall r, rtc reactor_step r (f r)) -> rtc reactor_step r (Nat.iter k f r).
Proof.
  intros Hf. induction k as [|k IH]; [reflexivity|]. cbn [Nat.iter]. by etrans.
Qed.
End schedule.

Module Example.
Import (hints) ListSource.

Definition state := reactor ListSource.source.

(** A client connects, its two requests arrive in one segment, and the second one has a port
    that is not a number. *)
Definition input : text :=
  "DESCRIBE rtsp://h/link.mp4/trackID=0 RTSP/1.0" ++ crlf ++ "CSeq: 2" ++ crlf ++ crlf
  ++ "SETUP rtsp://h/link.mp4/trackID=0 RTSP/1.0" ++ crlf ++ "CSeq: 3" ++ crlf
  ++ "Transport: RTP/AVP;unicast;client_port=abc" ++ crlf ++ crlf.

Definition connected : state :=
  d_go (acceptClient 7 "10.0.0.7" "4711" 1 2 (reactor_init 1 "/srv")).

Definition read_event (r : state) : option state :=
  client_event 7 false None (Some (9%nat, [Ingress.Recv input; Ingress.RecvAgain])) r.

Definition received : state := default connected (read_event connected).

(** The requests reach the session, and a worker has its tick in hand. *)
Definition ticking : state :=
  w_go example_env (Nat.iter 4 (p_go 1000) (Nat.iter 9 l_go (Nat.iter 5 d_go received))).

Lemma connected_run : reactor_reachable 1 "/srv" connected.
Proof.
  eapply rtc_l; [apply step_dispatcher|apply d_go_run].
  apply d_accept; try (split; reflexivity || discriminate); try reflexivity; [discriminate|].
  intros p c E. by destruct (lookup_empty_Some (M := gmap nat) p c E).
Qed.

Lemma received_run : reactor_reachable 1 "/srv" received.
Proof.
  eapply rtc_r; [apply connected_run|].
  apply step_dispatcher, (d_event connected 7 false None
    (Some (9%nat, [Ingress.Recv input; Ingress.RecvAgain])) received eq_refl).
  change (read_event connected = Some received). unfold received.
  assert (match read_event connected with Some _ => true | None => false end = true) as E
    by (vm_compute; reflexivity).
  by destruct (read_event connected).
Qed.

Lemma ticking_run : reactor_reachable 1 "/srv" ticking.
Proof.
  unfold reactor_reachable, ticking. etrans; [|apply w_go_run]. etrans; [|apply iter_run, p_go_run].
  etrans; [|apply iter_run, l_go_run]. etrans; [|apply iter_run, d_go_run]. apply received_run.
Qed.

(** The client hangs up before the Logic thread runs, its session is destroyed, and another
    client is accepted on the same descriptor. *)
Definition hung_up : state := closeSession 7 (Nat.iter 5 d_go received).
Definition reused : state :=
  d_go (acceptClient 7 "10.0.0.8" "4712" 3 4 (hung_up <| heap := delete 0%nat (heap hung_up) |>)).
Definition misrouted : state := Nat.iter 9 l_go reused.

Lemma routed_run : reactor_reachable 1 "/srv" (Nat.iter 5 d_go received).
Proof. unfold reactor_reachable. etrans; [apply received_run|]. apply iter_run, d_go_run. Qed.

Lemma misrouted_run : rtc reactor_step received misrouted.
Proof.
  unfold misrouted. etrans; [|apply iter_run, l_go_run]. etrans; [apply iter_run, d_go_run|].
  eapply (rtc_l _ _ hung_up).
  { apply step_dispatcher, (d_event (Nat.iter 5 d_go received) 7 true None None hung_up);
      [vm_compute; reflexivity|reflexivity]. }
  eapply rtc_l; [apply (step_destroy hung_up 0)|].
  { unfold referenced.
    replace (disp hung_up) with DWait by (vm_compute; reflexivity).
    replace (logic_thread_ hung_up) with LRead by (vm_compute; reflexivity).
    replace (pacer_thread_ hung_up) with PWait by (vm_compute; reflexivity).
    replace (tasks (pacer_pool_ hung_up)) with ([] : list (nat * Z)) by (vm_compute; reflexivity).
    replace (sessions_ hung_up) with (∅ : gmap Z nat) by (vm_compute; reflexivity).
    cbn. rewrite !elem_of_nil. intros [[fd E]|E]; [by apply lookup_empty_Some in E|tauto]. }
  eapply rtc_l; [|apply d_go_run]. apply step_dispatcher, d_accept;
    try (split; reflexivity || discriminate); try (vm_compute; reflexivity); [discriminate|].
  intros p c E. replace (heap _) with (∅ : gmap nat (client ListSource.source)) in E
    by (vm_compute; reflexivity).
  by apply lookup_empty_Some in E.
Qed.

(** The session of the first client, when its tick ends in the exception of [stoi]. *)
Definition throwing_tick : SE (session ListSource.source) unit :=
  pacerTick (fun _ => example_env) 1000 (fun _ => 0).
Definition stuck : state := w_go example_env ticking.
End Example.

(** ** Properties *)

Import (hints) ListSource.

(** C13: The shared state of the server.  In every reachable state, whatever the threads, the
    clients, the kernel and the clock do: whatever holds a session holds a live one; the map
    files a session under its own descriptor; two live sessions never share a descriptor, so
    [emplace] never meets an existing entry; at most one pacer tick is claimed, queued or
    running per session, and then its flag is set, so that the members a tick uses need no
    lock; [submit] is never called on a closed pool, which would end the process; and every
    live session is in a state reachable by requests, ticks and writes. *)
Theorem reactor_invariant {M} `{IMediaSource M} (N : nat) (root : text) (r : reactor M) :
  reactor_reachable N root r ->
  (forall p, referenced r p -> exists c, heap r !! p = Some c)
  /\ (forall fd p c, sessions_ r !! fd = Some p -> heap r !! p = Some c -> fd_ c = fd)
  /\ (forall fd, fd_unused fd r -> sessions_ r !! fd = None)
  /\ (forall p q c d, heap r !! p = Some c -> heap r !! q = Some d -> fd_ c = fd_ d -> p = q)
  /\ NoDup (slots r)
  /\ (forall p c, p ∈ slots r -> heap r !! p = Some c -> pacer_in_flight_ c = true)
  /\ (forall now active p todo,
        pacer_thread_ r = PClaimed now active p todo -> is_ok (fst (pacer_submit now active p todo r)) = true)
  /\ (forall p c, heap r !! p = Some c -> session_reachable (sess c)).
Proof.
  intros Hr. pose proof (reachable_owned N root r Hr) as [Ol Om Of On].
  pose proof (reachable_slotted N root r Hr) as [Hs Hf].
  pose proof (reachable_phased N root r Hr) as [_ Pt Pc _ _ _ _].
  assert (forall p c, heap r !! p = Some c -> fds r !! p = Some (fd_ c)) as Hfd
    by (intros p c E; unfold fds; by rewrite lookup_fmap, E).
  assert (forall p fd, fds r !! p = Some fd -> exists c, heap r !! p = Some c /\ fd_ c = fd) as Hh.
  { intros p fd. unfold fds. rewrite lookup_fmap. destruct (heap r !! p) as [c|]; [|done].
    intros [= <-]. by exists c. }
  split_and!.
  - intros p [fd Hp]%Ol. destruct (Hh p fd Hp) as (c & E & _). by exists c.
  - intros fd p c Hp%Om Hc%Hfd. congruence.
  - intros fd Hu. destruct (sessions_ r !! fd) as [p|] eqn:Ep; [|done].
    destruct (Hh p fd (Om fd p Ep)) as (c & Ec & Ef). by destruct (Hu p c Ec).
  - intros p q c d Hc%Hfd Hd%Hfd E. apply (Of p q (fd_ c)); congruence.
  - done.
  - intros p c Hp Hc. apply Hf in Hp. unfold in_flight in Hp. rewrite Hc in Hp. by injection Hp.
  - intros now active p todo Ep. unfold pacer_submit, ThreadPool.submit, Queues.BlockingQueue.push.
    fold (pool_closed r). rewrite Pc.
    destruct (threads_joined (main r)); [by rewrite (proj2 (Pt eq_refl)) in Ep|done].
  - by apply (reachable_sessions N root).
Qed.

Lemma reactor_invariant_witness :
  NoDup (slots Example.ticking) /\ slots Example.ticking = [0%nat].
Proof.
  split; [|vm_compute; reflexivity].
  apply (reactor_invariant 1 "/srv" Example.ticking Example.ticking_run).
Defined.

(** C14: The command pipeline.  Requests leave the global queue in the order in which the
    Dispatcher pushed them, none is lost or duplicated on the way, and the Logic thread never
    sleeps on a queue with requests: when it blocks on its eventfd with the counter at zero and
    the Dispatcher is not about to write to it, every request queued so far has been looked
    up. *)
Theorem commands_in_order {M} `{IMediaSource M} (N : nat) (root : text) (r : reactor M) :
  reactor_reachable N root r ->
  (routed r).*1 ++ in_hand (logic_thread_ r) ++ cmd_queue_ r = queued r
  /\ (logic_thread_ r = LRead -> logic_efd_ r = 0 -> notifying (disp r) = false ->
      (routed r).*1 = queued r).
Proof.
  intros Hr. destruct (reachable_routing N root r Hr) as [Rl Re Rw]. split; [done|].
  intros El Ee Ed. destruct (cmd_queue_ r) as [|x q] eqn:Eq.
  - rewrite <- Rl, El. cbn. by rewrite app_nil_r.
  - destruct (Rw El) as [|E]; [done|lia|congruence].
Qed.

Lemma commands_in_order_witness :
  (routed Example.ticking).*1 ++ in_hand (logic_thread_ Example.ticking)
    ++ cmd_queue_ Example.ticking = queued Example.ticking
  /\ length (queued Example.ticking) = 2%nat.
Proof.
  split; [|vm_compute; reflexivity].
  exact (proj1 (commands_in_order 1 "/srv" Example.ticking Example.ticking_run)).
Defined.

(** C15: [run] returns.  Once the Dispatcher has ended and the stop of the other threads is
    requested: as long as [run] has not returned one of the threads it waits for, or [run]
    itself, can go on; each such step decreases the work that is left; so [run] returns.  When
    it has, nobody holds a session, so that every session is destroyed and its descriptor
    closed, and every accepted tick has been executed. *)
Theorem run_returns {M} `{IMediaSource M} (N : nat) (root : text) (r : reactor M) :
  (1 <= N)%nat -> reactor_reachable N root r ->
  (stop_requested r = true ->
     (main r <> MReturned -> exists r', shutdown_step r r')
     /\ (forall r', shutdown_step r r' -> (shutdown_work r' < shutdown_work r)%nat)
     /\ exists r', rtc shutdown_step r r' /\ main r' = MReturned)
  /\ (main r = MReturned ->
     (forall p, ~ referenced r p)
     /\ Permutation (ThreadPool.finished (pacer_pool_ r)) (ThreadPool.submitted (pacer_pool_ r))).
Proof.
  intros HN Hr. pose proof (reachable_owned N root r Hr) as Ho.
  pose proof (reachable_phased N root r Hr) as Hp. split.
  - intros Hst. split; [by apply shutdown_progress|].
    split; [intros r'; by apply shutdown_step_decreases|].
    apply shutdown_returns; [done|by eapply reachable_routing|done|done].
  - intros Hm. split; [intros p; by eapply returned_unreferenced|].
    pose proof (ph_workers r Hp) as Hj. rewrite Hm in Hj.
    destruct (ThreadPool.reachable_inv N _ (reachable_pool N root r Hr)) as [Hl Hf Hrun He].
    destruct (ThreadPool.joined_exited _ (Hj eq_refl)) as [Hno Hex].
    destruct (He 0%nat) as [_ Hq]; [apply Hex; intros E; rewrite E in Hl; cbn in Hl; lia|].
    rewrite Hq, app_nil_r in Hf. by rewrite <- Hf, Hrun, Hno, app_nil_r.
Qed.

Lemma run_returns_witness :
  exists r', rtc shutdown_step (run_stop (stop Example.ticking <| disp := DDone |>)) r'
    /\ main r' = MReturned.
Proof.
  refine (proj2 (proj2 (proj1 (run_returns 1 "/srv"
    (run_stop (stop Example.ticking <| disp := DDone |>)) (le_n 1) _) eq_refl))).
  unfold reactor_reachable.
  eapply rtc_r; [eapply rtc_r; [apply Example.ticking_run|]|].
  - apply step_dispatcher, d_control. vm_compute. reflexivity.
  - apply step_run, m_stop; vm_compute; reflexivity.
Defined.

(** C17: A request can reach the session of another client.  The queue between the Dispatcher
    and the Logic thread names the client by its descriptor only: there is a run in which a
    client's request is read, the client goes away, its session is destroyed, a second client
    gets the same descriptor, and the first client's request is put into the second client's
    command queue. *)
Theorem stale_command_delivered :
  exists (r r' : reactor ListSource.source) fd p q req reqs c,
    reactor_reachable 1 "/srv" r /\ disp r = DRoute fd p (req :: reqs)
    /\ rtc reactor_step r r'
    /\ p <> q /\ heap r' !! p = None
    /\ heap r' !! q = Some c /\ fd_ c = fd /\ client_ip_ (sess c) = ("10.0.0.8" : text)
    /\ (exists rest, Session.cmd_queue_ (sess c) = req :: rest).
Proof.
  destruct (disp Example.received) as [| |fd p [|req reqs]| |] eqn:Ed;
    try (vm_compute in Ed; discriminate Ed).
  destruct (heap Example.misrouted !! 1%nat) as [c|] eqn:Ec;
    [|vm_compute in Ec; discriminate Ec].
  exists Example.received, Example.misrouted, fd, p, 1%nat, req, reqs, c.
  split; [apply Example.received_run|]. split; [done|]. split; [apply Example.misrouted_run|].
  vm_compute in Ed. injection Ed as <- <- Hreq _. vm_compute in Ec. injection Ec as <-.
  split_and!; try done. eexists. cbn. by rewrite Hreq.
Qed.

(** C16: A handler that throws wedges its session.  When the tick of a task throws, the flag of
    the session is never cleared: in every later state the session, if it still exists, has no
    tick claimed, queued or running, its flag is set, and nothing but its command queue and the
    writing of its outbox changes: its requests are never answered again. *)
Theorem throwing_tick_wedges {M} `{IMediaSource M} (N : nat) (root : text) (r r1 r2 : reactor M)
    i envs sent p now c e :
  reactor_reachable N root r ->
  ThreadPool.workers_ (pacer_pool_ r) !! i = Some (ThreadPool.Running (p, now)) ->
  heap r !! p = Some c -> snd (pacerTick envs now sent (sess c)) = Throw e ->
  worker_done envs sent i r = Some r1 -> rtc reactor_step r1 r2 ->
  (p ∉ slots r2)
  /\ forall d, heap r2 !! p = Some d ->
       pacer_in_flight_ d = true
       /\ tick_state (sess d) = tick_state (fst (pacerTick envs now sent (sess c))).
Proof.
  intros Hr Hi Hc He Hd Hs.
  pose proof (throw_wedges r r1 i envs sent p now c e (reachable_owned N root r Hr)
    (reachable_slotted N root r Hr) Hi Hc He Hd) as Hw.
  destruct (wedged_forever _ _ _ _ Hs Hw) as [Ws _ Wc]. by split.
Qed.

(** The client of the example: after the bad port no wake of the Pacer takes its session up
    again. *)
Lemma throwing_tick_wedges_witness :
  0%nat ∉ slots (Nat.iter 3 (p_go 2000) Example.stuck).
Proof.
  destruct (heap Example.ticking !! 0%nat) as [c|] eqn:Ec; [|vm_compute in Ec; discriminate Ec].
  refine (proj1 (throwing_tick_wedges 1 "/srv" Example.ticking Example.stuck _ 0
    (fun _ => SessionSpec.example_env) (fun _ => 0) 0 1000 c invalid_argument
    Example.ticking_run _ Ec _ _ _)).
  - vm_compute. reflexivity.
  - vm_compute in Ec. injection Ec as <-. vm_compute. reflexivity.
  - unfold Example.stuck, w_go.
    replace (ThreadPool.worker_pop 0 (pacer_pool_ Example.ticking))
      with (None : option (ThreadPool.pool (nat * Z))) by (vm_compute; reflexivity).
    assert (match worker_done (fun _ => SessionSpec.example_env) (fun _ => 0) 0 Example.ticking with
            | Some _ => true | None => false end = true) as E by (vm_compute; reflexivity).
    by destruct (worker_done _ _ 0 Example.ticking).
  - apply iter_run, p_go_run.
Defined.
