(* ===== verification/Startup.v ===== *)
(** * [Startup]: how the server starts (src/server/Reactor.cpp: the constructor and the first
    half of [run]; src/server/RTSPServer.cpp; src/main.cpp)

    [run] opens the descriptors of the reactor one by one, each in its [UniqueFd], registers
    them and starts the threads; the results of the system calls are inputs.  [main] reads its
    arguments, checks the directory and runs the server. *)

From S2P Require Import Prelude StdString StringUtils.
From S2P Require UniqueFd.

(** ** [Reactor::run] up to the running threads *)

(** The threads of the server, and what [run] asks of the operating system. *)
Inductive thread := Worker | Logic | Pacer | Dispatcher.

Inductive act :=
| SetReuse (fd : Z)             (* SO_REUSEADDR, SO_REUSEPORT *)
| TimerSet (fd ms : Z)
| EpollAdd (epfd fd : Z)        (* for EPOLLIN *)
| CloseFd (fd : Z).

(** The descriptors of the reactor; [blocked] says whether the calling thread blocks SIGINT
    and SIGTERM; a new thread inherits the mask of the thread that creates it. *)
Record startup := mkStartup {
  server_fd_ : Z;
  epoll_fd_ : Z;
  wake_fd_ : Z;
  signal_fd_ : Z;
  logic_efd_ : Z;
  pacer_efd_ : Z;
  timer_fd_ : Z;
  pacer_epoll_ : Z;
  running_ : bool;
  blocked : bool;
  threads : list (thread * bool);
  acts : list act
}.

#[global] Instance startup_updatable : Updatable startup := fun s =>
  {| server_fd_ := server_fd_ s; epoll_fd_ := epoll_fd_ s; wake_fd_ := wake_fd_ s;
     signal_fd_ := signal_fd_ s; logic_efd_ := logic_efd_ s; pacer_efd_ := pacer_efd_ s;
     timer_fd_ := timer_fd_ s; pacer_epoll_ := pacer_epoll_ s; running_ := running_ s;
     blocked := blocked s; threads := threads s; acts := acts s |}.

Definition start_thread (t : thread) (s : startup) : startup :=
  s <| threads := threads s ++ [(t, blocked s)] |>.

(** The constructor; its member [pacer_pool_] starts the workers. *)
Definition reactor_make (PacerWorkers : nat) : startup :=
  let i := UniqueFd.UniqueFd_default in
  Nat.iter PacerWorkers (start_thread Worker)
    {| server_fd_ := i; epoll_fd_ := i; wake_fd_ := i; signal_fd_ := i; logic_efd_ := i;
       pacer_efd_ := i; timer_fd_ := i; pacer_epoll_ := i; running_ := false;
       blocked := false; threads := []; acts := [] |}.

(** What the system calls of [run] return, in its order. *)
Record startup_calls := mkStartupCalls {
  socket_ret : Z;
  inet_pton_ret : Z;
  bind_ret : Z;
  listen_ret : Z;
  epoll_create1_ret : Z;
  wake_eventfd_ret : Z;
  signalfd_ret : Z;
  logic_eventfd_ret : Z;
  pacer_eventfd_ret : Z;
  timerfd_create_ret : Z;
  pacer_epoll_ret : Z
}.

Definition kPacerIntervalMs : Z := 30.

(** [f.reset(fd)] on a member, given by its getter and setter. *)
Definition reset_fd (get : startup -> Z) (put : Z -> startup -> startup) (fd : Z)
    : SE startup bool := fun s =>
  let '(closed, fd_) := UniqueFd.reset fd (get s) in
  (put fd_ s <| acts := acts s ++ map CloseFd closed |>, Ok (UniqueFd.valid fd_)).

Definition act_do (a : act) : SE startup unit := SE_modify (fun s => s <| acts := acts s ++ [a] |>).

(** A step of [run] that returns [false] on failure. *)
Notation "'ensure' m ; k" := (SE_bind m (fun ok : bool => if ok then k else SE_ret false))
  (at level 10, m at level 100, k at level 200) : se_scope.

Definition host_bound (host_ : text) (c : startup_calls) : bool :=
  bool_decide (host_ = []) || bool_decide (host_ = "0.0.0.0") || (inet_pton_ret c =? 1).

(** [addEpoll] on two members *)
Definition addEpoll (epfd fd : startup -> Z) : SE startup unit :=
  SE_modify (fun s => s <| acts := acts s ++ [EpollAdd (epfd s) (fd s)] |>).

Definition run_setup (host_ : text) (c : startup_calls) : SE startup bool :=
  ensure reset_fd server_fd_ (fun v s => s <| server_fd_ := v |>) (socket_ret c);
  do* act_do (SetReuse (socket_ret c));
  ensure SE_ret (host_bound host_ c);
  ensure SE_ret (negb (bind_ret c <? 0));
  ensure SE_ret (negb (listen_ret c <? 0));
  ensure reset_fd epoll_fd_ (fun v s => s <| epoll_fd_ := v |>) (epoll_create1_ret c);
  ensure reset_fd wake_fd_ (fun v s => s <| wake_fd_ := v |>) (wake_eventfd_ret c);
  do* SE_modify (fun s => s <| blocked := true |>);
  let* signal := reset_fd signal_fd_ (fun v s => s <| signal_fd_ := v |>) (signalfd_ret c) in
  if negb signal then
    do* SE_modify (fun s => s <| blocked := false |>);
    SE_ret false
  else
  ensure reset_fd logic_efd_ (fun v s => s <| logic_efd_ := v |>) (logic_eventfd_ret c);
  ensure reset_fd pacer_efd_ (fun v s => s <| pacer_efd_ := v |>) (pacer_eventfd_ret c);
  ensure reset_fd timer_fd_ (fun v s => s <| timer_fd_ := v |>) (timerfd_create_ret c);
  do* act_do (TimerSet (timerfd_create_ret c) kPacerIntervalMs);
  ensure reset_fd pacer_epoll_ (fun v s => s <| pacer_epoll_ := v |>) (pacer_epoll_ret c);
  do* addEpoll epoll_fd_ server_fd_;
  do* addEpoll epoll_fd_ wake_fd_;
  do* addEpoll epoll_fd_ signal_fd_;
  do* addEpoll pacer_epoll_ timer_fd_;
  do* addEpoll pacer_epoll_ pacer_efd_;
  do* SE_modify (fun s => s <| running_ := true |>);
  do* SE_modify (start_thread Logic);
  do* SE_modify (start_thread Pacer);
  do* SE_modify (start_thread Dispatcher);
  SE_ret true.

(** The descriptors that [run] was given, and those that the reactor holds. *)
Definition held (s : startup) : list Z :=
  filter (fun fd => UniqueFd.valid fd = true)
    [server_fd_ s; epoll_fd_ s; wake_fd_ s; signal_fd_ s; logic_efd_ s; pacer_efd_ s;
     timer_fd_ s; pacer_epoll_ s].

(** The system calls succeed. *)
Definition all_succeed (host_ : text) (c : startup_calls) : bool :=
  UniqueFd.valid (socket_ret c) && host_bound host_ c && negb (bind_ret c <? 0)
  && negb (listen_ret c <? 0) && UniqueFd.valid (epoll_create1_ret c)
  && UniqueFd.valid (wake_eventfd_ret c) && UniqueFd.valid (signalfd_ret c)
  && UniqueFd.valid (logic_eventfd_ret c) && UniqueFd.valid (pacer_eventfd_ret c)
  && UniqueFd.valid (timerfd_create_ret c) && UniqueFd.valid (pacer_epoll_ret c).

(** The registrations of an epoll instance. *)
Definition registered (epfd : Z) (l : list act) : list Z :=
  omap (fun a => match a with EpollAdd e fd => if e =? epfd then Some fd else None | _ => None end) l.

(** A reactor that has not run, with some threads. *)
Definition unopened (ts : list (thread * bool)) : startup :=
  (reactor_make 0) <| threads := ts |>.

Lemma reactor_make_threads N : reactor_make N = unopened (replicate N (Worker, false)).
Proof.
  induction N as [|N IH]; [done|].
  change (reactor_make (S N)) with (start_thread Worker (reactor_make N)). rewrite IH.
  unfold start_thread. by rewrite replicate_S_end.
Qed.

(** The state in which [run] starts to wait, and the signal mask it leaves on failure. *)
Definition started (c : startup_calls) (ts : list (thread * bool)) : startup := {|
  server_fd_ := socket_ret c; epoll_fd_ := epoll_create1_ret c;
  wake_fd_ := wake_eventfd_ret c; signal_fd_ := signalfd_ret c;
  logic_efd_ := logic_eventfd_ret c; pacer_efd_ := pacer_eventfd_ret c;
  timer_fd_ := timerfd_create_ret c; pacer_epoll_ := pacer_epoll_ret c;
  running_ := true; blocked := true;
  threads := ts ++ [(Logic, true); (Pacer, true); (Dispatcher, true)];
  acts := [SetReuse (socket_ret c); TimerSet (timerfd_create_ret c) kPacerIntervalMs;
           EpollAdd (epoll_create1_ret c) (socket_ret c);
           EpollAdd (epoll_create1_ret c) (wake_eventfd_ret c);
           EpollAdd (epoll_create1_ret c) (signalfd_ret c);
           EpollAdd (pacer_epoll_ret c) (timerfd_create_ret c);
           EpollAdd (pacer_epoll_ret c) (pacer_eventfd_ret c)]
|}.

Definition mask_kept (host : text) (c : startup_calls) : bool :=
  UniqueFd.valid (socket_ret c) && host_bound host c && negb (bind_ret c <? 0)
  && negb (listen_ret c <? 0) && UniqueFd.valid (epoll_create1_ret c)
  && UniqueFd.valid (wake_eventfd_ret c) && UniqueFd.valid (signalfd_ret c).

(** No descriptor is closed before the destructor. *)
Definition closes_nothing (l : list act) : bool :=
  forallb (fun a => match a with CloseFd _ => false | _ => true end) l.

Lemma bind_reset get put v (k : bool -> SE startup bool) s :
  get s = -1 ->
  (let* ok := reset_fd get put v in k ok) s = k (UniqueFd.valid v) (put v s <| acts := acts s |>).
Proof.
  intros E. unfold SE_bind, reset_fd, UniqueFd.reset, UniqueFd.close. rewrite E. cbn.
  by rewrite app_nil_r.
Qed.

Lemma ensure_reset get put v k s :
  get s = -1 ->
  (ensure reset_fd get put v; k) s
  = (if UniqueFd.valid v then k else SE_ret false) (put v s <| acts := acts s |>).
Proof. intros E. rewrite (bind_reset get put v) by done. by destruct (UniqueFd.valid v). Qed.

Lemma ensure_ret b k (s : startup) : (ensure SE_ret b; k) s = (if b then k else SE_ret false) s.
Proof. by destruct b. Qed.

Lemma do_modify f (k : SE startup bool) s : (do* SE_modify f; k) s = k (f s).
Proof. done. Qed.

(** The state reached, as a record of values. *)
Ltac eval_state :=
  cbn [set_field modify_field server_fd_ epoll_fd_ wake_fd_ signal_fd_ logic_efd_ pacer_efd_
       timer_fd_ pacer_epoll_ running_ blocked threads acts app].

(** One step of [run_setup]; the failing branch is closed. *)
Ltac setup_step :=
  first [rewrite ensure_reset by reflexivity | rewrite ensure_ret
        | unfold act_do, addEpoll; rewrite do_modify];
  eval_state;
  try match goal with
    |- context [(if ?b then _ else SE_ret false) _] => destruct b; [|cbn; by split_and?]
  end.

Lemma run_setup_outcome host c ts :
  let '(s, r) := run_setup host c (unopened ts) in
  r = Ok (all_succeed host c)
  /\ if all_succeed host c then s = started c ts
     else running_ s = false /\ threads s = ts /\ closes_nothing (acts s) = true
          /\ blocked s = mask_kept host c.
Proof.
  unfold run_setup, all_succeed, mask_kept, unopened, reactor_make, UniqueFd.UniqueFd_default,
    UniqueFd.kInvalid. cbn [Nat.iter nat_rect]. eval_state. do 8 setup_step.
  rewrite bind_reset by reflexivity. eval_state. destruct (UniqueFd.valid (signalfd_ret c)); [|cbn; by split_and?].
  cbn [negb]. do 14 setup_step. cbn. split; [done|].
  unfold start_thread. cbn. unfold started. by rewrite <- !app_assoc.
Qed.

(** ** [RTSPServer] and [main] *)

(** The facade: its reactor, once [run] has made it, is named by its three arguments. *)
Record RTSPServer := mkRTSPServer {
  host_ : text;
  port_ : Z;
  media_root_ : text;
  reactor_ : option (text * Z * text)
}.

Definition RTSPServer_make (host : text) (port : Z) (media_root : text) : RTSPServer :=
  {| host_ := host; port_ := port; media_root_ := media_root; reactor_ := None |}.

(** [run()]; what the reactor's [run] returns is an input. *)
Definition server_run (reactor_run : text * Z * text -> bool) (s : RTSPServer) : bool * RTSPServer :=
  let r := (host_ s, port_ s, media_root_ s) in
  (reactor_run r,
   {| host_ := host_ s; port_ := port_ s; media_root_ := media_root_ s; reactor_ := Some r |}).

(** [stop()]: the reactor that is stopped; there is none before [run]. *)
Definition server_stop (s : RTSPServer) : option (text * Z * text) := reactor_ s.

(** [printUsage(argv0)]: what it writes to the error stream. *)
Definition newline : text := [lf].

Definition printUsage (argv0 : text) : text :=
  "Usage: " ++ argv0 ++ " [<directory>] [<host:port>]" ++ newline
  ++ newline
  ++ "  <directory>  Root folder containing video files." ++ newline
  ++ "               Default: current working directory." ++ newline
  ++ "  <host:port>  Address to bind the server." ++ newline
  ++ "               Default: 0.0.0.0:554." ++ newline
  ++ newline
  ++ "Example:" ++ newline
  ++ "  " ++ argv0 ++ " /videos 0.0.0.0:8554" ++ newline
  ++ newline
  ++ "Stream with VLC:" ++ newline
  ++ "  vlc rtsp://<host>:<port>/<filename>" ++ newline.

(** The variables of [main], and its loop over the arguments. *)
Record config := mkConfig { media_dir : text; host : text; port : Z; verbose : bool }.

#[global] Instance config_updatable : Updatable config := fun c =>
  {| media_dir := media_dir c; host := host c; port := port c; verbose := verbose c |}.

Inductive arguments := Usage | InvalidHostPort (arg : text) | Arguments (c : config).

Definition is_help (arg : text) : bool := bool_decide (arg = "-h") || bool_decide (arg = "--help").
Definition is_verbose (arg : text) : bool :=
  bool_decide (arg = "-v") || bool_decide (arg = "--verbose").

Fixpoint main_args (args : list text) (c : config) : arguments :=
  match args with
  | [] => Arguments c
  | arg :: rest =>
      if is_help arg then Usage
      else if is_verbose arg then main_args rest (c <| verbose := true |>)
      else if contains ":" arg then
        let '(ok, h, p) := parseHostPort arg [] 0 in
        if negb ok then InvalidHostPort arg
        else main_args rest (c <| host := h |> <| port := p |>)
      else main_args rest (c <| media_dir := arg |>)
  end.

Definition config_default (current_path : text) : config :=
  {| media_dir := current_path; host := "0.0.0.0"; port := 554; verbose := false |}.

(** What [main] does: its exit status, what it writes to its error stream itself (not through the
    logger) and the server that was run. *)
Record outcome := mkOutcome { status : Z; err : text; server : option RTSPServer }.

Definition quoted (t : text) : text := "'" ++ t ++ "'".

(** [main].  The file system and the reactor are inputs; an exception of [fs::] ends the process. *)
Definition main (current_path : text) (is_directory : text -> result bool)
    (canonical : text -> result text) (reactor_run : text * Z * text -> bool)
    (argv0 : text) (args : list text) : result outcome :=
  match main_args args (config_default current_path) with
  | Usage => Ok (mkOutcome 0 (printUsage argv0) None)
  | InvalidHostPort arg =>
      Ok (mkOutcome 1 ("Error: invalid host:port " ++ quoted arg ++ newline) None)
  | Arguments c =>
      match is_directory (media_dir c) with
      | Throw e => Throw e
      | Ok false =>
          Ok (mkOutcome 1 ("Error: " ++ quoted (media_dir c) ++ " is not a directory." ++ newline
                           ++ printUsage argv0) None)
      | Ok true =>
          match canonical (media_dir c) with
          | Throw e => Throw e
          | Ok dir =>
              let '(ok, srv) := server_run reactor_run (RTSPServer_make (host c) (port c) dir) in
              Ok (mkOutcome (if ok then 0 else 1) [] (Some srv))
          end
      end
  end.

(** What an argument means. *)
Definition endpoint (arg : text) : option (text * Z) :=
  if is_help arg || is_verbose arg then None
  else if contains ":" arg then
    match parseHostPort arg [] 0 with (true, h, p) => Some (h, p) | _ => None end
  else None.

Definition directory (arg : text) : option text :=
  if is_help arg || is_verbose arg || contains ":" arg then None else Some arg.

(** An argument that ends the loop. *)
Definition ends_loop (arg : text) : bool :=
  is_help arg
  || (negb (is_verbose arg) && contains ":" arg && negb (fst (fst (parseHostPort arg [] 0)))).

Lemma last_app_default {A} (l : list A) x d : default d (last (x :: l)) = default x (last l).
Proof. rewrite last_cons. by destruct (last l). Qed.

Lemma main_args_spec args : forall c,
  main_args args c =
    match List.find ends_loop args with
    | Some arg => if is_help arg then Usage else InvalidHostPort arg
    | None =>
        Arguments {|
          media_dir := default (media_dir c) (last (omap directory args));
          host := fst (default (host c, port c) (last (omap endpoint args)));
          port := snd (default (host c, port c) (last (omap endpoint args)));
          verbose := verbose c || existsb is_verbose args |}
    end.
Proof.
  induction args as [|arg args IH]; intros c.
  - cbn. rewrite orb_false_r. by destruct c.
  - cbn [main_args List.find omap list_omap existsb].
    destruct (is_help arg) eqn:Eh.
    { assert (ends_loop arg = true) as -> by (unfold ends_loop; by rewrite Eh). by rewrite Eh. }
    destruct (is_verbose arg) eqn:Ev; [|destruct (contains ":" arg) eqn:Ec].
    + assert (ends_loop arg = false) as -> by (unfold ends_loop; by rewrite Eh, Ev).
      assert (directory arg = None) as -> by (unfold directory; by rewrite Eh, Ev).
      assert (endpoint arg = None) as -> by (unfold endpoint; by rewrite Eh, Ev).
      rewrite IH. by destruct (List.find ends_loop args), (verbose c).
    + assert (ends_loop arg = negb (fst (fst (parseHostPort arg [] 0)))) as ->
        by (unfold ends_loop; by rewrite Eh, Ev, Ec).
      assert (directory arg = None) as -> by (unfold directory; by rewrite Eh, Ev, Ec).
      assert (endpoint arg = match parseHostPort arg [] 0 with (true, h, p) => Some (h, p) | _ => None end)
        as -> by (unfold endpoint; by rewrite Eh, Ev, Ec).
      destruct (parseHostPort arg [] 0) as [[[] h] p]; cbn [fst negb]; [|by rewrite Eh].
      rewrite IH. destruct (List.find ends_loop args); [done|]. simpl_update.
      by rewrite last_app_default.
    + assert (ends_loop arg = false) as -> by (unfold ends_loop; by rewrite Eh, Ev, Ec).
      assert (directory arg = Some arg) as -> by (unfold directory; by rewrite Eh, Ev, Ec).
      assert (endpoint arg = None) as -> by (unfold endpoint; by rewrite Eh, Ev, Ec).
      rewrite IH. destruct (List.find ends_loop args); [done|]. simpl_update.
      by rewrite last_app_default.
Qed.

(** ** Properties *)

(** C26: Starting the server.  [run] gets as far as its threads exactly when every system call
    it needs succeeds.  Then the Dispatcher waits for the listening socket, the wake-up event
    and the signals, the Pacer for the timer and for the Logic thread, the timer ticks every
    30 ms, and the three threads run with the signals blocked beside the workers of the pool.
    On failure no thread is started and every descriptor opened so far stays with its
    [UniqueFd], to be closed by the destructor. *)
Theorem startup_spec (PacerWorkers : nat) (host : text) (c : startup_calls) s r :
  epoll_create1_ret c <> pacer_epoll_ret c ->
  run_setup host c (reactor_make PacerWorkers) = (s, r) ->
  r = Ok (all_succeed host c)
  /\ closes_nothing (acts s) = true
  /\ (all_succeed host c = false ->
      running_ s = false /\ threads s = replicate PacerWorkers (Worker, false))
  /\ (all_succeed host c = true ->
      registered (epoll_fd_ s) (acts s) = [server_fd_ s; wake_fd_ s; signal_fd_ s]
      /\ registered (pacer_epoll_ s) (acts s) = [timer_fd_ s; pacer_efd_ s]
      /\ (TimerSet (timer_fd_ s) 30 ∈ acts s)
      /\ running_ s = true
      /\ threads s = replicate PacerWorkers (Worker, false)
                       ++ [(Logic, true); (Pacer, true); (Dispatcher, true)]
      /\ held s = [socket_ret c; epoll_create1_ret c; wake_eventfd_ret c; signalfd_ret c;
                   logic_eventfd_ret c; pacer_eventfd_ret c; timerfd_create_ret c;
                   pacer_epoll_ret c]).
Proof.
  intros Hne E. rewrite reactor_make_threads in E.
  pose proof (run_setup_outcome host c (replicate PacerWorkers (Worker, false))) as P.
  rewrite E in P. destruct P as (-> & P). split; [done|].
  destruct (all_succeed host c) eqn:Ea.
  2: { destruct P as (P1 & P2 & P3 & _). split; [done|]. split; [|done]. intros _. by split. }
  subst s. split; [done|]. split; [done|]. intros _. unfold started, registered. cbn.
  rewrite !Z.eqb_refl. destruct (Z.eqb_spec (pacer_epoll_ret c) (epoll_create1_ret c)); [lia|].
  destruct (Z.eqb_spec (epoll_create1_ret c) (pacer_epoll_ret c)); [lia|].
  split_and!; try done.
  - set_solver.
  - unfold all_succeed in Ea. repeat (apply andb_prop in Ea as [Ea ?]).
    repeat (rewrite decide_True by done). done.
Qed.

Definition example_calls : startup_calls := {|
  socket_ret := 3; inet_pton_ret := 1; bind_ret := 0; listen_ret := 0; epoll_create1_ret := 4;
  wake_eventfd_ret := 5; signalfd_ret := 6; logic_eventfd_ret := 7; pacer_eventfd_ret := 8;
  timerfd_create_ret := 9; pacer_epoll_ret := 10
|}.

Lemma startup_spec_witness :
  registered 4 (acts (started example_calls (replicate 4 (Worker, false)))) = [3; 5; 6].
Proof.
  assert (run_setup "0.0.0.0" example_calls (reactor_make 4)
          = (started example_calls (replicate 4 (Worker, false)), Ok true)) as E
    by (vm_compute; reflexivity).
  destruct (startup_spec 4 "0.0.0.0" example_calls _ _ ltac:(discriminate) E)
    as (_ & _ & _ & P).
  exact (proj1 (P eq_refl)).
Defined.

(** The signals are not blocked where they must be.  The workers of the pool are started
    by the constructor, before [run] blocks SIGINT and SIGTERM, so that in a server that is up
    some threads do not block them and a signal to the process can be delivered there, past
    the [signalfd]; and when a call after [signalfd] fails, [run] returns [false] with the
    signals of the caller still blocked. *)
Theorem startup_signal_mask (PacerWorkers : nat) (host : text) (c : startup_calls) :
  let '(s, r) := run_setup host c (reactor_make PacerWorkers) in
  ((1 <= PacerWorkers)%nat -> r = Ok true -> (Worker, false) ∈ threads s)
  /\ (r = Ok false -> blocked s = mask_kept host c).
Proof.
  rewrite reactor_make_threads.
  pose proof (run_setup_outcome host c (replicate PacerWorkers (Worker, false))) as P.
  destruct (run_setup _ _ _) as [s r]. destruct P as (-> & P). split.
  - intros HN [= Ea]. rewrite Ea in P. subst s. cbn. apply elem_of_app. left.
    apply elem_of_replicate. split; [done|lia].
  - intros [= Ea]. rewrite Ea in P. tauto.
Qed.

(** The command line.  [main] fails without starting anything at the first argument that
    asks for help (status 0) or is a malformed endpoint (status 1), whichever comes first.
    Otherwise the last directory and the last endpoint count, 0.0.0.0:554 and the current
    directory being the defaults, and the server is run with exactly these, the directory in
    canonical form, when it is one; the status is 0 exactly when it ran. *)
Theorem main_spec current_path is_directory canonical reactor_run argv0 args :
  let dir := default current_path (last (omap directory args)) in
  let bind := default ("0.0.0.0" : text, 554) (last (omap endpoint args)) in
  main current_path is_directory canonical reactor_run argv0 args =
    match List.find ends_loop args with
    | Some arg =>
        Ok (if is_help arg then mkOutcome 0 (printUsage argv0) None
            else mkOutcome 1 ("Error: invalid host:port " ++ quoted arg ++ newline) None)
    | None =>
        match is_directory dir, canonical dir with
        | Throw e, _ => Throw e
        | Ok false, _ =>
            Ok (mkOutcome 1 ("Error: " ++ quoted dir ++ " is not a directory." ++ newline
                             ++ printUsage argv0) None)
        | Ok true, Throw e => Throw e
        | Ok true, Ok root =>
            Ok (mkOutcome (if reactor_run (fst bind, snd bind, root) then 0 else 1) []
                  (Some {| host_ := fst bind; port_ := snd bind; media_root_ := root;
                           reactor_ := Some (fst bind, snd bind, root) |}))
        end
    end.
Proof.
  intros dir bind. unfold main. rewrite main_args_spec.
  destruct (List.find ends_loop args) as [arg|]; [by destruct (is_help arg)|].
  cbn [media_dir config_default]. fold dir. by destruct (is_directory dir) as [[]|], (canonical dir).
Qed.
