(* ===== verification/UnitTests.v ===== *)
(** * [UnitTests]: the unit tests of the repository on the definitions (test/unit/)

    One example for each test case with an expectation about values, by its name in the test suite.
    The cases about threads run on the machine with condition variables of [CondQueue.v]. *)

From S2P Require Import Prelude StdString RTPPacket H264Packetizer AnnexBParser Queues CondQueue.
From S2P Require RTSPRequest.

(** ** test_annexb_parser.cpp *)

Module AnnexBParserTest.
Definition makeAnnexB (three_first : bool) (nals : list bytes) : bytes :=
  concat (imap (fun i nal => (if (i =? 0)%nat && three_first then [0; 0; 1] else [0; 0; 0; 1]) ++ nal)
            nals).

Definition sps : bytes := [0x67; 0x42; 0xC0; 0x1E].
Definition pps : bytes := [0x68; 0xCE; 0x38; 0x80].

Definition views (data : bytes) : list bytes := map (view_data data) (splitView data).

Example StartCode3ByteDetected : startCodeLength [0; 0; 1; 5] 4 0 = 3%nat.
Proof. reflexivity. Qed.
Example StartCode4ByteDetected : startCodeLength [0; 0; 0; 1; 5] 5 0 = 4%nat.
Proof. reflexivity. Qed.
Example StartCodeNotPresent : startCodeLength [0; 1; 5] 3 0 = 0%nat.
Proof. reflexivity. Qed.
Example StartCodeAtNonZeroOffset : startCodeLength [0xAB; 0; 0; 1; 0x41] 5 1 = 3%nat.
Proof. reflexivity. Qed.
Example StartCodeTruncatedReturnsZero : startCodeLength [0; 0] 2 0 = 0%nat.
Proof. reflexivity. Qed.
Example SplitViewSingleNAL : views (makeAnnexB false [sps]) = [sps].
Proof. by vm_compute. Qed.
Example SplitViewTwoNALs : views (makeAnnexB false [sps; pps]) = [sps; pps].
Proof. by vm_compute. Qed.
Example SplitViewMixed3And4ByteStartCodes :
  views (makeAnnexB true [[0x67; 1]; [0x68; 2]]) = [[0x67; 1]; [0x68; 2]].
Proof. by vm_compute. Qed.
Example SplitViewEmptyInputReturnsEmpty : splitView [] = [].
Proof. by vm_compute. Qed.
Example SplitViewNoStartCodeReturnsEmpty : splitView [0x67; 0x42; 1] = [].
Proof. by vm_compute. Qed.
Example SplitViewPointsIntoOriginalBuffer :
  splitView (makeAnnexB false [[0x65; 0xB8; 4]]) = [(4, 3)%nat].
Proof. by vm_compute. Qed.
Example SplitOwningSingleNAL : AnnexBParser.split (makeAnnexB false [sps]) = [sps].
Proof. by vm_compute. Qed.
Example SplitOwningThreeNALs :
  AnnexBParser.split (makeAnnexB false [sps; pps; replicate 64 0x65]) = [sps; pps; replicate 64 0x65].
Proof. by vm_compute. Qed.
Example SplitOwningEmptyInputReturnsEmpty : AnnexBParser.split [] = [].
Proof. by vm_compute. Qed.
End AnnexBParserTest.

(** ** test_rtp_packet.cpp *)

Module RTPPacketTest.
Definition at_ (i : nat) (p : bytes) : Z := nth i p 0.
Definition readU16 (i : nat) (p : bytes) : Z := Z.lor (Z.shiftl (at_ i p) 8) (at_ (i + 1) p).
Definition readU32 (i : nat) (p : bytes) : Z :=
  Z.lor (Z.shiftl (readU16 i p) 16) (readU16 (i + 2) p).

Example VersionIsTwo :
  Z.land (Z.shiftr (at_ 0 (RTPPacket.build [] 96 1 0 0 false)) 6) 3 = 2.
Proof. reflexivity. Qed.
Example PaddingAndExtensionBitsClear :
  Z.land (Z.shiftr (at_ 0 (RTPPacket.build [] 96 1 0 0 false)) 5) 1 = 0
  /\ Z.land (Z.shiftr (at_ 0 (RTPPacket.build [] 96 1 0 0 false)) 4) 1 = 0.
Proof. by split. Qed.
Example PayloadTypeEncoded : Z.land (at_ 1 (RTPPacket.build [] 96 0 0 0 false)) 0x7F = 96.
Proof. reflexivity. Qed.
Example MarkerBitSet :
  Z.land (Z.shiftr (at_ 1 (RTPPacket.build [] 96 0 0 0 true)) 7) 1 = 1
  /\ Z.land (Z.shiftr (at_ 1 (RTPPacket.build [] 96 0 0 0 false)) 7) 1 = 0.
Proof. by split. Qed.
Example SequenceNumberEncoded : readU16 2 (RTPPacket.build [] 96 0xABCD 0 0 false) = 0xABCD.
Proof. reflexivity. Qed.
Example TimestampEncoded : readU32 4 (RTPPacket.build [] 96 0 0xDEADBEEF 0 false) = 0xDEADBEEF.
Proof. reflexivity. Qed.
Example SSRCEncoded : readU32 8 (RTPPacket.build [] 96 0 0 0x12345678 false) = 0x12345678.
Proof. reflexivity. Qed.
Example PayloadAppended :
  length (RTPPacket.build [1; 2; 3; 4] 96 0 0 0 false) = 16%nat
  /\ drop 12 (RTPPacket.build [1; 2; 3; 4] 96 0 0 0 false) = [1; 2; 3; 4].
Proof. by split. Qed.
End RTPPacketTest.

(** ** test_h264_packetizer.cpp *)

Module H264PacketizerTest.
(** [makeNAL]: the header, then the octets 1, 2, ... with wrap-around. *)
Definition makeNAL (size : nat) (nal_type : Z) : bytes :=
  Z.lor 0x60 nal_type :: map (fun i => u8 (Z.of_nat i + 1)) (seq 0 (size - 1)).

Definition packets (nal : bytes) (mtu : Z) : list Packet := default [] (packetize nal mtu).

Example SmallNALProducesSinglePacket :
  packets (makeNAL 100 5) default_mtu = [{| payload := makeNAL 100 5; marker := true |}].
Proof. by vm_compute. Qed.
Example SinglePacketAtExactMTU : map marker (packets (makeNAL 1400 5) 1400) = [true].
Proof. by vm_compute. Qed.
Example LargeNALFragments :
  length (packets (makeNAL 4200 1) 1400) = ((4200 - 1 + (1400 - 2) - 1) / (1400 - 2))%nat.
Proof. by vm_compute. Qed.

(** The indicator and the header of each fragment: NRI, type 28, the type of the NAL unit, and the
    start and end bits. *)
Definition fu_bits (p : Packet) : Z * Z * Z * bool * bool :=
  let b0 := nth 0 (payload p) 0 in
  let b1 := nth 1 (payload p) 0 in
  (Z.land b0 0x60, Z.land b0 0x1F, Z.land b1 0x1F, negb (Z.land b1 0x80 =? 0),
   negb (Z.land b1 0x40 =? 0)).
Example FUAHeaderStructure :
  map fu_bits (packets (makeNAL 500 5) 100)
  = (0x60, 28, 5, true, false) :: replicate 4 (0x60, 28, 5, false, false)
    ++ [(0x60, 28, 5, false, true)].
Proof. by vm_compute. Qed.
Example OnlyLastPacketHasMarkerBit :
  map marker (packets (makeNAL 5000 5) 1400) = [false; false; false; true].
Proof. by vm_compute. Qed.
Example ReassembledDataMatchesOriginal :
  let ps := packets (makeNAL 300 1) 50 in
  match ps with
  | [] => False
  | p :: _ =>
      Z.lor (Z.land (nth 0 (payload p) 0) 0x60) (Z.land (nth 1 (payload p) 0) 0x1F)
        :: concat (map (fun p => drop 2 (payload p)) ps) = makeNAL 300 1
  end.
Proof. by vm_compute. Qed.
End H264PacketizerTest.

(** ** test_rtsp_request.cpp *)

Module RTSPRequestTest.
Import RTSPRequest.
Definition makeRequest (method url : text) (cseq : Z) (extra_headers body : text) : text :=
  method ++ " " ++ url ++ " RTSP/1.0" ++ crlf ++ "CSeq: " ++ to_string cseq ++ crlf ++ extra_headers
  ++ (if bool_decide (body = []) then []
      else "Content-Length: " ++ to_string (Z.of_nat (length body)) ++ crlf) ++ crlf ++ body.

(** What a test looks at: method, URL, version, number, some headers, body. *)
Definition parsed (raw : text) (names : list text)
    : option (text * text * text * Z * list text * text) :=
  r ← parse raw;
  Some (method r, url r, version r, cseq r, map (header r) names, body r).

Example ParseOptions :
  parsed (makeRequest "OPTIONS" "rtsp://localhost:554/test.mp4" 1 [] []) []
  = Some ("OPTIONS" : text, "rtsp://localhost:554/test.mp4" : text, "RTSP/1.0" : text, 1, [], []).
Proof. by vm_compute. Qed.
Example ParseDescribe :
  parsed (makeRequest "DESCRIBE" "rtsp://127.0.0.1:8554/video.h264" 42
            ("Accept: application/sdp" ++ crlf) []) ["Accept" : text]
  = Some ("DESCRIBE" : text, "rtsp://127.0.0.1:8554/video.h264" : text, "RTSP/1.0" : text, 42,
          ["application/sdp" : text], []).
Proof. by vm_compute. Qed.
Example ParseSetupUDP :
  parsed (makeRequest "SETUP" "rtsp://localhost:554/video.mp4/trackID=0" 3
            ("Transport: RTP/AVP;unicast;client_port=49152-49153" ++ crlf ++ "Session: 123456789"
             ++ crlf) []) ["transport" : text; "session" : text]
  = Some ("SETUP" : text, "rtsp://localhost:554/video.mp4/trackID=0" : text, "RTSP/1.0" : text, 3,
          ["RTP/AVP;unicast;client_port=49152-49153" : text; "123456789" : text], []).
Proof. by vm_compute. Qed.
Example ParsePlay :
  parsed (makeRequest "PLAY" "rtsp://localhost:554/video.mp4" 4
            ("Session: 987" ++ crlf ++ "Range: npt=0.000-" ++ crlf) []) ["range" : text]
  = Some ("PLAY" : text, "rtsp://localhost:554/video.mp4" : text, "RTSP/1.0" : text, 4,
          ["npt=0.000-" : text], []).
Proof. by vm_compute. Qed.
Example HeaderLookupCaseInsensitive :
  parsed (makeRequest "OPTIONS" "rtsp://localhost/x" 1 ("User-Agent: VLC/3.0" ++ crlf) [])
    ["user-agent" : text; "USER-AGENT" : text]
  = Some ("OPTIONS" : text, "rtsp://localhost/x" : text, "RTSP/1.0" : text, 1,
          ["VLC/3.0" : text; "VLC/3.0" : text], []).
Proof. by vm_compute. Qed.
Example InvalidVersionIsRejected :
  parse ("OPTIONS rtsp://localhost:554/ HTTP/1.1" ++ crlf ++ "CSeq: 1" ++ crlf ++ crlf) = None.
Proof. by vm_compute. Qed.
Example MissingCSeqReturnsNegativeOne :
  cseq <$> parse ("OPTIONS rtsp://localhost/ RTSP/1.0" ++ crlf ++ crlf) = Some (-1).
Proof. by vm_compute. Qed.
Example BodyParsedFromContentLength :
  let sdp := "v=0" ++ crlf ++ "o=- 0 0 IN IP4 0.0.0.0" ++ crlf in
  body <$> parse (makeRequest "ANNOUNCE" "rtsp://localhost/x" 5 [] sdp) = Some sdp.
Proof. by vm_compute. Qed.
End RTSPRequestTest.

(** ** test_blocking_queue.cpp *)

Module BlockingQueueTest.
Import BlockingQueue.

(** The calls of a test in their order: the events, the items and the places of the threads. *)
Definition observed (Capacity n : nat) (acts : list (action Z))
    : option (list (event Z) * list Z * list (pc Z)) :=
  '(es, s) ← mon_run Capacity acts (monitor_init n);
  Some (es, queue_ (mon_queue s), threads s).

Definition pushes_then (vs : list Z) (acts : list (action Z)) : list (action Z) :=
  concat (map (fun v => [Begin 0 (CPush v false) 0; Continue 0 0]) vs) ++ acts.

Example PushPopSingleThread :
  observed 0 1 (pushes_then [1; 2; 3] (replicate 3 (Begin 0 (CPop false) 0)))
  = Some ([Pushed 1; Pushed 2; Pushed 3; Popped 1; Popped 2; Popped 3], [], [Idle]).
Proof. reflexivity. Qed.
Example TryPopEmpty : observed 0 1 [Begin 0 CTryPop 0] = Some ([GaveUp], [], [Idle]).
Proof. reflexivity. Qed.
Example PopForTimeout :
  observed 0 1 [Begin 0 (CPop true) 0; TimeOut 0; Continue 0 0] = Some ([GaveUp], [], [Idle]).
Proof. reflexivity. Qed.
Example PopForReceivesValue :
  observed 0 2 [Begin 0 (CPop true) 0; Begin 1 (CPush 42 false) 0; Continue 1 0; Continue 0 0]
  = Some ([Pushed 42; Popped 42], [], [Idle; Idle]).
Proof. reflexivity. Qed.
Example PopOnClosedEmptyReturnsNullopt :
  observed 0 1 [Begin 0 CClose 0; Continue 0 0; Continue 0 0; Begin 0 (CPop false) 0]
  = Some ([Closed; Finished], [], [Idle]).
Proof. reflexivity. Qed.
Example PopDrainsBeforeClosedSignal :
  observed 0 1 (pushes_then [7; 8]
    ([Begin 0 CClose 0; Continue 0 0; Continue 0 0] ++ replicate 3 (Begin 0 (CPop false) 0)))
  = Some ([Pushed 7; Pushed 8; Closed; Popped 7; Popped 8; Finished], [], [Idle]).
Proof. reflexivity. Qed.
Example PushAfterCloseThrows :
  observed 0 1 [Begin 0 CClose 0; Continue 0 0; Continue 0 0; Begin 0 (CPush 1 false) 0]
  = Some ([Closed; Refused], [], [Idle]).
Proof. reflexivity. Qed.
Example TryPushAfterCloseReturnsFalse :
  observed 0 1 [Begin 0 CClose 0; Continue 0 0; Continue 0 0; Begin 0 (CTryPush 1) 0]
  = Some ([Closed; Refused], [], [Idle]).
Proof. reflexivity. Qed.
Example BlockedPopWokenByClose :
  observed 0 2 [Begin 0 (CPop false) 0] = Some ([], [], [PopWait false; Idle])
  /\ observed 0 2 [Begin 0 (CPop false) 0; Begin 1 CClose 0; Continue 1 0; Continue 1 0; Continue 0 0]
     = Some ([Closed; Finished], [], [Idle; Idle]).
Proof. by split. Qed.
Example TryPushToBoundedFull :
  observed 2 1 [Begin 0 (CTryPush 1) 0; Continue 0 0; Begin 0 (CTryPush 2) 0; Continue 0 0;
                Begin 0 (CTryPush 3) 0]
  = Some ([Pushed 1; Pushed 2; Refused], [1; 2], [Idle]).
Proof. reflexivity. Qed.
Example PushBlocksWhenFull :
  observed 1 2 (pushes_then [1] [Begin 1 (CPush 2 false) 0])
    = Some ([Pushed 1], [1], [Idle; PushWait 2 false])
  /\ observed 1 2 (pushes_then [1] [Begin 1 (CPush 2 false) 0; Begin 0 (CPop false) 1; Continue 1 0;
                                    Continue 1 0; Begin 0 (CPop false) 0])
     = Some ([Pushed 1; Popped 1; Pushed 2; Popped 2], [], [Idle; Idle]).
Proof. by split. Qed.
Example PushForTimesOutWhenFull :
  observed 1 1 (pushes_then [1] [Begin 0 (CPush 2 true) 0; TimeOut 0; Continue 0 0])
  = Some ([Pushed 1; Refused], [1], [Idle]).
Proof. reflexivity. Qed.
Example CapacityConstexpr : capacity 8 = 8%nat.
Proof. reflexivity. Qed.
End BlockingQueueTest.
